(** * Workflow core of cate: values, value cache, node ports, workflows

    A shallow embedding of [cate/core/workflow.py].  Python objects that are
    mutated in place (nodes, their ports, the value cache) live in explicit
    stores; methods are state transformers in a small state-and-exception
    monad whose state survives a raised exception, as the attributes of a
    Python object do. *)

From Stdlib Require Import ZArith Lia.
From stdpp Require Import base option list strings gmap fin_maps sorting.

Set Warnings "-register-all".
Open Scope string_scope.
Open Scope list_scope.
Open Scope Z_scope.

(** ** Exceptions and the method monad *)

(** The [ValueError]s of the module, named after the error taxonomy of the
    specification; each constructor stands for one [raise] site (or a family
    of sites with the same meaning). *)
Inductive value_error :=
  | EmptyId              (* 'id must be given' *)
  | SelfBinding          (* "cannot connect '%s' with itself" *)
  | UnknownNode          (* "... because node '%s' does not exist" *)
  | UnknownPort          (* "... has no input/output named '%s'" *)
  | AmbiguousNode        (* "... because it has %s named outputs" *)
  | UnknownPortInScope   (* "... does not exist in any scope" *)
  | InvalidEncoding      (* source/value exclusive, bad "source" format *)
  | DuplicateStepId      (* "step '%s' already exists" *)
  | MissingField         (* missing mandatory property in Workflow-JSON *)
  | UnknownStepKind      (* "unknown type for node #%s ..." *)
  | UnknownOperation     (* registry lookup with fail_if_not_exists *)
  | NotInList.           (* list.index(x): x is not in the list *)

Inductive exn :=
  | ValueError (e : value_error)
  | KeyError (k : string)
  | AttributeError (attr : string)
  | AssertionError
  | RecursionError
  | TypeError
  | OperationError       (* anything raised by a user operation *)
  | Diverges             (* a loop that never ends: Python does not return *)
  | Dangling             (* a handle outside the store: no Python counterpart *)
  | Unsupported.         (* a value this model has no place for, see [json_text] *)

Inductive outcome (A : Type) :=
  | Ok (a : A)
  | Raise (e : exn).
Arguments Ok {A} a.
Arguments Raise {A} e.

Definition M (S A : Type) : Type := S → outcome A * S.

Global Instance M_ret {S} : MRet (M S) := λ A a s, (Ok a, s).
Global Instance M_bind {S} : MBind (M S) := λ A B f m s,
  match m s with
  | (Ok a, s') => f a s'
  | (Raise e, s') => (Raise e, s')
  end.

Definition raise {S A} (e : exn) : M S A := λ s, (Raise e, s).
Definition get_state {S} : M S S := λ s, (Ok s, s).
Definition put_state {S} (s : S) : M S unit := λ _, (Ok (), s).
Definition modify {S} (f : S → S) : M S unit := λ s, (Ok (), f s).

(** [for x in xs: body x] *)
Fixpoint for_each {S A} (xs : list A) (body : A → M S unit) : M S unit :=
  match xs with
  | [] => mret ()
  | x :: r => body x ;; for_each r body
  end.

(** ** Insertion-ordered dictionaries

    Python's [dict] and [OrderedDict] keep insertion order; an assignment
    to a present key keeps its position. *)
Section dict.
Context {V : Type}.

Fixpoint dict_get (k : string) (d : list (string * V)) : option V :=
  match d with
  | [] => None
  | (k', v) :: r => if decide (k' = k) then Some v else dict_get k r
  end.

Fixpoint dict_set (k : string) (v : V) (d : list (string * V)) : list (string * V) :=
  match d with
  | [] => [(k, v)]
  | (k', v') :: r =>
      if decide (k' = k) then (k', v) :: r else (k', v') :: dict_set k v r
  end.

Fixpoint dict_del (k : string) (d : list (string * V)) : list (string * V) :=
  match d with
  | [] => []
  | (k', v') :: r =>
      if decide (k' = k) then dict_del k r else (k', v') :: dict_del k r
  end.

Definition dict_in (k : string) (d : list (string * V)) : bool :=
  bool_decide (is_Some (dict_get k d)).

Definition dict_keys (d : list (string * V)) : list string := d.*1.
Definition dict_values (d : list (string * V)) : list V := d.*2.

End dict.

(** ** Python values

    [VUndefined] is the sentinel [UNDEFINED] of [cate.util.undefined].
    Objects that have an identity and may expose a [close] method carry an
    address; a [ValueCache] stored as a value (a child cache) is such an
    object and carries its own entries. *)
Record cache_of (V : Type) := CacheOf {
  items : list (string * V);          (* the dict part of the ValueCache *)
  _id_infos : gmap string (Z * Z);    (* key -> (id, update count) *)
  _last_id : Z;
}.
Arguments CacheOf {V} _ _ _.
Arguments items {V} _.
Arguments _id_infos {V} _.
Arguments _last_id {V} _.

Inductive pyval :=
  | VUndefined
  | VNone
  | VBool (b : bool)
  | VInt (z : Z)
  | VStr (s : string)
  | VList (l : list pyval)
  | VDict (d : list (string * pyval))
  | VType (qualified_name : string)            (* a Python type object *)
  | VObj (addr : nat) (closable : bool)        (* any other object *)
  | VCache (addr : nat) (c : cache_of pyval).  (* a ValueCache object *)

Abbreviation ValueCache := (cache_of pyval).

(** Python's [==] on these values: [bool] is a subclass of [int], two
    [dict]s are equal when they hold equal values under the same keys in any
    order, objects without [__eq__] are equal to themselves only, and a
    [ValueCache] is compared as the [dict] it extends. *)
Fixpoint pyval_eqb (a b : pyval) {struct a} : bool :=
  let fix list_eqb (l l' : list pyval) {struct l} : bool :=
    match l, l' with
    | [], [] => true
    | x :: r, y :: r' => pyval_eqb x y && list_eqb r r'
    | _, _ => false
    end in
  let fix dict_sub (l l' : list (string * pyval)) {struct l} : bool :=
    match l with
    | [] => true
    | (k, x) :: r =>
        match dict_get k l' with
        | Some y => pyval_eqb x y && dict_sub r l'
        | None => false
        end
    end in
  match a, b with
  | VUndefined, VUndefined => true
  | VNone, VNone => true
  | VBool x, VBool y => bool_decide (x = y)
  | VBool x, VInt y | VInt y, VBool x => bool_decide (Z.b2z x = y)
  | VInt x, VInt y => bool_decide (x = y)
  | VStr x, VStr y => bool_decide (x = y)
  | VList l, VList l' => list_eqb l l'
  | VDict d, VDict d' => bool_decide (length d = length d') && dict_sub d d'
  | VType x, VType y => bool_decide (x = y)
  | VObj x _, VObj y _ => bool_decide (x = y)
  | VCache _ c, VCache _ c' =>
      bool_decide (length (items c) = length (items c')) && dict_sub (items c) (items c')
  | _, _ => false
  end.

(** Python's [is].  Singletons and interned scalars are identical when
    equal, addressed objects when their addresses agree; a list or dict
    value carries no address here and is taken to be a fresh container.  The
    module uses [is] on cached values only to decide whether to close one,
    and only addressed objects can be closed. *)
Definition py_is (a b : pyval) : bool :=
  match a, b with
  | VUndefined, VUndefined | VNone, VNone => true
  | VBool x, VBool y => bool_decide (x = y)
  | VInt x, VInt y => bool_decide (x = y)
  | VStr x, VStr y => bool_decide (x = y)
  | VType x, VType y => bool_decide (x = y)
  | VObj x _, VObj y _ => bool_decide (x = y)
  | VCache x _, VCache y _ => bool_decide (x = y)
  | _, _ => false
  end.

(** Truthiness of a value used as a condition. *)
Definition truthy (v : pyval) : bool :=
  match v with
  | VUndefined => true
  | VNone => false
  | VBool b => b
  | VInt z => negb (z =? 0)
  | VStr s => negb (bool_decide (s = ""))
  | VList l => negb (bool_decide (length l = 0%nat))
  | VDict d => negb (bool_decide (length d = 0%nat))
  | VType _ | VObj _ _ => true
  | VCache _ c => negb (bool_decide (length (items c) = 0%nat))
  end.

Definition truthy_str (s : string) : bool := negb (bool_decide (s = "")).

(** ** ValueCache

    A closable dictionary that keeps an id and an update count per key.  The
    state of a method is the cache together with the trace of [close()] calls
    made so far, each recorded by the address of the object closed. *)
Definition cache_state : Type := ValueCache * list nat.

(** [ValueCache()] *)
Definition new_cache : ValueCache := CacheOf [] ∅ 0.

(** What [_close_value(value)] closes: [value.close()] when [value] is not
    [None] and has a [close] attribute, any exception swallowed.  Closing a
    [ValueCache] clears it, which closes each of its values in turn. *)
Fixpoint close_calls (value : pyval) : list nat :=
  match value with
  | VObj a true => [a]
  | VCache a c =>
      a :: (fix go (l : list (string * pyval)) : list nat :=
              match l with
              | [] => []
              | (_, x) :: r => close_calls x ++ go r
              end) (items c)
  | _ => []
  end.

Definition _close_value (value : pyval) : M cache_state unit :=
  modify (λ '(c, tr), (c, tr ++ close_calls value)).

Definition _set (key : string) (value : pyval) : M cache_state unit :=
  modify (λ '(c, tr), (CacheOf (dict_set key value (items c)) (_id_infos c) (_last_id c), tr)).

Definition _del (key : string) : M cache_state unit :=
  '(c, tr) ← get_state;
  if dict_in key (items c)
  then put_state (CacheOf (dict_del key (items c)) (_id_infos c) (_last_id c), tr)
  else raise (KeyError key).

Definition _gen_id : M cache_state Z :=
  '(c, tr) ← get_state;
  let new_id := _last_id c + 1 in
  put_state (CacheOf (items c) (_id_infos c) new_id, tr);;
  mret new_id.

Definition set_id_info (key : string) (id_info : Z * Z) : M cache_state unit :=
  modify (λ '(c, tr), (CacheOf (items c) (<[key := id_info]> (_id_infos c)) (_last_id c), tr)).

Definition del_id_info (key : string) : M cache_state unit :=
  '(c, tr) ← get_state;
  match _id_infos c !! key with
  | Some _ => put_state (CacheOf (items c) (delete key (_id_infos c)) (_last_id c), tr)
  | None => raise (KeyError key)
  end.

(** [self.get(key)]: the value, or [None]. *)
Definition cache_get (c : ValueCache) (key : string) : pyval :=
  default VNone (dict_get key (items c)).

(** [self[key]] *)
Definition getitem (key : string) : M cache_state pyval :=
  '(c, tr) ← get_state;
  match dict_get key (items c) with
  | Some v => mret v
  | None => raise (KeyError key)
  end.

Definition __setitem__ (key : string) (value : pyval) : M cache_state unit :=
  '(c, _) ← get_state;
  let old_value := cache_get c key in
  let id_info := _id_infos c !! key in
  _set key value;;
  match id_info with
  | Some (id, update_count) => set_id_info key (id, update_count + 1)
  | None => new_id ← _gen_id; set_id_info key (new_id, 0)
  end;;
  if py_is old_value value then mret () else _close_value old_value.

Definition __delitem__ (key : string) : M cache_state unit :=
  '(c, _) ← get_state;
  let old_value := cache_get c key in
  _del key;;
  del_id_info key;;
  _close_value old_value.

Definition get_id (c : ValueCache) (key : string) : option Z :=
  match _id_infos c !! key with
  | Some id_info => Some id_info.1
  | None => None
  end.

Definition get_update_count (c : ValueCache) (key : string) : option Z :=
  match _id_infos c !! key with
  | Some id_info => Some id_info.2
  | None => None
  end.

(** [child(key)]; [addr] is the address of the [ValueCache()] the call
    allocates when the derived key is absent. *)
Definition child (addr : nat) (key : string) : M cache_state pyval :=
  let child_key := key +:+ "._child" in
  '(c, _) ← get_state;
  (if dict_in child_key (items c) then mret () else _set child_key (VCache addr new_cache));;
  getitem child_key.

Definition rename_key (key new_key : string) : M cache_state unit :=
  if decide (key = new_key) then mret () else
  value ← getitem key;
  _del key;;
  _set new_key value;;
  '(c, _) ← get_state;
  match _id_infos c !! key with
  | None => raise (KeyError key)
  | Some id_info =>
      del_id_info key;;
      set_id_info new_key id_info;;
      let child_key := key +:+ "._child" in
      '(c, _) ← get_state;
      if dict_in child_key (items c) then
        child_cache ← getitem child_key;
        _del child_key;;
        _set (new_key +:+ "._child") child_cache
      else mret ()
  end.

(** [cache[key] = v] for each [v] of [values], in order. *)
Definition assign_all (key : string) (values : list pyval) : M cache_state unit :=
  for_each values (__setitem__ key).

(** Every id handed out so far is positive and at most [_last_id]. *)
Definition ids_bounded (c : ValueCache) : Prop :=
  0 ≤ _last_id c ∧ ∀ k id n, _id_infos c !! k = Some (id, n) → 0 < id ≤ _last_id c.

(** Every key that has an id holds a value. *)
Definition ids_have_values (c : ValueCache) : Prop :=
  ∀ k, is_Some (_id_infos c !! k) → is_Some (dict_get k (items c)).

(** ** Nodes, ports and the object store

    A [Node] object is named by its address in the store.  A [NodePort] is
    owned by exactly one node and sits in that node's input or output
    namespace under its name; the module never replaces a port of a
    namespace, so (node, namespace, name) identifies the port object. *)
Record port_ref := PortRef {
  port_node : nat;
  port_is_output : bool;
  port_name : string;
}.

Global Instance port_ref_eq_dec : EqDecision port_ref.
Proof. solve_decision. Defined.

(** [NodePort._source_ref] is assigned in two places: the [source] setter
    stores a [SourceRef] named tuple, [from_json] stores a plain pair.  Both
    unpack into two components; only the named tuple has the attributes
    [node_id] and [port_name]. *)
Inductive source_ref :=
  | PlainPair (node_id : option string) (name : option string)
  | SourceRef (node_id : string) (name : string).

Record NodePort := mkPort {
  _source_ref : option source_ref;
  _source : option port_ref;
  _value : pyval;
}.

(** [NodePort(node, name)] *)
Definition new_port : NodePort := mkPort None None VUndefined.

Record subprocess_args := SubProcessArgs {
  _run_python : pyval; _cwd : pyval; _env : pyval; _shell : pyval;
  _started_re : pyval; _progress_re : pyval; _done_re : pyval;
}.

Inductive node_class :=
  | Workflow
  | OpStep
  | ExpressionStep (_expression : string)
  | SubProcessStep (_command : string) (args : subprocess_args)
  | NoOpStep
  | WorkflowStep (_workflow : nat) (_resource : string).

Global Instance pyval_inhabited : Inhabited pyval := populate VNone.

Record Node := mkNode {
  cls : node_class;
  _id : string;
  _op_meta_info : nat;                 (* address of the OpMetaInfo object *)
  _persistent : bool;
  _inputs : list (string * NodePort);  (* Namespace, in declaration order *)
  _outputs : list (string * NodePort);
  _parent_node : option nat;           (* Step._parent_node *)
  _steps : list nat;                   (* Workflow._steps *)
  _steps_dict : gmap string nat;       (* Workflow._steps_dict *)
}.

(** Modelled from the spec: the class [OpMetaInfo] of [cate.util.opmetainf],
    which is not part of the sources at hand.  It is a record of the
    qualified name, the header, and the ordered input and output
    descriptors (name to property map); [can_cache] is a flag derived from
    the header and is kept as a field. *)
Record OpMetaInfo := mkMeta {
  qualified_name : string;
  header : list (string * pyval);
  inputs : list (string * list (string * pyval));
  outputs : list (string * list (string * pyval));
  can_cache : bool;
}.

Definition RETURN_OUTPUT_NAME : string := "return".

(** Modelled from the spec: outputs are named unless they are exactly the
    single output ["return"]. *)
Definition has_named_outputs (m : OpMetaInfo) : bool :=
  negb (bool_decide (length (outputs m) = 1%nat) && dict_in RETURN_OUTPUT_NAME (outputs m)).

Record heap := Heap {
  nodes : list Node;
  metas : list OpMetaInfo;
}.

Global Instance outcome_ret : MRet outcome := λ A a, Ok a.
Global Instance outcome_bind : MBind outcome := λ A B f m,
  match m with
  | Ok a => f a
  | Raise e => Raise e
  end.

(** A query that reads the state without changing it. *)
Definition query {S A} (f : S → outcome A) : M S A := λ s, (f s, s).

Definition node_at (h : heap) (n : nat) : outcome Node :=
  match nodes h !! n with
  | Some nd => Ok nd
  | None => Raise Dangling
  end.

Definition meta_at (h : heap) (m : nat) : outcome OpMetaInfo :=
  match metas h !! m with
  | Some mi => Ok mi
  | None => Raise Dangling
  end.

Definition namespace (nd : Node) (is_output : bool) : list (string * NodePort) :=
  if is_output then _outputs nd else _inputs nd.

Definition port_at (h : heap) (p : port_ref) : outcome NodePort :=
  nd ← node_at h (port_node p);
  match dict_get (port_name p) (namespace nd (port_is_output p)) with
  | Some x => Ok x
  | None => Raise Dangling
  end.

Definition with_namespace (nd : Node) (is_output : bool) (ns : list (string * NodePort)) : Node :=
  if is_output
  then mkNode (cls nd) (_id nd) (_op_meta_info nd) (_persistent nd) (_inputs nd) ns
         (_parent_node nd) (_steps nd) (_steps_dict nd)
  else mkNode (cls nd) (_id nd) (_op_meta_info nd) (_persistent nd) ns (_outputs nd)
         (_parent_node nd) (_steps nd) (_steps_dict nd).

Definition put_node (n : nat) (nd : Node) : M heap unit :=
  modify (λ h, Heap (<[n := nd]> (nodes h)) (metas h)).

Definition get_node (n : nat) : M heap Node := query (λ h, node_at h n).
Definition get_port (p : port_ref) : M heap NodePort := query (λ h, port_at h p).

(** Overwrite the attributes of the port object [p]. *)
Definition put_port (p : port_ref) (x : NodePort) : M heap unit :=
  nd ← get_node (port_node p);
  put_node (port_node p)
    (with_namespace nd (port_is_output p)
       (dict_set (port_name p) x (namespace nd (port_is_output p)))).

(** [chain(self._outputs[:], self._inputs[:])] *)
Definition input_ports (n : nat) (nd : Node) : list port_ref :=
  (λ name, PortRef n false name) <$> dict_keys (_inputs nd).
Definition output_ports (n : nat) (nd : Node) : list port_ref :=
  (λ name, PortRef n true name) <$> dict_keys (_outputs nd).
Definition all_ports (n : nat) (nd : Node) : list port_ref :=
  output_ports n nd ++ input_ports n nd.

(** The [parent_node] property: [Step] returns [_parent_node], [Node] and
    [Workflow] return [None]. *)
Definition parent_node (nd : Node) : option nat :=
  match cls nd with
  | Workflow => None
  | _ => _parent_node nd
  end.

(** The [root_node] property: [while node.parent_node: node =
    node.parent_node].  The loop is cut after as many rounds as there are
    nodes; on a chain of parents that closes on itself Python does not
    return. *)
Fixpoint root_node_loop (fuel : nat) (h : heap) (node : nat) : outcome nat :=
  match fuel with
  | O => Raise Diverges
  | S fuel' =>
      nd ← node_at h node;
      match parent_node nd with
      | Some p => root_node_loop fuel' h p
      | None => Ok node
      end
  end.

Definition root_node (h : heap) (node : nat) : outcome nat :=
  root_node_loop (S (length (nodes h))) h node.

(** [find_node]: [Node.find_node] returns [None]; [Workflow.find_node] looks
    the id up among its direct children, then asks each child.  The children
    are [Step] objects ([_steps : List['Step']]), none of which overrides
    [Node.find_node], so a child always answers [None]. *)
Definition find_node (h : heap) (node : nat) (node_id : string) : outcome (option nat) :=
  nd ← node_at h node;
  match cls nd with
  | Workflow =>
      match _steps_dict nd !! node_id with
      | Some step => Ok (Some step)
      | None => Ok None
      end
  | _ => Ok None
  end.

(** [find_port(name)]: output ports are searched first, then input ports;
    no subclass overrides it. *)
Definition find_port (node : nat) (nd : Node) (name : string) : option port_ref :=
  if dict_in name (_outputs nd) then Some (PortRef node true name)
  else if dict_in name (_inputs nd) then Some (PortRef node false name)
  else None.

(** The [value] setter. *)
Definition set_value (self : port_ref) (new_value : pyval) : M heap unit :=
  _ ← get_port self;
  put_port self (mkPort None None new_value).

(** The [source] setter. *)
Definition set_source (self : port_ref) (new_source : option port_ref) : M heap unit :=
  if decide (new_source = Some self) then raise (ValueError SelfBinding) else
  _ ← get_port self;
  ref ← match new_source with
        | Some q =>
            _ ← get_port q;
            nd ← get_node (port_node q);
            mret (Some (SourceRef (_id nd) (port_name q)))
        | None => mret None
        end;
  put_port self (mkPort ref new_source VUndefined).

(** Unpacking [other_node_id, other_name = self._source_ref]. *)
Definition unpack_ref (r : source_ref) : option string * option string :=
  match r with
  | PlainPair a b => (a, b)
  | SourceRef a b => (Some a, Some b)
  end.

(** Attribute access [.node_id] / [.port_name] on a source reference. *)
Definition ref_node_id (r : source_ref) : outcome string :=
  match r with
  | SourceRef a _ => Ok a
  | PlainPair _ _ => Raise (AttributeError "node_id")
  end.
Definition ref_port_name (r : source_ref) : outcome string :=
  match r with
  | SourceRef _ b => Ok b
  | PlainPair _ _ => Raise (AttributeError "port_name")
  end.

(** Truthiness of an optional string: [None] and [''] are false. *)
Definition given (s : option string) : option string :=
  match s with
  | Some x => if truthy_str x then Some x else None
  | None => None
  end.

(** The node a reference by id denotes: the root itself when it bears the
    id, otherwise what the root's [find_node] finds. *)
Definition locate_node (h : heap) (node : nat) (other_node_id : string) : outcome (option nat) :=
  root ← root_node h node;
  rnd ← node_at h root;
  if decide (_id rnd = other_node_id) then Ok (Some root)
  else find_node h root other_node_id.

(** The scope search of the dotted form: this node, then its parents. *)
Fixpoint find_port_in_scope (fuel : nat) (h : heap) (node : nat) (name : string)
  : outcome (option port_ref) :=
  match fuel with
  | O => Raise Diverges
  | S fuel' =>
      nd ← node_at h node;
      match find_port node nd name with
      | Some p => Ok (Some p)
      | None =>
          match parent_node nd with
          | Some parent => find_port_in_scope fuel' h parent name
          | None => Ok None
          end
      end
  end.

(** [NodePort.update_source] *)
Definition update_source (self : port_ref) : M heap unit :=
  port ← get_port self;
  match _source_ref port with
  | None => mret ()
  | Some ref =>
      let '(other_node_id, other_name) := unpack_ref ref in
      other_node ← match given other_node_id with
                   | Some i => query (λ h, locate_node h (port_node self) i)
                   | None => mret None
                   end;
      match given other_node_id, given other_name with
      | Some _, Some name =>
          match other_node with
          | Some on =>
              ond ← get_node on;
              match find_port on ond name with
              | Some node_port => set_source self (Some node_port)
              | None => raise (ValueError UnknownPort)
              end
          | None => raise (ValueError UnknownNode)
          end
      | Some _, None =>
          match other_node with
          | Some on =>
              ond ← get_node on;
              match output_ports on ond with
              | [node_port] => set_source self (Some node_port)
              | _ => raise (ValueError AmbiguousNode)
              end
          | None => raise (ValueError UnknownNode)
          end
      | None, Some name =>
          found ← query (λ h, find_port_in_scope (S (length (nodes h))) h (port_node self) name);
          match found with
          | Some node_port => set_source self (Some node_port)
          | None => raise (ValueError UnknownPortInScope)
          end
      | None, None => mret ()
      end
  end.

(** [NodePort.update_source_node_id] *)
Definition update_source_node_id (self : port_ref) (node : nat) (old_node_id : string)
  : M heap unit :=
  port ← get_port self;
  match _source_ref port with
  | None => mret ()
  | Some ref =>
      ref_id ← query (λ _, ref_node_id ref);
      if decide (ref_id = old_node_id) then
        name ← query (λ _, ref_port_name ref);
        nd ← get_node node;
        set_source self (find_port node nd name)
      else mret ()
  end.

(** [Node.update_sources], [Node.update_sources_node_id] and
    [Node.remove_orphaned_sources]: one pass over the ports of the node. *)
Definition node_update_sources (n : nat) : M heap unit :=
  nd ← get_node n;
  for_each (all_ports n nd) update_source.

Definition node_update_sources_node_id (n : nat) (changed_node : nat) (old_id : string)
  : M heap unit :=
  nd ← get_node n;
  for_each (all_ports n nd) (λ port, update_source_node_id port changed_node old_id).

Definition orphaned (orphaned_node : nat) (port : NodePort) : bool :=
  match _source port with
  | Some src => bool_decide (port_node src = orphaned_node)
  | None => false
  end.

Definition node_remove_orphaned_sources (n : nat) (orphaned_node : nat) : M heap unit :=
  nd ← get_node n;
  for_each (all_ports n nd) (λ p,
    port ← get_port p;
    if orphaned orphaned_node port then set_value p VNone else mret ()).

(** The methods as a node of the store runs them: a [Workflow] runs the
    base method on itself and then on each of its steps, any other node runs
    the base method. *)
Definition update_sources (n : nat) : M heap unit :=
  nd ← get_node n;
  node_update_sources n;;
  match cls nd with
  | Workflow => for_each (_steps nd) node_update_sources
  | _ => mret ()
  end.

Definition with_steps (nd : Node) (steps : list nat) (steps_dict : gmap string nat) : Node :=
  mkNode (cls nd) (_id nd) (_op_meta_info nd) (_persistent nd) (_inputs nd) (_outputs nd)
    (_parent_node nd) steps steps_dict.

Definition with_id (nd : Node) (node_id : string) : Node :=
  mkNode (cls nd) node_id (_op_meta_info nd) (_persistent nd) (_inputs nd) (_outputs nd)
    (_parent_node nd) (_steps nd) (_steps_dict nd).

Definition with_parent (nd : Node) (parent : option nat) : Node :=
  mkNode (cls nd) (_id nd) (_op_meta_info nd) (_persistent nd) (_inputs nd) (_outputs nd)
    parent (_steps nd) (_steps_dict nd).

Definition update_sources_node_id (n : nat) (changed_node : nat) (old_id : string)
  : M heap unit :=
  nd ← get_node n;
  match cls nd with
  | Workflow =>
      node_update_sources_node_id n changed_node old_id;;
      nd ← get_node n;
      (match _steps_dict nd !! old_id with
       | Some _ =>
           changed ← get_node changed_node;
           put_node n (with_steps nd (_steps nd)
                         (<[_id changed := changed_node]> (delete old_id (_steps_dict nd))))
       | None => mret ()
       end);;
      for_each (_steps nd) (λ step, node_update_sources_node_id step changed_node old_id)
  | _ => node_update_sources_node_id n changed_node old_id
  end.

Definition remove_orphaned_sources (n : nat) (removed_node : nat) : M heap unit :=
  nd ← get_node n;
  node_remove_orphaned_sources n removed_node;;
  match cls nd with
  | Workflow => for_each (_steps nd) (λ step, node_remove_orphaned_sources step removed_node)
  | _ => mret ()
  end.

(** [Node.set_id] *)
Definition set_id (self : nat) (node_id : string) : M heap unit :=
  if negb (truthy_str node_id) then raise (ValueError EmptyId) else
  nd ← get_node self;
  let old_id := _id nd in
  if decide (node_id = old_id) then mret () else
  put_node self (with_id nd node_id);;
  root ← query (λ h, root_node h self);
  update_sources_node_id root self old_id.

(** [list.index(x)] *)
Fixpoint list_index (x : nat) (l : list nat) : option nat :=
  match l with
  | [] => None
  | y :: r => if decide (y = x) then Some O else S <$> list_index x r
  end.

(** [Workflow.add_step] *)
Definition add_step (self : nat) (new_step : nat) (can_exist : bool) : M heap (option nat) :=
  nd ← get_node self;
  new_nd ← get_node new_step;
  let old_step := _steps_dict nd !! _id new_nd in
  steps ← match old_step with
          | Some old =>
              if negb can_exist then raise (ValueError DuplicateStepId) else
              match list_index old (_steps nd) with
              | Some old_step_index => mret (<[old_step_index := new_step]> (_steps nd))
              | None => raise (ValueError NotInList)
              end
          | None => mret (_steps nd ++ [new_step])
          end;
  put_node self (with_steps nd steps (<[_id new_nd := new_step]> (_steps_dict nd)));;
  new_nd ← get_node new_step;
  put_node new_step (with_parent new_nd (Some self));;
  match old_step with
  | Some old =>
      if decide (old = new_step) then mret () else
      update_sources self;;
      remove_orphaned_sources self old
  | None => mret ()
  end;;
  mret old_step.

(** ** Dependencies between nodes and the execution order *)

(** [Node.is_direct_source_for_port]: the first disjunct, [other_port.source
    is self], compares a port with a node and never holds; what decides is
    the node id recorded in the port's source reference. *)
Definition is_direct_source_for_port (self : Node) (other_port : NodePort) : outcome bool :=
  match _source_ref other_port with
  | None => Ok false
  | Some ref =>
      ref_id ← ref_node_id ref;
      Ok (bool_decide (ref_id = _id self))
  end.

Fixpoint any_direct_source (self : Node) (other_ports : list NodePort) : outcome bool :=
  match other_ports with
  | [] => Ok false
  | other_port :: rest =>
      is_direct_source_for_port self other_port ≫= λ b : bool,
      if b then Ok true else any_direct_source self rest
  end.

(** [Node.is_direct_source_of] *)
Definition is_direct_source_of (h : heap) (self other_node : nat) : outcome bool :=
  nd ← node_at h self;
  ond ← node_at h other_node;
  any_direct_source nd (dict_values (_inputs ond)).

(** The loop of [max_distance_to] over the input ports; [distance_to] is
    the recursive call [port.source.node.max_distance_to(other_node)]. *)
Fixpoint distance_loop (distance_to : nat → outcome Z) (ports : list NodePort)
    (max_distance : Z) : outcome Z :=
  match ports with
  | [] => Ok max_distance
  | port :: rest =>
      match _source port with
      | Some src =>
          distance ← distance_to (port_node src);
          distance_loop distance_to rest
            (if 0 <? distance then Z.max max_distance (distance + 1) else max_distance)
      | None => distance_loop distance_to rest max_distance
      end
  end.

(** [Node.max_distance_to]; [fuel] bounds the depth of the recursion as
    Python's recursion limit does. *)
Fixpoint max_distance_to (fuel : nat) (h : heap) (self other_node : nat) : outcome Z :=
  match fuel with
  | O => Raise RecursionError
  | S fuel' =>
      if decide (other_node = self) then Ok 0 else
      is_direct_source_of h other_node self ≫= λ direct : bool,
      nd ← node_at h self;
      distance_loop (λ node, max_distance_to fuel' h node other_node)
        (dict_values (_inputs nd)) (if direct then 1 else -1)
  end.

(** [Node.requires] *)
Definition requires (fuel : nat) (h : heap) (self other_node : nat) : outcome bool :=
  d ← max_distance_to fuel h self other_node;
  Ok (0 <? d).

(** The inner loop of [sort_steps]: the largest positive distance from
    [step], which stands at index [i1], to any step at another index. *)
Fixpoint max_dist_loop (fuel : nat) (h : heap) (i1 step : nat) (i2 : nat) (others : list nat)
    (max_dist : Z) : outcome Z :=
  match others with
  | [] => Ok max_dist
  | other :: rest =>
      if decide (i1 = i2) then max_dist_loop fuel h i1 step (S i2) rest max_dist else
      dist ← max_distance_to fuel h step other;
      max_dist_loop fuel h i1 step (S i2) rest
        (if 0 <? dist then Z.max max_dist dist else max_dist)
  end.

Fixpoint dist_and_step_loop (fuel : nat) (h : heap) (steps : list nat) (i1 : nat)
    (todo : list nat) : outcome (list (Z * nat)) :=
  match todo with
  | [] => Ok []
  | step :: rest =>
      max_dist ← max_dist_loop fuel h i1 step O steps 0;
      tail ← dist_and_step_loop fuel h steps (S i1) rest;
      Ok ((max_dist, step) :: tail)
  end.

(** Python's [sorted(l, key=...)] is a stable sort; the stable sort of a list
    is unique, and insertion from the right computes it. *)
Fixpoint insert_by_key {A} (x : Z * A) (l : list (Z * A)) : list (Z * A) :=
  match l with
  | [] => [x]
  | y :: r => if x.1 <=? y.1 then x :: y :: r else y :: insert_by_key x r
  end.

Definition sorted_by_key {A} (l : list (Z * A)) : list (Z * A) :=
  foldr insert_by_key [] l.

(** The order [sorted] establishes: keys do not decrease. *)
Definition key_le {A} : relation (Z * A) := λ x y, x.1 ≤ y.1.

(** [Workflow.sort_steps] *)
Definition sort_steps (fuel : nat) (h : heap) (steps : list nat) : outcome (list nat) :=
  if bool_decide (length steps < 2)%nat then Ok steps else
  dist_and_step_list ← dist_and_step_loop fuel h steps O steps;
  Ok ((sorted_by_key dist_and_step_list).*2).

(** The [sorted_steps] property. *)
Definition sorted_steps (fuel : nat) (h : heap) (workflow : nat) : outcome (list nat) :=
  nd ← node_at h workflow;
  sort_steps fuel h (_steps nd).

(** ** Reading a port *)

Definition is_undefined (v : pyval) : bool :=
  match v with
  | VUndefined => true
  | _ => false
  end.

(** The [has_value] and [value] properties follow the chain of sources. *)
Fixpoint has_value (fuel : nat) (h : heap) (p : port_ref) : outcome bool :=
  match fuel with
  | O => Raise RecursionError
  | S fuel' =>
      port ← port_at h p;
      match _source port with
      | Some src => has_value fuel' h src
      | None => Ok (negb (is_undefined (_value port)))
      end
  end.

Fixpoint value (fuel : nat) (h : heap) (p : port_ref) : outcome pyval :=
  match fuel with
  | O => Raise RecursionError
  | S fuel' =>
      port ← port_at h p;
      match _source port with
      | Some src => value fuel' h src
      | None => Ok (if is_undefined (_value port) then VNone else _value port)
      end
  end.

(** The [is_value] property. *)
Definition is_value (port : NodePort) : bool :=
  match _source port with
  | Some _ => false
  | None => negb (is_undefined (_value port))
  end.

(** ** Example object graphs

    Small stores used to run the methods on concrete inputs.  Every node
    has its own [OpMetaInfo] at the address equal to its own. *)
Definition unbound_ports (names : list string) : list (string * NodePort) :=
  (λ name, (name, new_port)) <$> names.

Definition meta_of (nd : Node) : OpMetaInfo :=
  mkMeta (_id nd) [] ((λ name, (name, [])) <$> dict_keys (_inputs nd))
    ((λ name, (name, [])) <$> dict_keys (_outputs nd)) true.

Definition store_of (nds : list Node) : heap := Heap nds (meta_of <$> nds).

Definition a_workflow (addr : nat) (node_id : string) (ins outs : list (string * NodePort))
    (steps : list (string * nat)) : Node :=
  mkNode Workflow node_id addr false ins outs None steps.*2 (list_to_map steps).

Definition a_step (addr : nat) (node_id : string) (ins outs : list (string * NodePort))
    (parent : option nat) : Node :=
  mkNode NoOpStep node_id addr false ins outs parent [] ∅.

(** A port as [from_json] leaves it after reading the text ["<node>.<port>"]
    or ["<node>"]. *)
Definition unresolved (node_id : string) (name : option string) : NodePort :=
  mkPort (Some (PlainPair (Some node_id) name)) None VUndefined.

(** A port as the [source] setter leaves it. *)
Definition bound (node_id : string) (src : port_ref) : NodePort :=
  mkPort (Some (SourceRef node_id (port_name src))) (Some src) VUndefined.

(** Workflow "wf" with an input and an output both named "x"; its step "s"
    has the input "a" read from the text "wf.x". *)
Definition same_name_store : heap := store_of [
  a_workflow 0 "wf" (unbound_ports ["x"]) (unbound_ports ["x"]) [("s", 1%nat)];
  a_step 1 "s" [("a", unresolved "wf" (Some "x"))] (unbound_ports ["return"]) (Some 0%nat)
].

(** Workflow "wf" with steps "a" and "b"; the input "x" of "b" was read from
    the text "a.return" and has not been resolved. *)
Definition unresolved_store : heap := store_of [
  a_workflow 0 "wf" [] [] [("a", 1%nat); ("b", 2%nat)];
  a_step 1 "a" [] (unbound_ports ["return"]) (Some 0%nat);
  a_step 2 "b" [("x", unresolved "a" (Some "return"))] (unbound_ports ["return"]) (Some 0%nat)
].

(** Workflow "wf" with the step "n", whose only output was read from the
    text "n". *)
Definition self_ref_store : heap := store_of [
  a_workflow 0 "wf" [] [] [("n", 1%nat)];
  a_step 1 "n" [] [("return", unresolved "n" None)] (Some 0%nat)
].

(** Workflow "wf" with steps "a" and "b", the input "x" of "b" bound to the
    output of "a"; a third step, also with id "a", is not yet part of the
    workflow. *)
Definition replace_store : heap := store_of [
  a_workflow 0 "wf" [] [] [("a", 1%nat); ("b", 2%nat)];
  a_step 1 "a" [] (unbound_ports ["return"]) (Some 0%nat);
  a_step 2 "b" [("x", bound "a" (PortRef 1 true "return"))] (unbound_ports ["return"])
    (Some 0%nat);
  a_step 3 "a" [] (unbound_ports ["return"]) None
].

(** ** The shape of a store

    What the port methods never change: everything but the three attributes
    of each port.  [erase] forgets those attributes. *)
Definition erase_ports (ns : list (string * NodePort)) : list (string * NodePort) :=
  (λ kv, (kv.1, new_port)) <$> ns.

Definition erase_node (nd : Node) : Node :=
  mkNode (cls nd) (_id nd) (_op_meta_info nd) (_persistent nd)
    (erase_ports (_inputs nd)) (erase_ports (_outputs nd))
    (_parent_node nd) (_steps nd) (_steps_dict nd).

Definition erase (h : heap) : heap := Heap (erase_node <$> nodes h) (metas h).

Definition same_shape (h h' : heap) : Prop := erase h = erase h'.

(** The ports a [Workflow] method visits from node [n]: those of [n], then
    those of each step of [n]. *)
Definition ports_at (h : heap) (n : nat) : list port_ref :=
  match nodes h !! n with
  | Some nd => all_ports n nd
  | None => []
  end.

Definition tree_ports (h : heap) (n : nat) : list port_ref :=
  match nodes h !! n with
  | Some nd =>
      all_ports n nd ++
      match cls nd with
      | Workflow => concat (ports_at h <$> _steps nd)
      | _ => []
      end
  | None => []
  end.

(** The port the cleanup leaves behind: [port.value = None]. *)
Definition cleared_port : NodePort := mkPort None None VNone.

(** [cleaned old ports h h']: [h'] is [h] with every port of [ports] whose
    source sits on node [old] replaced by [cleared_port]. *)
Definition cleaned (old : nat) (ports : list port_ref) (h h' : heap) : Prop :=
  same_shape h h'
  ∧ ∀ q port, port_at h q = Ok port →
      port_at h' q = Ok (if bool_decide (q ∈ ports) && orphaned old port
                         then cleared_port else port).

(** Workflows "wf" and "other" share the steps "a" and "b", which were added
    to "other" last and so have it as parent; the input "x" of "b" is bound
    to the output of "a"; a further step with id "a" is not yet part of any
    workflow. *)
Definition shared_store : heap := store_of [
  a_workflow 0 "wf" [] [] [("a", 1%nat); ("b", 2%nat)];
  a_step 1 "a" [] (unbound_ports ["return"]) (Some 4%nat);
  a_step 2 "b" [("x", bound "a" (PortRef 1 true "return"))] (unbound_ports ["return"])
    (Some 4%nat);
  a_step 3 "a" [] (unbound_ports ["return"]) None;
  a_workflow 4 "other" [] [] [("a", 1%nat); ("b", 2%nat)]
].

(** Workflow "wf" with steps "one" (a single output), "two" (two outputs) and
    "c", whose inputs were read from the texts "one", "two" and "gone". *)
Definition by_id_store : heap := store_of [
  a_workflow 0 "wf" [] [] [("one", 1%nat); ("two", 2%nat); ("c", 3%nat)];
  a_step 1 "one" [] (unbound_ports ["return"]) (Some 0%nat);
  a_step 2 "two" [] (unbound_ports ["u"; "v"]) (Some 0%nat);
  a_step 3 "c" [("p", unresolved "one" None); ("q", unresolved "two" None);
                ("r", unresolved "gone" None)]
    (unbound_ports ["return"]) (Some 0%nat)
].

(** ** Dependency graphs the execution order is claimed for

    [closure] lists the steps and every node that an input port of a listed
    node is bound to.  Every input port of a listed node is either unbound
    or in the state the [source] setter leaves, its reference naming the id
    that the node of its source bears now; that id is borne by no step other
    than the node of the source; [rank] decreases along every binding (so
    there is no cycle) and stays below the recursion limit [fuel]. *)
Definition dependency_graph_ok (h : heap) (steps closure : list nat) (rank : nat → nat)
    (fuel : nat) : Prop :=
  steps ⊆ closure
  ∧ (∀ u, u ∈ closure → is_Some (nodes h !! u) ∧ (rank u < fuel)%nat)
  ∧ (∀ u nd port, u ∈ closure → nodes h !! u = Some nd → port ∈ dict_values (_inputs nd) →
       match _source_ref port, _source port with
       | None, None => True
       | Some (SourceRef node_id _), Some src =>
           port_node src ∈ closure
           ∧ (rank (port_node src) < rank u)%nat
           ∧ ∃ snd, nodes h !! port_node src = Some snd ∧ _id snd = node_id
               ∧ ∀ b bnd, b ∈ steps → nodes h !! b = Some bnd → _id bnd = node_id →
                   b = port_node src
       | _, _ => False
       end).

(** The key [sort_steps] sorts by: the largest positive distance from
    [step] to any of [steps], or 0. *)
Definition max_dist_of (fuel : nat) (h : heap) (steps : list nat) (step : nat) : outcome Z :=
  max_dist_loop fuel h (length steps) step O steps 0.

(** The diamond: steps "A", "B", "C", "D" of workflow "wf", with "A" reading
    the workflow input, "B" and "C" reading "A", and "D" reading both. *)
Definition diamond_store : heap := store_of [
  a_workflow 0 "wf" (unbound_ports ["x"]) [("y", bound "D" (PortRef 4 true "return"))]
    [("A", 1%nat); ("B", 2%nat); ("C", 3%nat); ("D", 4%nat)];
  a_step 1 "A" [("x", bound "wf" (PortRef 0 false "x"))] (unbound_ports ["return"]) (Some 0%nat);
  a_step 2 "B" [("x", bound "A" (PortRef 1 true "return"))] (unbound_ports ["return"]) (Some 0%nat);
  a_step 3 "C" [("x", bound "A" (PortRef 1 true "return"))] (unbound_ports ["return"]) (Some 0%nat);
  a_step 4 "D" [("x", bound "B" (PortRef 2 true "return"));
                ("y", bound "C" (PortRef 3 true "return"))]
    (unbound_ports ["return"]) (Some 0%nat)
].

Definition diamond_rank (n : nat) : nat :=
  match n with
  | 0 => 0
  | 1 => 1
  | 4 => 3
  | _ => 2
  end%nat.

(** Workflow "w" with steps "a", "w" and "c" in this order: "a" reads the
    workflow input "in", the step that shares the workflow's id reads "c". *)
Definition clash_store : heap := store_of [
  a_workflow 0 "w" (unbound_ports ["in"]) [] [("a", 1%nat); ("w", 2%nat); ("c", 3%nat)];
  a_step 1 "a" [("x", bound "w" (PortRef 0 false "in"))] (unbound_ports ["return"]) (Some 0%nat);
  a_step 2 "w" [("y", bound "c" (PortRef 3 true "return"))] (unbound_ports ["return"]) (Some 0%nat);
  a_step 3 "c" [] (unbound_ports ["return"]) (Some 0%nat)
].

(** ** Invoking an operation step

    The state of a run: the object store, the [ValueCache] object that the
    execution context may carry (with the trace of [close()] calls), and the
    log of calls made to operations, each with the address of the calling
    step and the keyword arguments passed. *)
Record run_state := RunState {
  store : heap;
  value_cache : cache_state;
  calls : list (nat * list (string * pyval));
}.

(** The execution context, a [dict]: whether it has a ['value_cache'] entry
    (which then is the cache of the run state), and the dict itself as the
    value that is handed to inputs with the property ["context": True]. *)
Record context := Context {
  has_value_cache : bool;
  context_value : pyval;
}.

Definition on_store {A} (m : M heap A) : M run_state A := λ rs,
  let '(r, h) := m (store rs) in (r, RunState h (value_cache rs) (calls rs)).

Definition on_cache {A} (m : M cache_state A) : M run_state A := λ rs,
  let '(r, c) := m (value_cache rs) in (r, RunState (store rs) c (calls rs)).

Section invocation.
(** The collaborators the module only calls: [safe_eval] of
    [cate.util.safe], and the [Operation] object held by a step (its [_op]
    attribute), called with keyword arguments. *)
Variable safe_eval : string → context → outcome pyval.
Variable _op : nat → list (string * pyval) → outcome pyval.

(** The first loop of [_invoke_impl]: the values of the inputs that have
    one, by input name. *)
Fixpoint collect_input_values (fuel : nat) (h : heap) (self : nat) (names : list string)
    (input_values : list (string * pyval)) : outcome (list (string * pyval)) :=
  match names with
  | [] => Ok input_values
  | name :: rest =>
      has_value fuel h (PortRef self false name) ≫= λ has : bool,
      if has then
        v ← value fuel h (PortRef self false name);
        collect_input_values fuel h self rest (dict_set name v input_values)
      else collect_input_values fuel h self rest input_values
  end.

(** [Node._set_context_values] *)
Fixpoint _set_context_values (ctx : context) (meta_inputs : list (string * list (string * pyval)))
    (input_values : list (string * pyval)) : list (string * pyval) :=
  match meta_inputs with
  | [] => input_values
  | (input_name, input_props) :: rest =>
      _set_context_values ctx rest
        match dict_get "context" input_props with
        | Some (VStr expression) =>
            match safe_eval expression ctx with
            | Ok v => dict_set input_name v input_values
            | Raise _ => dict_set input_name VNone input_values
            end
        | Some context_property_value =>
            if truthy context_property_value
            then dict_set input_name (context_value ctx) input_values
            else input_values
        | None => input_values
        end
  end.

(** The keyword arguments [_invoke_impl] passes to the operation. *)
Definition op_arguments (fuel : nat) (h : heap) (self : nat) (nd : Node) (mi : OpMetaInfo)
    (ctx : context) : outcome (list (string * pyval)) :=
  input_values ← collect_input_values fuel h self (dict_keys (_inputs nd)) [];
  Ok (_set_context_values ctx (inputs mi) input_values).

(** [Node._get_value_cache]: whether the result is a cache, not [None]. *)
Definition _get_value_cache (mi : OpMetaInfo) (ctx : context) : bool :=
  if can_cache mi then has_value_cache ctx else false.

(** [self.outputs[name].value = v] *)
Definition set_output (self : nat) (name : string) (v : pyval) : M heap unit :=
  nd ← get_node self;
  if dict_in name (_outputs nd) then set_value (PortRef self true name) v
  else raise (KeyError name).

(** The end of [_invoke_impl]: the return value goes to the output ports. *)
Definition store_outputs (self : nat) (mi : OpMetaInfo) (return_value : pyval) : M heap unit :=
  if has_named_outputs mi then
    match return_value with
    | VDict d => for_each d (λ kv, set_output self kv.1 kv.2)
    | _ => raise (AttributeError "items")
    end
  else set_output self RETURN_OUTPUT_NAME return_value.

(** [self._op(monitor=monitor, **input_values)], logged. *)
Definition call_op (self : nat) (input_values : list (string * pyval)) : M run_state pyval := λ rs,
  (_op self input_values,
   RunState (store rs) (value_cache rs) (calls rs ++ [(self, input_values)])).

(** [OpStepBase._invoke_impl] *)
Definition _invoke_impl (fuel : nat) (self : nat) (ctx : context) : M run_state unit :=
  nd ← on_store (get_node self);
  mi ← on_store (query (λ h, meta_at h (_op_meta_info nd)));
  input_values ← on_store (query (λ h, op_arguments fuel h self nd mi ctx));
  let cached := _get_value_cache mi ctx in
  '(cache, _) ← (λ rs, (Ok (value_cache rs), rs));
  return_value ←
    match (if cached then dict_get (_id nd) (items cache) else None) with
    | Some v =>
        if is_undefined v then
          return_value ← call_op self input_values;
          (if cached then on_cache (__setitem__ (_id nd) return_value) else mret ());;
          mret return_value
        else mret v
    | None =>
        return_value ← call_op self input_values;
        (if cached then on_cache (__setitem__ (_id nd) return_value) else mret ());;
        mret return_value
    end;
  on_store (store_outputs self mi return_value).

End invocation.

(** A step "double" with the literal input 3 in workflow "wf". *)
Definition cached_store : heap := store_of [
  a_workflow 0 "wf" [] [] [("double", 1%nat)];
  a_step 1 "double" [("x", mkPort None None (VInt 3))] (unbound_ports ["return"]) (Some 0%nat)
].

(** An operation that doubles its argument [x]. *)
Definition double_op (self : nat) (kwargs : list (string * pyval)) : outcome pyval :=
  match dict_get "x" kwargs with
  | Some (VInt x) => Ok (VInt (2 * x))
  | _ => Raise OperationError
  end.

Definition no_eval (expression : string) (ctx : context) : outcome pyval :=
  Raise OperationError.

(** A run that has not invoked anything yet, with an empty cache. *)
Definition fresh_run : run_state := RunState cached_store (new_cache, []) [].

Definition caching_context : context := Context true VNone.

(** ** Workflow JSON

    JSON documents are Python values: [VDict] for objects, [VList] for
    arrays. *)

(** [d.get(key)] on a JSON object; anything but a [dict] has no [get]. *)
Definition json_get (key : string) (json_dict : pyval) : outcome (option pyval) :=
  match json_dict with
  | VDict d => Ok (dict_get key d)
  | _ => Raise (AttributeError "get")
  end.

Definition dot : Ascii.ascii := Ascii.ascii_of_nat 46.

(** [str.rsplit('.', maxsplit=1)]: the text before and after the last dot,
    if there is one. *)
Fixpoint rsplit_dot (s : string) : option (string * string) :=
  match s with
  | EmptyString => None
  | String c rest =>
      match rsplit_dot rest with
      | Some (before, after) => Some (String c before, after)
      | None => if Ascii.eqb c dot then Some (EmptyString, rest) else None
      end
  end.

(** The end of [NodePort.from_json]: the source reference a text denotes. *)
Definition parse_source (port_json : string) : outcome source_ref :=
  match rsplit_dot port_json with
  | None =>
      if truthy_str port_json then Ok (PlainPair (Some port_json) None)
      else Raise (ValueError InvalidEncoding)
  | Some (part0, part1) =>
      if truthy_str part1
      then Ok (PlainPair (if truthy_str part0 then Some part0 else None) (Some part1))
      else Raise (ValueError InvalidEncoding)
  end.

(** [key in x] for a JSON value [x] that is not a text: a key of a dict, an
    element of a list; other values are not containers. *)
Definition json_contains (key : string) (x : pyval) : outcome bool :=
  match x with
  | VDict d => Ok (dict_in key d)
  | VCache _ c => Ok (dict_in key (items c))
  | VList l => Ok (existsb (λ y, pyval_eqb (VStr key) y) l)
  | _ => Raise TypeError
  end.

(** [x[key]] for such a value. *)
Definition json_item (key : string) (x : pyval) : outcome pyval :=
  match x with
  | VDict d =>
      match dict_get key d with
      | Some v => Ok v
      | None => Raise (KeyError key)
      end
  | VCache _ c =>
      match dict_get key (items c) with
      | Some v => Ok v
      | None => Raise (KeyError key)
      end
  | _ => Raise TypeError
  end.

(** [None] when [d.get(key)] is [None]: the key is absent or holds [None]. *)
Definition present (v : option pyval) : option pyval :=
  match v with
  | Some VNone => None
  | _ => v
  end.

(** Node ids, resources, expressions and commands are texts in this model.
    Where the JSON may hold any value in their place, a value that counts as
    false is told apart as Python does, and any other value that is not a
    text is [Unsupported]. *)
Definition json_text (v : option pyval) : outcome (option string) :=
  match v with
  | None => Ok None
  | Some (VStr s) => Ok (Some s)
  | Some v => if truthy v then Raise Unsupported else Ok None
  end.

(** Modelled from the spec: [OpMetaInfo.object_dict_to_json_dict] and
    [OpMetaInfo.json_dict_to_object_dict] of the absent class [OpMetaInfo].
    Every property is copied, and [data_type] is encoded as the qualified
    name of the type. *)
Definition props_to_json (props : list (string * pyval)) : list (string * pyval) :=
  (λ kv, match kv with
         | (key, VType n) => if decide (key = "data_type") then (key, VStr n) else kv
         | _ => kv
         end) <$> props.

Definition props_of_json (props : list (string * pyval)) : list (string * pyval) :=
  (λ kv, match kv with
         | (key, VStr n) => if decide (key = "data_type") then (key, VType n) else kv
         | _ => kv
         end) <$> props.

Definition object_dict_to_json_dict (d : list (string * list (string * pyval)))
  : list (string * pyval) :=
  (λ kv, (kv.1, VDict (props_to_json kv.2))) <$> d.

Fixpoint json_dict_to_object_dict (d : list (string * pyval))
  : outcome (list (string * list (string * pyval))) :=
  match d with
  | [] => Ok []
  | (name, VDict props) :: rest =>
      tail ← json_dict_to_object_dict rest;
      Ok ((name, props_of_json props) :: tail)
  | _ => Raise TypeError
  end.

(** [dict.update(other)] *)
Definition dict_update {V} (d other : list (string * V)) : list (string * V) :=
  foldl (λ acc kv, dict_set kv.1 kv.2 acc) d other.

Definition alloc_node (nd : Node) : M heap nat := λ h,
  (Ok (length (nodes h)), Heap (nodes h ++ [nd]) (metas h)).

Definition alloc_meta (mi : OpMetaInfo) : M heap nat := λ h,
  (Ok (length (metas h)), Heap (nodes h) (metas h ++ [mi])).

Definition put_meta (m : nat) (mi : OpMetaInfo) : M heap unit :=
  modify (λ h, Heap (nodes h) (<[m := mi]> (metas h))).

Definition get_meta (m : nat) : M heap OpMetaInfo := query (λ h, meta_at h m).

(** The [persistent] setter.  The flag is kept up to its truth value, which
    is all the module reads of it. *)
Definition with_persistent (nd : Node) (persistent : bool) : Node :=
  mkNode (cls nd) (_id nd) (_op_meta_info nd) persistent (_inputs nd) (_outputs nd)
    (_parent_node nd) (_steps nd) (_steps_dict nd).

(** [type(self).__name__] *)
Definition class_name (c : node_class) : string :=
  match c with
  | Workflow => "Workflow"
  | OpStep => "OpStep"
  | ExpressionStep _ => "ExpressionStep"
  | SubProcessStep _ _ => "SubProcessStep"
  | NoOpStep => "NoOpStep"
  | WorkflowStep _ _ => "WorkflowStep"
  end.

(** The step classes [Workflow.from_json_dict] tries, in its order. *)
Inductive step_class := COpStep | CWorkflowStep | CExpressionStep | CNoOpStep | CSubProcessStep.

Definition with_meta_ports (mi : OpMetaInfo) (is_output : bool)
    (d : list (string * list (string * pyval))) : OpMetaInfo :=
  if is_output
  then mkMeta (qualified_name mi) (header mi) (inputs mi) d (can_cache mi)
  else mkMeta (qualified_name mi) (header mi) d (outputs mi) (can_cache mi).

Definition meta_ports (mi : OpMetaInfo) (is_output : bool)
  : list (string * list (string * pyval)) :=
  if is_output then outputs mi else inputs mi.

(** [NodePort.__str__] *)
Definition port_str (h : heap) (p : port_ref) : outcome string :=
  nd ← node_at h (port_node p);
  Ok (if decide (port_name p = RETURN_OUTPUT_NAME) then _id nd
      else _id nd +:+ "." +:+ port_name p).

Section json.
(** Collaborators that are not part of the sources at hand, and the parts
    of the interpreter the module relies on: the conversions a [data_type]
    offers ([to_json] or else [to_json_dict], and [from_json] or else
    [from_json_dict]; [None] when both attempts raise), [hex(id(self))[2:]]
    of the object at an address, the meta-information of the operations
    [new_expression_op] and [new_subprocess_op] build, [Workflow.load] up to
    the address of the workflow it returns, and how [can_cache] derives from
    a header. *)
Variable type_to_json : pyval → pyval → option pyval.
Variable type_from_json : pyval → pyval → option pyval.
Variable hex_id : nat → string.
Variable new_expression_op : OpMetaInfo → string → OpMetaInfo.
Variable new_subprocess_op : OpMetaInfo → string → subprocess_args → OpMetaInfo.
Variable load : string → list (string * nat) → M heap nat.
Variable header_can_cache : list (string * pyval) → bool.

(** Modelled from the spec: the constructor of the absent class
    [OpMetaInfo]. *)
Definition new_meta (name : string) (hdr : list (string * pyval))
    (ins outs : list (string * list (string * pyval))) : OpMetaInfo :=
  mkMeta name hdr ins outs (header_can_cache hdr).

(** [NodePort._to_json_value] and [NodePort._from_json_value] *)
Definition convert_value (convert : pyval → pyval → option pyval) (mi : OpMetaInfo)
    (name : string) (v : pyval) : pyval :=
  match dict_get name (inputs mi) with
  | Some input_props =>
      if bool_decide (length input_props = 0%nat) then v else
      match dict_get "data_type" input_props with
      | Some data_type =>
          if truthy data_type then default v (convert data_type v) else v
      | None => v
      end
  | None => v
  end.

Definition _to_json_value := convert_value type_to_json.
Definition _from_json_value := convert_value type_from_json.

(** [NodePort.to_json] *)
Definition to_json (h : heap) (self : port_ref) (force_dict : bool) : outcome pyval :=
  port ← port_at h self;
  match _source port with
  | Some source =>
      s ← port_str h source;
      Ok (if force_dict then VDict [("source", VStr s)] else VStr s)
  | None =>
      if is_undefined (_value port) then Ok (VDict []) else
      nd ← node_at h (port_node self);
      mi ← meta_at h (_op_meta_info nd);
      if dict_in (port_name self) (outputs mi) then Ok (VDict [])
      else Ok (VDict [("value", _to_json_value mi (port_name self) (_value port))])
  end.

(** [NodePort.from_json] *)
Definition from_json (self : port_ref) (port_json : pyval) : M heap unit :=
  _ ← get_port self;
  put_port self new_port;;
  match port_json with
  | VNone => mret ()
  | VStr s =>
      ref ← query (λ _, parse_source s);
      put_port self (mkPort (Some ref) None VUndefined)
  | port_json_dict =>
      has_source ← query (λ _, json_contains "source" port_json_dict);
      has_value ← query (λ _, json_contains "value" port_json_dict);
      if has_source : bool then
        if has_value : bool then raise (ValueError InvalidEncoding) else
        src ← query (λ _, json_item "source" port_json_dict);
        match src with
        | VStr s =>
            ref ← query (λ _, parse_source s);
            put_port self (mkPort (Some ref) None VUndefined)
        | _ => raise (AttributeError "rsplit")
        end
      else if has_value : bool then
        v ← query (λ _, json_item "value" port_json_dict);
        nd ← get_node (port_node self);
        mi ← get_meta (_op_meta_info nd);
        set_value self (_from_json_value mi (port_name self) v)
      else mret ()
  end.

(** [str.lower] on a letter of a class name *)
Definition lower (a : Ascii.ascii) : Ascii.ascii :=
  let n := Ascii.nat_of_ascii a in
  if (65 <=? n)%nat && (n <=? 90)%nat then Ascii.ascii_of_nat (n + 32) else a.

Fixpoint str_lower (s : string) : string :=
  match s with
  | EmptyString => EmptyString
  | String a rest => String (lower a) (str_lower rest)
  end.

(** [Node.gen_id] for an object that is about to be stored at [addr] *)
Definition gen_id (c : string) (addr : nat) : string :=
  str_lower c +:+ "_" +:+ hex_id addr.

(** [Node.__init__]: the id, and one new port per declared input and
    output. *)
Definition new_node (c : node_class) (meta : nat) (node_id : option string) : M heap nat :=
  mi ← get_meta meta;
  h ← get_state;
  let id := match given node_id with
            | Some i => i
            | None => gen_id (class_name c) (length (nodes h))
            end in
  alloc_node (mkNode c id meta false
                ((λ name, (name, new_port)) <$> dict_keys (inputs mi))
                ((λ name, (name, new_port)) <$> dict_keys (outputs mi))
                None [] ∅).

(** [node_id or self.gen_id()] in the constructors that name the
    meta-information after the node. *)
Definition node_name (c : string) (node_id : option string) : M heap string :=
  h ← get_state;
  mret (match given node_id with
        | Some i => i
        | None => gen_id c (length (nodes h))
        end).

(** [OpStep.new_step_from_json_dict] with [OpStep.__init__]; the registry
    maps the name of an operation to its meta-information object. *)
Definition new_op_step (json_dict : pyval) (registry : list (string * nat))
  : M heap (option nat) :=
  op_name ← query (λ _, json_get "op" json_dict);
  match present op_name with
  | None => mret None
  | Some operation =>
      node_id ← query (λ _, json_get "id" json_dict ≫= json_text);
      if negb (truthy operation) then raise (ValueError MissingField) else
      match operation with
      | VStr name =>
          match dict_get name registry with
          | Some meta => step ← new_node OpStep meta node_id; mret (Some step)
          | None => raise (ValueError UnknownOperation)
          end
      | _ => raise Unsupported
      end
  end.

(** [WorkflowStep.new_step_from_json_dict] with [WorkflowStep.__init__] *)
Definition new_workflow_step (json_dict : pyval) (registry : list (string * nat))
  : M heap (option nat) :=
  resource ← query (λ _, json_get "workflow" json_dict);
  match present resource with
  | None => mret None
  | Some (VStr resource) =>
      workflow ← load resource registry;
      node_id ← query (λ _, json_get "id" json_dict ≫= json_text);
      if negb (truthy_str resource) then raise (ValueError MissingField) else
      wnd ← get_node workflow;
      step ← new_node (WorkflowStep workflow resource) (_op_meta_info wnd) node_id;
      for_each (dict_keys (_inputs wnd)) (λ name,
        snd ← get_node step;
        if dict_in name (_inputs snd)
        then set_source (PortRef workflow false name) (Some (PortRef step false name))
        else raise AssertionError);;
      mret (Some step)
  | Some _ => raise Unsupported
  end.

(** [ExpressionStep.new_step_from_json_dict] with [ExpressionStep.__init__] *)
Definition new_expression_step (json_dict : pyval) : M heap (option nat) :=
  expression ← query (λ _, json_get "expression" json_dict);
  match present expression with
  | None => mret None
  | Some expr =>
      node_id ← query (λ _, json_get "id" json_dict ≫= json_text);
      if negb (truthy expr) then raise (ValueError MissingField) else
      match expr with
      | VStr expression =>
          name ← node_name "ExpressionStep" node_id;
          meta ← alloc_meta (new_expression_op (new_meta name [] [] []) expression);
          step ← new_node (ExpressionStep expression) meta (Some name); mret (Some step)
      | _ => raise Unsupported
      end
  end.

(** [NoOpStep.new_step_from_json_dict] with [NoOpStep.__init__] *)
Definition new_no_op_step (json_dict : pyval) : M heap (option nat) :=
  no_op ← query (λ _, json_get "no_op" json_dict);
  match present no_op with
  | None => mret None
  | Some _ =>
      node_id ← query (λ _, json_get "id" json_dict ≫= json_text);
      name ← node_name "NoOpStep" node_id;
      meta ← alloc_meta (new_meta name [] [] [(RETURN_OUTPUT_NAME, [])]);
      step ← new_node NoOpStep meta (Some name); mret (Some step)
  end.

(** [SubProcessStep.new_step_from_json_dict] with [SubProcessStep.__init__] *)
Definition new_sub_process_step (json_dict : pyval) : M heap (option nat) :=
  command ← query (λ _, json_get "command" json_dict);
  match present command with
  | None => mret None
  | Some cmd =>
      let arg := λ key or_else, json_get key json_dict ≫= λ v, Ok (default or_else v) in
      run_python ← query (λ _, arg "run_python" VNone);
      cwd ← query (λ _, arg "cwd" VNone);
      env ← query (λ _, arg "env" VNone);
      shell ← query (λ _, arg "shell" (VBool false));
      started_re ← query (λ _, arg "started_re" VNone);
      progress_re ← query (λ _, arg "progress_re" VNone);
      done_re ← query (λ _, arg "done_re" VNone);
      node_id ← query (λ _, json_get "id" json_dict ≫= json_text);
      if negb (truthy cmd) then raise (ValueError MissingField) else
      match cmd with
      | VStr command =>
          let args := SubProcessArgs run_python cwd env shell started_re progress_re done_re in
          name ← node_name "SubProcessStep" node_id;
          meta ← alloc_meta (new_subprocess_op
                               (new_meta name [] [] [(RETURN_OUTPUT_NAME, [])]) command args);
          step ← new_node (SubProcessStep command args) meta (Some name); mret (Some step)
      | _ => raise Unsupported
      end
  end.

Definition new_step_from_json_dict (c : step_class) (json_dict : pyval)
    (registry : list (string * nat)) : M heap (option nat) :=
  match c with
  | COpStep => new_op_step json_dict registry
  | CWorkflowStep => new_workflow_step json_dict registry
  | CExpressionStep => new_expression_step json_dict
  | CNoOpStep => new_no_op_step json_dict
  | CSubProcessStep => new_sub_process_step json_dict
  end.

(** One round of the two loops of [Step.from_json_dict]: the entry [name]
    of the ["inputs"] (or ["outputs"]) object of the step's JSON. *)
Definition port_from_json_entry (step : nat) (is_output : bool) (name : string)
    (port_json : pyval) : M heap unit :=
  nd ← get_node step;
  (if dict_in name (namespace nd is_output) then mret () else
     (* update op_meta_info, then create a new port *)
     mi ← get_meta (_op_meta_info nd);
     put_meta (_op_meta_info nd)
       (with_meta_ports mi is_output
          (dict_set name (default [] (dict_get name (meta_ports mi is_output)))
             (meta_ports mi is_output)));;
     mi ← get_meta (_op_meta_info nd);
     (if dict_in name (inputs mi) || dict_in name (outputs mi) then mret ()
      else raise AssertionError);;
     put_node step (with_namespace nd is_output
                      (dict_set name new_port (namespace nd is_output))));;
  from_json (PortRef step is_output name) port_json.

(** [d.items()] of a JSON value *)
Definition json_items (x : pyval) : outcome (list (string * pyval)) :=
  match x with
  | VDict d => Ok d
  | VCache _ c => Ok (items c)
  | _ => Raise (AttributeError "items")
  end.

Definition ports_from_json (step : nat) (is_output : bool) (json_dict : pyval) : M heap unit :=
  ports_json ← query (λ _, json_get (if is_output then "outputs" else "inputs") json_dict);
  entries ← query (λ _, json_items (default (VDict []) ports_json));
  for_each entries (λ entry, port_from_json_entry step is_output entry.1 entry.2).

(** [Step.from_json_dict] of the class [c] *)
Definition step_from_json_dict (c : step_class) (json_dict : pyval)
    (registry : list (string * nat)) : M heap (option nat) :=
  new ← new_step_from_json_dict c json_dict registry;
  match new with
  | None => mret None
  | Some step =>
      persistent ← query (λ _, json_get "persistent" json_dict);
      nd ← get_node step;
      put_node step (with_persistent nd (truthy (default (VBool false) persistent)));;
      ports_from_json step false json_dict;;
      ports_from_json step true json_dict;;
      mret (Some step)
  end.

(** [OrderedDict(pairs)], and a dict filled key by key in a loop. *)
Definition dict_of {V} (pairs : list (string * V)) : list (string * V) :=
  dict_update [] pairs.

(** [Step.get_inputs_json_dict] and [Step.get_outputs_json_dict] *)
Fixpoint ports_to_json (h : heap) (ports : list port_ref) : outcome (list (string * pyval)) :=
  match ports with
  | [] => Ok []
  | p :: rest =>
      port_json ← to_json h p false;
      tail ← ports_to_json h rest;
      Ok ((port_name p, port_json) :: tail)
  end.

(** One round of the loop of [OpStep.get_inputs_json_dict]: the JSON of an
    input, if it is stored at all. *)
Definition op_input_to_json (h : heap) (mi : OpMetaInfo) (p : port_ref)
  : outcome (option pyval) :=
  input_json_dict ← to_json h p false;
  port ← port_at h p;
  let kept :=
    if truthy input_json_dict && is_value port then
      match dict_get (port_name p) (inputs mi) with
      | Some input_props =>
          if bool_decide (length input_props = 0%nat) then true else
          (* the value of a port that [is_value] is its own [_value] *)
          negb (pyval_eqb (_value port)
                  (default VUndefined (dict_get "default_value" input_props)))
      | None => true
      end
    else true in
  Ok (if kept && truthy input_json_dict then Some input_json_dict else None).

Fixpoint op_inputs_to_json (h : heap) (mi : OpMetaInfo) (ports : list port_ref)
  : outcome (list (string * pyval)) :=
  match ports with
  | [] => Ok []
  | p :: rest =>
      input_json ← op_input_to_json h mi p;
      tail ← op_inputs_to_json h mi rest;
      Ok (match input_json with
          | Some j => (port_name p, j) :: tail
          | None => tail
          end)
  end.

Definition get_inputs_json_dict (h : heap) (step : nat) (nd : Node) (mi : OpMetaInfo)
  : outcome (option (list (string * pyval))) :=
  match cls nd with
  | OpStep => d ← op_inputs_to_json h mi (input_ports step nd); Ok (Some (dict_of d))
  | _ => d ← ports_to_json h (input_ports step nd); Ok (Some (dict_of d))
  end.

Definition get_outputs_json_dict (h : heap) (step : nat) (nd : Node)
  : outcome (option (list (string * pyval))) :=
  match cls nd with
  | OpStep => Ok None
  | _ => d ← ports_to_json h (output_ports step nd); Ok (Some (dict_of d))
  end.

(** [enhance_json_dict] of the step classes *)
Definition enhance_json_dict (nd : Node) (mi : OpMetaInfo) (node_dict : list (string * pyval))
  : outcome (list (string * pyval)) :=
  match cls nd with
  | OpStep => Ok (dict_set "op" (VStr (qualified_name mi)) node_dict)
  | WorkflowStep _ resource => Ok (dict_set "workflow" (VStr resource) node_dict)
  | ExpressionStep expression => Ok (dict_set "expression" (VStr expression) node_dict)
  | NoOpStep => Ok (dict_set "no_op" (VBool true) node_dict)
  | SubProcessStep command args =>
      let opt := λ key v (d : list (string * pyval)), if truthy v then dict_set key v d else d in
      Ok (opt "done_re" (_done_re args)
            (opt "progress_re" (_progress_re args)
               (opt "started_re" (_started_re args)
                  (opt "shell" (_shell args)
                     (opt "env" (_env args)
                        (opt "cwd" (_cwd args)
                           (opt "run_python" (_run_python args)
                              (dict_set "command" (VStr command) node_dict))))))))
  | Workflow => Raise Unsupported   (* the steps of a workflow are [Step] objects *)
  end.

(** [Step.to_json_dict] *)
Definition step_to_json_dict (h : heap) (step : nat) : outcome pyval :=
  nd ← node_at h step;
  mi ← meta_at h (_op_meta_info nd);
  let step_json_dict := dict_set "id" (VStr (_id nd)) [] in
  let step_json_dict :=
    if _persistent nd then dict_set "persistent" (VBool true) step_json_dict
    else step_json_dict in
  step_json_dict ← enhance_json_dict nd mi step_json_dict;
  inputs_json_dict ← get_inputs_json_dict h step nd mi;
  let step_json_dict :=
    match inputs_json_dict with
    | Some d => dict_set "inputs" (VDict d) step_json_dict
    | None => step_json_dict
    end in
  outputs_json_dict ← get_outputs_json_dict h step nd;
  let step_json_dict :=
    match outputs_json_dict with
    | Some d => dict_set "outputs" (VDict d) step_json_dict
    | None => step_json_dict
    end in
  Ok (VDict step_json_dict).

(** The first two loops of [Workflow.to_json_dict]: the JSON of each port,
    updated with the properties the meta-information has under its name. *)
Fixpoint workflow_ports_to_json (h : heap) (described : list (string * list (string * pyval)))
    (ports : list port_ref) : outcome (list (string * list (string * pyval))) :=
  match ports with
  | [] => Ok []
  | p :: rest =>
      port_json ← to_json h p true;
      port_json_dict ← json_items port_json;
      tail ← workflow_ports_to_json h described rest;
      Ok ((port_name p,
           match dict_get (port_name p) described with
           | Some props => dict_update port_json_dict props
           | None => port_json_dict
           end) :: tail)
  end.

Fixpoint steps_to_json (h : heap) (steps : list nat) : outcome (list pyval) :=
  match steps with
  | [] => Ok []
  | step :: rest =>
      step_json ← step_to_json_dict h step;
      tail ← steps_to_json h rest;
      Ok (step_json :: tail)
  end.

Definition WORKFLOW_SCHEMA_VERSION : Z := 1.
Definition WORKFLOW_SCHEMA_VERSION_TAG : string := "schema_version".

(** [Workflow.to_json_dict] *)
Definition to_json_dict (h : heap) (self : nat) : outcome pyval :=
  nd ← node_at h self;
  mi ← meta_at h (_op_meta_info nd);
  inputs_json_dict ← workflow_ports_to_json h (inputs mi) (input_ports self nd);
  outputs_json_dict ← workflow_ports_to_json h (outputs mi) (output_ports self nd);
  steps_json_list ← steps_to_json h (_steps nd);
  Ok (VDict (dict_of [
    (WORKFLOW_SCHEMA_VERSION_TAG, VInt WORKFLOW_SCHEMA_VERSION);
    ("qualified_name", VStr (qualified_name mi));
    ("header", VDict (header mi));
    ("inputs", VDict (object_dict_to_json_dict (dict_of inputs_json_dict)));
    ("outputs", VDict (object_dict_to_json_dict (dict_of outputs_json_dict)));
    ("steps", VList steps_json_list)])).

Definition step_classes : list step_class :=
  [COpStep; CWorkflowStep; CExpressionStep; CNoOpStep; CSubProcessStep].

(** The inner loop of [Workflow.from_json_dict]: the first class that
    recognises the step. *)
Fixpoint step_of_json (classes : list step_class) (step_json_dict : pyval)
    (registry : list (string * nat)) : M heap (option nat) :=
  match classes with
  | [] => mret None
  | node_class :: rest =>
      node ← step_from_json_dict node_class step_json_dict registry;
      match node with
      | Some step => mret (Some step)
      | None => step_of_json rest step_json_dict registry
      end
  end.

Fixpoint steps_of_json (steps_json_list : list pyval) (registry : list (string * nat))
  : M heap (list nat) :=
  match steps_json_list with
  | [] => mret []
  | step_json_dict :: rest =>
      node ← step_of_json step_classes step_json_dict registry;
      match node with
      | Some step => steps ← steps_of_json rest registry; mret (step :: steps)
      | None => raise (ValueError UnknownStepKind)
      end
  end.

(** Modelled from the spec: what the constructor of the absent class
    [OpMetaInfo] keeps of a [header] argument, [header if header else
    dict()]. *)
Definition header_of_json (v : pyval) : outcome (list (string * pyval)) :=
  match v with
  | VDict d => Ok d
  | _ => if truthy v then Raise Unsupported else Ok []
  end.

(** [Workflow.from_json_dict] *)
Definition from_json_dict (workflow_json_dict : pyval) (registry : list (string * nat))
  : M heap nat :=
  qualified_name ← query (λ _, json_get "qualified_name" workflow_json_dict);
  match present qualified_name with
  | None => raise (ValueError MissingField)
  | Some (VStr qualified_name) =>
      header_json_dict ← query (λ _, json_get "header" workflow_json_dict);
      inputs_json_dict ← query (λ _, json_get "inputs" workflow_json_dict);
      outputs_json_dict ← query (λ _, json_get "outputs" workflow_json_dict);
      steps_json_list ← query (λ _, json_get "steps" workflow_json_dict);
      let inputs_json_dict := default (VDict []) inputs_json_dict in
      let outputs_json_dict := default (VDict []) outputs_json_dict in
      inputs_obj_dict ← query (λ _, json_items inputs_json_dict ≫= json_dict_to_object_dict);
      outputs_obj_dict ← query (λ _, json_items outputs_json_dict ≫= json_dict_to_object_dict);
      header ← query (λ _, header_of_json (default (VDict []) header_json_dict));
      op_meta_info ← alloc_meta (new_meta qualified_name header inputs_obj_dict outputs_obj_dict);
      steps ← match default (VList []) steps_json_list with
              | VList l => steps_of_json l registry
              | _ => raise Unsupported
              end;
      workflow ← new_node Workflow op_meta_info (Some qualified_name);
      for_each steps (λ step, _ ← add_step workflow step false; mret ());;
      nd ← get_node workflow;
      for_each (input_ports workflow nd) (λ node_input,
        port_json ← query (λ _, json_get (port_name node_input) inputs_json_dict);
        from_json node_input (default VNone port_json));;
      for_each (output_ports workflow nd) (λ node_output,
        port_json ← query (λ _, json_get (port_name node_output) outputs_json_dict);
        from_json node_output (default VNone port_json));;
      update_sources workflow;;
      mret workflow
  | Some _ => raise Unsupported
  end.

End json.

(** The port a well-formed port JSON stands for, as [from_json] reads it:
    nothing ([None] or an object with neither key), a source reference (a
    text, or an object with ["source"] and no ["value"]), or a literal (an
    object with ["value"] and no ["source"]), which [from_value] converts. *)
Inductive port_json_denotes (from_value : pyval → pyval) : pyval → NodePort → Prop :=
  | denotes_none : port_json_denotes from_value VNone new_port
  | denotes_unset d :
      dict_get "source" d = None → dict_get "value" d = None →
      port_json_denotes from_value (VDict d) new_port
  | denotes_text s ref :
      parse_source s = Ok ref →
      port_json_denotes from_value (VStr s) (mkPort (Some ref) None VUndefined)
  | denotes_source d s ref :
      dict_get "source" d = Some (VStr s) → dict_get "value" d = None →
      parse_source s = Ok ref →
      port_json_denotes from_value (VDict d) (mkPort (Some ref) None VUndefined)
  | denotes_value d v :
      dict_get "source" d = None → dict_get "value" d = Some v →
      port_json_denotes from_value (VDict d) (mkPort None None (from_value v)).

(** A [data_type] that offers none of the conversion methods. *)
Definition no_conversion (data_type v : pyval) : option pyval := None.

(** ** The structure of a workflow

    What "structurally identical" compares: the qualified name, the header
    and the id of the workflow, the properties of its inputs and outputs,
    and per port of the workflow and of each step, in order, the source it
    is bound to and, on an input, its literal value; per step also its
    class, its operation, its id and its persistence flag.  A source is
    named by the place of its node in the workflow, not by an address.
    The keys ["source"] and ["value"] of a property map are left out of the
    comparison. *)
Fixpoint collect {A B} (f : A → outcome B) (l : list A) : outcome (list B) :=
  match l with
  | [] => Ok []
  | x :: rest => y ← f x; ys ← collect f rest; Ok (y :: ys)
  end.

Inductive place := Root | Child (i : nat) | Elsewhere (n : nat).

Definition place_of (workflow : nat) (steps : list nat) (n : nat) : place :=
  if decide (n = workflow) then Root
  else match list_index n steps with
       | Some i => Child i
       | None => Elsewhere n
       end.

Record port_structure := PortStructure {
  bound_to : option (place * bool * string);
  literal : pyval;
}.

Record step_structure := StepStructure {
  step_class_of : node_class;
  step_op : option nat;
  step_id : string;
  step_persistent : bool;
  step_inputs : list (string * port_structure);
  step_outputs : list (string * port_structure);
}.

Record workflow_structure := WorkflowStructure {
  workflow_id : string;
  workflow_qualified_name : string;
  workflow_header : list (string * pyval);
  workflow_input_props : list (string * list (string * pyval));
  workflow_output_props : list (string * list (string * pyval));
  workflow_inputs : list (string * port_structure);
  workflow_outputs : list (string * port_structure);
  workflow_steps : list step_structure;
}.

Definition port_structure_of (h : heap) (workflow : nat) (steps : list nat) (p : port_ref)
  : outcome (string * port_structure) :=
  port ← port_at h p;
  Ok (port_name p,
      match _source port with
      | Some q =>
          PortStructure
            (Some (place_of workflow steps (port_node q), port_is_output q, port_name q))
            VUndefined
      | None => PortStructure None (if port_is_output p then VUndefined else _value port)
      end).

Definition step_structure_of (h : heap) (workflow : nat) (steps : list nat) (step : nat)
  : outcome step_structure :=
  nd ← node_at h step;
  ins ← collect (port_structure_of h workflow steps) (input_ports step nd);
  outs ← collect (port_structure_of h workflow steps) (output_ports step nd);
  Ok (StepStructure (cls nd)
        (match cls nd with
         | OpStep => Some (_op_meta_info nd)
         | _ => None
         end)
        (_id nd) (_persistent nd) ins outs).

Definition described (props : list (string * pyval)) : list (string * pyval) :=
  filter (λ kv, kv.1 ≠ "source" ∧ kv.1 ≠ "value") props.

Definition structure_of (h : heap) (workflow : nat) : outcome workflow_structure :=
  nd ← node_at h workflow;
  mi ← meta_at h (_op_meta_info nd);
  ins ← collect (port_structure_of h workflow (_steps nd)) (input_ports workflow nd);
  outs ← collect (port_structure_of h workflow (_steps nd)) (output_ports workflow nd);
  steps ← collect (step_structure_of h workflow (_steps nd)) (_steps nd);
  Ok (WorkflowStructure (_id nd) (qualified_name mi) (header mi)
        ((λ kv, (kv.1, described kv.2)) <$> inputs mi)
        ((λ kv, (kv.1, described kv.2)) <$> outputs mi)
        ins outs steps).

(** ** Workflows that the JSON form can carry

    [round_trip_ready] collects what a workflow needs so that loading its
    JSON gives its structure back. *)
Definition node_id (h : heap) (n : nat) : string :=
  match nodes h !! n with
  | Some nd => _id nd
  | None => ""
  end.

(** A bound port: its source is another port of the workflow or of one of
    its steps, and the text written for it, ["<node>.<port>"], or
    ["<node>"] for a port named ["return"], leads back to it. *)
Definition source_round_trips (h : heap) (workflow : nat) (steps : list nat)
    (p q : port_ref) : Prop :=
  q ≠ p
  ∧ (port_node q = workflow ∨ port_node q ∈ steps)
  ∧ ∃ qnd, nodes h !! port_node q = Some qnd
      ∧ if decide (port_name q = RETURN_OUTPUT_NAME)
        then rsplit_dot (_id qnd) = None ∧ output_ports (port_node q) qnd = [q]
        else rsplit_dot (port_name q) = None ∧ port_name q ≠ ""
             ∧ find_port (port_node q) qnd (port_name q) = Some q.

Section round_trip_ready.
Variable type_to_json : pyval → pyval → option pyval.
Variable type_from_json : pyval → pyval → option pyval.

(** A literal on an input: it is written at all (the name is no output
    name, and on an [OpStep] the value differs from a declared default), and
    the conversions of its [data_type] lead back to it. *)
Definition literal_round_trips (nd : Node) (mi : OpMetaInfo) (name : string) (v : pyval)
  : Prop :=
  dict_get name (outputs mi) = None
  ∧ match cls nd with
    | NoOpStep => _to_json_value type_to_json mi name v = v
    | OpStep =>
        _from_json_value type_from_json mi name (_to_json_value type_to_json mi name v) = v
        ∧ match dict_get name (inputs mi) with
          | Some ((_ :: _) as input_props) =>
              pyval_eqb v (default VUndefined (dict_get "default_value" input_props)) = false
          | _ => True
          end
    | _ => _from_json_value type_from_json mi name (_to_json_value type_to_json mi name v) = v
    end.

Definition port_round_trips (h : heap) (workflow : nat) (steps : list nat)
    (nd : Node) (mi : OpMetaInfo) (p : port_ref) : Prop :=
  ∃ port, port_at h p = Ok port
    ∧ match _source port with
      | Some q =>
          source_round_trips h workflow steps p q
          ∧ (cls nd = OpStep → port_is_output p = false)
      | None =>
          port_is_output p = false → is_undefined (_value port) = false →
          literal_round_trips nd mi (port_name p) (_value port)
      end.

(** A step: a [NoOpStep] whose first output is ["return"], or an [OpStep]
    of a registered operation; its ports are those its meta-information
    declares. *)
Definition step_round_trips (registry : list (string * nat)) (h : heap) (workflow : nat)
    (steps : list nat) (step : nat) : Prop :=
  ∃ nd mi, nodes h !! step = Some nd
    ∧ metas h !! _op_meta_info nd = Some mi
    ∧ _id nd ≠ ""
    ∧ dict_keys (_inputs nd) = dict_keys (inputs mi)
    ∧ dict_keys (_outputs nd) = dict_keys (outputs mi)
    ∧ NoDup (dict_keys (_inputs nd))
    ∧ NoDup (dict_keys (_outputs nd))
    ∧ match cls nd with
      | NoOpStep => head (dict_keys (_outputs nd)) = Some RETURN_OUTPUT_NAME
      | OpStep =>
          dict_get (qualified_name mi) registry = Some (_op_meta_info nd)
          ∧ qualified_name mi ≠ ""
      | _ => False
      end
    ∧ Forall (port_round_trips h workflow steps nd mi) (all_ports step nd).

(** The properties of a port of the workflow: no key twice, no key
    ["source"] or ["value"], and a [data_type] that its encoding leads back
    to. *)
Definition props_round_trip (props : list (string * pyval)) : Prop :=
  NoDup (dict_keys props)
  ∧ dict_get "source" props = None
  ∧ dict_get "value" props = None
  ∧ props_of_json (props_to_json props) = props.

Definition round_trip_ready (registry : list (string * nat)) (h : heap) (workflow : nat)
  : Prop :=
  ∃ nd mi, nodes h !! workflow = Some nd
    ∧ metas h !! _op_meta_info nd = Some mi
    ∧ cls nd = Workflow
    ∧ _id nd = qualified_name mi
    ∧ qualified_name mi ≠ ""
    ∧ dict_keys (_inputs nd) = dict_keys (inputs mi)
    ∧ dict_keys (_outputs nd) = dict_keys (outputs mi)
    ∧ NoDup (dict_keys (_inputs nd))
    ∧ NoDup (dict_keys (_outputs nd))
    ∧ Forall props_round_trip (inputs mi).*2
    ∧ Forall props_round_trip (outputs mi).*2
    ∧ NoDup (_id nd :: (node_id h <$> _steps nd))
    ∧ Forall (step_round_trips registry h workflow (_steps nd)) (_steps nd)
    ∧ Forall (port_round_trips h workflow (_steps nd) nd mi) (all_ports workflow nd).

End round_trip_ready.

(** The port that reading the JSON of a port gives, before references are
    resolved: the reference by id and name that the text of the source
    parses to, or the literal of an input. *)
Definition reloaded (h : heap) (p : port_ref) (port : NodePort) : NodePort :=
  match _source port with
  | Some q =>
      mkPort (Some (PlainPair (Some (node_id h (port_node q)))
                      (if decide (port_name q = RETURN_OUTPUT_NAME) then None
                       else Some (port_name q))))
        None VUndefined
  | None => if port_is_output p then new_port else mkPort None None (_value port)
  end.

(** Collaborators for the examples: object ids are not shown, no workflow
    file can be loaded, expression and sub-process operations keep the
    meta-information they are given, and every operation can be cached. *)
Definition no_hex_id (addr : nat) : string := "".
Definition no_load (resource : string) (registry : list (string * nat)) : M heap nat :=
  raise OperationError.
Definition same_meta (mi : OpMetaInfo) (text : string) : OpMetaInfo := mi.
Definition same_meta_args (mi : OpMetaInfo) (command : string) (args : subprocess_args)
  : OpMetaInfo := mi.
Definition always_can_cache (hdr : list (string * pyval)) : bool := true.

Definition load_workflow (workflow_json_dict : pyval) (registry : list (string * nat))
  : M heap nat :=
  from_json_dict no_conversion no_hex_id same_meta same_meta_args no_load always_can_cache
    workflow_json_dict registry.

(** Workflow "wf" with the single step "s", an [OpStep] of the operation
    "scale" whose input "factor" declares the default 8; the operation is
    registered under its name.  In [default_literal_store] the input holds
    the literal 8, in [other_literal_store] the literal 7. *)
Definition scale_registry : list (string * nat) := [("scale", 1%nat)].

Definition scale_store (factor : Z) : heap := Heap
  [ mkNode Workflow "wf" 0 false [] [("return", bound "s" (PortRef 1 true "return"))]
      None [1%nat] {["s" := 1%nat]};
    mkNode OpStep "s" 1 false [("factor", mkPort None None (VInt factor))]
      [("return", new_port)] (Some 0%nat) [] ∅ ]
  [ mkMeta "wf" [] [] [("return", [])] true;
    mkMeta "scale" [] [("factor", [("default_value", VInt 8)])] [("return", [])] true ].

Definition default_literal_store : heap := scale_store 8.
Definition other_literal_store : heap := scale_store 7.

(** The ports and the meta-information entries that a list of entries
    (name, port JSON, port) stands for. *)
Definition entry_ports (l : list (string * pyval * NodePort)) : list (string * NodePort) :=
  (λ e, (e.1.1, e.2)) <$> l.
Definition entry_props (l : list (string * pyval * NodePort))
  : list (string * list (string * pyval)) :=
  (λ e, (e.1.1, [])) <$> l.
Definition entry_json (l : list (string * pyval * NodePort)) : list (string * pyval) :=
  (λ e, e.1) <$> l.

(** The entry that writing a port of a step and reading it back gives: the
    name, the JSON and the [reloaded] port. *)
Definition written_entry (type_to_json : pyval → pyval → option pyval) (h : heap)
    (p : port_ref) : string * pyval * NodePort :=
  (port_name p,
   match to_json type_to_json h p false with
   | Ok port_json => port_json
   | Raise _ => VNone
   end,
   match port_at h p with
   | Ok port => reloaded h p port
   | Raise _ => new_port
   end).

(** The conversion that reading a literal of a node of this class meets:
    a [NoOpStep] is read back without properties. *)
Definition from_value_of (type_from_json : pyval → pyval → option pyval) (nd : Node)
    (mi : OpMetaInfo) (name : string) : pyval → pyval :=
  match cls nd with
  | NoOpStep => λ v, v
  | _ => _from_json_value type_from_json mi name
  end.

(** [nd'] is what reading the JSON of the step [nd] gives before the step
    is added to a workflow: the class, the id, the persistence flag and, for
    an [OpStep], the operation of [nd], no parent, and the [reloaded] port
    under every port name of [nd]. *)
Definition reloaded_step (h : heap) (step : nat) (nd nd' : Node) : Prop :=
  cls nd' = cls nd
  ∧ _id nd' = _id nd
  ∧ _persistent nd' = _persistent nd
  ∧ _parent_node nd' = None
  ∧ (cls nd = OpStep → _op_meta_info nd' = _op_meta_info nd)
  ∧ dict_keys (_inputs nd') = dict_keys (_inputs nd)
  ∧ dict_keys (_outputs nd') = dict_keys (_outputs nd)
  ∧ ∀ b name port, dict_get name (namespace nd b) = Some port →
      dict_get name (namespace nd' b) = Some (reloaded h (PortRef step b name) port).

(** The [_steps_dict] after [add_steps] has added the nodes [nds], stored
    from address [start] on, to a workflow whose [_steps_dict] was [d]. *)
Fixpoint index_ids (start : nat) (nds : list Node) (d : gmap string nat) : gmap string nat :=
  match nds with
  | [] => d
  | nd :: rest => index_ids (S start) rest (<[_id nd := start]> d)
  end.

(** The properties written for a port of the workflow: the JSON of the port
    followed by the properties the meta-information has under its name. *)
Definition written_props (type_to_json : pyval → pyval → option pyval) (h : heap)
    (described : list (string * list (string * pyval))) (p : port_ref)
  : list (string * pyval) :=
  match to_json type_to_json h p true with
  | Ok (VDict d) => d
  | _ => []
  end ++ default [] (dict_get (port_name p) described).

Definition written_workflow_entry (type_to_json : pyval → pyval → option pyval) (h : heap)
    (described : list (string * list (string * pyval))) (p : port_ref)
  : string * pyval * NodePort :=
  (port_name p,
   VDict (props_to_json (written_props type_to_json h described p)),
   match port_at h p with
   | Ok port => reloaded h p port
   | Raise _ => new_port
   end).

(** ** Resolving references

    [target h self ref] is the port that [update_source] finds for the
    reference [ref] held by the port [self]; it is [None] for a reference
    without node id and port name, which [update_source] leaves alone. *)
Definition target (h : heap) (self : port_ref) (ref : source_ref)
  : outcome (option port_ref) :=
  match given (unpack_ref ref).1, given (unpack_ref ref).2 with
  | Some other_node_id, Some name =>
      other_node ← locate_node h (port_node self) other_node_id;
      match other_node with
      | Some on =>
          ond ← node_at h on;
          match find_port on ond name with
          | Some node_port => Ok (Some node_port)
          | None => Raise (ValueError UnknownPort)
          end
      | None => Raise (ValueError UnknownNode)
      end
  | Some other_node_id, None =>
      other_node ← locate_node h (port_node self) other_node_id;
      match other_node with
      | Some on =>
          ond ← node_at h on;
          match output_ports on ond with
          | [node_port] => Ok (Some node_port)
          | _ => Raise (ValueError AmbiguousNode)
          end
      | None => Raise (ValueError UnknownNode)
      end
  | None, Some name =>
      found ← find_port_in_scope (S (length (nodes h))) h (port_node self) name;
      match found with
      | Some node_port => Ok (Some node_port)
      | None => Raise (ValueError UnknownPortInScope)
      end
  | None, None => Ok None
  end.

(** The port [update_source] leaves behind where it returns. *)
Definition rebound (h : heap) (self : port_ref) (port : NodePort) : NodePort :=
  match _source_ref port with
  | Some ref =>
      match target h self ref with
      | Ok (Some q) =>
          mkPort (Some (SourceRef (node_id h (port_node q)) (port_name q))) (Some q) VUndefined
      | _ => port
      end
  | None => port
  end.

(** [updated ports h h']: [h'] is [h] with every port of [ports]
    [rebound]. *)
Definition updated (ports : list port_ref) (h h' : heap) : Prop :=
  same_shape h h'
  ∧ ∀ p port, port_at h p = Ok port →
      port_at h' p = Ok (if bool_decide (p ∈ ports) then rebound h p port else port).

(** A port whose reference, if it has one, denotes another port of the
    store. *)
Definition resolvable (h : heap) (p : port_ref) : Prop :=
  ∃ port, port_at h p = Ok port
    ∧ ∀ ref, _source_ref port = Some ref →
        ∃ q x, target h p ref = Ok (Some q) ∧ q ≠ p ∧ port_at h q = Ok x.

(** ** The store after the JSON was read

    Reading the JSON of the workflow at [workflow] in the store [h] stores
    its steps from address [length (nodes h)] on, in their order, and the
    workflow itself right after them. *)
Definition new_address (h : heap) (workflow : nat) (steps : list nat) (n : nat) : nat :=
  if decide (n = workflow) then (length (nodes h) + length steps)%nat
  else (length (nodes h) + default O (list_index n steps))%nat.

Definition new_port_ref (h : heap) (workflow : nat) (steps : list nat) (p : port_ref)
  : port_ref :=
  PortRef (new_address h workflow steps (port_node p)) (port_is_output p) (port_name p).

(** [g] holds the workflow [nd] of [h] as read from its JSON, references
    not yet resolved: the new workflow has the id of [nd], the new steps as
    its steps, under their ids, and the [reloaded] port under every port
    name of [nd]; each new step is the [reloaded_step] of the step in its
    place, with the new workflow as parent. *)
Definition reloaded_tree (h : heap) (workflow : nat) (nd : Node) (g : heap) : Prop :=
  let base := length (nodes h) in
  let self := (base + length (_steps nd))%nat in
  (∃ wnd, nodes g !! self = Some wnd
     ∧ cls wnd = Workflow
     ∧ _id wnd = _id nd
     ∧ _steps wnd = seq base (length (_steps nd))
     ∧ (∀ i step, _steps nd !! i = Some step →
          _steps_dict wnd !! node_id h step = Some (base + i)%nat)
     ∧ dict_keys (_inputs wnd) = dict_keys (_inputs nd)
     ∧ dict_keys (_outputs wnd) = dict_keys (_outputs nd)
     ∧ ∀ b name port, dict_get name (namespace nd b) = Some port →
         dict_get name (namespace wnd b) = Some (reloaded h (PortRef workflow b name) port))
  ∧ ∀ i step, _steps nd !! i = Some step →
      ∃ snd snd', nodes h !! step = Some snd
        ∧ reloaded_step h step snd snd'
        ∧ nodes g !! (base + i)%nat = Some (with_parent snd' (Some self)).

(** The properties written for the ports of one namespace of the workflow,
    which become the properties of the workflow that is read. *)
Definition written_ports_props (type_to_json : pyval → pyval → option pyval) (h : heap)
    (workflow : nat) (nd : Node) (mi : OpMetaInfo) (is_output : bool)
  : list (string * list (string * pyval)) :=
  (λ name, (name, written_props type_to_json h (meta_ports mi is_output)
                    (PortRef workflow is_output name))) <$> dict_keys (namespace nd is_output).

(** ** More of the ValueCache *)

(** [_close_values]: every value is handed to [_close_value], in the order
    of the entries. *)
Definition _close_values : M cache_state unit :=
  '(c, _) ← get_state;
  for_each (dict_values (items c)) _close_value.

(** [clear]: the values are closed, then the entries and the id infos are
    dropped; [_last_id] is not touched.  [close] is [clear]. *)
Definition clear : M cache_state unit :=
  _close_values;;
  modify (λ '(c, tr), (CacheOf [] ∅ (_last_id c), tr)).

Definition close : M cache_state unit := clear.

(** No two keys share an id. *)
Definition ids_unique (c : ValueCache) : Prop :=
  ∀ k k' id n n', _id_infos c !! k = Some (id, n) → _id_infos c !! k' = Some (id, n') → k = k'.

(** A call of one of the methods that change a [ValueCache], and the cache
    after a sequence of such calls, each of which may return or raise. *)
Inductive cache_call :=
  | Assign (key : string) (value : pyval)
  | Delete (key : string)
  | Rename (key new_key : string)
  | GetChild (addr : nat) (key : string)
  | ClearAll.

Definition run_call (call : cache_call) : M cache_state unit :=
  match call with
  | Assign key value => __setitem__ key value
  | Delete key => __delitem__ key
  | Rename key new_key => rename_key key new_key
  | GetChild addr key => _ ← child addr key; mret ()
  | ClearAll => clear
  end.

Fixpoint after_calls (calls : list cache_call) (s : cache_state) : cache_state :=
  match calls with
  | [] => s
  | call :: rest => after_calls rest (run_call call s).2
  end.

(** What a method other than an assignment does to the id infos: nothing,
    the removal of a key, the move of the info of a key to another key, or
    the removal of all. *)
Definition ids_moved (c c1 : ValueCache) : Prop :=
  _last_id c1 = _last_id c
  ∧ (_id_infos c1 = _id_infos c
     ∨ (∃ key, _id_infos c1 = delete key (_id_infos c))
     ∨ (∃ key new_key info, _id_infos c !! key = Some info
          ∧ _id_infos c1 = <[new_key := info]> (delete key (_id_infos c)))
     ∨ _id_infos c1 = ∅).

(** ** Removing a step *)

(** [Workflow.remove_step]; [step_or_id] is an id or a step.  The
    [ValueError] "step '%s' not found" is [UnknownNode]; [list.remove(x)]
    removes the first occurrence or raises a [ValueError], [NotInList]. *)
Definition remove_step (self : nat) (step_or_id : string + nat) (must_exist : bool)
  : M heap (option nat) :=
  step_id ← match step_or_id with
             | inl step_id => mret step_id
             | inr step => nd ← get_node step; mret (_id nd)
             end;
  nd ← get_node self;
  match _steps_dict nd !! step_id with
  | None => if must_exist then raise (ValueError UnknownNode) else mret None
  | Some old_step =>
      put_node self (with_steps nd (_steps nd) (delete step_id (_steps_dict nd)));;
      nd ← get_node self;
      match list_index old_step (_steps nd) with
      | Some i => put_node self (with_steps nd (delete i (_steps nd)) (_steps_dict nd))
      | None => raise (ValueError NotInList)
      end;;
      old_nd ← get_node old_step;
      put_node old_step (with_parent old_nd None);;
      remove_orphaned_sources self old_step;;
      mret (Some old_step)
  end.

(** Workflow "wf" with the step "a"; the step "b", whose input "x" is bound
    to the output of "a", is not part of a workflow. *)
Definition detached_store : heap := store_of [
  a_workflow 0 "wf" [] [] [("a", 1%nat)];
  a_step 1 "a" [] (unbound_ports ["return"]) (Some 0%nat);
  a_step 2 "b" [("x", bound "a" (PortRef 1 true "return"))] (unbound_ports ["return"]) None
].

(** The store after [remove_step] has taken the step [old_step], found at
    index [i], out of the workflow [self], before it looks for orphaned
    sources. *)
Definition step_removed (h : heap) (self old_step : nat) (nd old_nd : Node) (step_id : string)
    (i : nat) : heap :=
  Heap (<[old_step := with_parent old_nd None]>
          (<[self := with_steps nd (delete i (_steps nd)) (delete step_id (_steps_dict nd))]>
             (nodes h)))
       (metas h).

(** ** The steps to compute

    [list.remove(x)]: the first occurrence of [x] goes. *)
Fixpoint list_remove (x : nat) (l : list nat) : list nat :=
  match l with
  | [] => []
  | y :: r => if decide (y = x) then r else y :: list_remove x r
  end.

(** The loop of [collect_predecessors] over the input ports; [collect] is
    the recursive call [port.source.node.collect_predecessors(predecessors,
    excludes)], which updates the list [predecessors]. *)
Fixpoint predecessors_loop (collect : nat → list nat → outcome (list nat))
    (ports : list NodePort) (predecessors : list nat) : outcome (list nat) :=
  match ports with
  | [] => Ok predecessors
  | port :: rest =>
      match _source port with
      | Some src =>
          predecessors ← collect (port_node src) predecessors;
          predecessors_loop collect rest predecessors
      | None => predecessors_loop collect rest predecessors
      end
  end.

(** [Node.collect_predecessors]: the list [predecessors] is passed along and
    returned; [fuel] bounds the depth of the recursion as Python's recursion
    limit does. *)
Fixpoint collect_predecessors (fuel : nat) (h : heap) (excludes : list nat) (self : nat)
    (predecessors : list nat) : outcome (list nat) :=
  match fuel with
  | O => Raise RecursionError
  | S fuel' =>
      if bool_decide (self ∈ excludes) then Ok predecessors else
      nd ← node_at h self;
      predecessors_loop (collect_predecessors fuel' h excludes) (dict_values (_inputs nd))
        (self :: (if bool_decide (self ∈ predecessors) then list_remove self predecessors
                  else predecessors))
  end.

(** [Workflow.find_steps_to_compute]; the [ValueError] for an id that names
    no step is [UnknownNode]. *)
Definition find_steps_to_compute (fuel : nat) (h : heap) (self : nat) (step_id : string)
  : outcome (list nat) :=
  nd ← node_at h self;
  match _steps_dict nd !! step_id with
  | None => Raise (ValueError UnknownNode)
  | Some step => collect_predecessors fuel h [self] step []
  end.

(** Node [a], which is not excluded, has an input bound to a port of node
    [b]; [reaches k a b]: [k] such bindings lead from [a] to [b]. *)
Definition reads_from (h : heap) (excludes : list nat) (a b : nat) : Prop :=
  (a ∉ excludes)
  ∧ ∃ nd port src, nodes h !! a = Some nd ∧ port ∈ dict_values (_inputs nd)
      ∧ _source port = Some src ∧ port_node src = b.

Inductive reaches (h : heap) (excludes : list nat) : nat → nat → nat → Prop :=
  | reaches_here a : reaches h excludes 0 a a
  | reaches_step k a b c :
      reads_from h excludes a b → reaches h excludes k b c → reaches h excludes (S k) a c.

(** [a] stands before [b] in the list. *)
Definition before (l : list nat) (a b : nat) : Prop :=
  ∃ i j, (i < j)%nat ∧ l !! i = Some a ∧ l !! j = Some b.

(** What a visit does to any list without duplicates: the nodes [o] come
    to the front, the others keep their order behind them. *)
Definition moves_to_front (visit : list nat → outcome (list nat)) (o : list nat) : Prop :=
  ∀ p, NoDup p → visit p = Ok (o ++ filter (λ x, x ∉ o) p).

(** Every node of the list that is not excluded has the nodes it reads
    from before it, but for the excluded ones. *)
Definition sources_first (h : heap) (excludes : list nat) (l : list nat) : Prop :=
  ∀ x b, x ∈ l → reads_from h excludes x b → b ∉ excludes → before l b x.

(** Workflow "wf" with the steps "a" and "b", each reading the output of
    the other. *)
Definition cycle_store : heap := store_of [
  a_workflow 0 "wf" [] [] [("a", 1%nat); ("b", 2%nat)];
  a_step 1 "a" [("x", bound "b" (PortRef 2 true "return"))] (unbound_ports ["return"])
    (Some 0%nat);
  a_step 2 "b" [("x", bound "a" (PortRef 1 true "return"))] (unbound_ports ["return"])
    (Some 0%nat)
].

(** Workflow "wf" with the input "x" and the step "s", whose inputs "x" and
    "y" were both read from the text ".x". *)
Definition scope_store : heap := store_of [
  a_workflow 0 "wf" (unbound_ports ["x"]) [] [("s", 1%nat)];
  a_step 1 "s" [("x", mkPort (Some (PlainPair None (Some "x"))) None VUndefined);
                ("y", mkPort (Some (PlainPair None (Some "x"))) None VUndefined)]
    (unbound_ports ["return"]) (Some 0%nat)
].

(** Values of the builtin types that have no [items] attribute. *)
Definition has_no_items (v : pyval) : bool :=
  match v with
  | VNone | VBool _ | VInt _ | VStr _ | VList _ => true
  | _ => false
  end.

(** A step "pair" with the outputs "a" and "b" and the literal input 3. *)
Definition named_outputs_store : heap := store_of [
  a_workflow 0 "wf" [] [] [("pair", 1%nat)];
  a_step 1 "pair" [("x", mkPort None None (VInt 3))] (unbound_ports ["a"; "b"]) (Some 0%nat)
].

(** ** Input values in, output value out *)

(** [Node.set_input_values] *)
Definition set_input_values (self : nat) (input_values : list (string * pyval)) : M heap unit :=
  nd ← get_node self;
  for_each (input_ports self nd) (λ node_input,
    match dict_get (port_name node_input) input_values with
    | Some v => set_value node_input v
    | None => raise (KeyError (port_name node_input))
    end).

(** [Node.get_output_value] *)
Definition get_output_value (fuel : nat) (h : heap) (self : nat) : outcome pyval :=
  nd ← node_at h self;
  mi ← meta_at h (_op_meta_info nd);
  if has_named_outputs mi then
    entries ← collect (λ output, v ← value fuel h output; Ok (port_name output, v))
                (output_ports self nd);
    Ok (VDict (dict_of entries))
  else if dict_in RETURN_OUTPUT_NAME (_outputs nd)
  then value fuel h (PortRef self true RETURN_OUTPUT_NAME)
  else Raise (KeyError RETURN_OUTPUT_NAME).

(** The keyword arguments that inputs holding the values [input_values]
    give: every name in turn, those with the value [UNDEFINED] left out. *)
Fixpoint given_arguments (names : list string) (input_values acc : list (string * pyval))
  : list (string * pyval) :=
  match names with
  | [] => acc
  | name :: rest =>
      given_arguments rest input_values
        match dict_get name input_values with
        | Some v => if is_undefined v then acc else dict_set name v acc
        | None => acc
        end
  end.

(** A step "double" whose input "x" is bound to the input "x" of the
    workflow, and which has a second input "y". *)
Definition two_inputs_store : heap := store_of [
  a_workflow 0 "wf" (unbound_ports ["x"]) [] [("double", 1%nat)];
  a_step 1 "double" [("x", bound "wf" (PortRef 0 false "x")); ("y", new_port)]
    (unbound_ports ["return"]) (Some 0%nat)
].

(** ** Renaming a node *)

(** The port [update_source_node_id] leaves behind when the node at
    [changed], now [cnd], had the id [old_id]. *)
Definition renamed (changed : nat) (cnd : Node) (old_id : string) (port : NodePort) : NodePort :=
  match _source_ref port with
  | Some (SourceRef i name) =>
      if decide (i = old_id) then
        match find_port changed cnd name with
        | Some q => mkPort (Some (SourceRef (_id cnd) name)) (Some q) VUndefined
        | None => new_port
        end
      else port
  | _ => port
  end.

(** The ports [update_source_node_id] returns on: the reference is none or
    a [SourceRef], and the port named is not the port itself. *)
Definition renamable (changed : nat) (cnd : Node) (old_id : string) (p : port_ref)
    (port : NodePort) : Prop :=
  match _source_ref port with
  | Some (SourceRef i name) => i = old_id → find_port changed cnd name ≠ Some p
  | Some (PlainPair _ _) => False
  | None => True
  end.

(** [h'] is [h] with the ports of [ports] [renamed]. *)
Definition ports_renamed (changed : nat) (cnd : Node) (old_id : string)
    (ports : list port_ref) (h h' : heap) : Prop :=
  ∀ q port, port_at h q = Ok port →
    port_at h' q = Ok (if bool_decide (q ∈ ports) then renamed changed cnd old_id port else port).

(** Two states of a node with the same id and the same port names. *)
Definition like (nd nd' : Node) : Prop :=
  _id nd' = _id nd
  ∧ dict_keys (_inputs nd') = dict_keys (_inputs nd)
  ∧ dict_keys (_outputs nd') = dict_keys (_outputs nd).

(** The step lookup of a workflow after the id [old_id] of the node at
    [changed] became [new_id]. *)
Definition rekeyed (nd : Node) (old_id new_id : string) (changed : nat) : Node :=
  match cls nd, _steps_dict nd !! old_id with
  | Workflow, Some _ =>
      with_steps nd (_steps nd) (<[new_id := changed]> (delete old_id (_steps_dict nd)))
  | _, _ => nd
  end.

(** The store with the node at [self] given the id [node_id] and the step
    lookup of the node at [root] [rekeyed]; ports are as before. *)
Definition with_new_id (h : heap) (self root : nat) (node_id : string) : heap :=
  match nodes h !! self with
  | Some nd =>
      let nodes0 := <[self := with_id nd node_id]> (nodes h) in
      match nodes0 !! root with
      | Some rnd0 => Heap (<[root := rekeyed rnd0 (_id nd) node_id self]> nodes0) (metas h)
      | None => Heap nodes0 (metas h)
      end
  | None => h
  end.

(** Workflow "wf" with the steps "a" and "b"; the input "x" of "b" is bound
    to the output of "a". *)
Definition rename_store : heap := store_of [
  a_workflow 0 "wf" [] [] [("a", 1%nat); ("b", 2%nat)];
  a_step 1 "a" [] (unbound_ports ["return"]) (Some 0%nat);
  a_step 2 "b" [("x", bound "a" (PortRef 1 true "return"))] (unbound_ports ["return"])
    (Some 0%nat)
].

(** The keys by which the step classes recognise their JSON. *)
Definition step_keys : list string := ["op"; "workflow"; "expression"; "no_op"; "command"].

(** * Properties *)

(** ** Dictionaries *)
Section dict_facts.
Context {V : Type}.
Implicit Types (d : list (string * V)) (k : string) (v : V).

Lemma dict_get_set_eq k v d : dict_get k (dict_set k v d) = Some v.
Proof.
  induction d as [|[k' v'] r IH]; simpl.
  - by rewrite decide_True.
  - destruct (decide (k' = k)) as [->|Hne]; simpl.
    + by rewrite decide_True.
    + by rewrite decide_False.
Qed.

Lemma dict_get_set_ne k k' v d : k ≠ k' → dict_get k' (dict_set k v d) = dict_get k' d.
Proof.
  intros Hne. induction d as [|[k0 v0] r IH]; simpl.
  - by rewrite decide_False.
  - destruct (decide (k0 = k)) as [->|Hne0]; simpl.
    + by rewrite !decide_False.
    + destruct (decide (k0 = k')); [done | apply IH].
Qed.

Lemma dict_get_del_eq k d : dict_get k (dict_del k d) = None.
Proof.
  induction d as [|[k' v'] r IH]; simpl; [done|].
  destruct (decide (k' = k)); simpl; [done|]. by rewrite decide_False.
Qed.

Lemma dict_get_del_ne k k' d : k ≠ k' → dict_get k' (dict_del k d) = dict_get k' d.
Proof.
  intros Hne. induction d as [|[k0 v0] r IH]; simpl; [done|].
  destruct (decide (k0 = k)) as [->|Hne0]; simpl.
  - by rewrite decide_False.
  - destruct (decide (k0 = k')); [done | apply IH].
Qed.

Lemma dict_set_absent k v d : dict_get k d = None → dict_set k v d = d ++ [(k, v)].
Proof.
  induction d as [|[k' v'] r IH]; simpl; [done|].
  destruct (decide (k' = k)); [done|]. intros H. by rewrite IH.
Qed.

Lemma dict_get_app_l k d d' v : dict_get k d = Some v → dict_get k (d ++ d') = Some v.
Proof.
  induction d as [|[k' v'] r IH]; simpl; [done|].
  destruct (decide (k' = k)); auto.
Qed.

Lemma dict_get_app_r k d d' : dict_get k d = None → dict_get k (d ++ d') = dict_get k d'.
Proof.
  induction d as [|[k' v'] r IH]; simpl; [done|].
  destruct (decide (k' = k)); [done | auto].
Qed.

Lemma dict_in_true k d : dict_in k d = true ↔ is_Some (dict_get k d).
Proof. unfold dict_in. by rewrite bool_decide_eq_true. Qed.

Lemma dict_in_false k d : dict_in k d = false ↔ dict_get k d = None.
Proof.
  unfold dict_in. rewrite bool_decide_eq_false.
  rewrite <- eq_None_not_Some. done.
Qed.
End dict_facts.

(** ** The method monad *)

Ltac munfold :=
  unfold mbind, mret, M_bind, M_ret, outcome_bind, outcome_ret,
    raise, get_state, put_state, modify, query in *.

(** ** ValueCache *)

Lemma setitem_known (c : ValueCache) tr key value id n :
  _id_infos c !! key = Some (id, n) →
  __setitem__ key value (c, tr) =
    (Ok (),
     (CacheOf (dict_set key value (items c)) (<[key := (id, n + 1)]> (_id_infos c)) (_last_id c),
      if py_is (cache_get c key) value then tr else tr ++ close_calls (cache_get c key))).
Proof.
  intros Hid. unfold __setitem__, _set, set_id_info, _close_value. munfold. simpl.
  rewrite Hid. simpl. by destruct (py_is _ _).
Qed.

Lemma setitem_fresh (c : ValueCache) tr key value :
  _id_infos c !! key = None →
  __setitem__ key value (c, tr) =
    (Ok (),
     (CacheOf (dict_set key value (items c))
        (<[key := (_last_id c + 1, 0)]> (_id_infos c)) (_last_id c + 1),
      if py_is (cache_get c key) value then tr else tr ++ close_calls (cache_get c key))).
Proof.
  intros Hid. unfold __setitem__, _set, set_id_info, _gen_id, _close_value. munfold. simpl.
  rewrite Hid. simpl. by destruct (py_is _ _).
Qed.

Lemma assign_all_known (values : list pyval) : ∀ (c : ValueCache) tr key id n,
  _id_infos c !! key = Some (id, n) →
  ∃ c1 tr1, assign_all key values (c, tr) = (Ok (), (c1, tr1))
    ∧ _id_infos c1 !! key = Some (id, n + Z.of_nat (length values))
    ∧ _last_id c1 = _last_id c.
Proof.
  induction values as [|v vs IH]; intros c tr key id n Hid.
  - exists c, tr. simpl. split; [done|]. split; [|done]. rewrite Hid. do 2 f_equal. lia.
  - unfold assign_all. simpl. unfold mbind at 1, M_bind at 1.
    rewrite (setitem_known _ _ _ _ _ _ Hid).
    edestruct (IH (CacheOf (dict_set key v (items c)) (<[key := (id, n + 1)]> (_id_infos c)) (_last_id c))
                 (if py_is (cache_get c key) v then tr else tr ++ close_calls (cache_get c key))
                 key id (n + 1)) as (c1 & tr1 & Hrun & Hid1 & Hlast).
    { simpl. apply lookup_insert_eq. }
    exists c1, tr1. split; [exact Hrun|]. split; [|exact Hlast].
    rewrite Hid1. do 2 f_equal. simpl length. lia.
Qed.

Lemma setitem_ids_bounded (c : ValueCache) tr key value c1 tr1 :
  ids_bounded c →
  __setitem__ key value (c, tr) = (Ok (), (c1, tr1)) →
  ids_bounded c1.
Proof.
  intros [H0 Hb] Hrun. destruct (_id_infos c !! key) as [[id n]|] eqn:Hid.
  - rewrite (setitem_known _ _ _ _ _ _ Hid) in Hrun. injection Hrun as <- _.
    split; [done|]. intros k id' n'. simpl. destruct (decide (key = k)) as [->|Hne].
    + rewrite lookup_insert_eq. intros [= <- <-]. eapply Hb; eauto.
    + rewrite lookup_insert_ne by done. apply Hb.
  - rewrite (setitem_fresh _ _ _ _ Hid) in Hrun. injection Hrun as <- _.
    split; [simpl; lia|]. intros k id' n'. simpl. destruct (decide (key = k)) as [->|Hne].
    + rewrite lookup_insert_eq. intros [= <- <-]. lia.
    + rewrite lookup_insert_ne by done. intros H. apply Hb in H. lia.
Qed.

Lemma new_cache_ids_bounded : ids_bounded new_cache.
Proof. split; [done|]. intros k id n. simpl. by rewrite lookup_empty. Qed.

Lemma rename_key_known (c : ValueCache) tr key new_key id_info old :
  _id_infos c !! key = Some id_info →
  dict_get key (items c) = Some old →
  ∃ c1, rename_key key new_key (c, tr) = (Ok (), (c1, tr))
    ∧ _id_infos c1 !! new_key = Some id_info
    ∧ _last_id c1 = _last_id c.
Proof.
  intros Hid Hold. unfold rename_key.
  destruct (decide (key = new_key)) as [<-|Hne].
  { exists c. by munfold. }
  assert (dict_in key (items c) = true) as Hin0 by (apply dict_in_true; eauto).
  unfold getitem, _del, _set, del_id_info, set_id_info. munfold.
  repeat (progress (simpl; rewrite ?Hold, ?Hid, ?Hin0)).
  set (items1 := dict_set new_key old (dict_del key (items c))).
  destruct (dict_in (key +:+ "._child") items1) eqn:Hin.
  - pose proof Hin as Hin'. apply dict_in_true in Hin' as [child_cache Hc].
    repeat (progress (simpl; rewrite ?Hc, ?Hin)).
    eexists. split; [reflexivity|]. simpl.
    split; [apply lookup_insert_eq|done].
  - simpl. eexists. split; [reflexivity|]. simpl.
    split; [apply lookup_insert_eq|done].
Qed.






(** ** The object store *)

Lemma node_at_Ok h n nd : node_at h n = Ok nd ↔ nodes h !! n = Some nd.
Proof.
  unfold node_at. destruct (nodes h !! n); split; intros H; by simplify_eq.
Qed.

Lemma port_at_Ok h p x :
  port_at h p = Ok x ↔
  ∃ nd, nodes h !! port_node p = Some nd
        ∧ dict_get (port_name p) (namespace nd (port_is_output p)) = Some x.
Proof.
  unfold port_at, node_at. munfold.
  destruct (nodes h !! port_node p) as [nd|]; simpl.
  - destruct (dict_get _ _) eqn:E; split.
    + intros [= <-]. eauto.
    + intros (nd' & [= <-] & H). congruence.
    + done.
    + intros (nd' & [= <-] & H). congruence.
  - split; [done|]. by intros (? & ? & _).
Qed.

Lemma namespace_with_namespace nd b b' ns :
  namespace (with_namespace nd b ns) b' = if decide (b = b') then ns else namespace nd b'.
Proof. by destruct b, b'. Qed.

Lemma dict_keys_set {V} k (v : V) d :
  is_Some (dict_get k d) → dict_keys (dict_set k v d) = dict_keys d.
Proof.
  unfold dict_keys. induction d as [|[k' v'] r IH]; simpl.
  - by intros [? ?].
  - destruct (decide (k' = k)); simpl; [done|]. intros H. f_equal. by apply IH.
Qed.

Lemma dict_get_is_Some_keys {V} k (d : list (string * V)) :
  is_Some (dict_get k d) ↔ k ∈ dict_keys d.
Proof.
  unfold dict_keys. induction d as [|[k' v'] r IH]; simpl.
  - split; [by intros [? ?] | by intros ?%elem_of_nil].
  - rewrite elem_of_cons. destruct (decide (k' = k)) as [->|Hne].
    + split; eauto.
    + rewrite IH. split; [auto|]. intros [?|?]; [congruence|done].
Qed.

Lemma erase_ports_keys ns ns' :
  erase_ports ns = erase_ports ns' ↔ dict_keys ns = dict_keys ns'.
Proof.
  unfold erase_ports, dict_keys. revert ns'.
  induction ns as [|[k v] r IH]; intros [|[k' v'] r']; simpl; try done.
  split.
  - intros [= -> H]. f_equal. by apply IH.
  - intros [= -> H]. f_equal. by apply IH.
Qed.

Lemma erase_node_with_port nd b k x :
  is_Some (dict_get k (namespace nd b)) →
  erase_node (with_namespace nd b (dict_set k x (namespace nd b))) = erase_node nd.
Proof.
  intros H. unfold erase_node.
  destruct b; simpl in *; f_equal; apply erase_ports_keys; by apply dict_keys_set.
Qed.

(** [put_port] on a port of the store. *)
Lemma put_port_run h p x nd :
  nodes h !! port_node p = Some nd →
  put_port p x h =
    (Ok (), Heap (<[port_node p :=
                     with_namespace nd (port_is_output p)
                       (dict_set (port_name p) x (namespace nd (port_is_output p)))]>
                    (nodes h)) (metas h)).
Proof.
  intros H. unfold put_port, get_node, put_node, node_at. munfold. by rewrite H.
Qed.

Lemma put_port_spec h p x old :
  port_at h p = Ok old →
  ∃ h', put_port p x h = (Ok (), h')
    ∧ same_shape h h'
    ∧ port_at h' p = Ok x
    ∧ ∀ q, q ≠ p → port_at h' q = port_at h q.
Proof.
  intros (nd & Hnd & Hget)%port_at_Ok.
  eexists. split; [by apply put_port_run|]. split; [|split].
  - unfold same_shape, erase. simpl. f_equal.
    rewrite list_fmap_insert, erase_node_with_port by eauto.
    symmetry. apply list_insert_id. by rewrite list_lookup_fmap, Hnd.
  - apply port_at_Ok. eexists. split.
    + simpl. apply list_lookup_insert_eq. by eapply lookup_lt_Some.
    + rewrite namespace_with_namespace, decide_True by done. apply dict_get_set_eq.
  - intros [qn qo qname] Hne. unfold port_at, node_at. simpl. munfold.
    destruct (decide (port_node p = qn)) as [<-|Hn].
    + rewrite list_lookup_insert_eq by by eapply lookup_lt_Some. rewrite Hnd. simpl.
      rewrite namespace_with_namespace.
      destruct (decide (port_is_output p = qo)) as [<-|Ho]; [|done].
      rewrite dict_get_set_ne; [done|]. intros <-. apply Hne. by destruct p.
    + by rewrite list_lookup_insert_ne.
Qed.

Lemma same_shape_refl h : same_shape h h.
Proof. done. Qed.

Lemma same_shape_trans h1 h2 h3 : same_shape h1 h2 → same_shape h2 h3 → same_shape h1 h3.
Proof. unfold same_shape. congruence. Qed.

Lemma same_shape_node h h' n nd :
  same_shape h h' → nodes h !! n = Some nd →
  ∃ nd', nodes h' !! n = Some nd' ∧ erase_node nd' = erase_node nd.
Proof.
  unfold same_shape, erase. intros [= Hn Hm] H.
  assert ((erase_node <$> nodes h') !! n = Some (erase_node nd)) as H'.
  { rewrite <- Hn, list_lookup_fmap, H. done. }
  rewrite list_lookup_fmap in H'.
  destruct (nodes h' !! n) as [nd'|]; simpl in H'; [|done].
  exists nd'. split; [done|]. congruence.
Qed.

Lemma erase_node_all_ports n nd nd' :
  erase_node nd' = erase_node nd → all_ports n nd' = all_ports n nd.
Proof.
  unfold erase_node. intros [= _ _ _ _ Hi Ho _ _ _].
  apply erase_ports_keys in Hi, Ho.
  unfold all_ports, input_ports, output_ports. by rewrite Hi, Ho.
Qed.

Lemma same_shape_ports_at h h' n : same_shape h h' → ports_at h' n = ports_at h n.
Proof.
  intros Hs. unfold ports_at. destruct (nodes h !! n) as [nd|] eqn:E.
  - destruct (same_shape_node _ _ _ _ Hs E) as (nd' & -> & He).
    by apply erase_node_all_ports.
  - destruct (nodes h' !! n) as [nd'|] eqn:E'; [|done].
    symmetry in Hs. destruct (same_shape_node _ _ _ _ Hs E') as (? & ? & _). congruence.
Qed.

Lemma same_shape_tree_ports h h' n : same_shape h h' → tree_ports h' n = tree_ports h n.
Proof.
  intros Hs. unfold tree_ports. destruct (nodes h !! n) as [nd|] eqn:E.
  - destruct (same_shape_node _ _ _ _ Hs E) as (nd' & -> & He).
    rewrite (erase_node_all_ports _ _ _ He).
    injection He as -> _ _ _ _ _ _ -> _. f_equal. destruct (cls nd); try done.
    f_equal. apply list_fmap_ext. intros _ s _. by apply same_shape_ports_at.
  - destruct (nodes h' !! n) as [nd'|] eqn:E'; [|done].
    symmetry in Hs. destruct (same_shape_node _ _ _ _ Hs E') as (? & ? & _). congruence.
Qed.

Lemma get_port_run h p x : port_at h p = Ok x → get_port p h = (Ok x, h).
Proof. intros H. unfold get_port. munfold. by rewrite H. Qed.

Lemma get_node_run h n nd : nodes h !! n = Some nd → get_node n h = (Ok nd, h).
Proof. intros H. unfold get_node, node_at. munfold. by rewrite H. Qed.

Lemma set_value_spec h p v old :
  port_at h p = Ok old →
  ∃ h', set_value p v h = (Ok (), h')
    ∧ same_shape h h'
    ∧ port_at h' p = Ok (mkPort None None v)
    ∧ ∀ q, q ≠ p → port_at h' q = port_at h q.
Proof.
  intros H. destruct (put_port_spec h p (mkPort None None v) old H) as (h' & Hrun & Hrest).
  exists h'. split; [|done].
  unfold set_value. unfold mbind, M_bind. by rewrite (get_port_run _ _ _ H).
Qed.

Lemma set_source_self h self : set_source self (Some self) h = (Raise (ValueError SelfBinding), h).
Proof. unfold set_source. by rewrite decide_True. Qed.

Lemma set_source_spec h self q old qport :
  port_at h self = Ok old →
  q ≠ self →
  port_at h q = Ok qport →
  ∃ h' qnd, set_source self (Some q) h = (Ok (), h')
    ∧ nodes h !! port_node q = Some qnd
    ∧ same_shape h h'
    ∧ port_at h' self = Ok (mkPort (Some (SourceRef (_id qnd) (port_name q))) (Some q) VUndefined)
    ∧ ∀ p, p ≠ self → port_at h' p = port_at h p.
Proof.
  intros Hself Hne Hq.
  pose proof Hq as (qnd & Hqnd & _)%port_at_Ok.
  destruct (put_port_spec h self
              (mkPort (Some (SourceRef (_id qnd) (port_name q))) (Some q) VUndefined) old Hself)
    as (h' & Hrun & Hrest).
  exists h', qnd. split; [|done].
  unfold set_source. rewrite decide_False by congruence.
  unfold mbind, M_bind, mret, M_ret.
  rewrite (get_port_run _ _ _ Hself), (get_port_run _ _ _ Hq), (get_node_run _ _ _ Hqnd).
  exact Hrun.
Qed.

Lemma set_source_none_spec h self old :
  port_at h self = Ok old →
  ∃ h', set_source self None h = (Ok (), h')
    ∧ same_shape h h'
    ∧ port_at h' self = Ok new_port
    ∧ ∀ p, p ≠ self → port_at h' p = port_at h p.
Proof.
  intros Hself.
  destruct (put_port_spec h self new_port old Hself) as (h' & Hrun & Hrest).
  exists h'. split; [|done].
  unfold set_source. rewrite decide_False by done.
  unfold mbind, M_bind, mret, M_ret. by rewrite (get_port_run _ _ _ Hself).
Qed.

(** How a loop runs: the first round, then the rest. *)
Lemma for_each_cons_Ok {S A} (x : A) (r : list A) (body : A → M S unit) s s' :
  for_each (x :: r) body s = (Ok (), s') →
  ∃ s1, body x s = (Ok (), s1) ∧ for_each r body s1 = (Ok (), s').
Proof.
  simpl. unfold mbind, M_bind. destruct (body x s) as [[[]|e] s1]; [eauto|done].
Qed.

(** ** The cleanup after a step is replaced *)

Lemma orphaned_cleared old : orphaned old cleared_port = false.
Proof. done. Qed.

Lemma clear_orphaned_loop old (ports : list port_ref) : ∀ h h',
  for_each ports (λ p, port ← get_port p;
                       if orphaned old port then set_value p VNone else mret ()) h
    = (Ok (), h') →
  cleaned old ports h h'.
Proof.
  induction ports as [|p r IH]; intros h h' Hrun.
  - injection Hrun as <-. split; [done|]. intros q port Hq. by rewrite Hq.
  - apply for_each_cons_Ok in Hrun as (h1 & Hbody & Hrest).
    apply IH in Hrest as [Hs' Hrest].
    unfold mbind, M_bind in Hbody.
    destruct (port_at h p) as [pp|e] eqn:Hp.
    2:{ unfold get_port in Hbody. munfold. by rewrite Hp in Hbody. }
    rewrite (get_port_run _ _ _ Hp) in Hbody.
    destruct (orphaned old pp) eqn:Ho.
    + destruct (set_value_spec h p VNone pp Hp) as (h1' & Hrun1 & Hs & Hpp & Hframe).
      rewrite Hrun1 in Hbody. injection Hbody as <-.
      split; [by eapply same_shape_trans|].
      intros q port Hq. destruct (decide (q = p)) as [->|Hne].
      * assert (port = pp) as -> by congruence.
        change (mkPort None None VNone) with cleared_port in Hpp.
        rewrite (Hrest p _ Hpp), Ho, orphaned_cleared, andb_false_r.
        rewrite bool_decide_eq_true_2; [done|]. apply elem_of_cons. by left.
      * rewrite (Hrest q port) by (by rewrite Hframe).
        replace (bool_decide (q ∈ p :: r)) with (bool_decide (q ∈ r)); [done|].
        apply bool_decide_ext. rewrite elem_of_cons. tauto.
    + injection Hbody as <-. split; [done|].
      intros q port Hq. rewrite (Hrest q port Hq).
      destruct (decide (q = p)) as [->|Hne].
      * assert (port = pp) as -> by congruence. by rewrite Ho, !andb_false_r.
      * replace (bool_decide (q ∈ p :: r)) with (bool_decide (q ∈ r)); [done|].
        apply bool_decide_ext. rewrite elem_of_cons. tauto.
Qed.

Lemma cleaned_nil old h : cleaned old [] h h.
Proof. split; [done|]. intros q port Hq. by rewrite Hq. Qed.

Lemma cleaned_app old l1 l2 h h1 h2 :
  cleaned old l1 h h1 → cleaned old l2 h1 h2 → cleaned old (l1 ++ l2) h h2.
Proof.
  intros [Hs1 H1] [Hs2 H2]. split; [by eapply same_shape_trans|].
  intros q port Hq. rewrite (H2 _ _ (H1 _ _ Hq)).
  destruct (orphaned old port) eqn:Ho.
  - rewrite !andb_true_r.
    destruct (bool_decide (q ∈ l1)) eqn:E1; simpl.
    + rewrite orphaned_cleared, andb_false_r.
      rewrite bool_decide_eq_true_2; [done|].
      apply elem_of_app. left. by apply bool_decide_eq_true in E1.
    + rewrite Ho, andb_true_r. f_equal.
      replace (bool_decide (q ∈ l1 ++ l2)) with (bool_decide (q ∈ l2)); [done|].
      apply bool_decide_ext. rewrite elem_of_app.
      apply bool_decide_eq_false in E1. tauto.
  - rewrite !andb_false_r. simpl. by rewrite Ho, andb_false_r.
Qed.

Lemma same_shape_cleaned old l h h' h0 :
  same_shape h0 h → cleaned old (ports_at h l) h h' → cleaned old (ports_at h0 l) h h'.
Proof. intros Hs. by rewrite (same_shape_ports_at _ _ _ Hs). Qed.

Lemma node_remove_orphaned_run n old h h' :
  node_remove_orphaned_sources n old h = (Ok (), h') → cleaned old (ports_at h n) h h'.
Proof.
  unfold node_remove_orphaned_sources. unfold mbind at 1, M_bind at 1.
  unfold get_node, query, node_at, ports_at.
  destruct (nodes h !! n) as [nd|]; [|done].
  apply clear_orphaned_loop.
Qed.

Lemma steps_remove_orphaned_run old (steps : list nat) : ∀ h0 h h',
  same_shape h0 h →
  for_each steps (λ step, node_remove_orphaned_sources step old) h = (Ok (), h') →
  cleaned old (concat (ports_at h0 <$> steps)) h h'.
Proof.
  induction steps as [|s r IH]; intros h0 h h' Hs Hrun.
  - injection Hrun as <-. apply cleaned_nil.
  - apply for_each_cons_Ok in Hrun as (h1 & Hbody & Hrest).
    apply node_remove_orphaned_run in Hbody.
    simpl. eapply cleaned_app.
    + by rewrite (same_shape_ports_at _ _ _ Hs) in Hbody.
    + apply IH; [|done]. eapply same_shape_trans; [done|]. apply Hbody.
Qed.

Lemma remove_orphaned_sources_run n old h h' :
  remove_orphaned_sources n old h = (Ok (), h') → cleaned old (tree_ports h n) h h'.
Proof.
  unfold remove_orphaned_sources. unfold mbind at 1, M_bind at 1.
  unfold get_node, query, node_at, tree_ports.
  destruct (nodes h !! n) as [nd|] eqn:Hn; [|done].
  unfold mbind, M_bind.
  destruct (node_remove_orphaned_sources n old h) as [[[]|e] h1] eqn:H1; [|done].
  apply node_remove_orphaned_run in H1. unfold ports_at in H1. rewrite Hn in H1.
  intros Hrest. eapply cleaned_app; [done|].
  destruct (cls nd).
  - eapply steps_remove_orphaned_run; [|done]. apply H1.
  - injection Hrest as <-. apply cleaned_nil.
  - injection Hrest as <-. apply cleaned_nil.
  - injection Hrest as <-. apply cleaned_nil.
  - injection Hrest as <-. apply cleaned_nil.
  - injection Hrest as <-. apply cleaned_nil.
Qed.

Lemma same_shape_port_at h h' p x :
  same_shape h h' → port_at h' p = Ok x → ∃ y, port_at h p = Ok y.
Proof.
  intros Hs (nd' & Hn' & Hget)%port_at_Ok. symmetry in Hs.
  destruct (same_shape_node _ _ _ _ Hs Hn') as (nd & Hn & He).
  assert (is_Some (dict_get (port_name p) (namespace nd (port_is_output p)))) as [y Hy].
  { apply dict_get_is_Some_keys.
    assert (dict_keys (namespace nd (port_is_output p))
            = dict_keys (namespace nd' (port_is_output p))) as ->.
    { injection He as _ _ _ _ Hi Ho _ _ _. apply erase_ports_keys in Hi, Ho.
      by destruct (port_is_output p). }
    apply dict_get_is_Some_keys. eauto. }
  exists y. apply port_at_Ok. eauto.
Qed.

Lemma add_step_replace_inv h h' self new_step old_step can_exist :
  add_step self new_step can_exist h = (Ok (Some old_step), h') →
  old_step ≠ new_step →
  ∃ h1 h2, update_sources self h1 = (Ok (), h2)
    ∧ remove_orphaned_sources self old_step h2 = (Ok (), h').
Proof.
  unfold add_step. intros Hrun Hne.
  unfold mbind at 1, M_bind at 1 in Hrun.
  destruct (get_node self h) as [[nd|e] h0] eqn:E0; [|done].
  unfold mbind at 1, M_bind at 1 in Hrun.
  destruct (get_node new_step h0) as [[new_nd|e] h0'] eqn:E1; [|done].
  unfold mbind at 1, M_bind at 1 in Hrun.
  match type of Hrun with
  | context [match ?m h0' with _ => _ end] => destruct (m h0') as [[steps|e] h0''] eqn:E2; [|done]
  end.
  unfold mbind at 1, M_bind at 1 in Hrun.
  match type of Hrun with
  | context [match ?m h0'' with _ => _ end] => destruct (m h0'') as [[[]|e] ha] eqn:E3; [|done]
  end.
  unfold mbind at 1, M_bind at 1 in Hrun.
  destruct (get_node new_step ha) as [[new_nd'|e] hb] eqn:E4; [|done].
  unfold mbind at 1, M_bind at 1 in Hrun.
  match type of Hrun with
  | context [match ?m hb with _ => _ end] => destruct (m hb) as [[[]|e] h1] eqn:E5; [|done]
  end.
  unfold mbind at 1, M_bind at 1 in Hrun.
  destruct (_steps_dict nd !! _id new_nd) as [old|] eqn:Hold.
  2:{ unfold mret, M_ret in Hrun. simpl in Hrun. congruence. }
  destruct (decide (old = new_step)) as [->|Hne'].
  { unfold mret, M_ret in Hrun. simpl in Hrun. congruence. }
  unfold mbind at 1, M_bind at 1 in Hrun.
  destruct (update_sources self h1) as [[[]|e] h2] eqn:E6; [|done].
  destruct (remove_orphaned_sources self old h2) as [[[]|e] h3] eqn:E7; [|done].
  unfold mret, M_ret in Hrun. simpl in Hrun.
  assert (old = old_step) as -> by congruence.
  assert (h3 = h') as -> by congruence.
  eauto.
Qed.




(** A port that still points at the replaced step after the re-resolution
    (here because its node resolves references in another workflow) gets
    the literal [None], which is a value: the port is not undefined. *)
Lemma add_step_clears_to_none :
  (add_step 0 3 true shared_store).1 = Ok (Some 1%nat)
  ∧ port_at (add_step 0 3 true shared_store).2 (PortRef 2 false "x") = Ok cleared_port
  ∧ is_value cleared_port = true.
Proof. vm_compute. done. Qed.

(** ** Resolving source references *)

(** [find_port] prefers an output to an input of the same name, whatever
    the class of the node. *)
Lemma find_port_outputs_first node nd name :
  dict_in name (_outputs nd) = true → find_port node nd name = Some (PortRef node true name).
Proof. unfold find_port. by intros ->. Qed.

Lemma find_port_None node nd name :
  find_port node nd name = None ↔
  dict_in name (_outputs nd) = false ∧ dict_in name (_inputs nd) = false.
Proof.
  unfold find_port. destruct (dict_in name (_outputs nd)), (dict_in name (_inputs nd));
    intuition congruence.
Qed.

(** C6: the code at the failing input.  The reference "wf.x" names the
    workflow "wf", which has an input and an output called "x"; resolution
    binds the port to the output, although a workflow's inputs are to be
    searched first. *)
Theorem update_source_binds_workflow_output :
  (cls <$> nodes same_name_store !! 0%nat) = Some Workflow
  ∧ port_at same_name_store (PortRef 1 false "a") = Ok (unresolved "wf" (Some "x"))
  ∧ is_Some (dict_get "x" (_inputs (default (a_step 0 "" [] [] None)
                                      (nodes same_name_store !! 0%nat))))
  ∧ (update_source (PortRef 1 false "a") same_name_store).1 = Ok ()
  ∧ port_at (update_source (PortRef 1 false "a") same_name_store).2 (PortRef 1 false "a")
    = Ok (mkPort (Some (SourceRef "wf" "x")) (Some (PortRef 0 true "x")) VUndefined).
Proof. vm_compute. eauto 10. Qed.

(** C3: the code at the failing input.  Step "b" has an input whose source
    reference was read from JSON and is not resolved yet; renaming step "a"
    does not rewrite that reference but raises [AttributeError], after the
    id and the step lookup have already been changed. *)
Theorem set_id_fails_on_unresolved_reference :
  port_at unresolved_store (PortRef 2 false "x") = Ok (unresolved "a" (Some "return"))
  ∧ (set_id 1 "src" unresolved_store).1 = Raise (AttributeError "node_id")
  ∧ port_at (set_id 1 "src" unresolved_store).2 (PortRef 2 false "x")
    = Ok (unresolved "a" (Some "return"))
  ∧ (_id <$> nodes (set_id 1 "src" unresolved_store).2 !! 1%nat) = Some "src".
Proof. vm_compute. done. Qed.

Lemma output_ports_port_at h on ond q :
  nodes h !! on = Some ond → q ∈ output_ports on ond → ∃ x, port_at h q = Ok x.
Proof.
  intros Hn Hq. unfold output_ports in Hq.
  apply list_elem_of_fmap in Hq as (name & -> & Hname).
  apply dict_get_is_Some_keys in Hname as [x Hx].
  exists x. apply port_at_Ok. simpl. eauto.
Qed.

(** [update_source] on a port whose reference has a node id and no port
    name, step by step. *)
Lemma update_source_by_id_run h self port ref other_node_id pn :
  port_at h self = Ok port →
  _source_ref port = Some ref →
  unpack_ref ref = (Some other_node_id, pn) →
  truthy_str other_node_id = true →
  given pn = None →
  update_source self h =
    match locate_node h (port_node self) other_node_id with
    | Ok (Some on) =>
        match nodes h !! on with
        | Some ond =>
            match output_ports on ond with
            | [q] => set_source self (Some q) h
            | _ => (Raise (ValueError AmbiguousNode), h)
            end
        | None => (Raise Dangling, h)
        end
    | Ok None => (Raise (ValueError UnknownNode), h)
    | Raise e => (Raise e, h)
    end.
Proof.
  intros Hport Href Hunpack Hid Hname.
  unfold update_source. unfold mbind at 1, M_bind at 1.
  rewrite (get_port_run _ _ _ Hport), Href, Hunpack.
  rewrite Hname. unfold given. rewrite Hid.
  unfold mbind, M_bind, get_node, query, node_at.
  destruct (locate_node h (port_node self) other_node_id) as [[on|]|e]; try done.
  destruct (nodes h !! on) as [ond|]; [|done].
  by destruct (output_ports on ond) as [|q [|q' r]].
Qed.

(** C8 (as amended).  For a port whose source reference consists of a node
    id only, [update_source] returns normally exactly when the id denotes a
    node that has exactly one output port and that port is not the port
    being resolved; the output then becomes the port's source.  A denoted
    node whose number of outputs is not one gives [AmbiguousNode], a denoted
    node whose only output is the port itself gives [SelfBinding], and an id
    that denotes no node gives [UnknownNode]. *)
Theorem update_source_single_output
    (h : heap) (self : port_ref) (port : NodePort) (ref : source_ref)
    (other_node_id : string) (pn : option string)
    (Hport : port_at h self = Ok port)
    (Href : _source_ref port = Some ref)
    (Hunpack : unpack_ref ref = (Some other_node_id, pn))
    (Hid : truthy_str other_node_id = true)
    (Hname : given pn = None) :
  ((∃ h', update_source self h = (Ok (), h')) ↔
   (∃ on ond q, locate_node h (port_node self) other_node_id = Ok (Some on)
      ∧ nodes h !! on = Some ond ∧ output_ports on ond = [q] ∧ q ≠ self))
  ∧ (∀ on ond q, locate_node h (port_node self) other_node_id = Ok (Some on) →
       nodes h !! on = Some ond → output_ports on ond = [q] → q ≠ self →
       ∃ h', update_source self h = (Ok (), h')
         ∧ port_at h' self
           = Ok (mkPort (Some (SourceRef (_id ond) (port_name q))) (Some q) VUndefined)
         ∧ ∀ p, p ≠ self → port_at h' p = port_at h p)
  ∧ (∀ on ond, locate_node h (port_node self) other_node_id = Ok (Some on) →
       nodes h !! on = Some ond → length (output_ports on ond) ≠ 1%nat →
       update_source self h = (Raise (ValueError AmbiguousNode), h))
  ∧ (∀ on ond, locate_node h (port_node self) other_node_id = Ok (Some on) →
       nodes h !! on = Some ond → output_ports on ond = [self] →
       update_source self h = (Raise (ValueError SelfBinding), h))
  ∧ (locate_node h (port_node self) other_node_id = Ok None →
       update_source self h = (Raise (ValueError UnknownNode), h)).
Proof.
  rewrite (update_source_by_id_run h self port ref other_node_id pn) by done.
  assert (∀ on ond q, nodes h !! on = Some ond → output_ports on ond = [q] → q ≠ self →
            ∃ h', set_source self (Some q) h = (Ok (), h')
              ∧ port_at h' self
                = Ok (mkPort (Some (SourceRef (_id ond) (port_name q))) (Some q) VUndefined)
              ∧ ∀ p, p ≠ self → port_at h' p = port_at h p) as Hset.
  { intros on ond q Hn Hout Hne.
    destruct (output_ports_port_at h on ond q Hn) as [qport Hq].
    { rewrite Hout. apply list_elem_of_singleton. done. }
    destruct (set_source_spec h self q port qport Hport Hne Hq)
      as (h' & qnd & Hrun & Hqnd & _ & Hself & Hframe).
    assert (port_node q = on) as Hon.
    { unfold output_ports in Hout. destruct (dict_keys (_outputs ond)); simplify_eq/=. done. }
    rewrite Hon in Hqnd. assert (qnd = ond) as -> by congruence. eauto. }
  split; [split|split; [|split; [|split]]].
  - intros [h' Hrun].
    destruct (locate_node h (port_node self) other_node_id) as [[on|]|e]; try done.
    destruct (nodes h !! on) as [ond|] eqn:Hn; [|done].
    destruct (output_ports on ond) as [|q [|q' r]] eqn:Hout; try done.
    exists on, ond, q. split; [done|]. split; [done|]. split; [done|].
    intros ->. by rewrite set_source_self in Hrun.
  - intros (on & ond & q & Hl & Hn & Hout & Hne). rewrite Hl, Hn, Hout.
    destruct (Hset on ond q Hn Hout Hne) as (h' & Hrun & _). eauto.
  - intros on ond q Hl Hn Hout Hne. rewrite Hl, Hn, Hout. by apply (Hset on ond q).
  - intros on ond Hl Hn Hlen. rewrite Hl, Hn.
    by destruct (output_ports on ond) as [|q [|q' r]].
  - intros on ond Hl Hn Hout. rewrite Hl, Hn, Hout. apply set_source_self.
  - by intros ->.
Qed.

Lemma update_source_single_output_witness :
  let h := by_id_store in
  let self := PortRef 3 false "p" in
  ((∃ h', update_source self h = (Ok (), h')) ↔
   (∃ on ond q, locate_node h 3 "one" = Ok (Some on)
      ∧ nodes h !! on = Some ond ∧ output_ports on ond = [q] ∧ q ≠ self))
  ∧ (∀ on ond q, locate_node h 3 "one" = Ok (Some on) →
       nodes h !! on = Some ond → output_ports on ond = [q] → q ≠ self →
       ∃ h', update_source self h = (Ok (), h')
         ∧ port_at h' self
           = Ok (mkPort (Some (SourceRef (_id ond) (port_name q))) (Some q) VUndefined)
         ∧ ∀ p, p ≠ self → port_at h' p = port_at h p)
  ∧ (∀ on ond, locate_node h 3 "one" = Ok (Some on) →
       nodes h !! on = Some ond → length (output_ports on ond) ≠ 1%nat →
       update_source self h = (Raise (ValueError AmbiguousNode), h))
  ∧ (∀ on ond, locate_node h 3 "one" = Ok (Some on) →
       nodes h !! on = Some ond → output_ports on ond = [self] →
       update_source self h = (Raise (ValueError SelfBinding), h))
  ∧ (locate_node h 3 "one" = Ok None →
       update_source self h = (Raise (ValueError UnknownNode), h)).
Proof.
  apply (update_source_single_output by_id_store (PortRef 3 false "p")
           (unresolved "one" None) (PlainPair (Some "one") None) "one" None);
    reflexivity.
Defined.

(** The three outcomes on [by_id_store]: the reference "one" binds to the
    only output of step "one", "two" is ambiguous, "gone" is unknown. *)
Lemma update_source_by_id_examples :
  (update_source (PortRef 3 false "p") by_id_store).1 = Ok ()
  ∧ port_at (update_source (PortRef 3 false "p") by_id_store).2 (PortRef 3 false "p")
    = Ok (bound "one" (PortRef 1 true "return"))
  ∧ (update_source (PortRef 3 false "q") by_id_store).1 = Raise (ValueError AmbiguousNode)
  ∧ (update_source (PortRef 3 false "r") by_id_store).1 = Raise (ValueError UnknownNode).
Proof. vm_compute. done. Qed.

(** C8 (as stated) fails: the reference "n" on the only output of step "n"
    denotes a node that exists and has exactly one output port, and yet
    resolution does not succeed: the port cannot be its own source. *)
Lemma update_source_single_output_self :
  port_at self_ref_store (PortRef 1 true "return") = Ok (unresolved "n" None)
  ∧ locate_node self_ref_store 1 "n" = Ok (Some 1%nat)
  ∧ (output_ports 1 <$> nodes self_ref_store !! 1%nat) = Some [PortRef 1 true "return"]
  ∧ update_source (PortRef 1 true "return") self_ref_store
    = (Raise (ValueError SelfBinding), self_ref_store).
Proof. vm_compute. done. Qed.


(** ** Distances between nodes *)

Lemma max_distance_to_unfold fuel h u v :
  max_distance_to (S fuel) h u v =
    if decide (v = u) then Ok 0 else
    is_direct_source_of h v u ≫= λ direct : bool,
    nd ← node_at h u;
    distance_loop (λ node, max_distance_to fuel h node v)
      (dict_values (_inputs nd)) (if direct then 1 else -1).
Proof. reflexivity. Qed.

Lemma distance_loop_mono (rec rec' : nat → outcome Z) ports : ∀ acc r,
  (∀ w d, rec w = Ok d → rec' w = Ok d) →
  distance_loop rec ports acc = Ok r → distance_loop rec' ports acc = Ok r.
Proof.
  induction ports as [|p rest IH]; intros acc r Hrec; simpl; [done|].
  destruct (_source p) as [src|]; [|by apply IH].
  unfold mbind, outcome_bind.
  destruct (rec (port_node src)) as [d|e] eqn:E; [|done].
  rewrite (Hrec _ _ E). by apply IH.
Qed.

(** More fuel does not change a distance that was computed. *)
Lemma max_distance_to_S h v fuel : ∀ u d,
  max_distance_to fuel h u v = Ok d → max_distance_to (S fuel) h u v = Ok d.
Proof.
  induction fuel as [|f IH]; intros u d; [done|].
  rewrite (max_distance_to_unfold (S f)), (max_distance_to_unfold f).
  destruct (decide (v = u)); [done|].
  unfold mbind, outcome_bind.
  destruct (is_direct_source_of h v u) as [direct|]; [|done].
  destruct (node_at h u) as [nd|]; [|done].
  apply distance_loop_mono. intros w d'. apply IH.
Qed.

Lemma max_distance_to_le h v fuel fuel' u d :
  (fuel ≤ fuel')%nat →
  max_distance_to fuel h u v = Ok d → max_distance_to fuel' h u v = Ok d.
Proof.
  induction 1 as [|f' Hle IH]; [done|]. intros H. by apply max_distance_to_S, IH.
Qed.

Lemma distance_loop_spec (rec : nat → outcome Z) ports : ∀ acc,
  (∀ port src, port ∈ ports → _source port = Some src → ∃ d, rec (port_node src) = Ok d) →
  ∃ r, distance_loop rec ports acc = Ok r
    ∧ acc ≤ r
    ∧ (∀ port src d, port ∈ ports → _source port = Some src →
         rec (port_node src) = Ok d → 0 < d → d + 1 ≤ r)
    ∧ (r = acc ∨ ∃ port src d, port ∈ ports ∧ _source port = Some src
                   ∧ rec (port_node src) = Ok d ∧ 0 < d ∧ r = d + 1).
Proof.
  induction ports as [|p rest IH]; intros acc Htot; simpl.
  - exists acc. split; [done|]. split; [lia|]. split; [|by left].
    intros port src d Hin. by apply elem_of_nil in Hin.
  - assert (∀ port src, port ∈ rest → _source port = Some src →
              ∃ d, rec (port_node src) = Ok d) as Htot'.
    { intros port src Hin. apply Htot. by right. }
    destruct (_source p) as [src0|] eqn:Hsrc.
    + destruct (Htot p src0) as [d0 Hd0]; [by left|done|].
      unfold mbind, outcome_bind. rewrite Hd0.
      destruct (IH (if 0 <? d0 then Z.max acc (d0 + 1) else acc) Htot')
        as (r & Hrun & Hacc & Hlb & Hatt).
      exists r. split; [done|].
      assert (acc ≤ r) as Hacc'.
      { destruct (0 <? d0); lia. }
      split; [done|]. split.
      * intros port src d [->|Hin]%elem_of_cons Hs Hd Hpos.
        -- assert (src = src0) as -> by congruence.
           assert (d = d0) as -> by congruence.
           apply Z.ltb_lt in Hpos. rewrite Hpos in Hacc. lia.
        -- by eapply Hlb.
      * destruct Hatt as [->|(port & src & d & Hin & Hs & Hd & Hpos & ->)].
        -- destruct (0 <? d0) eqn:Hpos; [|by left].
           apply Z.ltb_lt in Hpos.
           destruct (Z.max_spec acc (d0 + 1)) as [[_ ->]|[_ ->]].
           ++ right. exists p, src0, d0. split; [by left|done].
           ++ by left.
        -- right. exists port, src, d. split; [by right|done].
    + destruct (IH acc Htot') as (r & Hrun & Hacc & Hlb & Hatt).
      exists r. split; [done|]. split; [done|]. split.
      * intros port src d [->|Hin]%elem_of_cons Hs Hd Hpos; [congruence|].
        by eapply Hlb.
      * destruct Hatt as [->|(port & src & d & Hin & Hrest)]; [by left|].
        right. exists port, src, d. split; [by right|done].
Qed.

Lemma any_direct_source_spec nd ports :
  (∀ port, port ∈ ports →
     match _source_ref port with Some (PlainPair _ _) => False | _ => True end) →
  ∃ b, any_direct_source nd ports = Ok b
    ∧ (b = true ↔ ∃ port n, port ∈ ports ∧ _source_ref port = Some (SourceRef (_id nd) n)).
Proof.
  induction ports as [|p rest IH]; intros Hsync; simpl.
  - exists false. split; [done|]. split; [done|].
    intros (port & n & Hin & _). by apply elem_of_nil in Hin.
  - destruct IH as (b & Hrun & Hb).
    { intros port Hin. apply Hsync. by right. }
    pose proof (Hsync p (list_elem_of_here _ _)) as Hp.
    unfold is_direct_source_for_port, mbind, outcome_bind.
    destruct (_source_ref p) as [[?|i n]|] eqn:Hr; [done| |]; simpl.
    + destruct (decide (i = _id nd)) as [->|Hne].
      * rewrite bool_decide_eq_true_2 by done. exists true. split; [done|].
        split; [|done]. intros _. exists p, n. split; [by left|done].
      * rewrite bool_decide_eq_false_2 by done. exists b. split; [done|].
        rewrite Hb. split.
        -- intros (port & m & Hin & Href). exists port, m. split; [by right|done].
        -- intros (port & m & [->|Hin]%elem_of_cons & Href); [congruence|].
           exists port, m. done.
    + exists b. split; [done|]. rewrite Hb. split.
      * intros (port & m & Hin & Href). exists port, m. split; [by right|done].
      * intros (port & m & [->|Hin]%elem_of_cons & Href); [congruence|].
        exists port, m. done.
Qed.

Section dependency_graph.
Context (h : heap) (steps closure : list nat) (rank : nat → nat) (F : nat).
Context (Hwf : dependency_graph_ok h steps closure rank F).

Lemma steps_in_closure s : s ∈ steps → s ∈ closure.
Proof. destruct Hwf as (Hsub & _). apply Hsub. Qed.

Lemma closure_node u : u ∈ closure → ∃ nd, nodes h !! u = Some nd.
Proof. destruct Hwf as (_ & Hin & _). intros Hu. by destruct (Hin u Hu) as [[nd ?] _]; eauto. Qed.

Lemma closure_rank u : u ∈ closure → (rank u < F)%nat.
Proof. destruct Hwf as (_ & Hin & _). intros Hu. by destruct (Hin u Hu). Qed.

(** What the hypothesis says about one input port. *)
Lemma input_port_cases u nd port :
  u ∈ closure → nodes h !! u = Some nd → port ∈ dict_values (_inputs nd) →
  (_source_ref port = None ∧ _source port = None)
  ∨ ∃ node_id n src snd,
      _source_ref port = Some (SourceRef node_id n) ∧ _source port = Some src
      ∧ port_node src ∈ closure ∧ (rank (port_node src) < rank u)%nat
      ∧ nodes h !! port_node src = Some snd ∧ _id snd = node_id
      ∧ ∀ b bnd, b ∈ steps → nodes h !! b = Some bnd → _id bnd = node_id → b = port_node src.
Proof.
  destruct Hwf as (_ & _ & Hports). intros Hu Hnd Hin.
  specialize (Hports u nd port Hu Hnd Hin).
  destruct (_source_ref port) as [[?|node_id n]|], (_source port) as [src|]; try done.
  - destruct Hports as (Hc & Hr & snd & Hsnd & Hid & Huniq).
    right. exists node_id, n, src, snd. done.
  - by left.
Qed.

Lemma max_distance_to_total v : is_Some (nodes h !! v) → ∀ fuel u,
  u ∈ closure → (rank u < fuel)%nat → ∃ d, max_distance_to fuel h u v = Ok d.
Proof.
  intros [vnd Hv]. induction fuel as [|f IH]; intros u Hu Hrank; [lia|].
  rewrite max_distance_to_unfold.
  destruct (decide (v = u)); [eauto|].
  destruct (closure_node u Hu) as [nd Hnd].
  unfold is_direct_source_of, node_at, mbind, outcome_bind. rewrite Hv, Hnd.
  destruct (any_direct_source_spec vnd (dict_values (_inputs nd))) as (b & -> & _).
  { intros port Hin. destruct (input_port_cases u nd port Hu Hnd Hin)
      as [[-> _]|(? & ? & ? & ? & -> & _)]; done. }
  edestruct (distance_loop_spec (λ node, max_distance_to f h node v))
    as (r & -> & _); [|eauto].
  intros port src Hin Hsrc.
  destruct (input_port_cases u nd port Hu Hnd Hin)
    as [[_ ?]|(? & ? & src' & ? & _ & Hsrc' & Hc & Hr & _)]; [congruence|].
  assert (src' = src) as -> by congruence.
  apply IH; [done|lia].
Qed.

(** Below the limit the distance does not depend on the fuel left. *)
Lemma max_distance_to_canon v fuel u :
  is_Some (nodes h !! v) → u ∈ closure → (rank u < fuel)%nat → (fuel ≤ F)%nat →
  max_distance_to fuel h u v = max_distance_to F h u v.
Proof.
  intros Hv Hu Hrank Hle.
  destruct (max_distance_to_total v Hv fuel u Hu Hrank) as [d Hd].
  rewrite Hd. symmetry. by eapply max_distance_to_le.
Qed.

Lemma max_distance_to_self u : u ∈ closure → max_distance_to F h u u = Ok 0.
Proof.
  intros Hu. pose proof (closure_rank u Hu).
  assert (F = S (pred F)) as -> by lia.
  rewrite max_distance_to_unfold. by rewrite decide_True.
Qed.

(** The distance from [u] to another node [v], in terms of the distances
    from the nodes the inputs of [u] are bound to. *)
Lemma max_distance_to_spec u v nd vnd :
  u ∈ closure → v ≠ u → nodes h !! v = Some vnd → nodes h !! u = Some nd →
  ∃ r, max_distance_to F h u v = Ok r
    ∧ -1 ≤ r
    ∧ (∀ port src d, port ∈ dict_values (_inputs nd) → _source port = Some src →
         max_distance_to F h (port_node src) v = Ok d → 0 < d → d + 1 ≤ r)
    ∧ (0 < r →
       (r = 1 ∧ ∃ port n, port ∈ dict_values (_inputs nd)
                  ∧ _source_ref port = Some (SourceRef (_id vnd) n))
       ∨ ∃ port src d, port ∈ dict_values (_inputs nd) ∧ _source port = Some src
           ∧ max_distance_to F h (port_node src) v = Ok d ∧ 0 < d ∧ r = d + 1).
Proof.
  intros Hu Hne Hv Hnd. pose proof (closure_rank u Hu) as HuF.
  set (f := pred F). assert (F = S f) as HF by (unfold f; lia).
  assert (∀ port src, port ∈ dict_values (_inputs nd) → _source port = Some src →
            max_distance_to f h (port_node src) v = max_distance_to F h (port_node src) v)
    as Hcanon.
  { intros port src Hin Hsrc.
    destruct (input_port_cases u nd port Hu Hnd Hin)
      as [[_ ?]|(? & ? & src' & ? & _ & Hsrc' & Hc & Hr & _)]; [congruence|].
    assert (src' = src) as -> by congruence.
    apply max_distance_to_canon; [eauto|done|lia|lia]. }
  replace (max_distance_to F h u v) with (max_distance_to (S f) h u v) by (by rewrite HF).
  rewrite max_distance_to_unfold, decide_False by done.
  unfold is_direct_source_of, node_at, mbind, outcome_bind. rewrite Hv, Hnd.
  destruct (any_direct_source_spec vnd (dict_values (_inputs nd))) as (b & -> & Hb).
  { intros port Hin. destruct (input_port_cases u nd port Hu Hnd Hin)
      as [[-> _]|(? & ? & ? & ? & -> & _)]; done. }
  destruct (distance_loop_spec (λ node, max_distance_to f h node v)
              (dict_values (_inputs nd)) (if b then 1 else -1))
    as (r & -> & Hacc & Hlb & Hatt).
  { intros port src Hin Hsrc. rewrite (Hcanon port src Hin Hsrc).
    destruct (input_port_cases u nd port Hu Hnd Hin)
      as [[_ ?]|(? & ? & src' & ? & _ & Hsrc' & Hc & Hr & _)]; [congruence|].
    assert (src' = src) as -> by congruence.
    apply max_distance_to_total; [eauto|done|lia]. }
  exists r. split; [done|]. split; [destruct b; lia|]. split.
  - intros port src d Hin Hsrc Hd Hpos. eapply Hlb; eauto.
    by rewrite (Hcanon port src Hin Hsrc).
  - intros Hpos. destruct Hatt as [->|(port & src & d & Hin & Hsrc & Hd & Hdpos & ->)].
    + left. destruct b; [|lia]. split; [done|]. by apply Hb.
    + right. exists port, src, d. rewrite <- (Hcanon port src Hin Hsrc). done.
Qed.

(** A positive distance to a step goes down in rank. *)
Lemma max_distance_to_rank n : ∀ u v d,
  (rank u < n)%nat → u ∈ closure → v ∈ steps →
  max_distance_to F h u v = Ok d → 0 < d → (rank v < rank u)%nat.
Proof.
  induction n as [|n IH]; intros u v d Hn Hu Hv Hd Hpos; [lia|].
  destruct (decide (v = u)) as [->|Hne].
  { rewrite max_distance_to_self in Hd by done. injection Hd as <-. lia. }
  destruct (closure_node u Hu) as [nd Hnd].
  destruct (closure_node v (steps_in_closure v Hv)) as [vnd Hvnd].
  destruct (max_distance_to_spec u v nd vnd Hu Hne Hvnd Hnd) as (r & Hr & _ & _ & Hatt).
  assert (r = d) as -> by congruence.
  destruct (Hatt Hpos) as [(_ & port & m & Hin & Href)|(port & src & d' & Hin & Hsrc & Hd' & Hpos' & _)].
  - destruct (input_port_cases u nd port Hu Hnd Hin)
      as [[? _]|(node_id & ? & src & snd & Href' & _ & _ & Hrk & _ & Hid & Huniq)];
      [congruence|].
    assert (node_id = _id vnd) as -> by congruence.
    by rewrite (Huniq v vnd Hv Hvnd eq_refl).
  - destruct (input_port_cases u nd port Hu Hnd Hin)
      as [[_ ?]|(? & ? & src' & ? & _ & Hsrc' & Hc & Hrk & _)]; [congruence|].
    assert (src' = src) as -> by congruence.
    assert (rank v < rank (port_node src))%nat; [|lia].
    eapply (IH (port_node src) v d'); eauto. lia.
Qed.

(** Distances add up along a chain of dependencies. *)
Lemma max_distance_to_additive n : ∀ a b c d e,
  (rank a < n)%nat → a ∈ closure → b ∈ steps → c ∈ steps →
  max_distance_to F h a b = Ok d → 0 < d →
  max_distance_to F h b c = Ok e → 0 < e →
  ∃ f, max_distance_to F h a c = Ok f ∧ d + e ≤ f.
Proof.
  induction n as [|n IH]; intros a b c d e Hn Ha Hb Hc Hd Hdpos He Hepos; [lia|].
  pose proof (steps_in_closure b Hb) as Hb'.
  assert (rank b < rank a)%nat as Hba by (eapply (max_distance_to_rank (S (rank a))); eauto).
  assert (rank c < rank b)%nat as Hcb by (eapply (max_distance_to_rank (S (rank b))); eauto).
  destruct (closure_node a Ha) as [nd Hnd].
  destruct (closure_node b Hb') as [bnd Hbnd].
  destruct (closure_node c (steps_in_closure c Hc)) as [cnd Hcnd].
  assert (b ≠ a) as Hne by (intros ->; lia).
  assert (c ≠ a) as Hne' by (intros ->; lia).
  destruct (max_distance_to_spec a b nd bnd Ha Hne Hbnd Hnd) as (r & Hr & _ & _ & Hatt).
  assert (r = d) as -> by congruence.
  destruct (max_distance_to_spec a c nd cnd Ha Hne' Hcnd Hnd) as (f & Hf & _ & Hlb & _).
  exists f. split; [done|].
  destruct (Hatt Hdpos) as [(-> & port & m & Hin & Href)|(port & src & d' & Hin & Hsrc & Hd' & Hpos' & ->)].
  - (* [b] is a direct source of [a] *)
    destruct (input_port_cases a nd port Ha Hnd Hin)
      as [[? _]|(node_id & ? & src & snd & Href' & Hsrc & _ & _ & _ & Hid & Huniq)];
      [congruence|].
    assert (node_id = _id bnd) as -> by congruence.
    pose proof (Huniq b bnd Hb Hbnd eq_refl) as Hbsrc.
    assert (e + 1 ≤ f) by (eapply (Hlb port src e); eauto; by rewrite <- Hbsrc).
    lia.
  - destruct (input_port_cases a nd port Ha Hnd Hin)
      as [[_ ?]|(? & ? & src' & ? & _ & Hsrc' & Hcl & Hrk & _)]; [congruence|].
    assert (src' = src) as -> by congruence.
    destruct (IH (port_node src) b c d' e) as (f' & Hf' & Hle); eauto; [lia|].
    assert (f' + 1 ≤ f) by (eapply (Hlb port src f'); eauto; lia). lia.
Qed.

(** The key of a step: the loop of [sort_steps] over the other steps. *)
Lemma max_dist_loop_spec x i1 : x ∈ closure → ∀ others i2 acc,
  (∀ k o, others !! k = Some o → (i2 + k)%nat = i1 → o = x) →
  (∀ o, o ∈ others → is_Some (nodes h !! o)) →
  0 ≤ acc →
  ∃ r, max_dist_loop F h i1 x i2 others acc = Ok r
    ∧ acc ≤ r
    ∧ (∀ o d, o ∈ others → max_distance_to F h x o = Ok d → d ≤ r)
    ∧ (r = acc ∨ ∃ o d, o ∈ others ∧ max_distance_to F h x o = Ok d ∧ 0 < d ∧ r = d).
Proof.
  intros Hx. induction others as [|o rest IH]; intros i2 acc Hskip Hnodes Hacc; simpl.
  - exists acc. split; [done|]. split; [lia|]. split; [|by left].
    intros o d Hin. by apply elem_of_nil in Hin.
  - assert (∀ k o', rest !! k = Some o' → (S i2 + k)%nat = i1 → o' = x) as Hskip'.
    { intros k o' Hk Hi. apply (Hskip (S k) o'); [done|lia]. }
    assert (∀ o', o' ∈ rest → is_Some (nodes h !! o')) as Hnodes'.
    { intros o' Hin. apply Hnodes. by right. }
    destruct (decide (i1 = i2)) as [Heq|Hne].
    + assert (o = x) as -> by (apply (Hskip O); [done|lia]).
      destruct (IH (S i2) acc Hskip' Hnodes' Hacc) as (r & Hrun & Hle & Hub & Hatt).
      exists r. split; [done|]. split; [done|]. split.
      * intros o d [->|Hin]%elem_of_cons Hd; [|by eapply Hub].
        rewrite max_distance_to_self in Hd by done. injection Hd as <-. lia.
      * destruct Hatt as [->|(o & d & Hin & Hrest)]; [by left|].
        right. exists o, d. split; [by right|done].
    + destruct (max_distance_to_total o (Hnodes o (list_elem_of_here _ _)) F x Hx
                  (closure_rank x Hx)) as [dist Hdist].
      unfold mbind, outcome_bind. rewrite Hdist.
      destruct (IH (S i2) (if 0 <? dist then Z.max acc dist else acc) Hskip' Hnodes')
        as (r & Hrun & Hle & Hub & Hatt).
      { destruct (0 <? dist); lia. }
      exists r. split; [done|].
      assert (acc ≤ r) by (destruct (0 <? dist); lia).
      split; [done|]. split.
      * intros o' d [->|Hin]%elem_of_cons Hd; [|by eapply Hub].
        assert (d = dist) as -> by congruence.
        destruct (0 <? dist) eqn:Hpos; [lia|]. apply Z.ltb_ge in Hpos. lia.
      * destruct Hatt as [->|(o' & d & Hin & Hrest)].
        -- destruct (0 <? dist) eqn:Hpos; [|by left]. apply Z.ltb_lt in Hpos.
           destruct (Z.max_spec acc dist) as [[_ ->]|[_ ->]]; [|by left].
           right. exists o, dist. split; [by left|done].
        -- right. exists o', d. split; [by right|done].
Qed.

Lemma max_dist_loop_unique x i1 i1' others i2 i2' r r' :
  x ∈ closure →
  (∀ k o, others !! k = Some o → (i2 + k)%nat = i1 → o = x) →
  (∀ k o, others !! k = Some o → (i2' + k)%nat = i1' → o = x) →
  (∀ o, o ∈ others → is_Some (nodes h !! o)) →
  max_dist_loop F h i1 x i2 others 0 = Ok r →
  max_dist_loop F h i1' x i2' others 0 = Ok r' →
  r = r'.
Proof.
  intros Hx Hskip Hskip' Hnodes Hr Hr'.
  destruct (max_dist_loop_spec x i1 Hx others i2 0 Hskip Hnodes)
    as (r0 & Hrun & Hle & Hub & Hatt); [lia|].
  destruct (max_dist_loop_spec x i1' Hx others i2' 0 Hskip' Hnodes)
    as (r0' & Hrun' & Hle' & Hub' & Hatt'); [lia|].
  assert (r0 = r) as -> by congruence. assert (r0' = r') as -> by congruence.
  assert (r ≤ r').
  { destruct Hatt as [->|(o & d & Hin & Hd & _ & ->)]; [done|]. by eapply Hub'. }
  assert (r' ≤ r).
  { destruct Hatt' as [->|(o & d & Hin & Hd & _ & ->)]; [done|]. by eapply Hub. }
  lia.
Qed.

Lemma steps_nodes o : o ∈ steps → is_Some (nodes h !! o).
Proof. intros Ho. destruct (closure_node o (steps_in_closure o Ho)). eauto. Qed.

Lemma max_dist_of_total s :
  s ∈ steps →
  ∃ r, max_dist_of F h steps s = Ok r
    ∧ 0 ≤ r
    ∧ (∀ o d, o ∈ steps → max_distance_to F h s o = Ok d → d ≤ r)
    ∧ (r = 0 ∨ ∃ o d, o ∈ steps ∧ max_distance_to F h s o = Ok d ∧ 0 < d ∧ r = d).
Proof.
  intros Hs. apply max_dist_loop_spec; [by apply steps_in_closure| |apply steps_nodes|lia].
  intros k o Hk Hlen. apply lookup_lt_Some in Hk. simpl in Hlen. lia.
Qed.

(** A step that requires another has the larger key. *)
Lemma requires_max_dist a b ka kb :
  a ∈ steps → b ∈ steps →
  requires F h a b = Ok true →
  max_dist_of F h steps a = Ok ka → max_dist_of F h steps b = Ok kb →
  kb < ka.
Proof.
  intros Ha Hb Hreq Hka Hkb. unfold requires, mbind, outcome_bind in Hreq.
  destruct (max_distance_to F h a b) as [d|] eqn:Hd; [|done].
  injection Hreq as Hpos. apply Z.ltb_lt in Hpos.
  destruct (max_dist_of_total a Ha) as (ra & Hra & _ & Huba & _).
  destruct (max_dist_of_total b Hb) as (rb & Hrb & _ & _ & Hattb).
  assert (ra = ka) as -> by congruence. assert (rb = kb) as -> by congruence.
  pose proof (Huba b d Hb Hd).
  destruct Hattb as [->|(c & e & Hc & He & Hepos & ->)]; [lia|].
  destruct (max_distance_to_additive (S (rank a)) a b c d e) as (f & Hf & Hle);
    eauto using steps_in_closure.
  pose proof (Huba c f Hc Hf). lia.
Qed.

Lemma dist_and_step_loop_spec : ∀ todo i1,
  (∀ k s, todo !! k = Some s → steps !! (i1 + k)%nat = Some s) →
  ∃ l, dist_and_step_loop F h steps i1 todo = Ok l
    ∧ l.*2 = todo
    ∧ ∀ kd s, (kd, s) ∈ l → max_dist_of F h steps s = Ok kd.
Proof.
  induction todo as [|s rest IH]; intros i1 Htodo; simpl.
  - exists []. split; [done|]. split; [done|]. intros kd s Hin. by apply elem_of_nil in Hin.
  - assert (steps !! i1 = Some s) as Hs.
    { rewrite <- (Htodo O s); [f_equal; lia|done]. }
    assert (s ∈ steps) as Hin by (apply list_elem_of_lookup; eauto).
    destruct (max_dist_loop_spec s i1 (steps_in_closure s Hin) steps O 0)
      as (r & Hrun & _); [|apply steps_nodes|lia|].
    { intros k o Hk Hi. simpl in Hi. subst k. congruence. }
    destruct (max_dist_of_total s Hin) as (r' & Hr' & _).
    assert (r = r').
    { eapply (max_dist_loop_unique s i1 (length steps) steps O O);
        eauto using steps_in_closure, steps_nodes.
      - intros k o Hk Hi. simpl in Hi. subst k. congruence.
      - intros k o Hk Hlen. apply lookup_lt_Some in Hk. simpl in Hlen. lia. }
    subst r'.
    destruct (IH (S i1)) as (l & Hl & Hsnd & Hkeys).
    { intros k s' Hk. rewrite <- (Htodo (S k) s' Hk). f_equal. lia. }
    unfold mbind, outcome_bind. rewrite Hrun, Hl.
    exists ((r, s) :: l). split; [done|]. split; [by rewrite fmap_cons, Hsnd|].
    intros kd s' [[= -> ->]|Hin']%elem_of_cons; [done|]. by apply Hkeys.
Qed.

End dependency_graph.

(** ** Sorting by key *)
Section sorted_by_key.
Context {A : Type}.
Implicit Types (x y : Z * A) (l : list (Z * A)).

Lemma insert_by_key_perm x l : insert_by_key x l ≡ₚ x :: l.
Proof.
  induction l as [|y r IH]; simpl; [done|].
  destruct (x.1 <=? y.1); [done|]. rewrite IH. apply Permutation_swap.
Qed.

Lemma sorted_by_key_perm l : sorted_by_key l ≡ₚ l.
Proof.
  induction l as [|x r IH]; simpl; [done|].
  rewrite insert_by_key_perm. by rewrite IH.
Qed.

Lemma insert_by_key_sorted x l :
  StronglySorted key_le l → StronglySorted key_le (insert_by_key x l).
Proof.
  induction 1 as [|y r Hr IH Hy]; simpl.
  - repeat constructor.
  - destruct (x.1 <=? y.1) eqn:E.
    + apply Z.leb_le in E. constructor; [by constructor|].
      constructor; [done|]. eapply Forall_impl; [done|].
      intros z Hz. unfold key_le in *. lia.
    + apply Z.leb_gt in E. constructor; [done|].
      rewrite insert_by_key_perm. constructor; [|done]. unfold key_le. lia.
Qed.

Lemma sorted_by_key_sorted l : StronglySorted key_le (sorted_by_key l).
Proof.
  induction l as [|x r IH]; simpl; [constructor|]. by apply insert_by_key_sorted.
Qed.

(** Stability: the elements of any one key keep their order. *)
Lemma insert_by_key_filter (k : Z) x l :
  filter (λ y, y.1 = k) (insert_by_key x l) = filter (λ y, y.1 = k) (x :: l).
Proof.
  induction l as [|y r IH]; simpl; [done|].
  destruct (x.1 <=? y.1) eqn:E; [done|]. apply Z.leb_gt in E.
  rewrite (filter_cons _ y), IH, !(filter_cons _ x), (filter_cons _ y).
  destruct (decide (y.1 = k)), (decide (x.1 = k)); try done. lia.
Qed.

Lemma sorted_by_key_filter (k : Z) l :
  filter (λ y, y.1 = k) (sorted_by_key l) = filter (λ y, y.1 = k) l.
Proof.
  induction l as [|x r IH]; simpl; [done|].
  rewrite insert_by_key_filter, !filter_cons. by rewrite IH.
Qed.

Lemma sorted_by_key_short l : (length l < 2)%nat → sorted_by_key l = l.
Proof. destruct l as [|x [|y r]]; simpl; [done|done|lia]. Qed.

Lemma StronglySorted_lookup_le l i j x y :
  StronglySorted key_le l → (i < j)%nat → l !! i = Some x → l !! j = Some y → x.1 ≤ y.1.
Proof.
  intros Hs. revert i j. induction Hs as [|z r Hr IH Hz]; intros i j Hij Hi Hj; [done|].
  destruct i as [|i], j as [|j]; simpl in *; try lia.
  - injection Hi as <-. rewrite Forall_forall in Hz. apply Hz.
    apply list_elem_of_lookup. eauto.
  - eapply (IH i j); [lia|done|done].
Qed.

Lemma filter_snd_keys (key : A → Z) (k : Z) l :
  (∀ x, x ∈ l → x.1 = key x.2) →
  filter (λ s, key s = k) l.*2 = (filter (λ y, y.1 = k) l).*2.
Proof.
  induction l as [|x r IH]; intros Hkeys; [done|].
  rewrite fmap_cons, !filter_cons.
  rewrite IH by (intros y Hy; apply Hkeys; by right).
  rewrite <- (Hkeys x) by by left.
  by destruct (decide (x.1 = k)).
Qed.

End sorted_by_key.

(** ** The execution order *)

(** C2 (as amended).  On a dependency graph that meets
    [dependency_graph_ok], [sorted_steps] returns a permutation [out] of the
    workflow's steps; every step has a key [dist], its largest positive
    distance to another step (or 0); whenever step [a] requires step [b],
    the key of [b] is smaller and [b] stands before [a] in [out]; [out] is
    ordered by key, and the steps of any one key stand in [out] in the order
    in which they stand in the workflow.  Any two steps can be compared by
    [requires]. *)
Theorem sorted_steps_topological
    (h : heap) (workflow : nat) (wnd : Node) (closure : list nat)
    (rank : nat → nat) (fuel : nat)
    (Hw : nodes h !! workflow = Some wnd)
    (Hwf : dependency_graph_ok h (_steps wnd) closure rank fuel) :
  ∃ (out : list nat) (dist : nat → Z),
    sorted_steps fuel h workflow = Ok out
    ∧ out ≡ₚ _steps wnd
    ∧ (∀ s, s ∈ _steps wnd → max_dist_of fuel h (_steps wnd) s = Ok (dist s))
    ∧ (∀ a b, a ∈ _steps wnd → b ∈ _steps wnd → ∃ r, requires fuel h a b = Ok r)
    ∧ (∀ a b, a ∈ _steps wnd → b ∈ _steps wnd → requires fuel h a b = Ok true →
         dist b < dist a
         ∧ ∀ i j, out !! i = Some a → out !! j = Some b → (j < i)%nat)
    ∧ (∀ i j x y, (i < j)%nat → out !! i = Some x → out !! j = Some y → dist x ≤ dist y)
    ∧ (∀ k, filter (λ s, dist s = k) out = filter (λ s, dist s = k) (_steps wnd)).
Proof.
  set (steps := _steps wnd) in *.
  set (dist := λ s, match max_dist_of fuel h steps s with Ok z => z | Raise _ => 0 end).
  destruct (dist_and_step_loop_spec h steps closure rank fuel Hwf steps O)
    as (l & Hl & Hsnd & Hkeys); [done|].
  assert (∀ s, s ∈ steps → max_dist_of fuel h steps s = Ok (dist s)) as Hdist.
  { intros s Hs. unfold dist.
    by destruct (max_dist_of_total h steps closure rank fuel Hwf s Hs) as (r & -> & _). }
  assert (∀ x, x ∈ sorted_by_key l → x.2 ∈ steps ∧ x.1 = dist x.2) as Hsorted.
  { intros [kd s] Hin. rewrite sorted_by_key_perm in Hin. simpl.
    assert (s ∈ steps) as Hs.
    { rewrite <- Hsnd. apply list_elem_of_fmap. by exists (kd, s). }
    split; [done|]. apply Hkeys in Hin. rewrite (Hdist s Hs) in Hin. congruence. }
  assert (∀ i s, (sorted_by_key l).*2 !! i = Some s →
            sorted_by_key l !! i = Some (dist s, s)) as Hlookup.
  { intros i s Hi. rewrite list_lookup_fmap in Hi.
    destruct (sorted_by_key l !! i) as [[kd s']|] eqn:E; [|done].
    injection Hi as ->. f_equal. f_equal.
    apply (Hsorted (kd, s)). apply list_elem_of_lookup. eauto. }
  assert (sorted_steps fuel h workflow = Ok (sorted_by_key l).*2) as Hrun.
  { unfold sorted_steps, sort_steps, node_at, mbind, outcome_bind. rewrite Hw.
    fold steps. rewrite Hl. case_bool_decide as Hlen; [|done].
    rewrite sorted_by_key_short; [by rewrite Hsnd|].
    rewrite <- Hsnd, length_fmap in Hlen. done. }
  assert (∀ a b, a ∈ steps → b ∈ steps → requires fuel h a b = Ok true → dist b < dist a)
    as Hreq.
  { intros a b Ha Hb Hab.
    eapply (requires_max_dist h steps closure rank fuel Hwf a b); eauto. }
  exists (sorted_by_key l).*2, dist. split; [done|]. split.
  { rewrite sorted_by_key_perm. by rewrite Hsnd. }
  split; [done|]. split.
  { intros a b Ha Hb. unfold requires, mbind, outcome_bind.
    destruct (max_distance_to_total h steps closure rank fuel Hwf b
                (steps_nodes h steps closure rank fuel Hwf b Hb) fuel a) as [d ->];
      eauto using steps_in_closure, closure_rank. }
  split; [|split].
  - intros a b Ha Hb Hab. pose proof (Hreq a b Ha Hb Hab) as Hlt. split; [done|].
    intros i j Hi Hj. apply Hlookup in Hi, Hj.
    destruct (decide (j < i)%nat) as [|Hge]; [done|]. exfalso.
    destruct (decide (i = j)) as [->|Hne].
    + assert (a = b) as -> by congruence. lia.
    + pose proof (StronglySorted_lookup_le _ i j _ _ (sorted_by_key_sorted l)
                    ltac:(lia) Hi Hj) as Hle. simpl in Hle. lia.
  - intros i j x y Hij Hi Hj. apply Hlookup in Hi, Hj.
    apply (StronglySorted_lookup_le _ i j _ _ (sorted_by_key_sorted l) Hij Hi Hj).
  - intros k. rewrite (filter_snd_keys dist k (sorted_by_key l)) by (intros x Hx; by apply Hsorted).
    rewrite sorted_by_key_filter.
    rewrite <- (filter_snd_keys dist k l), Hsnd; [done|].
    intros x Hx. apply Hsorted. by rewrite sorted_by_key_perm.
Qed.

Ltac split_elem :=
  repeat match goal with
         | H : _ ∈ _ :: _ |- _ => apply elem_of_cons in H as [->|H]
         | H : _ ∈ [] |- _ => by apply elem_of_nil in H
         end.

Lemma diamond_graph_ok :
  dependency_graph_ok diamond_store [1; 2; 3; 4]%nat [1; 2; 3; 4; 0]%nat diamond_rank 10.
Proof.
  split; [|split].
  - intros s Hs. split_elem; set_solver.
  - intros u Hu. split_elem; (split; [vm_compute; eauto | vm_compute; lia]).
  - intros u nd port Hu Hnd Hport.
    split_elem; vm_compute in Hnd; injection Hnd as <-; simpl in Hport; split_elem; simpl;
      try done.
    all: split; [set_solver|].
    all: split; [vm_compute; lia|].
    all: eexists; split; [vm_compute; reflexivity|].
    all: split; [reflexivity|].
    all: intros b bnd Hb Hbnd Hid; split_elem; vm_compute in Hbnd; injection Hbnd as <-.
    all: done.
Qed.

Lemma sorted_steps_topological_witness :
  ∃ (out : list nat) (dist : nat → Z),
    sorted_steps 10 diamond_store 0 = Ok out
    ∧ out ≡ₚ [1; 2; 3; 4]%nat
    ∧ (∀ s, s ∈ [1; 2; 3; 4]%nat → max_dist_of 10 diamond_store [1; 2; 3; 4]%nat s = Ok (dist s))
    ∧ (∀ a b, a ∈ [1; 2; 3; 4]%nat → b ∈ [1; 2; 3; 4]%nat →
         ∃ r, requires 10 diamond_store a b = Ok r)
    ∧ (∀ a b, a ∈ [1; 2; 3; 4]%nat → b ∈ [1; 2; 3; 4]%nat →
         requires 10 diamond_store a b = Ok true →
         dist b < dist a
         ∧ ∀ i j, out !! i = Some a → out !! j = Some b → (j < i)%nat)
    ∧ (∀ i j x y, (i < j)%nat → out !! i = Some x → out !! j = Some y → dist x ≤ dist y)
    ∧ (∀ k, filter (λ s, dist s = k) out = filter (λ s, dist s = k) [1; 2; 3; 4]%nat).
Proof.
  apply (sorted_steps_topological diamond_store 0
           (a_workflow 0 "wf" (unbound_ports ["x"]) [("y", bound "D" (PortRef 4 true "return"))]
              [("A", 1%nat); ("B", 2%nat); ("C", 3%nat); ("D", 4%nat)])
           [1; 2; 3; 4; 0]%nat diamond_rank 10).
  - reflexivity.
  - exact diamond_graph_ok.
Defined.

(** The diamond is sorted as [A; B; C; D]: "A" first, "D" last, "B" and "C"
    in insertion order. *)
Lemma sorted_steps_diamond : sorted_steps 10 diamond_store 0 = Ok [1; 2; 3; 4]%nat.
Proof. vm_compute. reflexivity. Qed.

(** C2 (as stated) fails: in workflow "w" the step "a" reads the workflow's
    input, and the second step bears the workflow's id "w"; [requires]
    tells by the id in the source reference, so "a" requires that step, and
    yet [sorted_steps] puts "a" before it. *)
Lemma sorted_steps_id_clash :
  requires 10 clash_store 1 2 = Ok true
  ∧ sorted_steps 10 clash_store 0 = Ok [3; 1; 2]%nat
  ∧ max_dist_of 10 clash_store [1; 2; 3]%nat 1 = Ok 1
  ∧ max_dist_of 10 clash_store [1; 2; 3]%nat 2 = Ok 1.
Proof. vm_compute. done. Qed.


(** ** Invocation and the value cache *)

Lemma setitem_total key v (c : cache_state) :
  ∃ c', __setitem__ key v c = (Ok (), c') ∧ dict_get key (items c'.1) = Some v.
Proof.
  destruct c as [c tr]. destruct (_id_infos c !! key) as [[id n]|] eqn:E.
  - rewrite (setitem_known _ _ _ _ _ _ E). eexists. split; [done|]. apply dict_get_set_eq.
  - rewrite (setitem_fresh _ _ _ _ E). eexists. split; [done|]. apply dict_get_set_eq.
Qed.

Lemma on_store_frame {A} (m : M heap A) rs :
  value_cache (on_store m rs).2 = value_cache rs ∧ calls (on_store m rs).2 = calls rs.
Proof. unfold on_store. by destruct (m (store rs)). Qed.

(** C7.  [_invoke_impl] of an operation step whose inputs yield the keyword
    arguments [args].  With [can_cache] true and a cache in the context: an
    entry under the step's id that is not [UNDEFINED] becomes the return
    value, the operation is not called and the cache is not written;
    without such an entry the operation is called once and its result is
    assigned to the cache under the step's id.  With [can_cache] false (or
    no cache in the context) the operation is called and the cache is left
    alone.  Storing the return value in the output ports touches neither
    the cache nor the call log. *)
Theorem invoke_consults_value_cache
    (safe_eval : string → context → outcome pyval)
    (_op : nat → list (string * pyval) → outcome pyval)
    (fuel self : nat) (ctx : context) (rs : run_state)
    (nd : Node) (mi : OpMetaInfo) (args : list (string * pyval))
    (Hnd : nodes (store rs) !! self = Some nd)
    (Hmi : metas (store rs) !! _op_meta_info nd = Some mi)
    (Hargs : op_arguments safe_eval fuel (store rs) self nd mi ctx = Ok args) :
  let cache := (value_cache rs).1 in
  let called := RunState (store rs) (value_cache rs) (calls rs ++ [(self, args)]) in
  (∀ v, can_cache mi = true → has_value_cache ctx = true →
     dict_get (_id nd) (items cache) = Some v → is_undefined v = false →
     _invoke_impl safe_eval _op fuel self ctx rs = on_store (store_outputs self mi v) rs)
  ∧ (∀ r, can_cache mi = true → has_value_cache ctx = true →
       dict_get (_id nd) (items cache) = None
       ∨ dict_get (_id nd) (items cache) = Some VUndefined →
       _op self args = Ok r →
       ∃ c', __setitem__ (_id nd) r (value_cache rs) = (Ok (), c')
         ∧ dict_get (_id nd) (items c'.1) = Some r
         ∧ _invoke_impl safe_eval _op fuel self ctx rs
           = on_store (store_outputs self mi r)
               (RunState (store rs) c' (calls rs ++ [(self, args)])))
  ∧ (∀ r, can_cache mi = false ∨ has_value_cache ctx = false →
       _op self args = Ok r →
       _invoke_impl safe_eval _op fuel self ctx rs = on_store (store_outputs self mi r) called)
  ∧ (∀ e, can_cache mi = false ∨ has_value_cache ctx = false
          ∨ dict_get (_id nd) (items cache) = None
          ∨ dict_get (_id nd) (items cache) = Some VUndefined →
       _op self args = Raise e →
       _invoke_impl safe_eval _op fuel self ctx rs = (Raise e, called))
  ∧ (∀ v rs0, value_cache (on_store (store_outputs self mi v) rs0).2 = value_cache rs0
              ∧ calls (on_store (store_outputs self mi v) rs0).2 = calls rs0).
Proof.
  destruct rs as [h [cache tr] cl]. simpl in *.
  unfold _invoke_impl, _get_value_cache.
  unfold mbind, M_bind, on_store, query, get_node, node_at, meta_at. simpl.
  rewrite Hnd. simpl. rewrite Hmi. simpl. rewrite Hargs. simpl.
  split; [|split; [|split; [|split]]].
  - intros v -> -> Hv Hdef. rewrite Hv, Hdef. done.
  - intros r -> -> Hv Hr.
    destruct (setitem_total (_id nd) r (cache, tr)) as (c' & Hset & Hget).
    exists c'. split; [done|]. split; [done|].
    destruct Hv as [-> | ->]; simpl; unfold call_op, on_cache; simpl;
      rewrite Hr, Hset; done.
  - intros r Hno Hr.
    assert ((if can_cache mi then has_value_cache ctx else false) = false) as ->.
    { destruct Hno as [-> | ->]; [done|]. by destruct (can_cache mi). }
    simpl. by rewrite Hr.
  - intros e Hno He.
    destruct (if can_cache mi then has_value_cache ctx else false) eqn:Hc.
    + destruct Hno as [Hno|[Hno|[-> | ->]]].
      * rewrite Hno in Hc. done.
      * rewrite Hno in Hc. by destruct (can_cache mi).
      * simpl. by rewrite He.
      * simpl. by rewrite He.
    + simpl. by rewrite He.
  - intros v rs0. destruct rs0 as [h0 c0 cl0]. simpl.
    by destruct (store_outputs self mi v h0).
Qed.

Lemma invoke_consults_value_cache_witness :
  let nd := a_step 1 "double" [("x", mkPort None None (VInt 3))]
              [("return", mkPort None None (VInt 6))] (Some 0%nat) in
  let rs := (_invoke_impl no_eval double_op 10 1 caching_context fresh_run).2 in
  (* the first invocation called the operation and cached its result *)
  calls rs = [(1%nat, [("x", VInt 3)])]
  ∧ dict_get "double" (items (value_cache rs).1) = Some (VInt 6)
  (* the second invocation takes the cached value and calls nothing *)
  ∧ _invoke_impl no_eval double_op 10 1 caching_context rs
    = on_store (store_outputs 1 (meta_of nd) (VInt 6)) rs
  ∧ calls (_invoke_impl no_eval double_op 10 1 caching_context rs).2 = calls rs
  ∧ value_cache (_invoke_impl no_eval double_op 10 1 caching_context rs).2 = value_cache rs.
Proof.
  intros nd rs.
  destruct (invoke_consults_value_cache no_eval double_op 10 1 caching_context rs nd
              (meta_of nd) [("x", VInt 3)]) as (Hcached & _ & _ & _ & Hframe);
    [reflexivity|reflexivity|reflexivity|].
  assert (_invoke_impl no_eval double_op 10 1 caching_context rs
          = on_store (store_outputs 1 (meta_of nd) (VInt 6)) rs) as Hrun.
  { apply Hcached; reflexivity. }
  split; [reflexivity|]. split; [reflexivity|]. split; [exact Hrun|].
  rewrite Hrun. destruct (Hframe (VInt 6) rs) as [Hc Hl]. split; [exact Hl|exact Hc].
Defined.

(** ** Reading a step from JSON *)

Section json_facts.
Context (type_from_json : pyval → pyval → option pyval).

Lemma dict_set_set {V} k (v v' : V) d : dict_set k v' (dict_set k v d) = dict_set k v' d.
Proof.
  induction d as [|[k' x] r IH]; simpl.
  - by rewrite decide_True.
  - destruct (decide (k' = k)); simpl.
    + by rewrite decide_True.
    + rewrite decide_False by done. by rewrite IH.
Qed.

Lemma with_namespace_twice nd b ns ns' :
  with_namespace (with_namespace nd b ns) b ns' = with_namespace nd b ns'.
Proof. by destruct b. Qed.

Lemma put_port_twice h p x y nd :
  nodes h !! port_node p = Some nd →
  (put_port p x ;; put_port p y) h = put_port p y h.
Proof.
  intros Hnd. unfold mbind, M_bind.
  rewrite (put_port_run _ _ x _ Hnd).
  erewrite put_port_run.
  2:{ simpl. apply list_lookup_insert_eq. by eapply lookup_lt_Some. }
  rewrite (put_port_run _ _ y _ Hnd). simpl.
  rewrite list_insert_insert_eq, namespace_with_namespace, decide_True by done.
  by rewrite with_namespace_twice, dict_set_set.
Qed.

(** [from_json] on a well-formed port JSON overwrites the port with the
    port the JSON stands for. *)
Lemma from_json_denotes h self port_json port old nd mi :
  port_at h self = Ok old →
  nodes h !! port_node self = Some nd →
  metas h !! _op_meta_info nd = Some mi →
  port_json_denotes (_from_json_value type_from_json mi (port_name self)) port_json port →
  from_json type_from_json self port_json h = put_port self port h.
Proof.
  intros Hold Hnd Hmi Hden. unfold from_json.
  unfold mbind at 1, M_bind at 1. rewrite (get_port_run _ _ _ Hold).
  pose proof (put_port_run h self new_port nd Hnd) as Hput.
  set (nd1 := with_namespace nd (port_is_output self)
                (dict_set (port_name self) new_port (namespace nd (port_is_output self)))) in *.
  set (h1 := Heap (<[port_node self := nd1]> (nodes h)) (metas h)) in *.
  assert (nodes h1 !! port_node self = Some nd1) as Hnd1.
  { simpl. apply list_lookup_insert_eq. by eapply lookup_lt_Some. }
  assert (∀ y, put_port self y h1 = put_port self y h) as Htwice.
  { intros y. pose proof (put_port_twice h self new_port y nd Hnd) as H.
    unfold mbind, M_bind in H. by rewrite Hput in H. }
  inversion Hden; subst.
  - unfold mbind, M_bind. by rewrite Hput.
  - unfold mbind at 1, M_bind at 1. rewrite Hput. simpl. munfold.
    unfold dict_in. rewrite H, H0. simpl. done.
  - unfold mbind at 1, M_bind at 1. rewrite Hput. simpl. munfold. rewrite H. apply Htwice.
  - unfold mbind at 1, M_bind at 1. rewrite Hput. simpl. munfold.
    unfold dict_in. rewrite H, H0. simpl.
    rewrite H1. apply Htwice.
  - unfold mbind at 1, M_bind at 1. rewrite Hput. simpl. munfold.
    unfold dict_in. rewrite H, H0. simpl.
    unfold get_node, get_meta, node_at, meta_at. munfold. rewrite Hnd1. simpl.
    assert (_op_meta_info nd1 = _op_meta_info nd) as -> by by (unfold nd1; destruct (port_is_output self)).
    rewrite Hmi. unfold set_value. unfold mbind, M_bind.
    assert (port_at h1 self = Ok new_port) as Hp1.
    { apply port_at_Ok. exists nd1. split; [done|]. unfold nd1.
      rewrite namespace_with_namespace, decide_True by done. apply dict_get_set_eq. }
    rewrite (get_port_run _ _ _ Hp1). apply Htwice.
Qed.

Lemma dict_set_last {V} k (v x : V) d :
  dict_get k d = None → dict_set k v (d ++ [(k, x)]) = d ++ [(k, v)].
Proof.
  induction d as [|[k' y] r IH]; simpl.
  - by rewrite decide_True.
  - destruct (decide (k' = k)); [done|]. intros H. by rewrite IH.
Qed.

Lemma dict_get_None_keys {V} k (d : list (string * V)) :
  dict_get k d = None ↔ k ∉ dict_keys d.
Proof.
  rewrite <- dict_get_is_Some_keys, <- eq_None_not_Some. done.
Qed.

(** A round of the loops of [Step.from_json_dict] on a name that neither
    the step nor its meta-information has. *)
Lemma port_from_json_entry_new h step nd mi is_output name port_json :
  nodes h !! step = Some nd →
  metas h !! _op_meta_info nd = Some mi →
  dict_get name (namespace nd is_output) = None →
  dict_get name (meta_ports mi is_output) = None →
  let mi' := with_meta_ports mi is_output (meta_ports mi is_output ++ [(name, [])]) in
  let with_port := λ port,
    Heap (<[step := with_namespace nd is_output (namespace nd is_output ++ [(name, port)])]>
            (nodes h))
         (<[_op_meta_info nd := mi']> (metas h)) in
  port_from_json_entry type_from_json step is_output name port_json h
    = from_json type_from_json (PortRef step is_output name) port_json (with_port new_port)
  ∧ meta_at (with_port new_port) (_op_meta_info nd) = Ok mi'
  ∧ port_at (with_port new_port) (PortRef step is_output name) = Ok new_port
  ∧ ∀ port, port_json_denotes (_from_json_value type_from_json mi' name) port_json port →
      port_from_json_entry type_from_json step is_output name port_json h
        = (Ok (), with_port port).
Proof.
  intros Hnd Hmi Hns Hname mi' with_port.
  assert (dict_in name (namespace nd is_output) = false) as Hin by by apply dict_in_false.
  assert (metas (with_port new_port) !! _op_meta_info nd = Some mi') as Hmi'.
  { simpl. apply list_lookup_insert_eq. by eapply lookup_lt_Some. }
  assert (nodes (with_port new_port) !! step
          = Some (with_namespace nd is_output (namespace nd is_output ++ [(name, new_port)])))
    as Hnd'.
  { simpl. apply list_lookup_insert_eq. by eapply lookup_lt_Some. }
  assert (port_at (with_port new_port) (PortRef step is_output name) = Ok new_port) as Hport.
  { apply port_at_Ok. eexists. split; [exact Hnd'|]. simpl.
    rewrite namespace_with_namespace, decide_True by done.
    rewrite dict_get_app_r by done. simpl. by rewrite decide_True. }
  assert (port_from_json_entry type_from_json step is_output name port_json h
          = from_json type_from_json (PortRef step is_output name) port_json (with_port new_port))
    as Hrun.
  { unfold port_from_json_entry. unfold mbind at 1, M_bind at 1.
    rewrite (get_node_run _ _ _ Hnd), Hin.
    unfold get_meta, put_meta, put_node, meta_at. munfold. rewrite Hmi. simpl.
    rewrite Hname. simpl. rewrite list_lookup_insert_eq by by eapply lookup_lt_Some.
    rewrite !dict_set_absent by done.
    replace (dict_in name (inputs _) || dict_in name (outputs _)) with true; [done|].
    symmetry. apply orb_true_iff. unfold dict_in.
    destruct is_output; simpl in *; [right|left];
      (apply bool_decide_eq_true; rewrite dict_get_app_r by done; simpl;
       rewrite decide_True by done; eauto). }
  split; [exact Hrun|]. split; [by unfold meta_at; rewrite Hmi'|]. split; [exact Hport|].
  intros port Hden. rewrite Hrun.
  rewrite (from_json_denotes (with_port new_port) (PortRef step is_output name) _ port _ _ mi'
             Hport Hnd'); [|by destruct is_output|exact Hden].
  rewrite (put_port_run _ (PortRef step is_output name) _ _ Hnd'). unfold with_port. simpl.
  rewrite list_insert_insert_eq, namespace_with_namespace, decide_True by done.
  by rewrite with_namespace_twice, dict_set_last.
Qed.


End json_facts.


(** ** Writing a workflow as JSON and reading it back *)

Lemma rsplit_dot_cons c rest :
  rsplit_dot (String c rest)
    = match rsplit_dot rest with
      | Some (before, after) => Some (String c before, after)
      | None => if Ascii.eqb c dot then Some ("", rest) else None
      end.
Proof. done. Qed.

Lemma rsplit_dot_join id name :
  rsplit_dot name = None → rsplit_dot (id +:+ "." +:+ name) = Some (id, name).
Proof.
  intros Hname. induction id as [|c r IH].
  - change ("" +:+ "." +:+ name) with (String dot name).
    by rewrite rsplit_dot_cons, Hname.
  - change (String c r +:+ "." +:+ name) with (String c (r +:+ "." +:+ name)).
    by rewrite rsplit_dot_cons, IH.
Qed.

Lemma parse_source_id id :
  id ≠ "" → rsplit_dot id = None → parse_source id = Ok (PlainPair (Some id) None).
Proof.
  intros Hid Hdot. unfold parse_source, truthy_str. rewrite Hdot.
  by rewrite bool_decide_eq_false_2.
Qed.

Lemma parse_source_dotted id name :
  id ≠ "" → name ≠ "" → rsplit_dot name = None →
  parse_source (id +:+ "." +:+ name) = Ok (PlainPair (Some id) (Some name)).
Proof.
  intros Hid Hname Hdot. unfold parse_source, truthy_str.
  rewrite rsplit_dot_join by done. by rewrite !bool_decide_eq_false_2.
Qed.

Lemma append_nonempty (a b : string) : a ≠ "" → a +:+ b ≠ "".
Proof. by destruct a. Qed.

(** The text written for a source that [source_round_trips] parses to the
    reference of [reloaded]. *)
Lemma source_text_parses h workflow steps p q qnd :
  source_round_trips h workflow steps p q →
  nodes h !! port_node q = Some qnd →
  _id qnd ≠ "" →
  ∃ s, port_str h q = Ok s ∧ s ≠ ""
    ∧ parse_source s
      = Ok (PlainPair (Some (node_id h (port_node q)))
              (if decide (port_name q = RETURN_OUTPUT_NAME) then None
               else Some (port_name q))).
Proof.
  intros (_ & _ & qnd' & Hq' & Hcase) Hq Hid.
  assert (qnd' = qnd) as -> by congruence.
  unfold port_str, node_at, node_id. rewrite Hq. simpl.
  destruct (decide (port_name q = RETURN_OUTPUT_NAME)) as [Hret|Hret].
  - destruct Hcase as [Hdot _]. eexists. split; [done|]. split; [done|].
    by apply parse_source_id.
  - destruct Hcase as (Hdot & Hname & _). eexists. split; [done|].
    split; [by apply append_nonempty|]. by apply parse_source_dotted.
Qed.

Lemma port_json_keys (d : list (string * pyval)) :
  match d with
  | [] => True
  | [(k', _)] => k' = "source" ∨ k' = "value"
  | _ => False
  end →
  ∀ k, is_Some (dict_get k d) → k = "source" ∨ k = "value".
Proof.
  destruct d as [|[k' v] [|? ?]]; simpl; try done.
  intros Hk k. destruct (decide (k' = k)) as [<-|]; [done|]. by intros [? ?].
Qed.

Section to_json_facts.
Context (type_to_json : pyval → pyval → option pyval).

Lemma to_json_bound h p port q s force_dict :
  port_at h p = Ok port → _source port = Some q → port_str h q = Ok s →
  to_json type_to_json h p force_dict
    = Ok (if force_dict then VDict [("source", VStr s)] else VStr s).
Proof. intros Hp Hq Hs. unfold to_json. munfold. by rewrite Hp, Hq, Hs. Qed.

Lemma to_json_unbound h p port nd mi force_dict :
  port_at h p = Ok port → _source port = None →
  nodes h !! port_node p = Some nd → metas h !! _op_meta_info nd = Some mi →
  to_json type_to_json h p force_dict
    = Ok (VDict (if is_undefined (_value port) || dict_in (port_name p) (outputs mi) then []
                 else [("value", _to_json_value type_to_json mi (port_name p) (_value port))])).
Proof.
  intros Hp Hq Hnd Hmi. unfold to_json, node_at, meta_at. munfold. rewrite Hp, Hq.
  destruct (is_undefined (_value port)); [done|]. rewrite Hnd. simpl. rewrite Hmi. simpl.
  by destruct (dict_in _ _).
Qed.

(** The JSON of a port that [port_round_trips] stands for its [reloaded]
    port, under any conversion that leads back from the JSON of a literal
    input. *)
Lemma to_json_denotes from_value h workflow steps nd mi p port force_dict :
  port_at h p = Ok port →
  nodes h !! port_node p = Some nd →
  metas h !! _op_meta_info nd = Some mi →
  (port_is_output p = true → dict_in (port_name p) (outputs mi) = true) →
  match _source port with
  | Some q =>
      source_round_trips h workflow steps p q ∧ node_id h (port_node q) ≠ ""
  | None =>
      port_is_output p = false → is_undefined (_value port) = false →
      dict_get (port_name p) (outputs mi) = None
      ∧ from_value (_to_json_value type_to_json mi (port_name p) (_value port)) = _value port
  end →
  ∃ j, to_json type_to_json h p force_dict = Ok j
    ∧ (truthy j = false → reloaded h p port = new_port)
    ∧ (force_dict = true →
       ∃ d, j = VDict d ∧ ∀ k, is_Some (dict_get k d) → k = "source" ∨ k = "value")
    ∧ port_json_denotes from_value j (reloaded h p port).
Proof.
  intros Hp Hnd Hmi Hout Hcase. unfold reloaded.
  destruct (_source port) as [q|] eqn:Hsrc.
  - destruct Hcase as [Hrt Hid].
    pose proof Hrt as (_ & _ & qnd & Hq & _).
    assert (_id qnd ≠ "") as Hid' by (by unfold node_id in Hid; rewrite Hq in Hid).
    destruct (source_text_parses _ _ _ _ _ _ Hrt Hq Hid') as (s & Hs & Hne & Hparse).
    eexists. split; [by eapply to_json_bound|].
    destruct force_dict.
    + split; [done|]. split; [intros _; eexists; split; [done|apply port_json_keys; simpl; auto]|].
      by apply denotes_source with s.
    + split; [simpl; by rewrite bool_decide_eq_false_2|]. split; [done|].
      by apply denotes_text.
  - eexists. split; [by eapply to_json_unbound|].
    destruct (port_is_output p) eqn:Hb.
    + rewrite (Hout eq_refl), orb_true_r. split; [done|].
      split; [intros _; eexists; split; [done|apply port_json_keys; simpl; auto]|]. by apply denotes_unset.
    + destruct (is_undefined (_value port)) eqn:Hundef.
      * destruct (_value port); try done. simpl. split; [done|].
        split; [intros _; eexists; split; [done|apply port_json_keys; simpl; auto]|]. by apply denotes_unset.
      * destruct (Hcase eq_refl eq_refl) as [Hno Hconv].
        apply dict_in_false in Hno. rewrite Hno. simpl.
        split; [done|].
        split; [intros _; eexists; split; [done|apply port_json_keys; simpl; auto]|].
        rewrite <- Hconv at 2. by apply denotes_value.
Qed.

End to_json_facts.

Lemma port_json_denotes_ext (f g : pyval → pyval) j x :
  (∀ v, f v = g v) → port_json_denotes f j x → port_json_denotes g j x.
Proof.
  intros Hfg Hden. inversion Hden; subst; try by econstructor.
  rewrite Hfg. by apply denotes_value.
Qed.

Lemma meta_ports_with_meta_ports mi b d : meta_ports (with_meta_ports mi b d) b = d.
Proof. by destruct b. Qed.

Lemma with_meta_ports_twice mi b d d' :
  with_meta_ports (with_meta_ports mi b d) b d' = with_meta_ports mi b d'.
Proof. by destruct b. Qed.

Section read_ports.
Context (type_from_json : pyval → pyval → option pyval).

Lemma from_json_run h self port_json port old nd mi :
  port_at h self = Ok old →
  nodes h !! port_node self = Some nd →
  metas h !! _op_meta_info nd = Some mi →
  port_json_denotes (_from_json_value type_from_json mi (port_name self)) port_json port →
  from_json type_from_json self port_json h
    = (Ok (), Heap (<[port_node self :=
                       with_namespace nd (port_is_output self)
                         (dict_set (port_name self) port (namespace nd (port_is_output self)))]>
                      (nodes h)) (metas h)).
Proof.
  intros Hold Hnd Hmi Hden.
  rewrite (from_json_denotes _ _ _ _ _ _ _ _ Hold Hnd Hmi Hden).
  by apply put_port_run.
Qed.

Lemma port_from_json_entry_declared h step nd is_output name port_json :
  nodes h !! step = Some nd →
  is_Some (dict_get name (namespace nd is_output)) →
  port_from_json_entry type_from_json step is_output name port_json h
    = from_json type_from_json (PortRef step is_output name) port_json h.
Proof.
  intros Hnd Hin. unfold port_from_json_entry. unfold mbind at 1, M_bind at 1.
  rewrite (get_node_run _ _ _ Hnd).
  apply dict_in_true in Hin. by rewrite Hin.
Qed.

(** The loop of [Step.from_json_dict] over entries whose names the step
    has: each port is overwritten. *)
Lemma read_declared_ports step is_output : ∀ (l : list (string * pyval * NodePort)) h nd mi,
  nodes h !! step = Some nd →
  metas h !! _op_meta_info nd = Some mi →
  Forall (λ e, is_Some (dict_get e.1.1 (namespace nd is_output))
               ∧ port_json_denotes (_from_json_value type_from_json mi e.1.1) e.1.2 e.2) l →
  for_each (entry_json l)
    (λ entry, port_from_json_entry type_from_json step is_output entry.1 entry.2) h
  = (Ok (), Heap (<[step := with_namespace nd is_output
                              (foldl (λ ns e, dict_set e.1.1 e.2 ns) (namespace nd is_output) l)]>
                    (nodes h)) (metas h)).
Proof.
  induction l as [|[[name j] x] l IH]; intros h nd mi Hnd Hmi Hall.
  - simpl. unfold mret, M_ret. f_equal. destruct h as [ns ms]. simpl in *. f_equal.
    symmetry. apply list_insert_id. rewrite Hnd. f_equal. by destruct nd, is_output.
  - apply Forall_cons in Hall as [[Hin Hden] Hall]. simpl in Hin, Hden.
    simpl. unfold mbind, M_bind.
    rewrite (port_from_json_entry_declared _ _ _ _ _ _ Hnd Hin).
    destruct Hin as [old Hold].
    rewrite (from_json_run h (PortRef step is_output name) j x old nd mi); try done.
    2:{ apply port_at_Ok. eauto. }
    simpl.
    set (nd1 := with_namespace nd is_output (dict_set name x (namespace nd is_output))).
    rewrite (IH _ nd1 mi); simpl.
    + rewrite list_insert_insert_eq. unfold nd1.
      by rewrite namespace_with_namespace, decide_True, with_namespace_twice.
    + apply list_lookup_insert_eq. by eapply lookup_lt_Some.
    + by destruct is_output.
    + eapply Forall_impl; [exact Hall|]. intros [[name' j'] x'] [Hin' Hden']. simpl in *.
      split; [|done]. unfold nd1. rewrite namespace_with_namespace, decide_True by done.
      destruct (decide (name = name')) as [->|Hne].
      * rewrite dict_get_set_eq. eauto.
      * by rewrite dict_get_set_ne.
Qed.

Lemma from_json_value_no_props mi name v :
  Forall (λ kv, kv.2 = []) (inputs mi) → _from_json_value type_from_json mi name v = v.
Proof.
  intros Hall. unfold _from_json_value, convert_value.
  destruct (dict_get name (inputs mi)) as [props|] eqn:E; [|done].
  assert (props = []) as ->; [|done].
  induction (inputs mi) as [|[k p] r IH]; [done|].
  apply Forall_cons in Hall as [Hp Hall]. simpl in *.
  destruct (decide (k = name)); [congruence|]. by apply IH.
Qed.

(** The loop over entries whose names neither the step nor its
    meta-information has, on a step none of whose inputs has properties:
    the ports and empty entries are appended in the order of the JSON. *)
Lemma read_new_ports step is_output : ∀ (l : list (string * pyval * NodePort)) h nd mi,
  nodes h !! step = Some nd →
  metas h !! _op_meta_info nd = Some mi →
  Forall (λ kv, kv.2 = []) (inputs mi) →
  NoDup (entry_json l).*1 →
  Forall (λ e, dict_get e.1.1 (namespace nd is_output) = None
               ∧ dict_get e.1.1 (meta_ports mi is_output) = None
               ∧ port_json_denotes (λ v, v) e.1.2 e.2) l →
  for_each (entry_json l)
    (λ entry, port_from_json_entry type_from_json step is_output entry.1 entry.2) h
  = (Ok (), Heap (<[step := with_namespace nd is_output
                              (namespace nd is_output ++ entry_ports l)]> (nodes h))
                 (<[_op_meta_info nd := with_meta_ports mi is_output
                              (meta_ports mi is_output ++ entry_props l)]> (metas h))).
Proof.
  induction l as [|[[name j] x] l IH]; intros h nd mi Hnd Hmi Hempty Hdup Hall.
  - simpl. unfold mret, M_ret. f_equal. destruct h as [ns ms]. simpl in *.
    rewrite !app_nil_r. f_equal; symmetry; apply list_insert_id.
    + rewrite Hnd. f_equal. by destruct nd, is_output.
    + rewrite Hmi. f_equal. by destruct mi, is_output.
  - apply Forall_cons in Hall as [(Hns & Hmeta & Hden) Hall]. simpl in Hns, Hmeta, Hden.
    simpl in Hdup. apply NoDup_cons in Hdup as [Hfresh Hdup].
    simpl. unfold mbind, M_bind.
    destruct (port_from_json_entry_new type_from_json h step nd mi is_output name j
                Hnd Hmi Hns Hmeta) as (_ & _ & _ & Hrun).
    set (mi1 := with_meta_ports mi is_output (meta_ports mi is_output ++ [(name, [])])) in *.
    assert (Forall (λ kv, kv.2 = []) (inputs mi1)) as Hempty1.
    { unfold mi1. destruct is_output; simpl; [done|].
      apply Forall_app. split; [done|]. by repeat constructor. }
    rewrite (Hrun x).
    2:{ eapply port_json_denotes_ext; [|exact Hden].
        intros v. by rewrite from_json_value_no_props. }
    set (nd1 := with_namespace nd is_output (namespace nd is_output ++ [(name, x)])).
    rewrite (IH _ nd1 mi1); simpl.
    + assert (_op_meta_info nd1 = _op_meta_info nd) as -> by by destruct is_output.
      rewrite !list_insert_insert_eq. unfold nd1, mi1.
      rewrite namespace_with_namespace, decide_True, with_namespace_twice by done.
      rewrite meta_ports_with_meta_ports, with_meta_ports_twice.
      by rewrite <- !(assoc_L (++)).
    + apply list_lookup_insert_eq. by eapply lookup_lt_Some.
    + assert (_op_meta_info nd1 = _op_meta_info nd) as -> by by destruct is_output.
      apply list_lookup_insert_eq. by eapply lookup_lt_Some.
    + done.
    + done.
    + apply Forall_forall. intros [[name' j'] x'] Hin.
      rewrite Forall_forall in Hall. destruct (Hall _ Hin) as (Hns' & Hmeta' & Hden').
      simpl in *.
      assert (name ≠ name') as Hne.
      { intros <-. apply Hfresh. apply list_elem_of_fmap. exists (name, j').
        split; [done|]. apply list_elem_of_fmap. by exists (name, j', x'). }
      split; [|split; [|done]].
      * unfold nd1. rewrite namespace_with_namespace, decide_True by done.
        rewrite dict_get_app_r by done. simpl. by rewrite decide_False.
      * unfold mi1. destruct mi, is_output; simpl in *;
          (rewrite dict_get_app_r by done; simpl; by rewrite decide_False).
Qed.

End read_ports.

Lemma insert_last {A} (l : list A) (x y : A) : <[length l := x]> (l ++ [y]) = l ++ [x].
Proof. rewrite insert_app_r_alt by lia. by rewrite Nat.sub_diag. Qed.

Lemma lookup_last {A} (l : list A) (x : A) : (l ++ [x]) !! length l = Some x.
Proof. by rewrite list_lookup_middle. Qed.

Lemma given_Some id : id ≠ "" → given (Some id) = Some id.
Proof. intros H. unfold given, truthy_str. by rewrite bool_decide_eq_false_2. Qed.

Section read_step.
Context (type_from_json : pyval → pyval → option pyval).
Context (hex_id : nat → string).
Context (new_expression_op : OpMetaInfo → string → OpMetaInfo).
Context (new_subprocess_op : OpMetaInfo → string → subprocess_args → OpMetaInfo).
Context (load : string → list (string * nat) → M heap nat).
Context (header_can_cache : list (string * pyval) → bool).

Local Abbreviation step_from_json_dict' :=
  (step_from_json_dict type_from_json hex_id new_expression_op new_subprocess_op load
     header_can_cache).

Lemma new_node_run c meta mi id h :
  metas h !! meta = Some mi → id ≠ "" →
  new_node hex_id c meta (Some id) h
    = (Ok (length (nodes h)),
       Heap (nodes h ++ [mkNode c id meta false (unbound_ports (dict_keys (inputs mi)))
                           (unbound_ports (dict_keys (outputs mi))) None [] ∅])
            (metas h)).
Proof.
  intros Hmi Hid. unfold new_node, get_meta, meta_at, alloc_node. munfold.
  rewrite Hmi. by rewrite given_Some.
Qed.

(** A class whose discriminator the JSON lacks does not recognise the
    step. *)
Lemma step_from_json_dict_other c json registry h :
  json_get (match c with
            | COpStep => "op"
            | CWorkflowStep => "workflow"
            | CExpressionStep => "expression"
            | CNoOpStep => "no_op"
            | CSubProcessStep => "command"
            end) json = Ok None →
  step_from_json_dict' c json registry h = (Ok None, h).
Proof.
  intros Hget. unfold step_from_json_dict, new_step_from_json_dict.
  destruct c; simpl;
    unfold new_op_step, new_workflow_step, new_expression_step, new_no_op_step,
      new_sub_process_step; munfold; by rewrite Hget.
Qed.

(** [NoOpStep.from_json_dict] on a JSON whose inputs and outputs are
    well-formed, the first output being ["return"]. *)
Lemma step_from_json_dict_no_op json registry h flag id persistent ins ret outs :
  json_get "no_op" json = Ok (Some flag) → present (Some flag) = Some flag →
  json_get "id" json = Ok (Some (VStr id)) → id ≠ "" →
  json_get "persistent" json = Ok persistent →
  json_get "inputs" json = Ok (Some (VDict (entry_json ins))) →
  json_get "outputs" json = Ok (Some (VDict (entry_json (ret :: outs)))) →
  ret.1.1 = RETURN_OUTPUT_NAME →
  NoDup (entry_json ins).*1 →
  NoDup (entry_json (ret :: outs)).*1 →
  Forall (λ e, port_json_denotes (λ v, v) e.1.2 e.2) (ins ++ ret :: outs) →
  step_from_json_dict' CNoOpStep json registry h
    = (Ok (Some (length (nodes h))),
       Heap (nodes h ++ [mkNode NoOpStep id (length (metas h))
                           (truthy (default (VBool false) persistent))
                           (entry_ports ins) (entry_ports (ret :: outs)) None [] ∅])
            (metas h ++ [mkMeta id [] (entry_props ins) (entry_props (ret :: outs))
                           (header_can_cache [])])).
Proof.
  intros Hflag Hpresent Hid Hne Hpers Hins Houts Hret Hdup_in Hdup_out Hden.
  apply Forall_app in Hden as [Hden_in Hden_out].
  apply Forall_cons in Hden_out as [Hden_ret Hden_out].
  unfold step_from_json_dict, new_step_from_json_dict, new_no_op_step.
  munfold. rewrite Hflag, Hpresent, Hid.
  change (json_text (Some (VStr id))) with (Ok (Some id)). cbv beta iota.
  unfold node_name at 1. munfold. rewrite given_Some by done.
  unfold alloc_meta at 1.
  set (mi0 := new_meta header_can_cache id [] [] [(RETURN_OUTPUT_NAME, [])]).
  rewrite (new_node_run NoOpStep (length (metas h)) mi0 id); [|apply lookup_last|done].
  cbn [nodes metas]. rewrite Hpers.
  unfold get_node, put_node, node_at. munfold. cbn [nodes metas].
  rewrite lookup_last. cbv beta iota. rewrite insert_last.
  set (nd1 := with_persistent _ _).
  (* the inputs *)
  unfold ports_from_json at 1. munfold. rewrite Hins. simpl json_items. cbv beta iota.
  rewrite (read_new_ports type_from_json _ false ins _ nd1 mi0);
    [|apply lookup_last|apply lookup_last|done|done|].
  2:{ eapply Forall_impl; [exact Hden_in|]. intros e He. done. }
  cbn [nodes metas].
  change (_op_meta_info nd1) with (length (metas h)). rewrite !insert_last.
  (* the outputs *)
  unfold ports_from_json at 1. munfold. rewrite Houts.
  destruct ret as [[ret_name ret_json] ret_port]. simpl in Hret. subst ret_name.
  simpl json_items. cbv beta iota.
  change (entry_json ((RETURN_OUTPUT_NAME, ret_json, ret_port) :: outs))
    with ((RETURN_OUTPUT_NAME, ret_json) :: entry_json outs).
  cbn [for_each]. unfold mbind at 1, M_bind at 1.
  set (nd2 := with_namespace nd1 false _).
  set (mi2 := with_meta_ports mi0 false _).
  assert (Forall (λ kv, kv.2 = []) (inputs mi2)) as Hempty.
  { unfold mi2, entry_props. simpl. apply Forall_fmap. by apply Forall_true. }
  cbn [fst snd].
  rewrite (port_from_json_entry_declared type_from_json _ _ nd2 true);
    [|apply lookup_last|by eexists].
  erewrite (from_json_run type_from_json _ (PortRef (length (nodes h)) true RETURN_OUTPUT_NAME)
              ret_json ret_port new_port nd2 mi2).
  2:{ apply port_at_Ok. exists nd2. split; [apply lookup_last|done]. }
  2:{ apply lookup_last. }
  2:{ apply lookup_last. }
  2:{ eapply port_json_denotes_ext; [|exact Hden_ret].
      intros v. by rewrite from_json_value_no_props. }
  cbn [nodes metas port_node port_is_output port_name]. rewrite insert_last.
  set (nd3 := with_namespace nd2 true _).
  simpl in Hdup_out. apply NoDup_cons in Hdup_out as [Hfresh Hdup_out].
  rewrite (read_new_ports type_from_json _ true outs _ nd3 mi2);
    [|apply lookup_last|apply lookup_last|done|done|].
  2:{ apply Forall_forall. intros [[name j] x] Hin.
      rewrite Forall_forall in Hden_out. specialize (Hden_out _ Hin). simpl in *.
      assert (name ≠ RETURN_OUTPUT_NAME) as Hname.
      { intros ->. apply Hfresh. apply list_elem_of_fmap. exists (RETURN_OUTPUT_NAME, j).
        split; [done|]. apply list_elem_of_fmap. by exists (RETURN_OUTPUT_NAME, j, x). }
      rewrite !decide_False by done. done. }
  cbn [nodes metas].
  change (_op_meta_info nd3) with (length (metas h)). rewrite !insert_last. done.
Qed.

(** [OpStep.from_json_dict] on a JSON that names a registered operation and
    has well-formed inputs that the operation declares, and no outputs. *)
Lemma step_from_json_dict_op json registry h qn meta mi id persistent ins :
  json_get "op" json = Ok (Some (VStr qn)) → qn ≠ "" →
  dict_get qn registry = Some meta →
  metas h !! meta = Some mi →
  json_get "id" json = Ok (Some (VStr id)) → id ≠ "" →
  json_get "persistent" json = Ok persistent →
  json_get "inputs" json = Ok (Some (VDict (entry_json ins))) →
  json_get "outputs" json = Ok None →
  Forall (λ e, is_Some (dict_get e.1.1 (inputs mi))
               ∧ port_json_denotes (_from_json_value type_from_json mi e.1.1) e.1.2 e.2) ins →
  step_from_json_dict' COpStep json registry h
    = (Ok (Some (length (nodes h))),
       Heap (nodes h ++ [mkNode OpStep id meta (truthy (default (VBool false) persistent))
                           (foldl (λ ns e, dict_set e.1.1 e.2 ns)
                              (unbound_ports (dict_keys (inputs mi))) ins)
                           (unbound_ports (dict_keys (outputs mi))) None [] ∅])
            (metas h)).
Proof.
  intros Hop Hqn Hreg Hmi Hid Hne Hpers Hins Houts Hden.
  unfold step_from_json_dict, new_step_from_json_dict, new_op_step.
  munfold. rewrite Hop. change (present (Some (VStr qn))) with (Some (VStr qn)).
  cbv beta iota. rewrite Hid. change (json_text (Some (VStr id))) with (Ok (Some id)).
  cbv beta iota. change (truthy (VStr qn)) with (negb (bool_decide (qn = ""))).
  rewrite bool_decide_eq_false_2 by done. cbn [negb]. rewrite Hreg.
  rewrite (new_node_run OpStep meta mi id h Hmi Hne).
  cbn [nodes metas]. rewrite Hpers.
  unfold get_node, put_node, node_at. munfold. cbn [nodes metas].
  rewrite lookup_last. cbv beta iota. rewrite insert_last.
  set (nd1 := with_persistent _ _).
  unfold ports_from_json at 1. munfold. rewrite Hins. simpl json_items. cbv beta iota.
  rewrite (read_declared_ports type_from_json _ false ins _ nd1 mi);
    [|apply lookup_last|done|].
  2:{ eapply Forall_impl; [exact Hden|]. intros [[name j] x] [[props Hin] Hd]. simpl in *.
      split; [|done]. apply dict_get_is_Some_keys. unfold unbound_ports, dict_keys.
      rewrite <- list_fmap_compose. simpl.
      apply list_elem_of_fmap. exists name. split; [done|].
      apply dict_get_is_Some_keys. eauto. }
  cbn [nodes metas]. rewrite insert_last.
  unfold ports_from_json. munfold. rewrite Houts. simpl.
  done.
Qed.

End read_step.

(** A dict filled from pairs with distinct keys holds the pairs in
    order. *)
Lemma dict_update_fresh {V} (other d : list (string * V)) :
  NoDup (dict_keys other) →
  (∀ k, k ∈ dict_keys other → dict_get k d = None) →
  dict_update d other = d ++ other.
Proof.
  unfold dict_update, dict_keys. revert d.
  induction other as [|[k v] r IH]; intros d Hdup Hfresh; simpl.
  - by rewrite app_nil_r.
  - simpl in Hdup. apply NoDup_cons in Hdup as [Hk Hdup].
    rewrite dict_set_absent by (apply Hfresh; simpl; left).
    rewrite IH; [by rewrite <- (assoc_L (++))|done|].
    intros k' Hk'. rewrite dict_get_app_r by (apply Hfresh; simpl; by right).
    simpl. rewrite decide_False; [done|]. by intros ->.
Qed.

Lemma dict_of_NoDup {V} (pairs : list (string * V)) :
  NoDup (dict_keys pairs) → dict_of pairs = pairs.
Proof. intros H. unfold dict_of. by rewrite dict_update_fresh. Qed.

Lemma dict_get_elem {V} k (v : V) d : NoDup (dict_keys d) → (k, v) ∈ d → dict_get k d = Some v.
Proof.
  unfold dict_keys. induction d as [|[k' v'] r IH]; simpl; intros Hdup Hin.
  - by apply elem_of_nil in Hin.
  - apply NoDup_cons in Hdup as [Hk Hdup]. apply elem_of_cons in Hin as [[= -> ->]|Hin].
    + by rewrite decide_True.
    + rewrite decide_False; [by apply IH|]. intros ->. apply Hk.
      apply list_elem_of_fmap. by exists (k, v).
Qed.

Lemma dict_get_Some_elem {V} k (v : V) d : dict_get k d = Some v → (k, v) ∈ d.
Proof.
  induction d as [|[k' v'] r IH]; simpl; [done|].
  destruct (decide (k' = k)) as [->|]; [intros [= ->]; left|right; by apply IH].
Qed.

Lemma entry_ports_keys l : dict_keys (entry_ports l) = (entry_json l).*1.
Proof.
  unfold dict_keys, entry_ports, entry_json. rewrite <- !list_fmap_compose.
  by apply list_fmap_ext.
Qed.

Lemma entry_props_keys l : dict_keys (entry_props l) = (entry_json l).*1.
Proof.
  unfold dict_keys, entry_props, entry_json. rewrite <- !list_fmap_compose.
  by apply list_fmap_ext.
Qed.

(** The namespace after a run of assignments to ports it has. *)
Lemma foldl_dict_set_keys (l : list (string * pyval * NodePort)) : ∀ ns,
  Forall (λ e, is_Some (dict_get e.1.1 ns)) l →
  dict_keys (foldl (λ ns e, dict_set e.1.1 e.2 ns) ns l) = dict_keys ns.
Proof.
  induction l as [|e l IH]; intros ns Hall; [done|].
  apply Forall_cons in Hall as [He Hall]. simpl. rewrite IH.
  - by apply dict_keys_set.
  - eapply Forall_impl; [exact Hall|]. intros e' He'. simpl in *.
    apply dict_get_is_Some_keys. rewrite dict_keys_set by done.
    by apply dict_get_is_Some_keys.
Qed.

Lemma foldl_dict_set_get name (l : list (string * pyval * NodePort)) : ∀ ns,
  NoDup (entry_json l).*1 →
  dict_get name (foldl (λ ns e, dict_set e.1.1 e.2 ns) ns l)
    = match dict_get name (entry_ports l) with
      | Some x => Some x
      | None => dict_get name ns
      end.
Proof.
  induction l as [|[[k j] x] l IH]; intros ns Hdup; [done|].
  simpl in Hdup. apply NoDup_cons in Hdup as [Hk Hdup]. simpl. rewrite IH by done.
  destruct (decide (k = name)) as [->|Hne].
  - assert (dict_get name (entry_ports l) = None) as ->.
    { apply dict_get_None_keys. by rewrite entry_ports_keys. }
    apply dict_get_set_eq.
  - destruct (dict_get name (entry_ports l)); [done|]. by apply dict_get_set_ne.
Qed.

Section write_ports.
Context (type_to_json type_from_json : pyval → pyval → option pyval).

(** What [port_round_trips] gives for one port of a node. *)
Lemma port_round_trips_json h workflow steps nd mi p force_dict :
  nodes h !! port_node p = Some nd →
  metas h !! _op_meta_info nd = Some mi →
  (port_is_output p = true → is_Some (dict_get (port_name p) (outputs mi))) →
  (∀ m, m = workflow ∨ m ∈ steps → node_id h m ≠ "") →
  port_round_trips type_to_json type_from_json h workflow steps nd mi p →
  ∃ port j, port_at h p = Ok port
    ∧ to_json type_to_json h p force_dict = Ok j
    ∧ (truthy j = false → reloaded h p port = new_port)
    ∧ (force_dict = true →
       ∃ d, j = VDict d ∧ ∀ k, is_Some (dict_get k d) → k = "source" ∨ k = "value")
    ∧ port_json_denotes (from_value_of type_from_json nd mi (port_name p)) j
        (reloaded h p port).
Proof.
  intros Hnd Hmi Hout Hids (port & Hp & Hcase). exists port.
  destruct (to_json_denotes type_to_json (from_value_of type_from_json nd mi (port_name p))
              h workflow steps nd mi p port force_dict Hp Hnd Hmi) as (j & Hj).
  - intros Hb. apply dict_in_true. auto.
  - destruct (_source port) as [q|].
    + destruct Hcase as [Hrt _]. split; [done|]. apply Hids. by destruct Hrt as (_ & ? & _).
    + intros Hb Hdef. destruct (Hcase Hb Hdef) as [Hno Hconv]. split; [done|].
      unfold from_value_of. destruct (cls nd); try done. by destruct Hconv.
  - exists j. split; [done|]. exact Hj.
Qed.

(** The JSON of the ports of a step that is not an [OpStep]. *)
Lemma ports_to_json_written h workflow steps nd mi : ∀ ports,
  metas h !! _op_meta_info nd = Some mi →
  (∀ m, m = workflow ∨ m ∈ steps → node_id h m ≠ "") →
  Forall (λ p, nodes h !! port_node p = Some nd
               ∧ (port_is_output p = true → is_Some (dict_get (port_name p) (outputs mi)))
               ∧ port_round_trips type_to_json type_from_json h workflow steps nd mi p)
    ports →
  ports_to_json type_to_json h ports = Ok (entry_json (written_entry type_to_json h <$> ports))
  ∧ Forall (λ e, port_json_denotes (from_value_of type_from_json nd mi e.1.1) e.1.2 e.2)
      (written_entry type_to_json h <$> ports).
Proof.
  intros ports Hmi Hids. induction ports as [|p ports IH]; intros Hall.
  - split; [done|]. constructor.
  - apply Forall_cons in Hall as [(Hnd & Hout & Hrt) Hall].
    destruct (IH Hall) as [Hrun Hden].
    destruct (port_round_trips_json h workflow steps nd mi p false Hnd Hmi Hout Hids Hrt)
      as (port & j & Hp & Hj & _ & _ & Hd).
    split.
    + simpl. munfold. by rewrite Hj, Hrun.
    + simpl. constructor; [|done]. unfold written_entry. simpl. by rewrite Hj, Hp.
Qed.

(** The JSON of the inputs of an [OpStep]: the inputs whose JSON is not
    empty. *)
Lemma op_inputs_to_json_written h workflow steps nd mi : ∀ ports,
  cls nd = OpStep →
  metas h !! _op_meta_info nd = Some mi →
  (∀ m, m = workflow ∨ m ∈ steps → node_id h m ≠ "") →
  Forall (λ p, nodes h !! port_node p = Some nd
               ∧ port_is_output p = false
               ∧ port_round_trips type_to_json type_from_json h workflow steps nd mi p)
    ports →
  op_inputs_to_json type_to_json h mi ports
    = Ok (entry_json (filter (λ e, truthy e.1.2 = true)
                        (written_entry type_to_json h <$> ports)))
  ∧ Forall (λ e, port_json_denotes (_from_json_value type_from_json mi e.1.1) e.1.2 e.2)
      (written_entry type_to_json h <$> ports)
  ∧ Forall (λ e, truthy e.1.2 = false → e.2 = new_port)
      (written_entry type_to_json h <$> ports).
Proof.
  intros ports Hcls Hmi Hids. induction ports as [|p ports IH]; intros Hall.
  - split; [done|]. split; constructor.
  - apply Forall_cons in Hall as [(Hnd & Hin & Hrt) Hall].
    destruct (IH Hall) as (Hrun & Hden & Hnew).
    assert (port_is_output p = true → is_Some (dict_get (port_name p) (outputs mi))) as Hout
      by by rewrite Hin.
    destruct (port_round_trips_json h workflow steps nd mi p false Hnd Hmi Hout Hids Hrt)
      as (port & j & Hp & Hj & Hfalsy & _ & Hd).
    assert (op_input_to_json type_to_json h mi p = Ok (if truthy j then Some j else None))
      as Hone.
    { unfold op_input_to_json. munfold. rewrite Hj, Hp.
      destruct (truthy j) eqn:Htruthy; [|done]. cbn [andb].
      destruct Hrt as (port' & Hp' & Hcase). assert (port' = port) as -> by congruence.
      unfold is_value. destruct (_source port) as [q|]; [done|].
      destruct (is_undefined (_value port)) eqn:Hdef; [done|]. cbn [negb].
      destruct (Hcase Hin eq_refl) as [_ Hlit]. rewrite Hcls in Hlit.
      destruct Hlit as [_ Hlit].
      destruct (dict_get (port_name p) (inputs mi)) as [[|e props]|]; try done.
      rewrite bool_decide_eq_false_2 by done. by rewrite Hlit. }
    unfold from_value_of in Hd. rewrite Hcls in Hd.
    split; [|split].
    + assert ((written_entry type_to_json h p).1 = (port_name p, j)) as Hw.
      { unfold written_entry. simpl. by rewrite Hj. }
      cbn [op_inputs_to_json]. munfold. rewrite Hone, Hrun. cbv beta iota.
      rewrite fmap_cons, filter_cons. rewrite Hw. cbn [snd].
      destruct (truthy j) eqn:Htruthy.
      * rewrite decide_True by done. unfold entry_json at 2. rewrite fmap_cons.
        by rewrite Hw.
      * rewrite decide_False by done. done.
    + simpl. constructor; [|done]. unfold written_entry. simpl. by rewrite Hj, Hp.
    + simpl. constructor; [|done]. unfold written_entry. simpl. by rewrite Hj, Hp.
Qed.

End write_ports.

Section write_step.
Context (type_to_json : pyval → pyval → option pyval).

(** The JSON of a [NoOpStep], by its fields. *)
Lemma step_to_json_dict_no_op h step nd mi ins outs :
  nodes h !! step = Some nd →
  metas h !! _op_meta_info nd = Some mi →
  cls nd = NoOpStep →
  ports_to_json type_to_json h (input_ports step nd) = Ok ins →
  ports_to_json type_to_json h (output_ports step nd) = Ok outs →
  ∃ json persistent,
    step_to_json_dict type_to_json h step = Ok json
    ∧ json_get "op" json = Ok None
    ∧ json_get "workflow" json = Ok None
    ∧ json_get "expression" json = Ok None
    ∧ json_get "no_op" json = Ok (Some (VBool true))
    ∧ json_get "id" json = Ok (Some (VStr (_id nd)))
    ∧ json_get "persistent" json = Ok persistent
    ∧ truthy (default (VBool false) persistent) = _persistent nd
    ∧ json_get "inputs" json = Ok (Some (VDict (dict_of ins)))
    ∧ json_get "outputs" json = Ok (Some (VDict (dict_of outs))).
Proof.
  intros Hnd Hmi Hcls Hins Houts.
  unfold step_to_json_dict, node_at, meta_at, get_inputs_json_dict, get_outputs_json_dict,
    enhance_json_dict.
  munfold. rewrite Hnd. cbv beta iota. rewrite Hmi. cbv beta iota. rewrite Hcls.
  cbv beta iota. rewrite Hins. cbv beta iota. rewrite Houts. cbv beta iota.
  eexists _, (if _persistent nd then Some (VBool true) else None).
  split; [reflexivity|].
  destruct (_persistent nd); repeat split; reflexivity.
Qed.

(** The JSON of an [OpStep], by its fields. *)
Lemma step_to_json_dict_op h step nd mi ins :
  nodes h !! step = Some nd →
  metas h !! _op_meta_info nd = Some mi →
  cls nd = OpStep →
  op_inputs_to_json type_to_json h mi (input_ports step nd) = Ok ins →
  ∃ json persistent,
    step_to_json_dict type_to_json h step = Ok json
    ∧ json_get "op" json = Ok (Some (VStr (qualified_name mi)))
    ∧ json_get "id" json = Ok (Some (VStr (_id nd)))
    ∧ json_get "persistent" json = Ok persistent
    ∧ truthy (default (VBool false) persistent) = _persistent nd
    ∧ json_get "inputs" json = Ok (Some (VDict (dict_of ins)))
    ∧ json_get "outputs" json = Ok None.
Proof.
  intros Hnd Hmi Hcls Hins.
  unfold step_to_json_dict, node_at, meta_at, get_inputs_json_dict, get_outputs_json_dict,
    enhance_json_dict.
  munfold. rewrite Hnd. cbv beta iota. rewrite Hmi. cbv beta iota. rewrite Hcls.
  cbv beta iota. rewrite Hins. cbv beta iota.
  eexists _, (if _persistent nd then Some (VBool true) else None).
  split; [reflexivity|].
  destruct (_persistent nd); repeat split; reflexivity.
Qed.

End write_step.

(** The port a name has among the entries written for a list of names. *)
Lemma dict_get_entry_ports (entry : string → string * pyval * NodePort)
    (P : string * pyval * NodePort → Prop) `{∀ e, Decision (P e)} name : ∀ names,
  (∀ k, (entry k).1.1 = k) →
  dict_get name (entry_ports (filter P (entry <$> names)))
    = if decide (name ∈ names ∧ P (entry name)) then Some (entry name).2 else None.
Proof.
  intros names Hkey. induction names as [|k names IH].
  - destruct (decide _) as [[Hin _]|_]; [by apply elem_of_nil in Hin|done].
  - rewrite fmap_cons, filter_cons. destruct (decide (P (entry k))) as [HP|HP].
    + unfold entry_ports. rewrite fmap_cons. cbn [dict_get fst snd]. rewrite Hkey.
      destruct (decide (k = name)) as [->|Hne].
      * rewrite decide_True; [done|]. split; [left|done].
      * fold (entry_ports (filter P (entry <$> names))). rewrite IH.
        destruct (decide (name ∈ names ∧ P (entry name))) as [[Hin HPn]|Hno].
        -- rewrite decide_True; [done|]. split; [by right|done].
        -- rewrite decide_False; [done|]. intros [[?|?]%elem_of_cons ?]; [congruence|tauto].
    + rewrite IH.
      destruct (decide (name ∈ names ∧ P (entry name))) as [[Hin HPn]|Hno].
      * rewrite decide_True; [done|]. split; [by right|done].
      * rewrite decide_False; [done|].
        intros [[->|?]%elem_of_cons ?]; [done|tauto].
Qed.

Lemma written_entries_names type_to_json h ports :
  (entry_json (written_entry type_to_json h <$> ports)).*1 = port_name <$> ports.
Proof.
  unfold entry_json. rewrite <- !list_fmap_compose. by apply list_fmap_ext.
Qed.

Lemma input_ports_names n nd : port_name <$> input_ports n nd = dict_keys (_inputs nd).
Proof.
  unfold input_ports. rewrite <- list_fmap_compose. simpl. apply list_fmap_id.
Qed.

Lemma output_ports_names n nd : port_name <$> output_ports n nd = dict_keys (_outputs nd).
Proof.
  unfold output_ports. rewrite <- list_fmap_compose. simpl. apply list_fmap_id.
Qed.

Lemma unbound_ports_keys names : dict_keys (unbound_ports names) = names.
Proof.
  unfold dict_keys, unbound_ports. rewrite <- list_fmap_compose. apply list_fmap_id.
Qed.

Lemma unbound_ports_get name names :
  name ∈ names → dict_get name (unbound_ports names) = Some new_port.
Proof.
  induction names as [|k r IH]; [by intros ?%elem_of_nil|].
  intros [->|Hin]%elem_of_cons; simpl.
  - by rewrite decide_True.
  - destruct (decide (k = name)); [done|]. by apply IH.
Qed.

Lemma written_entry_port type_to_json h p port :
  port_at h p = Ok port → (written_entry type_to_json h p).2 = reloaded h p port.
Proof. intros H. unfold written_entry. simpl. by rewrite H. Qed.

Lemma filter_all {A} (l : list A) : filter (λ _, True) l = l.
Proof.
  induction l as [|x l IH]; [done|]. rewrite filter_cons, decide_True by done. by rewrite IH.
Qed.

Lemma namespace_ports_get type_to_json h n nd b name port :
  nodes h !! n = Some nd →
  dict_get name (namespace nd b) = Some port →
  dict_get name (entry_ports (written_entry type_to_json h <$>
                                ((λ name, PortRef n b name) <$> dict_keys (namespace nd b))))
    = Some (reloaded h (PortRef n b name) port).
Proof.
  intros Hnd Hget.
  pose proof (dict_get_entry_ports (λ k, written_entry type_to_json h (PortRef n b k))
                (λ _, True) name (dict_keys (namespace nd b))) as H.
  rewrite filter_all in H. rewrite <- list_fmap_compose. unfold compose.
  rewrite H by done. rewrite decide_True.
  - f_equal. apply written_entry_port. apply port_at_Ok. eauto.
  - split; [|done]. apply dict_get_is_Some_keys. eauto.
Qed.

Section reload_step.
Context (type_to_json type_from_json : pyval → pyval → option pyval).
Context (hex_id : nat → string).
Context (new_expression_op : OpMetaInfo → string → OpMetaInfo).
Context (new_subprocess_op : OpMetaInfo → string → subprocess_args → OpMetaInfo).
Context (load : string → list (string * nat) → M heap nat).
Context (header_can_cache : list (string * pyval) → bool).

Local Abbreviation step_of_json' :=
  (step_of_json type_from_json hex_id new_expression_op new_subprocess_op load
     header_can_cache).

(** What [step_round_trips] says of the ports of one namespace. *)
Lemma namespace_round_trips h workflow steps step nd mi b :
  nodes h !! step = Some nd →
  dict_keys (_outputs nd) = dict_keys (outputs mi) →
  Forall (port_round_trips type_to_json type_from_json h workflow steps nd mi)
    (all_ports step nd) →
  Forall (λ p, nodes h !! port_node p = Some nd
               ∧ port_is_output p = b
               ∧ (port_is_output p = true → is_Some (dict_get (port_name p) (outputs mi)))
               ∧ port_round_trips type_to_json type_from_json h workflow steps nd mi p)
    ((λ name, PortRef step b name) <$> dict_keys (namespace nd b)).
Proof.
  intros Hnd Hkeys Hall. apply Forall_forall. intros p Hp.
  apply list_elem_of_fmap in Hp as (name & -> & Hname). simpl.
  split; [done|]. split; [done|]. split.
  - intros ->. apply dict_get_is_Some_keys. by rewrite <- Hkeys.
  - rewrite Forall_forall in Hall. apply Hall. unfold all_ports, output_ports, input_ports.
    apply elem_of_app. destruct b; [left|right]; apply list_elem_of_fmap; eauto.
Qed.

(** Reading the JSON of a [NoOpStep] of the class [round_trip_ready]. *)
Lemma no_op_step_round_trip registry h workflow steps step nd mi :
  nodes h !! step = Some nd →
  metas h !! _op_meta_info nd = Some mi →
  cls nd = NoOpStep →
  _id nd ≠ "" →
  dict_keys (_outputs nd) = dict_keys (outputs mi) →
  NoDup (dict_keys (_inputs nd)) →
  NoDup (dict_keys (_outputs nd)) →
  head (dict_keys (_outputs nd)) = Some RETURN_OUTPUT_NAME →
  Forall (port_round_trips type_to_json type_from_json h workflow steps nd mi)
    (all_ports step nd) →
  (∀ m, m = workflow ∨ m ∈ steps → node_id h m ≠ "") →
  ∃ json, step_to_json_dict type_to_json h step = Ok json
    ∧ ∀ g, ∃ nd' new_metas,
        step_of_json' step_classes json registry g
          = (Ok (Some (length (nodes g))), Heap (nodes g ++ [nd']) (metas g ++ new_metas))
        ∧ reloaded_step h step nd nd'.
Proof.
  intros Hnd Hmi Hcls Hid Hkout Hdin Hdout Hhead Hports Hids.
  pose proof (namespace_round_trips h workflow steps step nd mi false Hnd Hkout Hports) as Hin.
  pose proof (namespace_round_trips h workflow steps step nd mi true Hnd Hkout Hports) as Hout.
  destruct (ports_to_json_written type_to_json type_from_json h workflow steps nd mi
              (input_ports step nd) Hmi Hids) as [Hrun_in Hden_in].
  { eapply Forall_impl; [exact Hin|]. simpl. tauto. }
  destruct (ports_to_json_written type_to_json type_from_json h workflow steps nd mi
              (output_ports step nd) Hmi Hids) as [Hrun_out Hden_out].
  { eapply Forall_impl; [exact Hout|]. simpl. tauto. }
  set (ins := written_entry type_to_json h <$> input_ports step nd) in *.
  set (outs := written_entry type_to_json h <$> output_ports step nd) in *.
  destruct (step_to_json_dict_no_op type_to_json h step nd mi _ _ Hnd Hmi Hcls Hrun_in Hrun_out)
    as (json & persistent & Hjson & Hop & Hwf & Hexpr & Hnoop & Hjid & Hpers & Htruthy
        & Hjin & Hjout).
  assert ((entry_json ins).*1 = dict_keys (_inputs nd)) as Hnames_in.
  { unfold ins. by rewrite written_entries_names, input_ports_names. }
  assert ((entry_json outs).*1 = dict_keys (_outputs nd)) as Hnames_out.
  { unfold outs. by rewrite written_entries_names, output_ports_names. }
  rewrite dict_of_NoDup in Hjin by (unfold dict_keys; by rewrite Hnames_in).
  rewrite dict_of_NoDup in Hjout by (unfold dict_keys; by rewrite Hnames_out).
  assert (∃ ret rest, outs = ret :: rest ∧ ret.1.1 = RETURN_OUTPUT_NAME) as (ret & rest & Hret & Hname).
  { unfold outs, output_ports. destruct (dict_keys (_outputs nd)) as [|k r]; [done|].
    injection Hhead as ->. eexists _, _. split; [by rewrite !fmap_cons|done]. }
  exists json. split; [done|]. intros g.
  eexists _, _. split.
  - unfold step_classes. cbn [step_of_json]. munfold.
    rewrite (step_from_json_dict_other _ _ _ _ _ _ COpStep) by done.
    rewrite (step_from_json_dict_other _ _ _ _ _ _ CWorkflowStep) by done.
    rewrite (step_from_json_dict_other _ _ _ _ _ _ CExpressionStep) by done.
    rewrite (step_from_json_dict_no_op type_from_json hex_id new_expression_op
               new_subprocess_op load header_can_cache json registry g
               (VBool true) (_id nd) persistent ins ret rest); try done.
    + by rewrite <- Hret.
    + by rewrite Hnames_in.
    + rewrite <- Hret. by rewrite Hnames_out.
    + rewrite <- Hret. apply Forall_app. split.
      * eapply Forall_impl; [exact Hden_in|]. intros e. unfold from_value_of. by rewrite Hcls.
      * eapply Forall_impl; [exact Hden_out|]. intros e. unfold from_value_of. by rewrite Hcls.
  - rewrite <- Hret. unfold reloaded_step. simpl. rewrite Hcls.
    split; [done|]. split; [done|]. split; [done|]. split; [done|]. split; [done|].
    split; [by rewrite entry_ports_keys|]. split; [by rewrite entry_ports_keys|].
    intros b name port Hget. destruct b; simpl.
    + by apply (namespace_ports_get type_to_json h step nd true).
    + by apply (namespace_ports_get type_to_json h step nd false).
Qed.

(** Reading the JSON of an [OpStep] of the class [round_trip_ready]. *)
Lemma op_step_round_trip registry h workflow steps step nd mi :
  nodes h !! step = Some nd →
  metas h !! _op_meta_info nd = Some mi →
  cls nd = OpStep →
  _id nd ≠ "" →
  dict_keys (_inputs nd) = dict_keys (inputs mi) →
  dict_keys (_outputs nd) = dict_keys (outputs mi) →
  NoDup (dict_keys (_inputs nd)) →
  dict_get (qualified_name mi) registry = Some (_op_meta_info nd) →
  qualified_name mi ≠ "" →
  Forall (port_round_trips type_to_json type_from_json h workflow steps nd mi)
    (all_ports step nd) →
  (∀ m, m = workflow ∨ m ∈ steps → node_id h m ≠ "") →
  ∃ json, step_to_json_dict type_to_json h step = Ok json
    ∧ ∀ g, metas g !! _op_meta_info nd = Some mi →
        ∃ nd' new_metas,
          step_of_json' step_classes json registry g
            = (Ok (Some (length (nodes g))), Heap (nodes g ++ [nd']) (metas g ++ new_metas))
          ∧ reloaded_step h step nd nd'.
Proof.
  intros Hnd Hmi Hcls Hid Hkin Hkout Hdin Hreg Hqn Hports Hids.
  pose proof (namespace_round_trips h workflow steps step nd mi false Hnd Hkout Hports) as Hin.
  destruct (op_inputs_to_json_written type_to_json type_from_json h workflow steps nd mi
              (input_ports step nd) Hcls Hmi Hids) as (Hrun & Hden & Hnew).
  { eapply Forall_impl; [exact Hin|]. simpl. tauto. }
  set (all := written_entry type_to_json h <$> input_ports step nd) in *.
  set (ins := filter (λ e, truthy e.1.2 = true) all) in *.
  destruct (step_to_json_dict_op type_to_json h step nd mi _ Hnd Hmi Hcls Hrun)
    as (json & persistent & Hjson & Hop & Hjid & Hpers & Htruthy & Hjin & Hjout).
  assert ((entry_json all).*1 = dict_keys (_inputs nd)) as Hnames.
  { unfold all. by rewrite written_entries_names, input_ports_names. }
  assert (NoDup (entry_json ins).*1) as Hdup.
  { rewrite <- Hnames in Hdin. eapply sublist_NoDup; [exact Hdin|].
    unfold entry_json. do 2 apply fmap_sublist. apply sublist_filter. }
  rewrite dict_of_NoDup in Hjin by done.
  assert (Forall (λ e, is_Some (dict_get e.1.1 (inputs mi))
                       ∧ port_json_denotes (_from_json_value type_from_json mi e.1.1)
                           e.1.2 e.2) ins) as Hins.
  { apply Forall_forall. intros e [_ He]%list_elem_of_filter. split.
    - apply dict_get_is_Some_keys. rewrite <- Hkin, <- Hnames.
      apply list_elem_of_fmap. exists e.1. split; [done|].
      apply list_elem_of_fmap. by exists e.
    - rewrite Forall_forall in Hden. by apply Hden. }
  exists json. split; [done|]. intros g Hg.
  eexists _, []. split.
  - unfold step_classes. cbn [step_of_json]. munfold.
    rewrite (step_from_json_dict_op type_from_json hex_id new_expression_op
               new_subprocess_op load header_can_cache json registry g
               (qualified_name mi) (_op_meta_info nd) mi (_id nd) persistent ins); try done.
    by rewrite app_nil_r.
  - unfold reloaded_step. simpl. rewrite Hcls.
    split; [done|]. split; [done|]. split; [done|]. split; [done|]. split; [done|].
    split; [|split; [by rewrite unbound_ports_keys|]].
    { rewrite foldl_dict_set_keys, unbound_ports_keys; [done|].
      eapply Forall_impl; [exact Hins|]. intros e [He _]. simpl.
      apply dict_get_is_Some_keys. rewrite unbound_ports_keys.
      by apply dict_get_is_Some_keys. }
    intros b name port Hget.
    assert (port_at h (PortRef step b name) = Ok port) as Hp by (apply port_at_Ok; eauto).
    destruct b; simpl in *.
    + (* an output of an [OpStep] is not bound *)
      assert (name ∈ dict_keys (_outputs nd)) as Hname by (apply dict_get_is_Some_keys; eauto).
      rewrite unbound_ports_get by by rewrite <- Hkout.
      f_equal. unfold reloaded. simpl.
      rewrite Forall_forall in Hports.
      destruct (Hports (PortRef step true name)) as (port' & Hp' & Hcase).
      { apply elem_of_app. left. apply list_elem_of_fmap. eauto. }
      assert (port' = port) as -> by congruence.
      destruct (_source port); [|done]. destruct Hcase as [_ Hb]. by specialize (Hb Hcls).
    + assert (name ∈ dict_keys (_inputs nd)) as Hname by (apply dict_get_is_Some_keys; eauto).
      rewrite foldl_dict_set_get by done.
      unfold ins, all, input_ports. rewrite <- list_fmap_compose. unfold compose.
      rewrite (dict_get_entry_ports (λ k, written_entry type_to_json h (PortRef step false k)))
        by done.
      destruct (decide _) as [[_ Ht]|Hno].
      * f_equal. by apply written_entry_port.
      * rewrite unbound_ports_get by by rewrite <- Hkin.
        f_equal. rewrite <- (written_entry_port type_to_json h _ _ Hp).
        rewrite Forall_forall in Hnew. symmetry. apply Hnew.
        -- apply list_elem_of_fmap. exists (PortRef step false name). split; [done|].
           apply list_elem_of_fmap. eauto.
        -- apply not_true_is_false. intros Ht. apply Hno. done.
Qed.

End reload_step.

Section reload_steps.
Context (type_to_json type_from_json : pyval → pyval → option pyval).
Context (hex_id : nat → string).
Context (new_expression_op : OpMetaInfo → string → OpMetaInfo).
Context (new_subprocess_op : OpMetaInfo → string → subprocess_args → OpMetaInfo).
Context (load : string → list (string * nat) → M heap nat).
Context (header_can_cache : list (string * pyval) → bool).

Local Abbreviation step_of_json' :=
  (step_of_json type_from_json hex_id new_expression_op new_subprocess_op load
     header_can_cache).
Local Abbreviation steps_of_json' :=
  (steps_of_json type_from_json hex_id new_expression_op new_subprocess_op load
     header_can_cache).

(** Reading the JSON of a step of the class [round_trip_ready], in any
    store that still has the meta-information objects of the original. *)
Lemma step_round_trip registry h workflow steps step :
  step_round_trips type_to_json type_from_json registry h workflow steps step →
  (∀ m, m = workflow ∨ m ∈ steps → node_id h m ≠ "") →
  ∃ nd json, nodes h !! step = Some nd
    ∧ step_to_json_dict type_to_json h step = Ok json
    ∧ ∀ g, (∀ m x, metas h !! m = Some x → metas g !! m = Some x) →
        ∃ nd' new_metas,
          step_of_json' step_classes json registry g
            = (Ok (Some (length (nodes g))), Heap (nodes g ++ [nd']) (metas g ++ new_metas))
          ∧ reloaded_step h step nd nd'.
Proof.
  intros (nd & mi & Hnd & Hmi & Hid & Hkin & Hkout & Hdin & Hdout & Hcls & Hports) Hids.
  exists nd. destruct (cls nd) eqn:Ecls; try done.
  - destruct Hcls as [Hreg Hqn].
    destruct (op_step_round_trip type_to_json type_from_json hex_id new_expression_op
                new_subprocess_op load header_can_cache registry h workflow steps step nd mi)
      as (json & Hjson & Hload); try done.
    exists json. split; [done|]. split; [done|]. intros g Hg. apply Hload. by apply Hg.
  - destruct (no_op_step_round_trip type_to_json type_from_json hex_id new_expression_op
                new_subprocess_op load header_can_cache registry h workflow steps step nd mi)
      as (json & Hjson & Hload); try done.
    exists json. split; [done|]. split; [done|]. intros g _. apply Hload.
Qed.

(** The steps of a workflow of the class, one after the other. *)
Lemma steps_round_trip registry h workflow steps : ∀ todo,
  Forall (step_round_trips type_to_json type_from_json registry h workflow steps) todo →
  (∀ m, m = workflow ∨ m ∈ steps → node_id h m ≠ "") →
  ∃ jsons, steps_to_json type_to_json h todo = Ok jsons
    ∧ ∀ g, (∀ m x, metas h !! m = Some x → metas g !! m = Some x) →
        ∃ new_nodes new_metas,
          steps_of_json' jsons registry g
            = (Ok (seq (length (nodes g)) (length todo)),
               Heap (nodes g ++ new_nodes) (metas g ++ new_metas))
          ∧ Forall2 (λ step nd', ∃ nd, nodes h !! step = Some nd ∧ reloaded_step h step nd nd')
              todo new_nodes.
Proof.
  intros todo Hall Hids. induction todo as [|step todo IH].
  - exists []. split; [done|]. intros g _. exists [], []. split; [|constructor].
    simpl. unfold mret, M_ret. destruct g. simpl. by rewrite !app_nil_r.
  - apply Forall_cons in Hall as [Hstep Hall].
    destruct (IH Hall) as (jsons & Hjsons & Hload).
    destruct (step_round_trip registry h workflow steps step Hstep Hids)
      as (nd & json & Hnd & Hjson & Hone).
    exists (json :: jsons). split.
    { simpl. munfold. by rewrite Hjson, Hjsons. }
    intros g Hg.
    destruct (Hone g Hg) as (nd' & metas1 & Hrun1 & Hre1).
    set (g1 := Heap (nodes g ++ [nd']) (metas g ++ metas1)) in *.
    destruct (Hload g1) as (nodes2 & metas2 & Hrun2 & Hre2).
    { intros m x Hm. simpl. apply lookup_app_l_Some. by apply Hg. }
    exists (nd' :: nodes2), (metas1 ++ metas2). split.
    + cbn [steps_of_json]. munfold. rewrite Hrun1. cbv beta iota. rewrite Hrun2.
      simpl. rewrite length_app. simpl. rewrite Nat.add_1_r.
      by rewrite <- !(assoc_L (++)).
    + constructor; [|done]. eauto.
Qed.

End reload_steps.

(** ** Adding the steps that were read *)

Lemma add_step_fresh h self new_step nd new_nd :
  nodes h !! self = Some nd →
  nodes h !! new_step = Some new_nd →
  new_step ≠ self →
  _steps_dict nd !! _id new_nd = None →
  add_step self new_step false h
    = (Ok None,
       Heap (<[new_step := with_parent new_nd (Some self)]>
               (<[self := with_steps nd (_steps nd ++ [new_step])
                            (<[_id new_nd := new_step]> (_steps_dict nd))]> (nodes h)))
            (metas h)).
Proof.
  intros Hself Hnew Hne Hfresh. unfold add_step, get_node, put_node, node_at. munfold.
  rewrite Hself. cbv beta iota. rewrite Hnew. cbv beta iota. rewrite Hfresh.
  cbn [nodes metas]. rewrite list_lookup_insert_ne by done. by rewrite Hnew.
Qed.

Lemma insert_middle_last {A} (base rest : list A) (x y x' y' : A) :
  <[length base := x']>
    (<[(length base + S (length rest))%nat := y']> (base ++ x :: rest ++ [y]))
    = (base ++ [x']) ++ rest ++ [y'].
Proof.
  replace (base ++ x :: rest ++ [y]) with ((base ++ x :: rest) ++ [y])
    by by rewrite <- (assoc_L (++)).
  replace (length base + S (length rest))%nat with (length (base ++ x :: rest))
    by (rewrite length_app; simpl; lia).
  rewrite insert_last. rewrite <- !(assoc_L (++)). simpl.
  rewrite insert_app_r_alt by lia. by rewrite Nat.sub_diag.
Qed.

Lemma lookup_middle_last {A} (base rest : list A) (x y : A) :
  (base ++ x :: rest ++ [y]) !! (length base + S (length rest))%nat = Some y.
Proof.
  replace (base ++ x :: rest ++ [y]) with ((base ++ x :: rest) ++ [y])
    by by rewrite <- (assoc_L (++)).
  replace (length base + S (length rest))%nat with (length (base ++ x :: rest))
    by (rewrite length_app; simpl; lia).
  apply lookup_last.
Qed.

Lemma index_ids_other id : ∀ nds start d,
  id ∉ _id <$> nds → index_ids start nds d !! id = d !! id.
Proof.
  induction nds as [|nd nds IH]; intros start d Hid; [done|].
  simpl. rewrite fmap_cons in Hid. apply not_elem_of_cons in Hid as [Hne Hid].
  rewrite IH by done. by rewrite lookup_insert_ne.
Qed.

Lemma index_ids_lookup : ∀ nds start d i nd,
  NoDup (_id <$> nds) → nds !! i = Some nd →
  index_ids start nds d !! _id nd = Some (start + i)%nat.
Proof.
  induction nds as [|x nds IH]; intros start d i nd Hdup Hi; [done|].
  rewrite fmap_cons in Hdup. apply NoDup_cons in Hdup as [Hx Hdup].
  destruct i as [|i]; simpl in *.
  - injection Hi as ->. rewrite index_ids_other by done.
    rewrite lookup_insert_eq. f_equal. lia.
  - rewrite (IH _ _ i nd) by done. f_equal. lia.
Qed.

(** [add_steps] on steps that were stored one after the other, right before
    the workflow, and whose ids differ from each other and from the ids the
    workflow knows. *)
Lemma add_steps_run : ∀ (todo base : list Node) (nd : Node) (ms : list OpMetaInfo),
  NoDup (_id <$> todo) →
  (∀ id, id ∈ _id <$> todo → _steps_dict nd !! id = None) →
  let self := (length base + length todo)%nat in
  for_each (seq (length base) (length todo))
    (λ step, _ ← add_step self step false; mret ()) (Heap (base ++ todo ++ [nd]) ms)
  = (Ok (),
     Heap (base ++ ((λ x, with_parent x (Some self)) <$> todo)
             ++ [with_steps nd (_steps nd ++ seq (length base) (length todo))
                   (index_ids (length base) todo (_steps_dict nd))]) ms).
Proof.
  induction todo as [|x todo IH]; intros base nd ms Hdup Hfresh self.
  - simpl. unfold mret, M_ret. rewrite app_nil_r. by destruct nd.
  - rewrite fmap_cons in Hdup. apply NoDup_cons in Hdup as [Hx Hdup].
    cbn [length seq for_each]. unfold mbind at 1, M_bind at 1.
    unfold mbind at 1, M_bind at 1.
    rewrite (add_step_fresh _ self (length base) nd x).
    + unfold mret, M_ret. cbn [nodes metas].
      unfold self. cbn [length].
      change ((x :: todo) ++ [nd]) with (x :: todo ++ [nd]). rewrite insert_middle_last.
      set (x' := with_parent x _).
      set (nd' := with_steps nd _ _).
      pose proof (IH (base ++ [x']) nd' ms Hdup) as H.
      rewrite length_app in H. simpl in H. unfold mret, M_ret in H.
      replace (length base + 1 + length todo)%nat with (length base + S (length todo))%nat in H
        by lia.
      replace (length base + 1)%nat with (S (length base)) in H by lia.
      rewrite H.
      * unfold nd', x'. simpl. rewrite <- !(assoc_L (++)). done.
      * intros id Hid. unfold nd'. simpl.
        rewrite lookup_insert_ne by (intros <-; done). apply Hfresh. rewrite fmap_cons. by right.
    + unfold self. apply (lookup_middle_last base todo x nd).
    + change ((x :: todo) ++ [nd]) with (x :: (todo ++ [nd])). by apply list_lookup_middle.
    + unfold self. simpl. lia.
    + apply Hfresh. rewrite fmap_cons. by left.
Qed.

(** ** The ports and properties of the workflow itself *)

Lemma props_to_json_keys props : dict_keys (props_to_json props) = dict_keys props.
Proof.
  unfold dict_keys, props_to_json. rewrite <- list_fmap_compose.
  apply list_fmap_ext. intros _ [k v] _. simpl.
  destruct v; try done. by destruct (decide _).
Qed.

Lemma props_to_json_get_None k props :
  dict_get k props = None → dict_get k (props_to_json props) = None.
Proof.
  intros H. apply dict_get_None_keys. rewrite props_to_json_keys.
  by apply dict_get_None_keys.
Qed.

(** The JSON of a port has the keys ["source"] and ["value"] at most, which
    the encoding of properties leaves alone. *)
Lemma port_json_props d :
  (∀ k, is_Some (dict_get k d) → k = "source" ∨ k = "value") →
  props_to_json d = d ∧ props_of_json d = d ∧ dict_get "data_type" d = None
  ∧ ∀ k, k ≠ "source" → k ≠ "value" → dict_get k d = None.
Proof.
  intros Hkeys. induction d as [|[k v] r IH].
  - done.
  - assert (k = "source" ∨ k = "value") as Hk.
    { apply Hkeys. simpl. rewrite decide_True by done. eauto. }
    destruct IH as (IH1 & IH2 & IH3 & IH4).
    { intros k' Hk'. apply Hkeys. simpl. destruct (decide (k = k')); eauto. }
    assert (k ≠ "data_type") as Hne by (by destruct Hk as [-> | ->]).
    split; [|split; [|split]].
    + unfold props_to_json in *. rewrite fmap_cons, IH1. f_equal.
      destruct v; try done. by rewrite decide_False.
    + unfold props_of_json in *. rewrite fmap_cons, IH2. f_equal.
      destruct v; try done. by rewrite decide_False.
    + simpl. by rewrite decide_False.
    + intros k' H1 H2. simpl. rewrite decide_False; [by apply IH4|].
      intros <-. by destruct Hk.
Qed.

Lemma port_json_denotes_props from_value d props x :
  port_json_denotes from_value (VDict d) x →
  dict_get "source" props = None → dict_get "value" props = None →
  port_json_denotes from_value (VDict (d ++ props)) x.
Proof.
  intros Hden Hs Hv. inversion Hden; subst.
  - apply denotes_unset; by rewrite dict_get_app_r.
  - apply denotes_source with s; [by apply dict_get_app_l|by rewrite dict_get_app_r|done].
  - apply denotes_value; [by rewrite dict_get_app_r|by apply dict_get_app_l].
Qed.

Lemma json_dict_round_trip (d : list (string * list (string * pyval))) :
  json_dict_to_object_dict (object_dict_to_json_dict d)
    = Ok ((λ kv, (kv.1, props_of_json (props_to_json kv.2))) <$> d).
Proof.
  induction d as [|[name props] r IH]; [done|].
  unfold object_dict_to_json_dict in *. rewrite fmap_cons. cbn [json_dict_to_object_dict fst snd].
  munfold. by rewrite IH.
Qed.

Lemma dict_get_fmap_keys {V} (f : string → V) name names :
  dict_get name ((λ k, (k, f k)) <$> names)
    = if decide (name ∈ names) then Some (f name) else None.
Proof.
  induction names as [|k r IH].
  - destruct (decide _) as [Hin|]; [by apply elem_of_nil in Hin|done].
  - rewrite fmap_cons. cbn [dict_get]. destruct (decide (k = name)) as [->|Hne].
    + rewrite decide_True; [done|left].
    + rewrite IH. destruct (decide (name ∈ r)).
      * rewrite decide_True; [done|by right].
      * rewrite decide_False; [done|]. intros [?|?]%elem_of_cons; [congruence|done].
Qed.

Lemma dict_from_keys {V} (d : list (string * V)) (dflt : V) :
  NoDup (dict_keys d) → (λ k, (k, default dflt (dict_get k d))) <$> dict_keys d = d.
Proof.
  unfold dict_keys. induction d as [|[k v] r IH]; intros Hdup; [done|].
  simpl in Hdup. apply NoDup_cons in Hdup as [Hk Hdup].
  rewrite !fmap_cons. cbn [fst dict_get]. rewrite decide_True by done. simpl. f_equal.
  rewrite <- (IH Hdup) at 2. apply list_fmap_ext. intros i k' Hi. simpl.
  rewrite decide_False; [done|]. intros ->. apply Hk. by eapply list_elem_of_lookup_2.
Qed.

Section workflow_ports.
Context (type_to_json type_from_json : pyval → pyval → option pyval).

(** The loops of [Workflow.from_json_dict] over the ports of the new
    workflow. *)
Lemma read_workflow_ports n is_output (ports_json : pyval) :
  ∀ (l : list (string * pyval * NodePort)) h nd mi,
  nodes h !! n = Some nd →
  metas h !! _op_meta_info nd = Some mi →
  Forall (λ e, json_get e.1.1 ports_json = Ok (Some e.1.2)
               ∧ is_Some (dict_get e.1.1 (namespace nd is_output))
               ∧ port_json_denotes (_from_json_value type_from_json mi e.1.1) e.1.2 e.2) l →
  for_each ((λ e, PortRef n is_output e.1.1) <$> l)
    (λ p, port_json ← query (λ _, json_get (port_name p) ports_json);
          from_json type_from_json p (default VNone port_json)) h
  = (Ok (), Heap (<[n := with_namespace nd is_output
                           (foldl (λ ns e, dict_set e.1.1 e.2 ns) (namespace nd is_output) l)]>
                    (nodes h)) (metas h)).
Proof.
  induction l as [|[[name j] x] l IH]; intros h nd mi Hnd Hmi Hall.
  - simpl. unfold mret, M_ret. f_equal. destruct h as [ns ms]. simpl in *. f_equal.
    symmetry. apply list_insert_id. rewrite Hnd. f_equal. by destruct nd, is_output.
  - apply Forall_cons in Hall as [(Hget & Hin & Hden) Hall]. simpl in Hget, Hin, Hden.
    rewrite fmap_cons. cbn [for_each fst snd]. unfold mbind at 1, M_bind at 1.
    unfold mbind at 1, M_bind at 1. unfold query at 1. cbn [port_name]. rewrite Hget.
    cbn [default]. change (id j) with j.
    destruct Hin as [old Hold].
    rewrite (from_json_run type_from_json h (PortRef n is_output name) j x old nd mi);
      try done.
    2:{ apply port_at_Ok. eauto. }
    cbn [port_node port_is_output port_name].
    set (nd1 := with_namespace nd is_output (dict_set name x (namespace nd is_output))).
    rewrite (IH _ nd1 mi); cbn [nodes metas].
    + rewrite list_insert_insert_eq. unfold nd1.
      by rewrite namespace_with_namespace, decide_True, with_namespace_twice.
    + apply list_lookup_insert_eq. by eapply lookup_lt_Some.
    + by destruct is_output.
    + eapply Forall_impl; [exact Hall|]. intros [[name' j'] x'] (Hget' & Hin' & Hden').
      simpl in *. split; [done|]. split; [|done].
      unfold nd1. rewrite namespace_with_namespace, decide_True by done.
      destruct (decide (name = name')) as [->|Hne].
      * rewrite dict_get_set_eq. eauto.
      * by rewrite dict_get_set_ne.
Qed.

(** What [round_trip_ready] gives for a port of the workflow: its JSON, and
    the properties written for it. *)
Lemma workflow_port_written h workflow steps nd mi is_output name :
  nodes h !! workflow = Some nd →
  metas h !! _op_meta_info nd = Some mi →
  cls nd = Workflow →
  dict_keys (namespace nd is_output) = dict_keys (meta_ports mi is_output) →
  dict_keys (_outputs nd) = dict_keys (outputs mi) →
  Forall props_round_trip (meta_ports mi is_output).*2 →
  (∀ m, m = workflow ∨ m ∈ steps → node_id h m ≠ "") →
  Forall (port_round_trips type_to_json type_from_json h workflow steps nd mi)
    (all_ports workflow nd) →
  name ∈ dict_keys (namespace nd is_output) →
  let p := PortRef workflow is_output name in
  ∃ port d props,
    port_at h p = Ok port
    ∧ to_json type_to_json h p true = Ok (VDict d)
    ∧ dict_get name (meta_ports mi is_output) = Some props
    ∧ props_round_trip props
    ∧ (∀ k, is_Some (dict_get k d) → k = "source" ∨ k = "value")
    ∧ dict_update d props = d ++ props
    ∧ written_props type_to_json h (meta_ports mi is_output) p = d ++ props
    ∧ port_json_denotes (_from_json_value type_from_json mi name)
        (VDict (props_to_json (d ++ props))) (reloaded h p port).
Proof.
  intros Hnd Hmi Hcls Hkeys Hkout Hprops Hids Hports Hname p.
  pose proof (namespace_round_trips type_to_json type_from_json h workflow steps workflow nd mi
                is_output Hnd Hkout Hports) as Hall.
  rewrite Forall_forall in Hall.
  destruct (Hall p) as (_ & _ & Hout & Hrt).
  { apply list_elem_of_fmap. eauto. }
  destruct (port_round_trips_json type_to_json type_from_json h workflow steps nd mi p true
              Hnd Hmi Hout Hids Hrt) as (port & j & Hp & Hj & _ & Hd & Hden).
  destruct (Hd eq_refl) as (d & -> & Hdkeys).
  assert (is_Some (dict_get name (meta_ports mi is_output))) as [props Hget].
  { apply dict_get_is_Some_keys. by rewrite <- Hkeys. }
  assert (props_round_trip props) as Hrt_props.
  { rewrite Forall_forall in Hprops. apply Hprops.
    apply list_elem_of_fmap. exists (name, props). split; [done|]. by apply dict_get_Some_elem. }
  pose proof Hrt_props as (Hdup & Hsrc & Hval & Hback).
  destruct (port_json_props d Hdkeys) as (Hd1 & Hd2 & Hd3 & Hd4).
  exists port, d, props. split; [done|]. split; [done|]. split; [done|]. split; [done|].
  split; [done|]. split; [|split].
  - apply dict_update_fresh; [done|]. intros k Hk. apply Hd4.
    + intros ->. by apply dict_get_None_keys in Hsrc.
    + intros ->. by apply dict_get_None_keys in Hval.
  - unfold written_props. cbn [port_name p]. by rewrite Hj, Hget.
  - unfold from_value_of in Hden. rewrite Hcls in Hden. cbn [port_name p] in Hden.
    unfold props_to_json. rewrite fmap_app. fold (props_to_json d) (props_to_json props).
    rewrite Hd1. apply port_json_denotes_props; [done| |]; by apply props_to_json_get_None.
Qed.

(** The first loops of [Workflow.to_json_dict]. *)
Lemma workflow_ports_to_json_written h workflow steps nd mi is_output :
  nodes h !! workflow = Some nd →
  metas h !! _op_meta_info nd = Some mi →
  cls nd = Workflow →
  dict_keys (namespace nd is_output) = dict_keys (meta_ports mi is_output) →
  dict_keys (_outputs nd) = dict_keys (outputs mi) →
  Forall props_round_trip (meta_ports mi is_output).*2 →
  (∀ m, m = workflow ∨ m ∈ steps → node_id h m ≠ "") →
  Forall (port_round_trips type_to_json type_from_json h workflow steps nd mi)
    (all_ports workflow nd) →
  ∀ names, names ⊆ dict_keys (namespace nd is_output) →
  workflow_ports_to_json type_to_json h (meta_ports mi is_output)
    ((λ name, PortRef workflow is_output name) <$> names)
  = Ok ((λ name, (name, written_props type_to_json h (meta_ports mi is_output)
                          (PortRef workflow is_output name))) <$> names).
Proof.
  intros Hnd Hmi Hcls Hkeys Hkout Hprops Hids Hports names.
  induction names as [|name names IH]; intros Hsub; [done|].
  destruct (workflow_port_written h workflow steps nd mi is_output name)
    as (port & d & props & Hp & Hj & Hget & _ & _ & Hupd & Hw & _); try done.
  { apply Hsub. left. }
  rewrite !fmap_cons. cbn [workflow_ports_to_json]. munfold.
  rewrite Hj. cbn [json_items]. cbv beta iota. rewrite IH.
  2:{ intros k Hk. apply Hsub. by right. }
  cbn [port_name]. by rewrite Hget, Hupd, Hw.
Qed.

End workflow_ports.

(** ** Resolving the references that were read

    What a reference denotes depends on the shape of the store only. *)
Lemma lookup_erase h n : nodes (erase h) !! n = erase_node <$> nodes h !! n.
Proof. unfold erase. simpl. apply list_lookup_fmap. Qed.

Lemma dict_get_erase_ports name ns :
  dict_get name (erase_ports ns) = (λ _, new_port) <$> dict_get name ns.
Proof.
  unfold erase_ports. induction ns as [|[k v] r IH]; [done|].
  rewrite fmap_cons. simpl. by destruct (decide (k = name)).
Qed.

Lemma dict_in_erase_ports name ns : dict_in name (erase_ports ns) = dict_in name ns.
Proof.
  unfold dict_in. rewrite dict_get_erase_ports.
  by destruct (dict_get name ns).
Qed.

Lemma find_port_erase n nd name : find_port n (erase_node nd) name = find_port n nd name.
Proof. unfold find_port. simpl. by rewrite !dict_in_erase_ports. Qed.

Lemma erase_ports_dict_keys ns : dict_keys (erase_ports ns) = dict_keys ns.
Proof.
  unfold dict_keys, erase_ports. rewrite <- list_fmap_compose. by apply list_fmap_ext.
Qed.

Lemma output_ports_erase n nd : output_ports n (erase_node nd) = output_ports n nd.
Proof. unfold output_ports. simpl. by rewrite erase_ports_dict_keys. Qed.

Lemma root_node_loop_erase h : ∀ fuel n,
  root_node_loop fuel (erase h) n = root_node_loop fuel h n.
Proof.
  induction fuel as [|fuel IH]; intros n; [done|].
  simpl. unfold node_at. rewrite lookup_erase. munfold.
  destruct (nodes h !! n) as [nd|]; simpl; [|done].
  change (parent_node (erase_node nd)) with (parent_node nd).
  destruct (parent_node nd); [apply IH|done].
Qed.

Lemma locate_node_erase h n id : locate_node (erase h) n id = locate_node h n id.
Proof.
  unfold locate_node, root_node. rewrite root_node_loop_erase.
  replace (length (nodes (erase h))) with (length (nodes h))
    by (unfold erase; cbn [nodes]; by rewrite length_fmap).
  set (r := root_node_loop _ h n). munfold. destruct r as [root|]; [|done].
  unfold find_node, node_at. rewrite lookup_erase. munfold.
  destruct (nodes h !! root) as [rnd|]; [|done]. cbn [fmap option_fmap option_map].
  change (_id (erase_node rnd)) with (_id rnd).
  destruct (decide (_id rnd = id)); [done|].
  change (cls (erase_node rnd)) with (cls rnd). done.
Qed.

Lemma find_port_in_scope_erase h name : ∀ fuel n,
  find_port_in_scope fuel (erase h) n name = find_port_in_scope fuel h n name.
Proof.
  induction fuel as [|fuel IH]; intros n; [done|].
  simpl. unfold node_at. rewrite lookup_erase. munfold.
  destruct (nodes h !! n) as [nd|]; simpl; [|done].
  rewrite find_port_erase. destruct (find_port n nd name); [done|].
  change (parent_node (erase_node nd)) with (parent_node nd).
  destruct (parent_node nd); [apply IH|done].
Qed.

Lemma target_erase h self ref : target (erase h) self ref = target h self ref.
Proof.
  unfold target.
  replace (length (nodes (erase h))) with (length (nodes h))
    by (unfold erase; cbn [nodes]; by rewrite length_fmap).
  destruct (given (unpack_ref ref).1) as [i|], (given (unpack_ref ref).2) as [name|];
    try done.
  - rewrite locate_node_erase. munfold.
    destruct (locate_node h (port_node self) i) as [[on|]|]; try done.
    unfold node_at. rewrite lookup_erase. destruct (nodes h !! on) as [ond|]; [|done].
    cbn [fmap option_fmap option_map]. by rewrite find_port_erase.
  - rewrite locate_node_erase. munfold.
    destruct (locate_node h (port_node self) i) as [[on|]|]; try done.
    unfold node_at. rewrite lookup_erase. destruct (nodes h !! on) as [ond|]; [|done].
    cbn [fmap option_fmap option_map]. by rewrite output_ports_erase.
  - by rewrite find_port_in_scope_erase.
Qed.

Lemma node_id_erase h n : node_id (erase h) n = node_id h n.
Proof. unfold node_id. rewrite lookup_erase. by destruct (nodes h !! n). Qed.

Lemma same_shape_target h h' self ref :
  same_shape h h' → target h' self ref = target h self ref.
Proof. intros Hs. rewrite <- (target_erase h'), <- (target_erase h). by rewrite Hs. Qed.

Lemma same_shape_node_id h h' n : same_shape h h' → node_id h' n = node_id h n.
Proof. intros Hs. rewrite <- (node_id_erase h'), <- (node_id_erase h). by rewrite Hs. Qed.

Lemma same_shape_rebound h h' p port :
  same_shape h h' → rebound h' p port = rebound h p port.
Proof.
  intros Hs. unfold rebound. destruct (_source_ref port) as [ref|]; [|done].
  rewrite (same_shape_target h h') by done.
  destruct (target h p ref) as [[q|]|]; try done.
  by rewrite (same_shape_node_id h h').
Qed.

(** [update_source], by what the reference denotes. *)
Lemma update_source_target h self port :
  port_at h self = Ok port →
  update_source self h
    = match _source_ref port with
      | Some ref =>
          match target h self ref with
          | Ok (Some q) => set_source self (Some q) h
          | Ok None => (Ok (), h)
          | Raise e => (Raise e, h)
          end
      | None => (Ok (), h)
      end.
Proof.
  intros Hp. unfold update_source. unfold mbind at 1, M_bind at 1.
  rewrite (get_port_run _ _ _ Hp).
  destruct (_source_ref port) as [ref|]; [|done].
  unfold target. destruct (unpack_ref ref) as [a b]. cbn [fst snd].
  destruct (given a) as [i|], (given b) as [name|]; munfold; try done.
  - destruct (locate_node h (port_node self) i) as [[on|]|]; try done.
    unfold get_node, query. destruct (node_at h on) as [ond|]; [|done].
    by destruct (find_port on ond name).
  - destruct (locate_node h (port_node self) i) as [[on|]|]; try done.
    unfold get_node, query. destruct (node_at h on) as [ond|]; [|done].
    by destruct (output_ports on ond) as [|q [|q' r]].
  - destruct (find_port_in_scope _ h (port_node self) name) as [[q|]|]; done.
Qed.

Lemma updated_nil h : updated [] h h.
Proof. split; [done|]. intros p port Hp. by rewrite bool_decide_eq_false_2 by apply not_elem_of_nil. Qed.

Lemma updated_app l1 l2 h h1 h2 :
  updated l1 h h1 → updated l2 h1 h2 → (∀ p, p ∈ l1 → p ∉ l2) →
  updated (l1 ++ l2) h h2.
Proof.
  intros [Hs1 H1] [Hs2 H2] Hdisj. split; [by eapply same_shape_trans|].
  intros p port Hp. rewrite (H2 _ _ (H1 _ _ Hp)).
  rewrite (same_shape_rebound h h1) by done. f_equal.
  destruct (decide (p ∈ l1)) as [Hin1|Hin1].
  - rewrite (bool_decide_eq_true_2 (p ∈ l1)) by done.
    rewrite (bool_decide_eq_false_2 (p ∈ l2)) by by apply Hdisj.
    rewrite bool_decide_eq_true_2; [done|]. apply elem_of_app. by left.
  - rewrite (bool_decide_eq_false_2 (p ∈ l1)) by done.
    destruct (decide (p ∈ l2)) as [Hin2|Hin2].
    + rewrite (bool_decide_eq_true_2 (p ∈ l2)) by done.
      rewrite bool_decide_eq_true_2; [done|]. apply elem_of_app. by right.
    + rewrite (bool_decide_eq_false_2 (p ∈ l2)) by done.
      rewrite bool_decide_eq_false_2; [done|]. rewrite elem_of_app. tauto.
Qed.

Lemma resolvable_updated l h h1 p :
  updated l h h1 → resolvable h p → p ∉ l → resolvable h1 p.
Proof.
  intros [Hs Hup] (port & Hp & Href) Hnot. exists port. split.
  - rewrite (Hup _ _ Hp). by rewrite bool_decide_eq_false_2.
  - intros ref Hr. destruct (Href _ Hr) as (q & x & Ht & Hne & Hq).
    exists q. eexists. split; [by rewrite (same_shape_target h h1)|]. split; [done|].
    apply (Hup _ _ Hq).
Qed.

(** One round of the loop of [update_sources] on a port that is
    [resolvable]. *)
Lemma update_source_step h p :
  resolvable h p → ∃ h', update_source p h = (Ok (), h') ∧ updated [p] h h'.
Proof.
  intros (port & Hp & Href). rewrite (update_source_target _ _ _ Hp).
  destruct (_source_ref port) as [ref|] eqn:Eref.
  - destruct (Href _ eq_refl) as (q & x & Ht & Hne & Hq). rewrite Ht.
    destruct (set_source_spec h p q port x Hp Hne Hq) as (h' & qnd & Hrun & Hqnd & Hs & Hnew & Hframe).
    exists h'. split; [done|]. split; [done|].
    intros p' port' Hp'. destruct (decide (p' = p)) as [->|Hne'].
    + rewrite bool_decide_eq_true_2 by apply list_elem_of_here.
      assert (port' = port) as -> by congruence.
      rewrite Hnew. unfold rebound. rewrite Eref, Ht. unfold node_id. by rewrite Hqnd.
    + rewrite bool_decide_eq_false_2 by by rewrite list_elem_of_singleton.
      by rewrite Hframe.
  - exists h. split; [done|]. split; [done|].
    intros p' port' Hp'. rewrite Hp'. f_equal.
    destruct (bool_decide (p' ∈ [p])) eqn:E; [|done].
    apply bool_decide_eq_true in E. apply list_elem_of_singleton in E as ->.
    assert (port' = port) as -> by congruence. unfold rebound. by rewrite Eref.
Qed.

(** The loop of [Node.update_sources] over ports that are [resolvable]. *)
Lemma update_source_loop : ∀ ports h,
  NoDup ports → Forall (resolvable h) ports →
  ∃ h', for_each ports update_source h = (Ok (), h') ∧ updated ports h h'.
Proof.
  induction ports as [|p ports IH]; intros h Hdup Hall.
  - exists h. split; [done|]. apply updated_nil.
  - apply NoDup_cons in Hdup as [Hp Hdup]. apply Forall_cons in Hall as [Hres Hall].
    destruct (update_source_step h p Hres) as (h1 & Hrun1 & Hup1).
    destruct (IH h1 Hdup) as (h' & Hrun & Hup).
    { apply Forall_forall. intros p' Hp'. rewrite Forall_forall in Hall.
      eapply resolvable_updated; [exact Hup1|by apply Hall|].
      rewrite list_elem_of_singleton. by intros ->. }
    exists h'. split.
    + simpl. unfold mbind, M_bind. by rewrite Hrun1.
    + change (p :: ports) with ([p] ++ ports). eapply updated_app; [done|done|].
      intros p' ->%list_elem_of_singleton. done.
Qed.

Lemma node_update_sources_run h n nd :
  nodes h !! n = Some nd →
  NoDup (all_ports n nd) → Forall (resolvable h) (all_ports n nd) →
  ∃ h', node_update_sources n h = (Ok (), h') ∧ updated (all_ports n nd) h h'.
Proof.
  intros Hnd Hdup Hall. unfold node_update_sources. unfold mbind, M_bind.
  rewrite (get_node_run _ _ _ Hnd). by apply update_source_loop.
Qed.

Lemma steps_update_sources_run : ∀ (steps : list nat) h0 h,
  same_shape h0 h →
  (∀ s, s ∈ steps → is_Some (nodes h0 !! s)) →
  NoDup (concat (ports_at h0 <$> steps)) →
  Forall (resolvable h) (concat (ports_at h0 <$> steps)) →
  ∃ h', for_each steps node_update_sources h = (Ok (), h')
    ∧ updated (concat (ports_at h0 <$> steps)) h h'.
Proof.
  induction steps as [|s steps IH]; intros h0 h Hs Hnodes Hdup Hall.
  - exists h. split; [done|]. apply updated_nil.
  - rewrite fmap_cons in *. cbn [concat] in *.
    apply NoDup_app in Hdup as (Hdup1 & Hdisj & Hdup2).
    apply Forall_app in Hall as [Hall1 Hall2].
    destruct (Hnodes s) as [nd0 Hnd0]; [left|].
    destruct (same_shape_node _ _ _ _ Hs Hnd0) as (nd & Hnd & He).
    assert (ports_at h0 s = all_ports s nd) as Hports.
    { unfold ports_at. rewrite Hnd0. symmetry. by apply erase_node_all_ports. }
    rewrite Hports in *.
    destruct (node_update_sources_run h s nd Hnd Hdup1 Hall1) as (h1 & Hrun1 & Hup1).
    destruct (IH h0 h1) as (h' & Hrun & Hup); try done.
    { eapply same_shape_trans; [done|]. apply Hup1. }
    { intros s' Hs'. apply Hnodes. by right. }
    { apply Forall_forall. intros p Hp. rewrite Forall_forall in Hall2.
      eapply resolvable_updated; [exact Hup1|by apply Hall2|].
      intros Hin. by apply (Hdisj p). }
    exists h'. split.
    + simpl. unfold mbind, M_bind. by rewrite Hrun1.
    + eapply updated_app; [done|done|]. intros p Hin. by apply Hdisj.
Qed.

(** [Workflow.update_sources] on a workflow all of whose ports, and all
    ports of whose steps, are [resolvable]. *)
Lemma update_sources_run h n nd :
  nodes h !! n = Some nd →
  cls nd = Workflow →
  (∀ s, s ∈ _steps nd → is_Some (nodes h !! s)) →
  NoDup (tree_ports h n) →
  Forall (resolvable h) (tree_ports h n) →
  ∃ h', update_sources n h = (Ok (), h') ∧ updated (tree_ports h n) h h'.
Proof.
  intros Hnd Hcls Hnodes Hdup Hall. unfold tree_ports in *. rewrite Hnd, Hcls in *.
  apply NoDup_app in Hdup as (Hdup1 & Hdisj & Hdup2).
  apply Forall_app in Hall as [Hall1 Hall2].
  destruct (node_update_sources_run h n nd Hnd Hdup1 Hall1) as (h1 & Hrun1 & Hup1).
  destruct (steps_update_sources_run (_steps nd) h h1) as (h' & Hrun & Hup); try done.
  { apply Hup1. }
  { apply Forall_forall. intros p Hp. rewrite Forall_forall in Hall2.
    eapply resolvable_updated; [exact Hup1|by apply Hall2|].
    intros Hin. by apply (Hdisj p). }
  exists h'. split.
  - unfold update_sources. unfold mbind, M_bind.
    rewrite (get_node_run _ _ _ Hnd), Hrun1, Hcls. done.
  - eapply updated_app; [done|done|]. intros p Hin. by apply Hdisj.
Qed.

(** ** The new workflow and the original *)

Lemma list_index_lookup (l : list nat) : ∀ i x,
  NoDup l → l !! i = Some x → list_index x l = Some i.
Proof.
  induction l as [|y l IH]; intros i x Hdup Hi; [done|].
  apply NoDup_cons in Hdup as [Hy Hdup]. simpl. destruct i as [|i]; simpl in Hi.
  - injection Hi as ->. by rewrite decide_True.
  - rewrite decide_False.
    + by rewrite (IH i x).
    + intros ->. apply Hy. by eapply list_elem_of_lookup_2.
Qed.

Lemma list_index_Some (l : list nat) : ∀ i x, list_index x l = Some i → l !! i = Some x.
Proof.
  induction l as [|y l IH]; intros i x Hi; [done|]. simpl in Hi.
  destruct (decide (y = x)) as [->|Hne].
  - by injection Hi as <-.
  - destruct (list_index x l) as [j|] eqn:E; [|done]. injection Hi as <-. by apply IH.
Qed.

Lemma list_index_elem (l : list nat) x : x ∈ l → ∃ i, list_index x l = Some i ∧ l !! i = Some x.
Proof.
  induction l as [|y l IH]; [by intros ?%elem_of_nil|]. intros Hin. simpl.
  destruct (decide (y = x)) as [->|Hne]; [by exists O|].
  apply elem_of_cons in Hin as [?|Hin]; [congruence|].
  destruct (IH Hin) as (i & -> & Hi). by exists (S i).
Qed.

Lemma list_index_seq base k i : (i < k)%nat → list_index (base + i)%nat (seq base k) = Some i.
Proof.
  intros Hi. apply list_index_lookup; [apply NoDup_seq|]. by apply lookup_seq.
Qed.

Lemma list_index_seq_None base k n : (n < base)%nat ∨ (base + k ≤ n)%nat →
  list_index n (seq base k) = None.
Proof.
  intros Hn. destruct (list_index n (seq base k)) as [i|] eqn:E; [|done].
  apply list_index_Some in E. apply lookup_seq in E. lia.
Qed.

Lemma dict_in_keys {V} name (d : list (string * V)) :
  dict_in name d = bool_decide (name ∈ dict_keys d).
Proof.
  unfold dict_in. apply bool_decide_ext. apply dict_get_is_Some_keys.
Qed.

(** [find_port] and [output_ports] depend on the port names only. *)
Lemma find_port_keys a b new old name :
  dict_keys (_inputs new) = dict_keys (_inputs old) →
  dict_keys (_outputs new) = dict_keys (_outputs old) →
  find_port a new name
    = (λ q, PortRef a (port_is_output q) (port_name q)) <$> find_port b old name.
Proof.
  intros Hi Ho. unfold find_port. rewrite !dict_in_keys, Hi, Ho.
  destruct (bool_decide (name ∈ dict_keys (_outputs old))); [done|].
  by destruct (bool_decide (name ∈ dict_keys (_inputs old))).
Qed.

Lemma output_ports_keys a b new old :
  dict_keys (_outputs new) = dict_keys (_outputs old) →
  output_ports a new = (λ q, PortRef a (port_is_output q) (port_name q)) <$> output_ports b old.
Proof.
  intros Ho. unfold output_ports. rewrite Ho, <- list_fmap_compose. done.
Qed.

Lemma all_ports_keys a b new old :
  dict_keys (_inputs new) = dict_keys (_inputs old) →
  dict_keys (_outputs new) = dict_keys (_outputs old) →
  all_ports a new = (λ q, PortRef a (port_is_output q) (port_name q)) <$> all_ports b old.
Proof.
  intros Hi Ho. unfold all_ports, output_ports, input_ports.
  rewrite Hi, Ho, fmap_app, <- !list_fmap_compose. done.
Qed.

Lemma all_ports_node n nd p : p ∈ all_ports n nd → port_node p = n.
Proof.
  unfold all_ports, output_ports, input_ports.
  intros [Hp|Hp]%elem_of_app; apply list_elem_of_fmap in Hp as (? & -> & _); done.
Qed.

Lemma all_ports_NoDup n nd :
  NoDup (dict_keys (_inputs nd)) → NoDup (dict_keys (_outputs nd)) → NoDup (all_ports n nd).
Proof.
  intros Hi Ho. unfold all_ports, output_ports, input_ports. apply NoDup_app.
  split; [|split].
  - apply NoDup_fmap_2; [|done]. by intros ?? [= ->].
  - intros p (? & -> & _)%list_elem_of_fmap (? & [=] & _)%list_elem_of_fmap.
  - apply NoDup_fmap_2; [|done]. by intros ?? [= ->].
Qed.

Lemma all_ports_elem n nd p :
  p ∈ all_ports n nd ↔
  port_node p = n ∧ is_Some (dict_get (port_name p) (namespace nd (port_is_output p))).
Proof.
  unfold all_ports, output_ports, input_ports. rewrite elem_of_app, !list_elem_of_fmap.
  split.
  - intros [(name & -> & Hin)|(name & -> & Hin)]; simpl; split; try done;
      by apply dict_get_is_Some_keys.
  - destruct p as [pn [] name]; simpl; intros [-> Hin%dict_get_is_Some_keys]; eauto.
Qed.

Lemma concat_fmap_fmap {A B C} (f : B → C) (P : A → list B) (l : list A) :
  concat ((λ x, f <$> P x) <$> l) = f <$> concat (P <$> l).
Proof.
  induction l as [|x l IH]; [done|]. rewrite !fmap_cons. cbn [concat].
  by rewrite fmap_app, IH.
Qed.

Lemma ports_at_node h n p : p ∈ ports_at h n → port_node p = n.
Proof.
  unfold ports_at. destruct (nodes h !! n); [apply all_ports_node|by intros ?%elem_of_nil].
Qed.

Lemma steps_ports_node h (l : list nat) p :
  p ∈ concat (ports_at h <$> l) → port_node p ∈ l.
Proof.
  induction l as [|n l IH]; [by intros ?%elem_of_nil|].
  rewrite fmap_cons. cbn [concat]. intros [Hp|Hp]%elem_of_app.
  - apply ports_at_node in Hp as ->. left.
  - right. by apply IH.
Qed.

Lemma steps_ports_NoDup h (l : list nat) :
  NoDup l → (∀ n, n ∈ l → NoDup (ports_at h n)) → NoDup (concat (ports_at h <$> l)).
Proof.
  induction l as [|n l IH]; intros Hdup Hall; [constructor|].
  apply NoDup_cons in Hdup as [Hn Hdup]. rewrite fmap_cons. cbn [concat].
  apply NoDup_app. split; [apply Hall; left|]. split.
  - intros p Hp1 Hp2. apply ports_at_node in Hp1 as <-. by apply steps_ports_node in Hp2.
  - apply IH; [done|]. intros m Hm. apply Hall. by right.
Qed.

Lemma tree_ports_node h n nd p :
  nodes h !! n = Some nd → p ∈ tree_ports h n → port_node p = n ∨ port_node p ∈ _steps nd.
Proof.
  intros Hnd. unfold tree_ports. rewrite Hnd. intros [Hp|Hp]%elem_of_app.
  - left. by eapply all_ports_node.
  - right. destruct (cls nd); try by apply elem_of_nil in Hp. by eapply steps_ports_node.
Qed.

Lemma collect_fmap_ext {A B C} (f : B → outcome C) (f' : A → outcome C) (move : A → B) l :
  (∀ x, x ∈ l → f (move x) = f' x) → collect f (move <$> l) = collect f' l.
Proof.
  induction l as [|x l IH]; intros Hext; [done|].
  rewrite fmap_cons. cbn [collect]. rewrite Hext by left. rewrite IH; [done|].
  intros y Hy. apply Hext. by right.
Qed.

Lemma collect_Ok {A B} (f : A → outcome B) l :
  (∀ x, x ∈ l → ∃ y, f x = Ok y) → ∃ ys, collect f l = Ok ys.
Proof.
  induction l as [|x l IH]; intros Hall; [by exists []|].
  destruct (Hall x) as [y Hy]; [left|]. destruct IH as [ys Hys].
  { intros z Hz. apply Hall. by right. }
  exists (y :: ys). cbn [collect]. munfold. by rewrite Hy, Hys.
Qed.

Lemma elem_of_concat_fmap {A B} (P : A → list B) x (l : list A) y :
  y ∈ P x → x ∈ l → y ∈ concat (P <$> l).
Proof.
  intros Hy. induction l as [|z l IH]; [by intros ?%elem_of_nil|].
  rewrite fmap_cons. cbn [concat]. rewrite elem_of_app.
  intros [->|Hx]%elem_of_cons; [by left|right; by apply IH].
Qed.

Lemma tree_ports_elem h n nd m ndm p :
  nodes h !! n = Some nd → cls nd = Workflow →
  m = n ∨ m ∈ _steps nd → nodes h !! m = Some ndm →
  p ∈ all_ports m ndm → p ∈ tree_ports h n.
Proof.
  intros Hnd Hcls Hm Hndm Hp. unfold tree_ports. rewrite Hnd, Hcls. apply elem_of_app.
  destruct Hm as [->|Hm].
  - left. congruence.
  - right. apply (elem_of_concat_fmap _ m); [|done]. unfold ports_at. by rewrite Hndm.
Qed.

Section new_workflow.
Context (h : heap) (workflow : nat) (nd : Node).
Context (Hnd : nodes h !! workflow = Some nd).
Context (Hsteps : NoDup (_id nd :: (node_id h <$> _steps nd))).

Local Abbreviation steps := (_steps nd).
Local Abbreviation base := (length (nodes h)).
Local Abbreviation self := (length (nodes h) + length (_steps nd))%nat.
Local Abbreviation moved := (new_address h workflow (_steps nd)).

Lemma steps_NoDup : NoDup steps.
Proof. apply NoDup_cons in Hsteps as [_ H]. by eapply NoDup_fmap_1. Qed.

Lemma workflow_not_step : workflow ∉ steps.
Proof.
  apply NoDup_cons in Hsteps as [H _]. intros Hin. apply H.
  apply list_elem_of_fmap. exists workflow. split; [|done]. unfold node_id. by rewrite Hnd.
Qed.

Lemma moved_workflow : moved workflow = self.
Proof. unfold new_address. by rewrite decide_True. Qed.

Lemma moved_step i step : steps !! i = Some step → moved step = (base + i)%nat.
Proof.
  intros Hi. unfold new_address. rewrite decide_False.
  - by rewrite (list_index_lookup _ i step steps_NoDup Hi).
  - intros ->. apply workflow_not_step. by eapply list_elem_of_lookup_2.
Qed.

Lemma moved_inj n m :
  n = workflow ∨ n ∈ steps → m = workflow ∨ m ∈ steps → moved n = moved m → n = m.
Proof.
  intros [->|Hn] [->|Hm]; [done| | |].
  - apply list_elem_of_lookup in Hm as [i Hi]. rewrite moved_workflow, (moved_step i m Hi).
    apply lookup_lt_Some in Hi. lia.
  - apply list_elem_of_lookup in Hn as [i Hi]. rewrite moved_workflow, (moved_step i n Hi).
    apply lookup_lt_Some in Hi. lia.
  - apply list_elem_of_lookup in Hn as [i Hi]. apply list_elem_of_lookup in Hm as [j Hj].
    rewrite (moved_step i n Hi), (moved_step j m Hj). intros E.
    assert (i = j) as -> by lia. congruence.
Qed.

(** A node keeps its place. *)
Lemma place_of_moved n :
  n = workflow ∨ n ∈ steps →
  place_of self (seq base (length steps)) (moved n) = place_of workflow steps n.
Proof.
  intros [->|Hn]; unfold place_of.
  - rewrite moved_workflow. by rewrite !decide_True.
  - destruct (list_index_elem steps n Hn) as (i & Hindex & Hi).
    rewrite (moved_step i n Hi). pose proof (lookup_lt_Some _ _ _ Hi) as Hlt.
    rewrite decide_False by lia. rewrite list_index_seq by done.
    rewrite decide_False; [by rewrite Hindex|].
    intros ->. by apply workflow_not_step.
Qed.

Context (g : heap) (Htree : reloaded_tree h workflow nd g).
Context (Hcls : cls nd = Workflow).
Context (Hkinds : ∀ step snd, step ∈ steps → nodes h !! step = Some snd → cls snd ≠ Workflow).

(** The new node of a node of the original workflow. *)
Lemma tree_node n :
  n = workflow ∨ n ∈ steps →
  ∃ ndn new, nodes h !! n = Some ndn
    ∧ nodes g !! moved n = Some new
    ∧ _id new = _id ndn
    ∧ cls new = cls ndn
    ∧ parent_node new = (if decide (n = workflow) then None else Some self)
    ∧ dict_keys (_inputs new) = dict_keys (_inputs ndn)
    ∧ dict_keys (_outputs new) = dict_keys (_outputs ndn)
    ∧ (∀ b name port, dict_get name (namespace ndn b) = Some port →
         dict_get name (namespace new b) = Some (reloaded h (PortRef n b name) port))
    ∧ (n ≠ workflow →
         _persistent new = _persistent ndn
         ∧ (cls ndn = OpStep → _op_meta_info new = _op_meta_info ndn)).
Proof.
  destruct Htree as [(wnd & Hw & Hwcls & Hwid & Hwsteps & Hwdict & Hwin & Hwout & Hwports) Hst].
  intros [->|Hn].
  - exists nd, wnd. rewrite moved_workflow, decide_True by done.
    unfold parent_node. rewrite Hwcls, Hcls. done.
  - destruct (list_index_elem steps n Hn) as (i & _ & Hi).
    destruct (Hst i n Hi) as (snd & snd' & Hsnd & Hre & Hnew).
    destruct Hre as (Hc & Hid & Hpers & Hpar & Hop & Hkin & Hkout & Hports).
    exists snd, (with_parent snd' (Some self)). rewrite (moved_step i n Hi).
    assert (n ≠ workflow) as Hne by (intros ->; by apply workflow_not_step).
    rewrite decide_False by done.
    split; [done|]. split; [done|]. split; [done|]. split; [done|]. split.
    { unfold parent_node. simpl. rewrite Hc.
      pose proof (Hkinds n snd Hn Hsnd). by destruct (cls snd). }
    split; [done|]. split; [done|]. split.
    { intros b name port Hget. specialize (Hports b name port Hget). by destruct b. }
    done.
Qed.

Lemma root_node_moved n : n = workflow ∨ n ∈ steps → root_node g (moved n) = Ok self.
Proof.
  intros Hn. destruct (tree_node workflow (or_introl eq_refl))
    as (? & wnew & _ & Hw & _ & _ & Hwpar & _).
  rewrite decide_True in Hwpar by done. rewrite moved_workflow in Hw.
  destruct (decide (n = workflow)) as [->|Hne].
  - rewrite moved_workflow. unfold root_node. cbn [root_node_loop].
    unfold node_at. rewrite Hw. munfold. by rewrite Hwpar.
  - destruct (tree_node n Hn) as (ndn & new & _ & Hnew & _ & _ & Hpar & _).
    rewrite decide_False in Hpar by done.
    unfold root_node. destruct (length (nodes g)) as [|fuel] eqn:Hlen.
    { apply lookup_lt_Some in Hw. lia. }
    cbn [root_node_loop]. unfold node_at. rewrite Hnew. munfold. rewrite Hpar, Hw.
    by rewrite Hwpar.
Qed.

Lemma locate_node_moved n m :
  n = workflow ∨ n ∈ steps → m = workflow ∨ m ∈ steps →
  locate_node g (moved n) (node_id h m) = Ok (Some (moved m)).
Proof.
  intros Hn Hm. unfold locate_node. rewrite (root_node_moved n Hn). munfold.
  destruct Htree as [(wnd & Hw & Hwcls & Hwid & Hwsteps & Hwdict & _) _].
  unfold node_at, find_node, node_at. rewrite Hw. munfold. rewrite Hwid, Hwcls.
  destruct Hm as [->|Hm].
  - unfold node_id. rewrite Hnd, decide_True by done. by rewrite moved_workflow.
  - rewrite decide_False.
    + destruct (list_index_elem steps m Hm) as (i & _ & Hi).
      by rewrite (Hwdict i m Hi), (moved_step i m Hi).
    + apply NoDup_cons in Hsteps as [H _]. intros E. apply H. rewrite E.
      apply list_elem_of_fmap. eauto.
Qed.

(** The reference read for a bound port denotes the new port of its
    source. *)
Lemma target_moved p q :
  port_node p = workflow ∨ port_node p ∈ steps →
  source_round_trips h workflow steps p q →
  node_id h (port_node q) ≠ "" →
  target g (new_port_ref h workflow steps p)
    (PlainPair (Some (node_id h (port_node q)))
       (if decide (port_name q = RETURN_OUTPUT_NAME) then None else Some (port_name q)))
  = Ok (Some (new_port_ref h workflow steps q)).
Proof.
  intros Hp (Hne & Hq & qnd & Hqnd & Hcase) Hid.
  destruct (tree_node (port_node q) Hq)
    as (qnd' & new & Hqnd' & Hnew & _ & _ & _ & Hkin & Hkout & _).
  assert (qnd' = qnd) as -> by congruence.
  unfold target. cbn [unpack_ref fst snd new_port_ref port_node].
  rewrite given_Some by done.
  destruct (decide (port_name q = RETURN_OUTPUT_NAME)) as [Hret|Hret].
  - destruct Hcase as [_ Hout]. cbn [given].
    rewrite (locate_node_moved _ _ Hp Hq). munfold. unfold node_at. rewrite Hnew.
    rewrite (output_ports_keys _ (port_node q) new qnd Hkout), Hout. done.
  - destruct Hcase as (_ & Hname & Hfind). rewrite given_Some by done.
    rewrite (locate_node_moved _ _ Hp Hq). munfold. unfold node_at. rewrite Hnew.
    rewrite (find_port_keys _ (port_node q) new qnd _ Hkin Hkout), Hfind. done.
Qed.

Lemma source_exists p q :
  source_round_trips h workflow steps p q → ∃ x, port_at h q = Ok x.
Proof.
  intros (_ & _ & qnd & Hqnd & Hcase).
  assert (q ∈ all_ports (port_node q) qnd) as Hin.
  { destruct (decide _).
    - destruct Hcase as [_ Hout]. unfold all_ports. rewrite Hout. apply elem_of_app. left.
      apply list_elem_of_here.
    - destruct Hcase as (_ & _ & Hfind). unfold find_port in Hfind.
      apply all_ports_elem. split; [done|].
      destruct (dict_in (port_name q) (_outputs qnd)) eqn:Eo.
      + injection Hfind as <-. simpl in *. by apply dict_in_true.
      + destruct (dict_in (port_name q) (_inputs qnd)) eqn:Ei; [|done].
        injection Hfind as <-. simpl in *. by apply dict_in_true. }
  apply all_ports_elem in Hin as [_ [x Hx]]. exists x. apply port_at_Ok. eauto.
Qed.

Lemma port_at_moved p port :
  port_node p = workflow ∨ port_node p ∈ steps →
  port_at h p = Ok port →
  port_at g (new_port_ref h workflow steps p) = Ok (reloaded h p port).
Proof.
  intros Hp (ndn & Hndn & Hget)%port_at_Ok.
  destruct (tree_node (port_node p) Hp) as (ndn' & new & Hndn' & Hnew & _ & _ & _ & _ & _ & Hports & _).
  assert (ndn' = ndn) as -> by congruence.
  apply port_at_Ok. exists new. split; [done|]. simpl.
  rewrite (Hports _ _ _ Hget). by destruct p.
Qed.

Lemma new_port_ref_inj p q :
  port_node p = workflow ∨ port_node p ∈ steps →
  port_node q = workflow ∨ port_node q ∈ steps →
  new_port_ref h workflow steps p = new_port_ref h workflow steps q → p = q.
Proof.
  intros Hp Hq [= Hn Hb Hname]. apply moved_inj in Hn; [|done..].
  destruct p, q; simpl in *; congruence.
Qed.

(** The new port of a port of the original tree is [resolvable]. *)
Lemma resolvable_moved p port :
  port_node p = workflow ∨ port_node p ∈ steps →
  port_at h p = Ok port →
  (∀ q, _source port = Some q →
     source_round_trips h workflow steps p q ∧ node_id h (port_node q) ≠ "") →
  resolvable g (new_port_ref h workflow steps p).
Proof.
  intros Hp Hport Hsrc. exists (reloaded h p port). split; [by apply port_at_moved|].
  intros ref Href. unfold reloaded in Href. destruct (_source port) as [q|] eqn:Eq.
  - injection Href as <-. destruct (Hsrc q eq_refl) as [Hrt Hid].
    pose proof Hrt as (Hne & Hq & _).
    destruct (source_exists p q Hrt) as [x Hx].
    exists (new_port_ref h workflow steps q), (reloaded h q x).
    split; [by apply target_moved|]. split; [|by apply port_at_moved].
    intros E. apply Hne. by apply new_port_ref_inj.
  - by destruct (port_is_output p).
Qed.

Context (Hdistinct : ∀ n ndn, n = workflow ∨ n ∈ steps → nodes h !! n = Some ndn →
           NoDup (dict_keys (_inputs ndn)) ∧ NoDup (dict_keys (_outputs ndn))).

Lemma ports_at_moved n :
  n = workflow ∨ n ∈ steps →
  ports_at g (moved n) = new_port_ref h workflow steps <$> ports_at h n.
Proof.
  intros Hn. destruct (tree_node n Hn) as (ndn & new & Hndn & Hnew & _ & _ & _ & Hkin & Hkout & _).
  unfold ports_at. rewrite Hndn, Hnew.
  rewrite (all_ports_keys (moved n) n new ndn Hkin Hkout).
  apply list_fmap_ext. intros i p Hp%list_elem_of_lookup_2.
  apply all_ports_node in Hp. unfold new_port_ref. by rewrite Hp.
Qed.

Lemma tree_ports_moved :
  tree_ports g self = new_port_ref h workflow steps <$> tree_ports h workflow.
Proof.
  pose proof (ports_at_moved workflow (or_introl eq_refl)) as Hports.
  destruct Htree as [(wnd & Hw & Hwcls & _ & Hwsteps & _) _].
  unfold tree_ports. unfold ports_at in Hports. rewrite moved_workflow in Hports.
  rewrite Hw, Hnd in *. rewrite Hwcls, Hcls, Hwsteps, fmap_app, Hports. f_equal.
  rewrite <- concat_fmap_fmap. f_equal.
  apply list_eq. intros i. rewrite !list_lookup_fmap.
  destruct (steps !! i) as [step|] eqn:Hi.
  - rewrite (lookup_seq_lt _ _ _ (lookup_lt_Some _ _ _ Hi)). simpl. f_equal.
    rewrite <- (moved_step i step Hi). apply ports_at_moved. right.
    by eapply list_elem_of_lookup_2.
  - rewrite lookup_seq_ge; [done|]. by apply lookup_ge_None.
Qed.

Lemma tree_ports_NoDup : NoDup (tree_ports h workflow).
Proof.
  unfold tree_ports. rewrite Hnd, Hcls. apply NoDup_app. split; [|split].
  - destruct (Hdistinct workflow nd) as [Hi Ho]; [by left|done|]. by apply all_ports_NoDup.
  - intros p Hp1 Hp2. apply all_ports_node in Hp1. apply steps_ports_node in Hp2.
    rewrite Hp1 in Hp2. by apply workflow_not_step.
  - apply steps_ports_NoDup; [apply steps_NoDup|]. intros n Hn. unfold ports_at.
    destruct (nodes h !! n) as [ndn|] eqn:E; [|constructor].
    destruct (Hdistinct n ndn) as [Hi Ho]; [by right|done|]. by apply all_ports_NoDup.
Qed.

Lemma new_tree_ports_NoDup : NoDup (tree_ports g self).
Proof.
  rewrite tree_ports_moved. apply NoDup_fmap_2_strong; [|apply tree_ports_NoDup].
  intros p q Hp Hq. apply new_port_ref_inj; by eapply tree_ports_node.
Qed.

Context (Hports : ∀ p, p ∈ tree_ports h workflow →
           ∃ port, port_at h p = Ok port
             ∧ ∀ q, _source port = Some q →
                 source_round_trips h workflow steps p q ∧ node_id h (port_node q) ≠ "").

Lemma tree_port_node p :
  p ∈ tree_ports h workflow → port_node p = workflow ∨ port_node p ∈ steps.
Proof. by apply tree_ports_node. Qed.

(** [update_sources] on the new workflow returns, and rebinds every port
    of the new workflow and of its steps. *)
Lemma new_tree_update :
  ∃ h', update_sources self g = (Ok (), h') ∧ updated (tree_ports g self) g h'.
Proof.
  destruct (tree_node workflow (or_introl eq_refl))
    as (nd' & wnd & Hnd' & Hw & _ & Hwcls & _).
  assert (nd' = nd) as -> by congruence.
  rewrite moved_workflow in Hw. rewrite Hcls in Hwcls.
  apply (update_sources_run g self wnd Hw Hwcls).
  - destruct Htree as [(wnd' & Hw' & _ & _ & Hwsteps & _) Hst].
    assert (wnd' = wnd) as -> by congruence. rewrite Hwsteps.
    intros s Hs%elem_of_seq.
    assert (∃ i, s = (base + i)%nat ∧ (i < length steps)%nat) as (i & -> & Hi)
      by (exists (s - base)%nat; lia).
    destruct (lookup_lt_is_Some_2 steps i Hi) as [step Hstep].
    destruct (Hst i step Hstep) as (? & ? & _ & _ & Hnew). eauto.
  - apply new_tree_ports_NoDup.
  - rewrite tree_ports_moved. apply Forall_fmap, Forall_forall. intros p Hp.
    destruct (Hports p Hp) as (port & Hport & Hsrc).
    eapply resolvable_moved; [by apply tree_port_node|done|done].
Qed.

Section updated.
Context (h' : heap) (Hup : updated (tree_ports g self) g h').

(** The new port of a port, after the references are resolved, has the
    structure of the port. *)
Lemma port_structure_moved p :
  p ∈ tree_ports h workflow →
  port_structure_of h' self (seq base (length steps)) (new_port_ref h workflow steps p)
    = port_structure_of h workflow steps p
  ∧ ∃ v, port_structure_of h workflow steps p = Ok v.
Proof.
  intros Hp. destruct (Hports p Hp) as (port & Hport & Hsrc).
  pose proof (tree_port_node p Hp) as Hnode.
  destruct Hup as [_ Hnew].
  pose proof (Hnew _ _ (port_at_moved p port Hnode Hport)) as Hnew_p.
  rewrite bool_decide_eq_true_2 in Hnew_p.
  2:{ rewrite tree_ports_moved. apply list_elem_of_fmap. eauto. }
  unfold port_structure_of. munfold. rewrite Hnew_p, Hport.
  split; [|eauto]. f_equal. cbn [new_port_ref port_name port_is_output].
  unfold rebound, reloaded. destruct (_source port) as [q|] eqn:Eq.
  - destruct (Hsrc q eq_refl) as [Hrt Hid]. cbn [_source_ref].
    rewrite (target_moved p q Hnode Hrt Hid). cbn [_source].
    f_equal. f_equal. cbn [new_port_ref port_node port_is_output port_name].
    rewrite place_of_moved; [done|]. by destruct Hrt as (_ & ? & _).
  - by destruct (port_is_output p).
Qed.

Lemma node_moved n :
  n = workflow ∨ n ∈ steps →
  ∃ ndn old new, nodes h !! n = Some ndn
    ∧ nodes g !! moved n = Some old
    ∧ nodes h' !! moved n = Some new
    ∧ erase_node new = erase_node old
    ∧ _id new = _id ndn
    ∧ cls new = cls ndn
    ∧ input_ports (moved n) new = new_port_ref h workflow steps <$> input_ports n ndn
    ∧ output_ports (moved n) new = new_port_ref h workflow steps <$> output_ports n ndn
    ∧ (n ≠ workflow →
         _persistent new = _persistent ndn
         ∧ (cls ndn = OpStep → _op_meta_info new = _op_meta_info ndn)).
Proof.
  intros Hn.
  destruct (tree_node n Hn)
    as (ndn & old & Hndn & Hold & Hid & Hc & _ & Hkin & Hkout & _ & Hstep).
  destruct Hup as [Hshape _].
  destruct (same_shape_node _ _ _ _ Hshape Hold) as (new & Hnew & He).
  exists ndn, old, new. split; [done|]. split; [done|]. split; [done|]. split; [done|].
  pose proof He as [= Ecls Eid Emeta Epers Ein Eout _ _ _].
  apply erase_ports_keys in Ein, Eout.
  split; [congruence|]. split; [congruence|]. split; [|split].
  - unfold input_ports. rewrite Ein, Hkin, <- list_fmap_compose. done.
  - unfold output_ports. rewrite Eout, Hkout, <- list_fmap_compose. done.
  - intros Hne. destruct (Hstep Hne) as [Hp Hop]. split; [congruence|].
    intros Hops. rewrite Emeta. by apply Hop.
Qed.

Lemma ports_structure_moved n ndn (ports : list port_ref) :
  n = workflow ∨ n ∈ steps → nodes h !! n = Some ndn →
  ports ⊆ all_ports n ndn →
  collect (port_structure_of h' self (seq base (length steps)))
    (new_port_ref h workflow steps <$> ports)
    = collect (port_structure_of h workflow steps) ports
  ∧ ∃ vs, collect (port_structure_of h workflow steps) ports = Ok vs.
Proof.
  intros Hn Hndn Hsub.
  assert (∀ p, p ∈ ports → p ∈ tree_ports h workflow) as Hin.
  { intros p Hp. eapply (tree_ports_elem h workflow nd n ndn); try done. by apply Hsub. }
  split.
  - apply collect_fmap_ext. intros p Hp. by apply port_structure_moved, Hin.
  - apply collect_Ok. intros p Hp. by apply port_structure_moved, Hin.
Qed.

Lemma step_structure_moved i step :
  steps !! i = Some step →
  step_structure_of h' self (seq base (length steps)) (base + i)%nat
    = step_structure_of h workflow steps step
  ∧ ∃ v, step_structure_of h workflow steps step = Ok v.
Proof.
  intros Hi. assert (step ∈ steps) as Hin by by eapply list_elem_of_lookup_2.
  assert (step ≠ workflow) as Hne by (intros ->; by apply workflow_not_step).
  destruct (node_moved step (or_intror Hin))
    as (snd & old & new & Hsnd & _ & Hnew & _ & Hid & Hc & Hpin & Hpout & Hstep).
  destruct (Hstep Hne) as [Hpers Hop].
  rewrite (moved_step i step Hi) in *.
  destruct (ports_structure_moved step snd (input_ports step snd)) as [Ein [vin Hvin]];
    [by right|done|intros p Hp; apply elem_of_app; by right|].
  destruct (ports_structure_moved step snd (output_ports step snd)) as [Eout [vout Hvout]];
    [by right|done|intros p Hp; apply elem_of_app; by left|].
  unfold step_structure_of, node_at. munfold. rewrite Hnew, Hsnd.
  rewrite Hpin, Hpout, Ein, Eout, Hvin, Hvout, Hid, Hc, Hpers.
  split; [|eauto]. destruct (cls snd) eqn:Ecls; try done. by rewrite Hop.
Qed.

Lemma steps_structure_moved :
  collect (step_structure_of h' self (seq base (length steps))) (seq base (length steps))
    = collect (step_structure_of h workflow steps) steps
  ∧ ∃ vs, collect (step_structure_of h workflow steps) steps = Ok vs.
Proof.
  assert (seq base (length steps) = moved <$> steps) as Hseq.
  { apply list_eq. intros i. rewrite list_lookup_fmap.
    destruct (steps !! i) as [step|] eqn:Hi.
    - rewrite (lookup_seq_lt _ _ _ (lookup_lt_Some _ _ _ Hi)). simpl.
      by rewrite (moved_step i step Hi).
    - rewrite lookup_seq_ge; [done|]. by apply lookup_ge_None. }
  split.
  - rewrite Hseq at 2. apply collect_fmap_ext. intros step Hstep.
    apply list_elem_of_lookup in Hstep as [i Hi]. rewrite (moved_step i step Hi).
    by apply step_structure_moved.
  - apply collect_Ok. intros step Hstep.
    apply list_elem_of_lookup in Hstep as [i Hi]. by eapply step_structure_moved.
Qed.

Context (mi mi' : OpMetaInfo).
Context (Hmi : metas h !! _op_meta_info nd = Some mi).
Context (Hmi' : ∀ wnd, nodes g !! self = Some wnd → metas g !! _op_meta_info wnd = Some mi').
Context (Hname : qualified_name mi' = qualified_name mi).
Context (Hheader : header mi' = header mi).
Context (Hin_props : (λ kv, (kv.1, described kv.2)) <$> inputs mi'
                     = (λ kv, (kv.1, described kv.2)) <$> inputs mi).
Context (Hout_props : (λ kv, (kv.1, described kv.2)) <$> outputs mi'
                      = (λ kv, (kv.1, described kv.2)) <$> outputs mi).

(** The new workflow has the structure of the original. *)
Lemma structure_moved :
  structure_of h' self = structure_of h workflow
  ∧ ∃ v, structure_of h workflow = Ok v.
Proof.
  destruct (node_moved workflow (or_introl eq_refl))
    as (nd' & old & new & Hnd' & Hold & Hnew & He & Hid & _ & Hpin & Hpout & _).
  assert (nd' = nd) as -> by congruence. rewrite moved_workflow in *.
  destruct Htree as [(wnd & Hw & _ & _ & Hwsteps & _) _].
  assert (wnd = old) as -> by congruence.
  pose proof He as [= _ _ Emeta _ _ _ _ Esteps _].
  assert (metas h' !! _op_meta_info new = Some mi') as Hmeta.
  { destruct Hup as [[= _ Hm] _]. rewrite <- Hm, Emeta. by apply Hmi'. }
  destruct (ports_structure_moved workflow nd (input_ports workflow nd)) as [Ein [vin Hvin]];
    [by left|done|intros p Hp; apply elem_of_app; by right|].
  destruct (ports_structure_moved workflow nd (output_ports workflow nd)) as [Eout [vout Hvout]];
    [by left|done|intros p Hp; apply elem_of_app; by left|].
  destruct steps_structure_moved as [Est [vst Hvst]].
  unfold structure_of, node_at, meta_at. munfold. rewrite Hnew, Hnd. cbv beta iota.
  rewrite Hmeta, Hmi. cbv beta iota.
  rewrite Esteps, Hwsteps, Hpin, Hpout, Ein, Eout, Est, Hvin, Hvout, Hvst.
  rewrite Hid, Hname, Hheader, Hin_props, Hout_props. eauto.
Qed.

End updated.


End new_workflow.

(** ** The round trip *)

Lemma described_port_json d props :
  (∀ k, is_Some (dict_get k d) → k = "source" ∨ k = "value") →
  described (d ++ props) = described props.
Proof.
  intros Hkeys. unfold described. rewrite filter_app.
  assert (filter (λ kv : string * pyval, kv.1 ≠ "source" ∧ kv.1 ≠ "value") d = []) as ->; [|done].
  induction d as [|[k v] r IH]; [done|].
  rewrite filter_cons. rewrite decide_False.
  - apply IH. intros k' Hk'. apply Hkeys. simpl. destruct (decide (k = k')); eauto.
  - simpl. intros [H1 H2]. destruct (Hkeys k); [|done..].
    simpl. rewrite decide_True by done. eauto.
Qed.

Section written_workflow.
Context (type_to_json type_from_json : pyval → pyval → option pyval).
Context (h : heap) (workflow : nat) (nd : Node) (mi : OpMetaInfo) (steps : list nat).
Context (Hnd : nodes h !! workflow = Some nd).
Context (Hmi : metas h !! _op_meta_info nd = Some mi).
Context (Hcls : cls nd = Workflow).
Context (Hkeys : ∀ b, dict_keys (namespace nd b) = dict_keys (meta_ports mi b)).
Context (Hdup : ∀ b, NoDup (dict_keys (namespace nd b))).
Context (Hprops : ∀ b, Forall props_round_trip (meta_ports mi b).*2).
Context (Hids : ∀ m, m = workflow ∨ m ∈ steps → node_id h m ≠ "").
Context (Hports : Forall (port_round_trips type_to_json type_from_json h workflow steps nd mi)
                    (all_ports workflow nd)).

Local Abbreviation written := (written_ports_props type_to_json h workflow nd mi).

Lemma written_port b name :
  name ∈ dict_keys (namespace nd b) →
  let p := PortRef workflow b name in
  ∃ port d props,
    port_at h p = Ok port
    ∧ to_json type_to_json h p true = Ok (VDict d)
    ∧ dict_get name (meta_ports mi b) = Some props
    ∧ props_round_trip props
    ∧ (∀ k, is_Some (dict_get k d) → k = "source" ∨ k = "value")
    ∧ dict_update d props = d ++ props
    ∧ written_props type_to_json h (meta_ports mi b) p = d ++ props
    ∧ port_json_denotes (_from_json_value type_from_json mi name)
        (VDict (props_to_json (d ++ props))) (reloaded h p port).
Proof.
  intros Hname. apply (workflow_port_written type_to_json type_from_json h workflow steps nd mi);
    try done. apply (Hkeys true).
Qed.

Lemma written_keys b : dict_keys (written b) = dict_keys (namespace nd b).
Proof.
  transitivity (id <$> dict_keys (namespace nd b)); [|apply list_fmap_id].
  unfold written_ports_props. unfold dict_keys at 1. by rewrite <- list_fmap_compose.
Qed.

Lemma written_get b name :
  dict_get name (written b)
    = if decide (name ∈ dict_keys (namespace nd b))
      then Some (written_props type_to_json h (meta_ports mi b) (PortRef workflow b name))
      else None.
Proof.
  unfold written_ports_props.
  apply (dict_get_fmap_keys
           (λ k, written_props type_to_json h (meta_ports mi b) (PortRef workflow b k))).
Qed.

Lemma workflow_ports_written b :
  workflow_ports_to_json type_to_json h (meta_ports mi b)
    ((λ name, PortRef workflow b name) <$> dict_keys (namespace nd b))
  = Ok (written b).
Proof.
  apply (workflow_ports_to_json_written type_to_json type_from_json h workflow steps nd mi);
    try done. apply (Hkeys true).
Qed.

Lemma written_json_round_trip b :
  json_dict_to_object_dict (object_dict_to_json_dict (written b)) = Ok (written b).
Proof.
  rewrite json_dict_round_trip. f_equal. unfold written_ports_props.
  rewrite <- list_fmap_compose. apply list_fmap_ext. intros i name Hname%list_elem_of_lookup_2.
  simpl. f_equal.
  destruct (written_port b name Hname)
    as (port & d & props & _ & _ & _ & (_ & _ & _ & Hback) & Hd & _ & -> & _).
  destruct (port_json_props d Hd) as (Hd1 & Hd2 & _).
  unfold props_to_json, props_of_json in *. rewrite !fmap_app. by rewrite Hd1, Hd2, Hback.
Qed.

Lemma written_described b :
  (λ kv, (kv.1, described kv.2)) <$> written b
    = (λ kv, (kv.1, described kv.2)) <$> meta_ports mi b.
Proof.
  assert ((λ k, (k, default [] (dict_get k (meta_ports mi b)))) <$> dict_keys (meta_ports mi b)
          = meta_ports mi b) as E.
  { apply dict_from_keys. rewrite <- Hkeys. apply Hdup. }
  transitivity ((λ kv : string * list (string * pyval), (kv.1, described kv.2)) <$>
                  ((λ k, (k, default [] (dict_get k (meta_ports mi b)))) <$>
                     dict_keys (meta_ports mi b))); [|by rewrite E].
  unfold written_ports_props. rewrite <- !list_fmap_compose, <- Hkeys.
  apply list_fmap_ext. intros i name Hname%list_elem_of_lookup_2. simpl. f_equal.
  destruct (written_port b name Hname)
    as (port & d & props & _ & _ & -> & _ & Hd & _ & -> & _).
  by apply described_port_json.
Qed.

(** The conversions of the workflow that is read are those of the
    original. *)
Lemma from_json_value_written mi' name v :
  inputs mi' = written false →
  _from_json_value type_from_json mi' name v = _from_json_value type_from_json mi name v.
Proof.
  intros Hin. unfold _from_json_value, convert_value. rewrite Hin, written_get.
  destruct (decide (name ∈ dict_keys (namespace nd false))) as [Hname|Hname].
  - destruct (written_port false name Hname)
      as (port & d & props & _ & _ & Hget & _ & Hd & _ & -> & _).
    simpl in Hget. rewrite Hget.
    destruct (port_json_props d Hd) as (_ & _ & Hdt & _).
    rewrite dict_get_app_r by done.
    destruct props as [|e props].
    + rewrite app_nil_r. simpl. by destruct (bool_decide _).
    + rewrite !bool_decide_eq_false_2; [done|done|]. rewrite length_app. simpl. lia.
  - assert (dict_get name (inputs mi) = None) as ->; [|done].
    apply dict_get_None_keys. specialize (Hkeys false). simpl in Hkeys. by rewrite <- Hkeys.
Qed.

End written_workflow.

Lemma dict_get_fmap_values {V W} (f : V → W) k (d : list (string * V)) :
  dict_get k ((λ kv, (kv.1, f kv.2)) <$> d) = f <$> dict_get k d.
Proof.
  induction d as [|[k' v] d IH]; [done|]. cbn [fmap list_fmap dict_get fst snd].
  fold (fmap (M:=list) (λ kv : string * V, (kv.1, f kv.2)) d).
  destruct (decide (k' = k)); [done|apply IH].
Qed.

(** ** Reading the ports of the workflow back *)
Section read_written.
Context (type_to_json type_from_json : pyval → pyval → option pyval).
Context (h : heap) (workflow : nat) (nd : Node) (mi : OpMetaInfo) (steps : list nat).
Context (Hnd : nodes h !! workflow = Some nd).
Context (Hmi : metas h !! _op_meta_info nd = Some mi).
Context (Hcls : cls nd = Workflow).
Context (Hkeys : ∀ b, dict_keys (namespace nd b) = dict_keys (meta_ports mi b)).
Context (Hdup : ∀ b, NoDup (dict_keys (namespace nd b))).
Context (Hprops : ∀ b, Forall props_round_trip (meta_ports mi b).*2).
Context (Hids : ∀ m, m = workflow ∨ m ∈ steps → node_id h m ≠ "").
Context (Hports : Forall (port_round_trips type_to_json type_from_json h workflow steps nd mi)
                    (all_ports workflow nd)).

Local Abbreviation written := (written_ports_props type_to_json h workflow nd mi).

(** The loop of [Workflow.from_json_dict] over one namespace of the new
    workflow, on the properties written for the original: every port
    becomes the [reloaded] port of the original under its name. *)
Lemma read_written_ports b g n wnd mi' :
  nodes g !! n = Some wnd →
  metas g !! _op_meta_info wnd = Some mi' →
  inputs mi' = written false →
  dict_keys (namespace wnd b) = dict_keys (namespace nd b) →
  ∃ ns,
    for_each ((λ name, PortRef n b name) <$> dict_keys (namespace wnd b))
      (λ p, port_json ← query (λ _, json_get (port_name p)
                                       (VDict (object_dict_to_json_dict (written b))));
            from_json type_from_json p (default VNone port_json)) g
    = (Ok (), Heap (<[n := with_namespace wnd b ns]> (nodes g)) (metas g))
    ∧ dict_keys ns = dict_keys (namespace nd b)
    ∧ ∀ name port, dict_get name (namespace nd b) = Some port →
        dict_get name ns = Some (reloaded h (PortRef workflow b name) port).
Proof.
  intros Hwnd Hmi' Hin Hk.
  set (entry := λ name, written_workflow_entry type_to_json h (meta_ports mi b)
                          (PortRef workflow b name)).
  set (l := entry <$> dict_keys (namespace nd b)).
  assert ((λ e : string * pyval * NodePort, PortRef n b e.1.1) <$> l
          = (λ name, PortRef n b name) <$> dict_keys (namespace wnd b)) as Hl.
  { rewrite Hk. unfold l. rewrite <- list_fmap_compose. by apply list_fmap_ext. }
  assert ((entry_json l).*1 = dict_keys (namespace nd b)) as Hnames.
  { unfold entry_json, l. rewrite <- !list_fmap_compose.
    transitivity (id <$> dict_keys (namespace nd b)); [|apply list_fmap_id].
    by apply list_fmap_ext. }
  assert (Forall (λ e, json_get e.1.1 (VDict (object_dict_to_json_dict (written b)))
                         = Ok (Some e.1.2)
                       ∧ is_Some (dict_get e.1.1 (namespace wnd b))
                       ∧ port_json_denotes (_from_json_value type_from_json mi' e.1.1)
                           e.1.2 e.2) l) as Hall.
  { unfold l. rewrite Forall_fmap. apply Forall_forall. intros name Hname.
    destruct (written_port type_to_json type_from_json h workflow nd mi steps Hnd Hmi Hcls
                Hkeys Hprops Hids Hports b name Hname)
      as (port & d & props & Hport & Hjson & Hget & Hrt & Hd & Hupd & Hw & Hden).
    cbn [compose entry written_workflow_entry fst snd port_name]. split_and!.
    - cbn [json_get]. unfold object_dict_to_json_dict.
      rewrite (dict_get_fmap_values (λ props, VDict (props_to_json props))).
      rewrite (written_get type_to_json h workflow nd mi). by rewrite decide_True.
    - destruct (dict_get name (namespace wnd b)) eqn:E; [by eexists|].
      apply dict_get_None_keys in E. by rewrite Hk in E.
    - rewrite Hw, Hport.
      eapply port_json_denotes_ext; [|exact Hden]. intros v. symmetry.
      by apply (from_json_value_written type_to_json type_from_json h workflow nd mi steps). }
  exists (foldl (λ ns e, dict_set e.1.1 e.2 ns) (namespace wnd b) l).
  split_and!.
  - rewrite <- Hl. by apply read_workflow_ports with (mi := mi').
  - rewrite foldl_dict_set_keys; [done|].
    eapply Forall_impl; [exact Hall|]. by intros e (_ & ? & _).
  - intros name port Hport. rewrite foldl_dict_set_get by (rewrite Hnames; apply Hdup).
    assert (name ∈ dict_keys (namespace nd b)) as Hname.
    { destruct (decide (name ∈ dict_keys (namespace nd b))) as [|Hn]; [done|].
      apply dict_get_None_keys in Hn. congruence. }
    assert (dict_get name (entry_ports l) = Some (reloaded h (PortRef workflow b name) port))
      as ->; [|done].
    unfold entry_ports, l. rewrite <- list_fmap_compose.
    rewrite (list_fmap_ext _ (λ k, (k, (entry k).2)) (dict_keys (namespace nd b)))
      by done.
    rewrite (dict_get_fmap_keys (λ k, (entry k).2)). rewrite decide_True by done.
    cbn [entry written_workflow_entry snd]. unfold port_at, node_at. munfold.
    cbn [port_node port_is_output port_name]. rewrite Hnd. cbn. by rewrite Hport.
Qed.

End read_written.

Section round_trip.
Context (type_to_json type_from_json : pyval → pyval → option pyval).
Context (hex_id : nat → string).
Context (new_expression_op : OpMetaInfo → string → OpMetaInfo).
Context (new_subprocess_op : OpMetaInfo → string → subprocess_args → OpMetaInfo).
Context (load : string → list (string * nat) → M heap nat).
Context (header_can_cache : list (string * pyval) → bool).

Local Abbreviation round_trip_ready' := (round_trip_ready type_to_json type_from_json).
Local Abbreviation from_json_dict' :=
  (from_json_dict type_from_json hex_id new_expression_op new_subprocess_op load
     header_can_cache).
Local Abbreviation written := (written_ports_props type_to_json).

Lemma round_trip_ready_ids registry h workflow nd :
  round_trip_ready' registry h workflow →
  nodes h !! workflow = Some nd →
  ∀ m, m = workflow ∨ m ∈ _steps nd → node_id h m ≠ "".
Proof.
  intros (nd' & mi & Hnd' & Hmi & Hcls & Hid & Hqn & _ & _ & _ & _ & _ & _ & _ & Hst & _) Hnd.
  assert (nd' = nd) as -> by congruence.
  intros m [->|Hm].
  - unfold node_id. rewrite Hnd. congruence.
  - rewrite Forall_forall in Hst. destruct (Hst m Hm) as (snd & ? & Hsnd & _ & Hne & _).
    unfold node_id. by rewrite Hsnd.
Qed.

(** The JSON of a workflow of the class, by its fields. *)
Lemma to_json_dict_written registry h workflow nd mi :
  round_trip_ready' registry h workflow →
  nodes h !! workflow = Some nd →
  metas h !! _op_meta_info nd = Some mi →
  ∃ jsons,
    steps_to_json type_to_json h (_steps nd) = Ok jsons
    ∧ to_json_dict type_to_json h workflow
      = Ok (VDict [(WORKFLOW_SCHEMA_VERSION_TAG, VInt WORKFLOW_SCHEMA_VERSION);
                   ("qualified_name", VStr (qualified_name mi));
                   ("header", VDict (header mi));
                   ("inputs", VDict (object_dict_to_json_dict (written h workflow nd mi false)));
                   ("outputs", VDict (object_dict_to_json_dict (written h workflow nd mi true)));
                   ("steps", VList jsons)]).
Proof.
  intros Hready Hnd Hmi.
  pose proof (round_trip_ready_ids registry h workflow nd Hready Hnd) as Hids.
  destruct Hready as (nd' & mi' & Hnd' & Hmi' & Hcls & Hid & Hqn & Hkin & Hkout & Hdin & Hdout
                      & Hpin & Hpout & Hsteps & Hst & Hports).
  assert (nd' = nd) as -> by congruence. assert (mi' = mi) as -> by congruence.
  destruct (steps_round_trip type_to_json type_from_json hex_id new_expression_op
              new_subprocess_op load header_can_cache registry h workflow (_steps nd)
              (_steps nd) Hst Hids) as (jsons & Hjsons & _).
  exists jsons. split; [done|].
  assert (∀ b, dict_keys (namespace nd b) = dict_keys (meta_ports mi b)) as Hkeys
    by by intros [].
  assert (∀ b, NoDup (dict_keys (namespace nd b))) as Hdup by by intros [].
  assert (∀ b, Forall props_round_trip (meta_ports mi b).*2) as Hprops by by intros [].
  pose proof (workflow_ports_written type_to_json type_from_json h workflow nd mi (_steps nd)
                Hnd Hmi Hcls Hkeys Hprops Hids Hports) as Hwritten.
  unfold to_json_dict, node_at, meta_at. munfold. rewrite Hnd. cbv beta iota.
  rewrite Hmi. cbv beta iota.
  unfold input_ports, output_ports.
  change (inputs mi) with (meta_ports mi false).
  change (outputs mi) with (meta_ports mi true).
  change (_inputs nd) with (namespace nd false).
  change (_outputs nd) with (namespace nd true).
  rewrite (Hwritten false), (Hwritten true). cbv beta iota. rewrite Hjsons.
  rewrite !dict_of_NoDup.
  - reflexivity.
  - rewrite written_keys. apply (Hdup true).
  - rewrite written_keys. apply (Hdup false).
  - unfold dict_keys. cbn [fmap list_fmap fst]. by apply (bool_decide_unpack _).
Qed.


(** Reading the JSON of a workflow of the class: up to the resolution of
    the references, [Workflow.from_json_dict] builds the [reloaded_tree] of
    the workflow behind the nodes of the store. *)
Lemma from_json_dict_written registry h workflow nd mi :
  round_trip_ready' registry h workflow →
  nodes h !! workflow = Some nd →
  metas h !! _op_meta_info nd = Some mi →
  let self := (length (nodes h) + length (_steps nd))%nat in
  ∃ json g mi',
    to_json_dict type_to_json h workflow = Ok json
    ∧ (∀ h', update_sources self g = (Ok (), h') →
         from_json_dict' json registry h = (Ok self, h'))
    ∧ reloaded_tree h workflow nd g
    ∧ (∀ wnd, nodes g !! self = Some wnd → metas g !! _op_meta_info wnd = Some mi')
    ∧ qualified_name mi' = qualified_name mi
    ∧ header mi' = header mi
    ∧ ∀ b, meta_ports mi' b = written h workflow nd mi b.
Proof.
  intros Hready Hnd Hmi self.
  pose proof (round_trip_ready_ids registry h workflow nd Hready Hnd) as Hids.
  destruct (to_json_dict_written registry h workflow nd mi Hready Hnd Hmi)
    as (jsons & Hjsons & Hjson).
  destruct Hready as (nd' & mi' & Hnd' & Hmi' & Hcls & Hid & Hqn & Hkin & Hkout & Hdin & Hdout
                      & Hpin & Hpout & Hsteps & Hst & Hports).
  assert (nd' = nd) as -> by congruence. assert (mi' = mi) as -> by congruence.
  assert (∀ b, dict_keys (namespace nd b) = dict_keys (meta_ports mi b)) as Hkeys
    by by intros [].
  assert (∀ b, NoDup (dict_keys (namespace nd b))) as Hdup by by intros [].
  assert (∀ b, Forall props_round_trip (meta_ports mi b).*2) as Hprops by by intros [].
  set (mw := new_meta header_can_cache (qualified_name mi) (header mi)
               (written h workflow nd mi false) (written h workflow nd mi true)).
  destruct (steps_round_trip type_to_json type_from_json hex_id new_expression_op
              new_subprocess_op load header_can_cache registry h workflow (_steps nd)
              (_steps nd) Hst Hids) as (jsons' & Hjsons' & Hread).
  assert (jsons' = jsons) as -> by congruence.
  destruct (Hread (Heap (nodes h) (metas h ++ [mw]))) as (new_nodes & new_metas & Hrun & Hnew).
  { intros m x Hm. cbn [metas]. by apply lookup_app_l_Some. }
  cbn [nodes metas] in Hrun.
  pose proof (Forall2_length _ _ _ Hnew) as Hlen.
  set (ms := (metas h ++ [mw]) ++ new_metas) in *.
  assert (ms !! length (metas h) = Some mw) as Hmw.
  { unfold ms. apply lookup_app_l_Some. apply lookup_last. }
  (* the new workflow, as created *)
  set (W0 := mkNode Workflow (qualified_name mi) (length (metas h)) false
               (unbound_ports (dict_keys (inputs mw))) (unbound_ports (dict_keys (outputs mw)))
               None [] ∅).
  assert (new_node hex_id Workflow (length (metas h)) (Some (qualified_name mi))
            (Heap (nodes h ++ new_nodes) ms)
          = (Ok self, Heap (nodes h ++ new_nodes ++ [W0]) ms)) as Hnew_node.
  { rewrite (new_node_run hex_id Workflow (length (metas h)) mw) by done.
    cbn [nodes metas]. rewrite length_app, <- Hlen, <- app_assoc. done. }
  (* its steps added *)
  assert (NoDup (_id <$> new_nodes)) as Hnew_ids.
  { apply NoDup_cons in Hsteps as [_ Hsteps].
    assert (_id <$> new_nodes = node_id h <$> _steps nd) as ->; [|done].
    clear -Hnew. induction Hnew as [|step x steps xs (snd & Hsnd & Hre) _ IH]; [done|].
    cbn [fmap list_fmap]. f_equal; [|exact IH].
    unfold node_id. rewrite Hsnd. apply Hre. }
  set (W1 := with_steps W0 (_steps W0 ++ seq (length (nodes h)) (length (_steps nd)))
               (index_ids (length (nodes h)) new_nodes (_steps_dict W0))).
  set (adopted := (λ x, with_parent x (Some self)) <$> new_nodes).
  pose proof (add_steps_run new_nodes (nodes h) W0 ms Hnew_ids (λ _ _, lookup_empty _)) as Hadd.
  cbv zeta in Hadd. rewrite <- Hlen in Hadd. fold self W1 adopted in Hadd.
  set (g1 := Heap (nodes h ++ adopted ++ [W1]) ms) in *.
  assert (length adopted = length (_steps nd)) as Hlen_adopted
    by (unfold adopted; by rewrite length_fmap).
  assert (nodes g1 !! self = Some W1) as HW1.
  { cbn [g1 nodes]. rewrite app_assoc. unfold self. rewrite <- Hlen_adopted, <- length_app.
    apply lookup_last. }
  (* its ports read *)
  destruct (read_written_ports type_to_json type_from_json h workflow nd mi (_steps nd)
              Hnd Hmi Hcls Hkeys Hdup Hprops Hids Hports false g1 self W1 mw HW1 Hmw eq_refl)
    as (ns_in & Hin_run & Hin_keys & Hin_get).
  { cbn [W1 W0 with_steps namespace _inputs mw inputs new_meta].
    rewrite unbound_ports_keys. apply written_keys. }
  set (W2 := with_namespace W1 false ns_in) in *.
  set (g2 := Heap (<[self := W2]> (nodes g1)) (metas g1)) in *.
  assert (nodes g2 !! self = Some W2) as HW2.
  { cbn [g2 nodes]. apply list_lookup_insert_eq. by eapply lookup_lt_Some. }
  destruct (read_written_ports type_to_json type_from_json h workflow nd mi (_steps nd)
              Hnd Hmi Hcls Hkeys Hdup Hprops Hids Hports true g2 self W2 mw HW2 Hmw eq_refl)
    as (ns_out & Hout_run & Hout_keys & Hout_get).
  { cbn [W2 W1 W0 with_steps with_namespace namespace _outputs mw outputs new_meta].
    rewrite unbound_ports_keys. apply written_keys. }
  set (W3 := with_namespace W2 true ns_out) in *.
  set (g3 := Heap (<[self := W3]> (nodes g2)) (metas g2)) in *.
  exists (VDict [(WORKFLOW_SCHEMA_VERSION_TAG, VInt WORKFLOW_SCHEMA_VERSION);
                 ("qualified_name", VStr (qualified_name mi));
                 ("header", VDict (header mi));
                 ("inputs", VDict (object_dict_to_json_dict (written h workflow nd mi false)));
                 ("outputs", VDict (object_dict_to_json_dict (written h workflow nd mi true)));
                 ("steps", VList jsons)]), g3, mw.
  split; [exact Hjson|].
  split.
  { intros h' Hupd. unfold from_json_dict. munfold. cbn [json_get].
    set (body := [(WORKFLOW_SCHEMA_VERSION_TAG, VInt WORKFLOW_SCHEMA_VERSION); _; _; _; _; _]).
    assert (dict_get "qualified_name" body = Some (VStr (qualified_name mi))) as ->
      by reflexivity.
    assert (dict_get "header" body = Some (VDict (header mi))) as -> by reflexivity.
    assert (dict_get "inputs" body
            = Some (VDict (object_dict_to_json_dict (written h workflow nd mi false)))) as ->
      by reflexivity.
    assert (dict_get "outputs" body
            = Some (VDict (object_dict_to_json_dict (written h workflow nd mi true)))) as ->
      by reflexivity.
    assert (dict_get "steps" body = Some (VList jsons)) as -> by reflexivity.
    clear body. cbn [present default json_items header_of_json id].
    rewrite !(written_json_round_trip type_to_json type_from_json h workflow nd mi (_steps nd)
                Hnd Hmi Hcls Hkeys Hprops Hids Hports).
    unfold alloc_meta. fold mw. rewrite Hrun. fold ms. rewrite Hnew_node.
    munfold. rewrite Hadd. fold g1.
    unfold get_node, query, node_at. rewrite HW1.
    change (input_ports self W1)
      with ((λ name, PortRef self false name) <$> dict_keys (namespace W1 false)).
    munfold. rewrite Hin_run. fold W2 g2.
    change (output_ports self W1)
      with ((λ name, PortRef self true name) <$> dict_keys (namespace W2 true)).
    rewrite Hout_run. fold W3 g3. by rewrite Hupd. }
  assert (nodes g3 !! self = Some W3) as HW3.
  { cbn [g3 g2 nodes]. apply list_lookup_insert_eq. rewrite length_insert.
    by eapply lookup_lt_Some. }
  assert (∀ i step, _steps nd !! i = Some step →
            ∃ snd snd', nodes h !! step = Some snd ∧ reloaded_step h step snd snd'
                        ∧ new_nodes !! i = Some snd') as Hstep.
  { intros i step Hi. destruct (Forall2_lookup_l _ _ _ _ _ Hnew Hi) as (snd' & Hi' & snd & ? & ?).
    by exists snd, snd'. }
  split; [|split; [|by split_and!; [..|intros []]]].
  - split.
    + exists W3. split_and!; try done.
      * intros i step Hi. destruct (Hstep i step Hi) as (snd & snd' & Hsnd & Hre & Hi').
        cbn [W3 W2 W1 W0 with_namespace with_steps _steps_dict].
        assert (node_id h step = _id snd') as ->.
        { unfold node_id. rewrite Hsnd. symmetry. apply Hre. }
        by apply index_ids_lookup.
      * intros [] name port Hport.
        -- by apply Hout_get.
        -- by apply Hin_get.
    + intros i step Hi. destruct (Hstep i step Hi) as (snd & snd' & Hsnd & Hre & Hi').
      exists snd, snd'. split_and!; try done.
      apply lookup_lt_Some in Hi as Hlt.
      cbn [g3 g2 g1 nodes]. rewrite !list_lookup_insert_ne by (unfold self; lia).
      rewrite lookup_app_r by lia.
      replace (length (nodes h) + i - length (nodes h))%nat with i by lia.
      apply lookup_app_l_Some. unfold adopted. by rewrite list_lookup_fmap, Hi'.
  - intros wnd Hwnd. assert (wnd = W3) as -> by congruence. exact Hmw.
Qed.

End round_trip.

Lemma tree_ports_inv h n nd p :
  nodes h !! n = Some nd →
  p ∈ tree_ports h n →
  p ∈ all_ports n nd
  ∨ ∃ step snd, step ∈ _steps nd ∧ nodes h !! step = Some snd ∧ p ∈ all_ports step snd.
Proof.
  intros Hnd. unfold tree_ports. rewrite Hnd. intros [Hp|Hp]%elem_of_app; [by left|right].
  destruct (cls nd); try by apply elem_of_nil in Hp.
  induction (_steps nd) as [|step steps IH]; [by apply elem_of_nil in Hp|].
  cbn [fmap list_fmap concat] in Hp. apply elem_of_app in Hp as [Hp|Hp].
  - unfold ports_at in Hp. destruct (nodes h !! step) as [snd|] eqn:E;
      [|by apply elem_of_nil in Hp].
    exists step, snd. split_and!; [left|done..].
  - destruct (IH Hp) as (s & snd & ? & ? & ?). exists s, snd. split_and!; [by right|done..].
Qed.

(** ** The round trip *)
Section round_trip_theorem.
Context (type_to_json type_from_json : pyval → pyval → option pyval).
Context (hex_id : nat → string).
Context (new_expression_op : OpMetaInfo → string → OpMetaInfo).
Context (new_subprocess_op : OpMetaInfo → string → subprocess_args → OpMetaInfo).
Context (load : string → list (string * nat) → M heap nat).
Context (header_can_cache : list (string * pyval) → bool).

Lemma round_trip_ready_kinds registry h workflow nd :
  round_trip_ready type_to_json type_from_json registry h workflow →
  nodes h !! workflow = Some nd →
  ∀ step snd, step ∈ _steps nd → nodes h !! step = Some snd → cls snd ≠ Workflow.
Proof.
  intros (nd' & mi & Hnd' & _ & _ & _ & _ & _ & _ & _ & _ & _ & _ & _ & Hst & _) Hnd.
  assert (nd' = nd) as -> by congruence.
  intros step snd Hstep Hsnd. rewrite Forall_forall in Hst.
  destruct (Hst step Hstep) as (snd' & ? & Hsnd' & _ & _ & _ & _ & _ & _ & Hc & _).
  assert (snd' = snd) as -> by congruence. intros E. by rewrite E in Hc.
Qed.

Lemma round_trip_ready_keys registry h workflow nd :
  round_trip_ready type_to_json type_from_json registry h workflow →
  nodes h !! workflow = Some nd →
  ∀ n ndn, n = workflow ∨ n ∈ _steps nd → nodes h !! n = Some ndn →
    NoDup (dict_keys (_inputs ndn)) ∧ NoDup (dict_keys (_outputs ndn)).
Proof.
  intros (nd' & mi & Hnd' & _ & _ & _ & _ & _ & _ & Hdin & Hdout & _ & _ & _ & Hst & _) Hnd.
  assert (nd' = nd) as -> by congruence.
  intros n ndn [->|Hn] Hndn.
  - by assert (ndn = nd) as -> by congruence.
  - rewrite Forall_forall in Hst.
    destruct (Hst n Hn) as (snd' & ? & Hsnd' & _ & _ & _ & _ & ? & ? & _).
    by assert (snd' = ndn) as -> by congruence.
Qed.

Lemma round_trip_ready_ports registry h workflow nd :
  round_trip_ready type_to_json type_from_json registry h workflow →
  nodes h !! workflow = Some nd →
  ∀ p, p ∈ tree_ports h workflow →
    ∃ port, port_at h p = Ok port
      ∧ ∀ q, _source port = Some q →
          source_round_trips h workflow (_steps nd) p q ∧ node_id h (port_node q) ≠ "".
Proof.
  intros Hready Hnd.
  pose proof (round_trip_ready_ids type_to_json type_from_json registry h workflow nd
                Hready Hnd) as Hids.
  destruct Hready as (nd' & mi & Hnd' & _ & _ & _ & _ & _ & _ & _ & _ & _ & _ & _ & Hst & Hports).
  assert (nd' = nd) as -> by congruence.
  assert (∀ x xm p, port_round_trips type_to_json type_from_json h workflow (_steps nd) x xm p →
            ∃ port, port_at h p = Ok port
              ∧ ∀ q, _source port = Some q →
                  source_round_trips h workflow (_steps nd) p q
                  ∧ node_id h (port_node q) ≠ "") as Hone.
  { intros x xm p (port & Hport & Hsrc). exists port. split; [done|].
    intros q Hq. rewrite Hq in Hsrc. destruct Hsrc as [Hsrc _]. split; [done|].
    apply Hids. apply Hsrc. }
  intros p Hp. destruct (tree_ports_inv h workflow nd p Hnd Hp) as [Hp'|(step & snd & Hs & Hsnd & Hp')].
  - rewrite Forall_forall in Hports. eapply Hone, Hports, Hp'.
  - rewrite Forall_forall in Hst.
    destruct (Hst step Hs) as (snd' & smi & Hsnd' & _ & _ & _ & _ & _ & _ & _ & Hsp).
    assert (snd' = snd) as -> by congruence.
    rewrite Forall_forall in Hsp. eapply Hone, Hsp, Hp'.
Qed.


End round_trip_theorem.



(** ** The ids of a ValueCache *)

Lemma ids_moved_invariant c c1 :
  ids_moved c c1 → ids_bounded c ∧ ids_unique c → ids_bounded c1 ∧ ids_unique c1.
Proof.
  intros [Hlast Hcase] [[H0 Hb] Hu].
  destruct Hcase as [E|[(key & E)|[(key & new_key & info & Hinfo & E)|E]]].
  - split; [split|]; unfold ids_unique; rewrite ?Hlast, ?E; eauto.
  - split; [split|].
    + by rewrite Hlast.
    + intros k id n. rewrite E, Hlast. intros H%lookup_delete_Some. by eapply Hb, H.
    + intros k k' id n n'. rewrite E. intros H%lookup_delete_Some H'%lookup_delete_Some.
      eapply Hu; [apply H|apply H'].
  - assert (∀ k id n, _id_infos c1 !! k = Some (id, n) →
              ∃ k0, _id_infos c !! k0 = Some (id, n) ∧ (k = new_key ∧ k0 = key ∨ k = k0 ∧ k0 ≠ key))
      as Hfrom.
    { intros k id n. rewrite E. destruct (decide (new_key = k)) as [->|Hne].
      - rewrite lookup_insert_eq. intros [= ->]. exists key. eauto.
      - rewrite lookup_insert_ne by done. intros [? ?]%lookup_delete_Some. exists k. eauto. }
    split; [split|].
    + by rewrite Hlast.
    + intros k id n H. rewrite Hlast. destruct (Hfrom _ _ _ H) as (k0 & H0' & _).
      by eapply Hb.
    + intros k k' id n n' H H'.
      destruct (Hfrom _ _ _ H) as (k0 & Hk0 & Hc), (Hfrom _ _ _ H') as (k0' & Hk0' & Hc').
      pose proof (Hu _ _ _ _ _ Hk0 Hk0') as ->.
      destruct Hc as [[? ?]|[? ?]], Hc' as [[? ?]|[? ?]]; congruence.
  - split; [split|].
    + by rewrite Hlast.
    + intros k id n. rewrite E. by rewrite lookup_empty.
    + intros k k' id n n'. rewrite E. by rewrite lookup_empty.
Qed.

Lemma setitem_invariant c tr key value :
  ids_bounded c ∧ ids_unique c →
  ids_bounded (__setitem__ key value (c, tr)).2.1
  ∧ ids_unique (__setitem__ key value (c, tr)).2.1.
Proof.
  intros [[H0 Hb] Hu]. destruct (_id_infos c !! key) as [[id n]|] eqn:Hid.
  - rewrite (setitem_known _ _ _ _ _ _ Hid). cbn [snd fst]. split; [split|].
    + done.
    + intros k id' n'. cbn [_id_infos _last_id]. destruct (decide (key = k)) as [->|Hne].
      * rewrite lookup_insert_eq. intros [= <- <-]. by eapply Hb.
      * rewrite lookup_insert_ne by done. apply Hb.
    + intros k k' i m m'. cbn [_id_infos].
      destruct (decide (key = k)) as [Hk|Hne], (decide (key = k')) as [Hk'|Hne']; subst;
        rewrite ?lookup_insert_eq, ?lookup_insert_ne by done; try done.
      * intros [= <- <-] H. by eapply Hu.
      * intros H [= <- <-]. by eapply Hu.
      * apply Hu.
  - rewrite (setitem_fresh _ _ _ _ Hid). cbn [snd fst]. split; [split|].
    + cbn [_last_id]. lia.
    + intros k id' n'. cbn [_id_infos _last_id]. destruct (decide (key = k)) as [->|Hne].
      * rewrite lookup_insert_eq. intros [= <- <-]. lia.
      * rewrite lookup_insert_ne by done. intros H%Hb. lia.
    + intros k k' i m m'. cbn [_id_infos].
      destruct (decide (key = k)) as [Hk|Hne], (decide (key = k')) as [Hk'|Hne']; subst;
        rewrite ?lookup_insert_eq, ?lookup_insert_ne by done; try done.
      * intros [= <- <-] H%Hb. lia.
      * intros H%Hb [= <- <-]. lia.
      * apply Hu.
Qed.

Lemma for_each_close_values (vs : list pyval) : ∀ (c : ValueCache) tr,
  for_each vs _close_value (c, tr) = (Ok (), (c, tr ++ concat (close_calls <$> vs))).
Proof.
  induction vs as [|v vs IH]; intros c tr.
  - cbn. by rewrite app_nil_r.
  - cbn [for_each fmap list_fmap concat]. unfold mbind at 1, M_bind at 1.
    unfold _close_value at 1, modify. rewrite IH. by rewrite app_assoc.
Qed.

Lemma clear_run (c : ValueCache) tr :
  clear (c, tr)
    = (Ok (), (CacheOf [] ∅ (_last_id c),
               tr ++ concat (close_calls <$> dict_values (items c)))).
Proof.
  unfold clear, _close_values. munfold. cbn. by rewrite for_each_close_values.
Qed.

Lemma delitem_ids_moved c tr key : ids_moved c (__delitem__ key (c, tr)).2.1.
Proof.
  unfold __delitem__, _del, del_id_info, _close_value. munfold. cbn.
  destruct (dict_in key (items c)); cbn; [|by split; [|left]].
  destruct (_id_infos c !! key); cbn; [|by split; [|left]].
  split; [done|]. right; left. by exists key.
Qed.

Lemma child_ids_moved c tr addr key :
  ids_moved c ((child addr key ≫= λ _, mret ()) (c, tr)).2.1.
Proof.
  unfold child, getitem, _set. munfold. cbn.
  destruct (dict_in _ (items c)); cbn.
  - destruct (dict_get _ (items c)); cbn; by split; [|left].
  - destruct (dict_get _ (dict_set _ _ _)); cbn; by split; [|left].
Qed.

Lemma rename_key_ids_moved c tr key new_key :
  ids_moved c (rename_key key new_key (c, tr)).2.1.
Proof.
  unfold rename_key. destruct (decide (key = new_key)); [by split; [|left]|].
  unfold getitem, _del, _set, del_id_info, set_id_info. munfold.
  destruct (dict_get key (items c)) as [v|] eqn:Hv; [|simpl; rewrite ?Hv; by split; [|left]].
  assert (dict_in key (items c) = true) as Hin0 by (apply dict_in_true; eauto).
  destruct (_id_infos c !! key) as [info|] eqn:Hinfo;
    [|repeat (progress (simpl; rewrite ?Hv, ?Hin0, ?Hinfo)); by split; [|left]].
  assert (ids_moved c (CacheOf (dict_set new_key v (dict_del key (items c)))
                         (<[new_key := info]> (delete key (_id_infos c))) (_last_id c))) as H.
  { split; [done|]. right; right; left. by exists key, new_key, info. }
  destruct (dict_in (key +:+ "._child") (dict_set new_key v (dict_del key (items c))))
    eqn:Hin.
  - pose proof Hin as [child_cache Hc]%dict_in_true.
    repeat (progress (simpl; rewrite ?Hv, ?Hin0, ?Hinfo, ?Hin, ?Hc)). apply H.
  - repeat (progress (simpl; rewrite ?Hv, ?Hin0, ?Hinfo, ?Hin)). apply H.
Qed.

Lemma run_call_invariant call c tr :
  ids_bounded c ∧ ids_unique c →
  ids_bounded (run_call call (c, tr)).2.1 ∧ ids_unique (run_call call (c, tr)).2.1.
Proof.
  intros Hinv. destruct call as [key value|key|key new_key|addr key|]; cbn [run_call].
  - by apply setitem_invariant.
  - eapply ids_moved_invariant; [apply delitem_ids_moved|done].
  - eapply ids_moved_invariant; [apply rename_key_ids_moved|done].
  - eapply ids_moved_invariant; [apply child_ids_moved|done].
  - rewrite clear_run. eapply ids_moved_invariant; [|done].
    split; [done|]. by right; right; right.
Qed.

(** X1.  A [ValueCache] keeps unique ids for its keys: after any sequence
    of assignments, deletions, renamings, [child] and [clear] calls on a new
    cache, whether they return or raise, no two keys share an id, and every
    id is positive and at most [_last_id]. *)
Theorem value_cache_ids_unique (calls : list cache_call) :
  let c := (after_calls calls (new_cache, [])).1 in
  ids_bounded c ∧ ids_unique c.
Proof.
  cbv zeta.
  assert (∀ s : cache_state, ids_bounded s.1 ∧ ids_unique s.1 →
            ids_bounded (after_calls calls s).1 ∧ ids_unique (after_calls calls s).1) as H.
  { induction calls as [|call rest IH]; intros [c tr] Hinv; [done|].
    cbn [after_calls]. apply IH. destruct (run_call call (c, tr)) as [r [c1 tr1]] eqn:E.
    pose proof (run_call_invariant call c tr Hinv) as H. by rewrite E in H. }
  apply H. split; [apply new_cache_ids_bounded|].
  intros k k' id n n'. cbn. by rewrite lookup_empty.
Qed.

(** ** Deleting, renaming and clearing *)

Lemma dict_del_set_absent {V} k (v : V) d :
  dict_get k d = None → dict_del k (dict_set k v d) = d.
Proof.
  induction d as [|[k' v'] d IH]; cbn.
  - by rewrite decide_True.
  - destruct (decide (k' = k)) as [->|Hne]; [done|]. intros H. cbn.
    rewrite decide_False by done. by rewrite IH.
Qed.

Lemma delitem_run (c : ValueCache) tr key old id_info :
  dict_get key (items c) = Some old →
  _id_infos c !! key = Some id_info →
  __delitem__ key (c, tr)
    = (Ok (), (CacheOf (dict_del key (items c)) (delete key (_id_infos c)) (_last_id c),
               tr ++ close_calls old)).
Proof.
  intros Hold Hid.
  assert (dict_in key (items c) = true) as Hin by (apply dict_in_true; eauto).
  unfold __delitem__, _del, del_id_info, _close_value, cache_get. munfold.
  repeat (progress (simpl; rewrite ?Hold, ?Hid, ?Hin)). done.
Qed.





(** X4.  A key that holds no value: [cache[key]], [del cache[key]] and
    [rename_key] to another key raise [KeyError] and leave the cache and the
    closed values as they were; [rename_key] to the key itself returns
    without looking the key up. *)
Theorem missing_key_raises (c : ValueCache) (tr : list nat) (key new_key : string)
    (Hmiss : dict_get key (items c) = None)
    (Hne : key ≠ new_key) :
  getitem key (c, tr) = (Raise (KeyError key), (c, tr))
  ∧ __delitem__ key (c, tr) = (Raise (KeyError key), (c, tr))
  ∧ rename_key key new_key (c, tr) = (Raise (KeyError key), (c, tr))
  ∧ rename_key key key (c, tr) = (Ok (), (c, tr)).
Proof.
  assert (dict_in key (items c) = false) as Hin by by apply dict_in_false.
  split_and!.
  - unfold getitem. munfold. simpl. by rewrite Hmiss.
  - unfold __delitem__, _del. munfold. simpl. by rewrite Hin.
  - unfold rename_key. rewrite decide_False by done. unfold getitem. munfold. simpl.
    by rewrite Hmiss.
  - unfold rename_key. by rewrite decide_True.
Qed.

Lemma missing_key_raises_witness :
  getitem "a" (new_cache, []) = (Raise (KeyError "a"), (new_cache, []))
  ∧ __delitem__ "a" (new_cache, []) = (Raise (KeyError "a"), (new_cache, []))
  ∧ rename_key "a" "b" (new_cache, []) = (Raise (KeyError "a"), (new_cache, []))
  ∧ rename_key "a" "a" (new_cache, []) = (Ok (), (new_cache, [])).
Proof.
  apply (missing_key_raises new_cache [] "a" "b"); [reflexivity|discriminate].
Defined.





Lemma string_app_inj_r (s t suffix : string) : s +:+ suffix = t +:+ suffix → s = t.
Proof.
  intros H. apply (f_equal String.list_ascii_of_string) in H.
  assert (∀ a b, String.list_ascii_of_string (a +:+ b)
                 = String.list_ascii_of_string a ++ String.list_ascii_of_string b) as Happ.
  { intros a b. induction a as [|x a IH]; [done|]. simpl. f_equal. exact IH. }
  rewrite !Happ in H. apply app_inv_tail in H.
  rewrite <- (String.string_of_list_ascii_of_string s),
          <- (String.string_of_list_ascii_of_string t). by rewrite H.
Qed.

Lemma string_app_ne (s suffix : string) : suffix ≠ "" → s +:+ suffix ≠ s.
Proof.
  intros Hne. induction s as [|x s IH]; [done|]. simpl. intros [= E]. by apply IH.
Qed.



(** ** Reading a port *)

(** X8.  [has_value] and [value] agree along the chain of sources: where
    [has_value] returns, [value] returns too; it never returns the
    [UNDEFINED] sentinel, and it returns [None] for a port without value.
    (A port without value and a port that holds [None] read the same.) *)
Theorem has_value_value (fuel : nat) (h : heap) (p : port_ref) (b : bool)
    (Hhas : has_value fuel h p = Ok b) :
  ∃ v, value fuel h p = Ok v
    ∧ is_undefined v = false
    ∧ (b = false → v = VNone).
Proof.
  revert p Hhas. induction fuel as [|fuel IH]; intros p Hhas; [done|].
  cbn [has_value value] in *. munfold.
  destruct (port_at h p) as [port|]; [|done].
  destruct (_source port) as [src|]; [by apply IH|].
  injection Hhas as <-. eexists. split; [reflexivity|].
  destruct (_value port); cbn; by split.
Qed.

Lemma has_value_value_witness :
  ∃ v, value 3 diamond_store (PortRef 0 true "y") = Ok v
    ∧ is_undefined v = false
    ∧ (false = false → v = VNone).
Proof.
  apply (has_value_value 3 diamond_store (PortRef 0 true "y") false). reflexivity.
Defined.

(** ** Decoding a port *)

Lemma rsplit_dot_Some s : ∀ a b,
  rsplit_dot s = Some (a, b) → s = a +:+ "." +:+ b ∧ rsplit_dot b = None.
Proof.
  induction s as [|c s IH]; intros a b; [done|]. rewrite rsplit_dot_cons.
  destruct (rsplit_dot s) as [[before after]|] eqn:E.
  - intros [= <- <-]. destruct (IH _ _ eq_refl) as [-> ?]. by split.
  - destruct (Ascii.eqb c dot) eqn:Ec; [|done]. intros [= <- <-].
    apply Ascii.eqb_eq in Ec as ->. by split.
Qed.

Lemma rsplit_dot_end t : rsplit_dot (t +:+ ".") = Some (t, "").
Proof. by apply (rsplit_dot_join t ""). Qed.

(** X9.  The text of a source: [from_json] splits it at its last dot.  A
    text that is empty or ends with a dot is rejected with a [ValueError];
    a non-empty text without dot names a node; any other text is
    ["<node>.<port>"] with a non-empty port name without dot, where the node
    part may itself contain dots and may be empty. *)
Theorem parse_source_forms (s : string) :
  ((s = "" ∨ ∃ t, s = t +:+ ".")
   ∧ parse_source s = Raise (ValueError InvalidEncoding))
  ∨ (s ≠ "" ∧ rsplit_dot s = None
     ∧ parse_source s = Ok (PlainPair (Some s) None))
  ∨ (∃ node_id name,
       s = node_id +:+ "." +:+ name ∧ name ≠ "" ∧ rsplit_dot name = None
       ∧ parse_source s
         = Ok (PlainPair (if decide (node_id = "") then None else Some node_id) (Some name))).
Proof.
  unfold parse_source. destruct (rsplit_dot s) as [[part0 part1]|] eqn:E.
  - apply rsplit_dot_Some in E as [-> Hdot]. destruct part1 as [|c part1].
    + left. split; [right; by exists part0|done].
    + right; right. exists part0, (String c part1). split_and!; try done.
      by destruct part0.
  - destruct s as [|c s].
    + left. split; [by left|done].
    + right; left. by split_and!.
Qed.

Lemma put_port_Raise p x h e h' : put_port p x h = (Raise e, h') → h' = h.
Proof.
  unfold put_port, get_node, put_node, node_at. munfold.
  destruct (nodes h !! port_node p); intros [= ?]; done.
Qed.

Lemma set_value_Raise p v h e h' : set_value p v h = (Raise e, h') → h' = h.
Proof.
  unfold set_value, get_port. munfold. destruct (port_at h p); [|by intros [= ?]].
  apply put_port_Raise.
Qed.

(** X10.  [from_json] is not atomic: it first resets the port, so when it
    raises (the JSON holds both ["source"] and ["value"], the source text is
    malformed, ...) the port is left without source, source reference and
    value, whatever it held before; every other port is as it was. *)
Theorem from_json_failure_clears_port
    (type_from_json : pyval → pyval → option pyval) (h h' : heap) (p : port_ref)
    (port_json : pyval) (old : NodePort) (e : exn)
    (Hold : port_at h p = Ok old)
    (Hfail : from_json type_from_json p port_json h = (Raise e, h')) :
  port_at h' p = Ok new_port
  ∧ same_shape h h'
  ∧ ∀ q, q ≠ p → port_at h' q = port_at h q.
Proof.
  destruct (put_port_spec h p new_port old Hold) as (h1 & Hput & Hshape & Hp & Hq).
  assert (h' = h1) as ->; [|done].
  revert Hfail. unfold from_json, get_port, get_node, get_meta. munfold.
  rewrite Hold, Hput.
  assert (∀ ref, put_port p (mkPort (Some ref) None VUndefined) h1 = (Raise e, h') → h' = h1)
    as Href by (intros ref; apply put_port_Raise).
  assert (∀ v, set_value p v h1 = (Raise e, h') → h' = h1)
    as Hval by (intros v; apply set_value_Raise).
  destruct port_json; cbn;
    repeat (case_match; cbn).
  all: first [apply Href | apply Hval | by intros [= _ ->] | by intros [= ?]].
Qed.

Lemma from_json_failure_clears_port_witness :
  ∃ h',
    from_json no_conversion (PortRef 1 false "factor")
      (VDict [("source", VStr "wf"); ("value", VInt 1)]) other_literal_store
    = (Raise (ValueError InvalidEncoding), h')
    ∧ port_at other_literal_store (PortRef 1 false "factor") = Ok (mkPort None None (VInt 7))
    ∧ port_at h' (PortRef 1 false "factor") = Ok new_port
    ∧ same_shape other_literal_store h'
    ∧ ∀ q, q ≠ PortRef 1 false "factor" → port_at h' q = port_at other_literal_store q.
Proof.
  eexists. split; [reflexivity|]. split; [reflexivity|].
  eapply (from_json_failure_clears_port no_conversion other_literal_store _
            (PortRef 1 false "factor") (VDict [("source", VStr "wf"); ("value", VInt 1)]));
    reflexivity.
Defined.

(** ** The execution order, whatever the bindings *)

Lemma dist_and_step_loop_steps fuel h steps : ∀ todo i1 l,
  dist_and_step_loop fuel h steps i1 todo = Ok l → l.*2 = todo.
Proof.
  induction todo as [|step rest IH]; intros i1 l; cbn [dist_and_step_loop]; munfold.
  - by intros [= <-].
  - destruct (max_dist_loop _ _ _ _ _ _ _) as [d|]; [|done].
    destruct (dist_and_step_loop fuel h steps (S i1) rest) as [tail|] eqn:E; [|done].
    intros [= <-]. cbn. f_equal. by eapply IH.
Qed.

(** X11.  Whenever [sort_steps] returns, it returns a rearrangement of the
    steps it was given: no step is dropped, added or repeated, whatever the
    ports of the steps hold (unresolved references, cycles cut by the
    recursion limit, clashing ids). *)
Theorem sort_steps_permutation (fuel : nat) (h : heap) (steps sorted : list nat)
    (Hsorted : sort_steps fuel h steps = Ok sorted) :
  sorted ≡ₚ steps.
Proof.
  revert Hsorted. unfold sort_steps. munfold. case_bool_decide; [by intros [= <-]|].
  destruct (dist_and_step_loop fuel h steps 0 steps) as [l|] eqn:E; [|done].
  intros [= <-]. apply dist_and_step_loop_steps in E. rewrite <- E.
  apply fmap_Permutation, sorted_by_key_perm.
Qed.

Lemma sort_steps_permutation_witness :
  ∃ sorted, sort_steps 6 diamond_store [4; 3; 2; 1]%nat = Ok sorted
    ∧ sorted ≡ₚ [4; 3; 2; 1]%nat.
Proof.
  eexists. split; [vm_compute; reflexivity|].
  apply (sort_steps_permutation 6 diamond_store). vm_compute. reflexivity.
Defined.

(** ** The root of a node *)

Lemma root_node_loop_root h : ∀ fuel node root,
  root_node_loop fuel h node = Ok root →
  ∃ rnd, nodes h !! root = Some rnd ∧ parent_node rnd = None.
Proof.
  induction fuel as [|fuel IH]; intros node root; [done|].
  cbn [root_node_loop]. unfold node_at. munfold.
  destruct (nodes h !! node) as [nd|] eqn:E; [|done].
  destruct (parent_node nd) as [parent|] eqn:Ep; [apply IH|].
  intros [= <-]. by exists nd.
Qed.

(** X12.  Where [root_node] returns, it returns a node without parent,
    which is its own root. *)
Theorem root_node_has_no_parent (h : heap) (node root : nat)
    (Hroot : root_node h node = Ok root) :
  ∃ rnd, nodes h !! root = Some rnd
    ∧ parent_node rnd = None
    ∧ root_node h root = Ok root.
Proof.
  destruct (root_node_loop_root h _ _ _ Hroot) as (rnd & Hrnd & Hparent).
  exists rnd. split_and!; try done.
  unfold root_node. cbn [root_node_loop]. unfold node_at. munfold. by rewrite Hrnd, Hparent.
Qed.

Lemma root_node_has_no_parent_witness :
  ∃ rnd, nodes diamond_store !! 0%nat = Some rnd
    ∧ parent_node rnd = None
    ∧ root_node diamond_store 0 = Ok 0%nat.
Proof. apply (root_node_has_no_parent diamond_store 4 0). reflexivity. Defined.

(** ** Adding a step *)

(** X13.  [add_step] of a step whose id the workflow does not know: the
    step is appended to the steps, gets the workflow as parent, and
    [find_node] finds it under its id and finds under any other id what it
    found before; no port changes.  Adding a step with that id once more
    (the same step or another one) without [can_exist] raises a
    [ValueError] and leaves the store as it is. *)
Theorem add_step_registers_step (h : heap) (self new_step : nat) (nd new_nd : Node)
    (Hnd : nodes h !! self = Some nd)
    (Hcls : cls nd = Workflow)
    (Hnew : nodes h !! new_step = Some new_nd)
    (Hne : new_step ≠ self)
    (Hfresh : _steps_dict nd !! _id new_nd = None) :
  ∃ h', add_step self new_step false h = (Ok None, h')
    ∧ find_node h' self (_id new_nd) = Ok (Some new_step)
    ∧ (∀ id, id ≠ _id new_nd → find_node h' self id = find_node h self id)
    ∧ (∃ nd', nodes h' !! self = Some nd' ∧ _steps nd' = _steps nd ++ [new_step])
    ∧ (∃ new_nd', nodes h' !! new_step = Some new_nd'
         ∧ _parent_node new_nd' = Some self ∧ _id new_nd' = _id new_nd)
    ∧ (∀ q, port_at h' q = port_at h q)
    ∧ ∀ other ond, nodes h' !! other = Some ond → _id ond = _id new_nd →
        add_step self other false h' = (Raise (ValueError DuplicateStepId), h').
Proof.
  eexists. split; [by apply add_step_fresh|].
  set (W := with_steps nd (_steps nd ++ [new_step])
              (<[_id new_nd := new_step]> (_steps_dict nd))).
  set (h' := Heap _ _).
  assert (new_step < length (nodes h))%nat as Hlt1 by by eapply lookup_lt_Some.
  assert (self < length (nodes h))%nat as Hlt2 by by eapply lookup_lt_Some.
  assert (nodes h' !! self = Some W) as HW.
  { cbn [h' nodes]. rewrite list_lookup_insert_ne by done. by apply list_lookup_insert_eq. }
  assert (nodes h' !! new_step = Some (with_parent new_nd (Some self))) as HS.
  { cbn [h' nodes]. apply list_lookup_insert_eq. by rewrite length_insert. }
  split_and!.
  - unfold find_node, node_at. munfold. rewrite HW. cbn [W with_steps cls _steps_dict].
    rewrite Hcls. by rewrite lookup_insert_eq.
  - intros id Hid. unfold find_node, node_at. munfold. rewrite HW, Hnd.
    cbn [W with_steps cls _steps_dict]. rewrite Hcls. by rewrite lookup_insert_ne.
  - by exists W.
  - by eexists.
  - intros q. unfold port_at, node_at. munfold.
    destruct (decide (port_node q = new_step)) as [->|Hq1];
      [by rewrite HS, Hnew; destruct (port_is_output q)|].
    destruct (decide (port_node q = self)) as [->|Hq2];
      [by rewrite HW, Hnd; destruct (port_is_output q)|].
    cbn [h' nodes]. by rewrite !list_lookup_insert_ne.
  - intros other ond Hother Hid. unfold add_step, get_node, node_at. munfold.
    rewrite HW, Hother. cbn [W with_steps _steps_dict]. rewrite Hid, lookup_insert_eq. done.
Qed.

Lemma add_step_registers_step_witness :
  let nd := a_workflow 0 "wf" [] [] [("a", 1%nat)] in
  let new_nd := a_step 2 "b" [("x", bound "a" (PortRef 1 true "return"))]
                  (unbound_ports ["return"]) None in
  ∃ h', add_step 0 2 false detached_store = (Ok None, h')
    ∧ find_node h' 0 "b" = Ok (Some 2%nat)
    ∧ (∀ id, id ≠ "b" → find_node h' 0 id = find_node detached_store 0 id)
    ∧ (∃ nd', nodes h' !! 0%nat = Some nd' ∧ _steps nd' = [1; 2]%nat)
    ∧ (∃ new_nd', nodes h' !! 2%nat = Some new_nd'
         ∧ _parent_node new_nd' = Some 0%nat ∧ _id new_nd' = "b")
    ∧ (∀ q, port_at h' q = port_at detached_store q)
    ∧ ∀ other ond, nodes h' !! other = Some ond → _id ond = "b" →
        add_step 0 other false h' = (Raise (ValueError DuplicateStepId), h').
Proof.
  apply (add_step_registers_step detached_store 0 2
           (a_workflow 0 "wf" [] [] [("a", 1%nat)])
           (a_step 2 "b" [("x", bound "a" (PortRef 1 true "return"))]
              (unbound_ports ["return"]) None));
    [reflexivity|reflexivity|reflexivity|discriminate|reflexivity].
Defined.

(** ** Removing a step *)

Lemma all_ports_port_at h n nd p :
  nodes h !! n = Some nd → p ∈ all_ports n nd → ∃ x, port_at h p = Ok x.
Proof.
  intros Hnd [Hn [x Hx]]%all_ports_elem. exists x. apply port_at_Ok. exists nd. by subst.
Qed.

(** The loop over the ports returns when the ports exist. *)
Lemma clear_orphaned_total old (ports : list port_ref) : ∀ h,
  Forall (λ p, ∃ x, port_at h p = Ok x) ports →
  ∃ h', for_each ports (λ p, port ← get_port p;
                           if orphaned old port then set_value p VNone else mret ()) h
        = (Ok (), h').
Proof.
  induction ports as [|p ports IH]; intros h Hall; [by eexists|].
  apply Forall_cons in Hall as [[x Hx] Hall].
  cbn [for_each]. unfold mbind at 1, M_bind at 1. unfold mbind at 1, M_bind at 1.
  rewrite (get_port_run _ _ _ Hx). destruct (orphaned old x).
  - destruct (set_value_spec h p VNone x Hx) as (h1 & -> & _ & Hp & Hq).
    apply IH. eapply Forall_impl; [exact Hall|]. intros q [y Hy]. cbn beta in *.
    destruct (decide (q = p)) as [->|Hne]; [by eexists|]. exists y. by rewrite Hq.
  - unfold mret, M_ret. by apply IH.
Qed.

(** ... and changes nothing when no port has its source on the node. *)
Lemma clear_orphaned_noop old (ports : list port_ref) h :
  Forall (λ p, ∃ x, port_at h p = Ok x ∧ orphaned old x = false) ports →
  for_each ports (λ p, port ← get_port p;
                       if orphaned old port then set_value p VNone else mret ()) h
    = (Ok (), h).
Proof.
  induction ports as [|p ports IH]; intros Hall; [done|].
  apply Forall_cons in Hall as [(x & Hx & Ho) Hall].
  cbn [for_each]. unfold mbind at 1, M_bind at 1. unfold mbind at 1, M_bind at 1.
  rewrite (get_port_run _ _ _ Hx), Ho. unfold mret at 1, M_ret at 1. by apply IH.
Qed.

Lemma node_remove_orphaned_total n old h nd :
  nodes h !! n = Some nd →
  ∃ h', node_remove_orphaned_sources n old h = (Ok (), h').
Proof.
  intros Hnd. unfold node_remove_orphaned_sources. unfold mbind at 1, M_bind at 1.
  rewrite (get_node_run _ _ _ Hnd). apply clear_orphaned_total.
  apply Forall_forall. intros p Hp. by eapply all_ports_port_at.
Qed.

Lemma steps_remove_orphaned_total old (steps : list nat) : ∀ h,
  (∀ s, s ∈ steps → is_Some (nodes h !! s)) →
  ∃ h', for_each steps (λ step, node_remove_orphaned_sources step old) h = (Ok (), h').
Proof.
  induction steps as [|s steps IH]; intros h Hall; [by eexists|].
  destruct (Hall s) as [snd Hsnd]; [left|].
  destruct (node_remove_orphaned_total s old h snd Hsnd) as (h1 & Hrun).
  cbn [for_each]. unfold mbind at 1, M_bind at 1. rewrite Hrun.
  apply IH. intros s' Hs'. destruct (Hall s') as [x Hx]; [by right|].
  apply node_remove_orphaned_run in Hrun as [Hshape _].
  destruct (same_shape_node _ _ _ _ Hshape Hx) as (x' & -> & _). by eexists.
Qed.

Lemma remove_orphaned_sources_total n old h nd :
  nodes h !! n = Some nd →
  cls nd = Workflow →
  (∀ s, s ∈ _steps nd → is_Some (nodes h !! s)) →
  ∃ h', remove_orphaned_sources n old h = (Ok (), h') ∧ cleaned old (tree_ports h n) h h'.
Proof.
  intros Hnd Hcls Hsteps.
  assert (∃ h', remove_orphaned_sources n old h = (Ok (), h')) as [h' Hrun];
    [|exists h'; split; [done|by apply remove_orphaned_sources_run]].
  unfold remove_orphaned_sources. unfold mbind at 1, M_bind at 1.
  rewrite (get_node_run _ _ _ Hnd). rewrite Hcls.
  destruct (node_remove_orphaned_total n old h nd Hnd) as (h1 & Hrun).
  unfold mbind at 1, M_bind at 1. rewrite Hrun.
  apply steps_remove_orphaned_total. intros s Hs. destruct (Hsteps s Hs) as [x Hx].
  apply node_remove_orphaned_run in Hrun as [Hshape _].
  destruct (same_shape_node _ _ _ _ Hshape Hx) as (x' & -> & _). by eexists.
Qed.

(** The ports of a store do not change when a node is replaced by one with
    the same namespaces. *)
Lemma port_at_insert h n nd nd' q :
  nodes h !! n = Some nd →
  _inputs nd' = _inputs nd → _outputs nd' = _outputs nd →
  port_at (Heap (<[n := nd']> (nodes h)) (metas h)) q = port_at h q.
Proof.
  intros Hnd Hin Hout. unfold port_at, node_at. munfold. cbn [nodes].
  destruct (decide (port_node q = n)) as [->|Hne].
  - rewrite list_lookup_insert_eq by by eapply lookup_lt_Some. rewrite Hnd.
    unfold namespace. by rewrite Hin, Hout.
  - by rewrite list_lookup_insert_ne.
Qed.

(** [remove_step] of a step the workflow knows, up to the search for
    orphaned sources. *)
Lemma remove_step_run h self old_step nd old_nd step_id i must_exist :
  nodes h !! self = Some nd →
  _steps_dict nd !! step_id = Some old_step →
  list_index old_step (_steps nd) = Some i →
  nodes h !! old_step = Some old_nd →
  old_step ≠ self →
  remove_step self (inl step_id) must_exist h
    = (remove_orphaned_sources self old_step ≫= λ _, mret (Some old_step))
        (step_removed h self old_step nd old_nd step_id i).
Proof.
  intros Hnd Hdict Hindex Hold Hne.
  assert (self < length (nodes h))%nat as Hlt by by eapply lookup_lt_Some.
  unfold remove_step, get_node, put_node, node_at. munfold.
  cbn [nodes metas]. rewrite Hnd, Hdict. cbn [nodes metas].
  rewrite list_lookup_insert_eq by done. cbn [with_steps _steps _steps_dict]. rewrite Hindex.
  cbn [nodes metas]. rewrite list_insert_insert_eq.
  rewrite list_lookup_insert_ne by done. rewrite Hold. cbn [nodes metas]. done.
Qed.

(** X14.  [remove_step] of a step the workflow knows under [step_id]: the
    step is returned, taken out of the steps and of the lookup by id, and
    loses its parent; every port of the workflow and of the remaining steps
    whose source is a port of the removed step becomes a port with the value
    [None], and every other port of the store stays as it is (the ports of
    the removed step included). *)
Theorem remove_step_removes_step (h : heap) (self old_step : nat) (nd old_nd : Node)
    (step_id : string) (i : nat) (must_exist : bool)
    (Hnd : nodes h !! self = Some nd)
    (Hcls : cls nd = Workflow)
    (Hdict : _steps_dict nd !! step_id = Some old_step)
    (Hindex : list_index old_step (_steps nd) = Some i)
    (Hold : nodes h !! old_step = Some old_nd)
    (Hne : old_step ≠ self)
    (Hsteps : ∀ s, s ∈ _steps nd → is_Some (nodes h !! s)) :
  ∃ h', remove_step self (inl step_id) must_exist h = (Ok (Some old_step), h')
    ∧ find_node h' self step_id = Ok None
    ∧ (∃ nd', nodes h' !! self = Some nd' ∧ _steps nd' = delete i (_steps nd))
    ∧ (∃ old_nd', nodes h' !! old_step = Some old_nd' ∧ _parent_node old_nd' = None)
    ∧ ∀ q port, port_at h q = Ok port →
        port_at h' q
          = Ok (if bool_decide (port_node q = self ∨ port_node q ∈ delete i (_steps nd))
                   && orphaned old_step port
                then cleared_port else port).
Proof.
  set (W := with_steps nd (delete i (_steps nd)) (delete step_id (_steps_dict nd))).
  set (h1 := step_removed h self old_step nd old_nd step_id i).
  assert (self < length (nodes h))%nat as Hlt by by eapply lookup_lt_Some.
  assert (old_step < length (nodes h))%nat as Hlt' by by eapply lookup_lt_Some.
  assert (nodes h1 !! self = Some W) as HW.
  { cbn [h1 step_removed nodes]. rewrite list_lookup_insert_ne by done.
    by apply list_lookup_insert_eq. }
  assert (nodes h1 !! old_step = Some (with_parent old_nd None)) as HO.
  { cbn [h1 step_removed nodes]. apply list_lookup_insert_eq. by rewrite length_insert. }
  assert (∀ q, port_at h1 q = port_at h q) as Hports.
  { intros q. transitivity (port_at (Heap (<[self := W]> (nodes h)) (metas h)) q).
    - apply (port_at_insert (Heap (<[self := W]> (nodes h)) (metas h)) old_step old_nd).
      + change (<[self := W]> (nodes h) !! old_step = Some old_nd).
        rewrite list_lookup_insert_ne by congruence. exact Hold.
      + done.
      + done.
    - by apply port_at_insert with (nd := nd). }
  destruct (remove_orphaned_sources_total self old_step h1 W HW Hcls) as (h' & Hrun & Hshape & Hclean).
  { intros s Hs. apply lookup_lt_is_Some. cbn [h1 step_removed nodes].
    rewrite !length_insert. apply lookup_lt_is_Some, Hsteps.
    cbn [W with_steps _steps] in Hs. by eapply list_elem_of_delete_inv. }
  exists h'. split.
  { rewrite (remove_step_run h self old_step nd old_nd step_id i) by done.
    fold h1. unfold mbind, M_bind. by rewrite Hrun. }
  destruct (same_shape_node _ _ _ _ Hshape HW) as (nd' & Hnd' & Hnd'e).
  destruct (same_shape_node _ _ _ _ Hshape HO) as (old_nd' & Hold' & Holde).
  split_and!.
  - unfold find_node, node_at. munfold. rewrite Hnd'.
    replace (cls nd') with (cls (erase_node nd')) by done.
    replace (_steps_dict nd') with (_steps_dict (erase_node nd')) by done.
    rewrite Hnd'e. cbn [erase_node W with_steps cls _steps_dict]. rewrite Hcls.
    by rewrite lookup_delete_eq.
  - exists nd'. split; [done|]. replace (_steps nd') with (_steps (erase_node nd')) by done.
    by rewrite Hnd'e.
  - exists old_nd'. split; [done|].
    replace (_parent_node old_nd') with (_parent_node (erase_node old_nd')) by done.
    by rewrite Holde.
  - intros q port Hq. rewrite <- Hports in Hq. rewrite (Hclean q port Hq).
    assert (bool_decide (q ∈ tree_ports h1 self)
            = bool_decide (port_node q = self ∨ port_node q ∈ delete i (_steps nd))) as ->;
      [|done].
    apply bool_decide_ext. split.
    + intros Hin. by apply (tree_ports_node h1 self W q HW) in Hin.
    + intros Hin. apply port_at_Ok in Hq as (ndq & Hndq & Hget).
      apply (tree_ports_elem h1 self W (port_node q) ndq q HW Hcls Hin Hndq).
      apply all_ports_elem. split; [done|by eexists].
Qed.

Lemma remove_step_removes_step_witness :
  let h := replace_store in
  let nd := a_workflow 0 "wf" [] [] [("a", 1%nat); ("b", 2%nat)] in
  ∃ h', remove_step 0 (inl "a") true h = (Ok (Some 1%nat), h')
    ∧ find_node h' 0 "a" = Ok None
    ∧ (∃ nd', nodes h' !! 0%nat = Some nd' ∧ _steps nd' = delete 0%nat (_steps nd))
    ∧ (∃ old_nd', nodes h' !! 1%nat = Some old_nd' ∧ _parent_node old_nd' = None)
    ∧ ∀ q port, port_at h q = Ok port →
        port_at h' q
          = Ok (if bool_decide (port_node q = 0%nat ∨ port_node q ∈ delete 0%nat (_steps nd))
                   && orphaned 1 port
                then cleared_port else port).
Proof.
  apply (remove_step_removes_step replace_store 0 1
           (a_workflow 0 "wf" [] [] [("a", 1%nat); ("b", 2%nat)])
           (a_step 1 "a" [] (unbound_ports ["return"]) (Some 0%nat)) "a" 0 true);
    [reflexivity|reflexivity|reflexivity|reflexivity|reflexivity|discriminate|].
  intros s Hs. cbn in Hs.
  apply elem_of_cons in Hs as [->|Hs]; [by eexists|].
  apply elem_of_cons in Hs as [->|Hs]; [by eexists|]. by apply elem_of_nil in Hs.
Defined.

Lemma list_index_app_fresh (x : nat) (l : list nat) :
  x ∉ l → list_index x (l ++ [x]) = Some (length l).
Proof.
  induction l as [|y l IH]; intros Hx; cbn.
  - by rewrite decide_True.
  - apply not_elem_of_cons in Hx as [Hne Hx]. rewrite decide_False by done.
    by rewrite IH.
Qed.

Lemma delete_last {A} (l : list A) (x : A) : delete (length l) (l ++ [x]) = l.
Proof.
  induction l as [|y l IH]; [done|].
  change (y :: delete (length l) (l ++ [x]) = y :: l). by rewrite IH.
Qed.

Lemma node_remove_orphaned_noop n old h nd :
  nodes h !! n = Some nd →
  (∀ q port, q ∈ all_ports n nd → port_at h q = Ok port → orphaned old port = false) →
  node_remove_orphaned_sources n old h = (Ok (), h).
Proof.
  intros Hnd Hno. unfold node_remove_orphaned_sources. unfold mbind at 1, M_bind at 1.
  rewrite (get_node_run _ _ _ Hnd). apply clear_orphaned_noop.
  apply Forall_forall. intros p Hp. destruct (all_ports_port_at h n nd p Hnd Hp) as [x Hx].
  exists x. split; [done|]. by eapply Hno.
Qed.

Lemma remove_orphaned_sources_noop n old h nd :
  nodes h !! n = Some nd →
  cls nd = Workflow →
  (∀ s, s ∈ _steps nd → is_Some (nodes h !! s)) →
  (∀ q port, port_node q = n ∨ port_node q ∈ _steps nd → port_at h q = Ok port →
     orphaned old port = false) →
  remove_orphaned_sources n old h = (Ok (), h).
Proof.
  intros Hnd Hcls Hsteps Hno.
  unfold remove_orphaned_sources. unfold mbind at 1, M_bind at 1.
  rewrite (get_node_run _ _ _ Hnd). rewrite Hcls.
  unfold mbind at 1, M_bind at 1. rewrite (node_remove_orphaned_noop n old h nd Hnd).
  2:{ intros q port Hq. apply Hno. left. by eapply all_ports_node. }
  assert (∀ steps, steps ⊆ _steps nd →
            for_each steps (λ step, node_remove_orphaned_sources step old) h = (Ok (), h)) as H.
  { induction steps as [|s steps IH]; intros Hsub; [done|].
    destruct (Hsteps s) as [snd Hsnd]; [apply Hsub; left|].
    cbn [for_each]. unfold mbind at 1, M_bind at 1.
    rewrite (node_remove_orphaned_noop s old h snd Hsnd).
    - apply IH. intros x Hx. apply Hsub. by right.
    - intros q port Hq. apply Hno. right. apply all_ports_node in Hq as ->. apply Hsub. left. }
  by apply H.
Qed.

(** X15.  [add_step] and [remove_step] undo each other: adding a step
    that has no parent, is not among the steps and whose id the workflow does
    not know, and removing it again (here by the step itself, with
    [must_exist]), gives the store back as it was, provided no port of the
    workflow or of its steps has its source on the step.  After that the id
    is unknown again: removing it once more returns [None], or raises a
    [ValueError] with [must_exist], and changes nothing. *)
Theorem add_step_remove_step (h : heap) (self new_step : nat) (nd new_nd : Node)
    (Hnd : nodes h !! self = Some nd)
    (Hcls : cls nd = Workflow)
    (Hnew : nodes h !! new_step = Some new_nd)
    (Hne : new_step ≠ self)
    (Hfresh : _steps_dict nd !! _id new_nd = None)
    (Hparent : _parent_node new_nd = None)
    (Hnotin : new_step ∉ _steps nd)
    (Hsteps : ∀ s, s ∈ _steps nd → is_Some (nodes h !! s))
    (Hunused : ∀ q port, port_node q = self ∨ port_node q ∈ _steps nd →
                 port_at h q = Ok port → orphaned new_step port = false) :
  (add_step self new_step false ≫= λ _, remove_step self (inr new_step) true) h
    = (Ok (Some new_step), h)
  ∧ remove_step self (inl (_id new_nd)) false h = (Ok None, h)
  ∧ remove_step self (inl (_id new_nd)) true h = (Raise (ValueError UnknownNode), h).
Proof.
  split; [|split; unfold remove_step, get_node, node_at; munfold; by rewrite Hnd, Hfresh].
  assert (self < length (nodes h))%nat as Hlt by by eapply lookup_lt_Some.
  assert (new_step < length (nodes h))%nat as Hlt' by by eapply lookup_lt_Some.
  unfold mbind at 1, M_bind at 1. rewrite (add_step_fresh h self new_step nd new_nd) by done.
  set (W := with_steps nd (_steps nd ++ [new_step])
              (<[_id new_nd := new_step]> (_steps_dict nd))).
  set (S := with_parent new_nd (Some self)).
  set (h1 := Heap _ _).
  assert (nodes h1 !! self = Some W) as HW.
  { unfold h1. cbn [nodes]. rewrite list_lookup_insert_ne by done.
    by apply list_lookup_insert_eq. }
  assert (nodes h1 !! new_step = Some S) as HS.
  { unfold h1. cbn [nodes]. apply list_lookup_insert_eq. by rewrite length_insert. }
  assert (remove_step self (inr new_step) true h1
          = remove_step self (inl (_id new_nd)) true h1) as ->.
  { unfold remove_step at 1. unfold mbind at 1, M_bind at 1. unfold mbind at 1, M_bind at 1.
    by rewrite (get_node_run _ _ _ HS). }
  rewrite (remove_step_run h1 self new_step W S (_id new_nd) (length (_steps nd))); try done.
  2:{ cbn [W with_steps _steps_dict]. apply lookup_insert_eq. }
  2:{ cbn [W with_steps _steps]. by apply list_index_app_fresh. }
  assert (step_removed h1 self new_step W S (_id new_nd) (length (_steps nd)) = h) as ->.
  { unfold step_removed, h1. cbn [nodes metas W S with_steps with_parent _steps _steps_dict
      cls _id _op_meta_info _persistent _inputs _outputs _parent_node].
    rewrite delete_last, delete_insert_id by done.
    destruct h as [ns ms]. cbn [nodes metas] in *. f_equal.
    rewrite (list_insert_insert_ne _ self new_step) by done.
    rewrite !list_insert_insert_eq.
    rewrite (list_insert_id ns self) by (rewrite Hnd; by destruct nd).
    apply list_insert_id. rewrite Hnew. destruct new_nd. cbn in Hparent. by subst. }
  unfold mbind, M_bind.
  by rewrite (remove_orphaned_sources_noop self new_step h nd Hnd Hcls Hsteps Hunused).
Qed.

Lemma add_step_remove_step_witness :
  let new_nd := a_step 2 "b" [("x", bound "a" (PortRef 1 true "return"))]
                  (unbound_ports ["return"]) None in
  (add_step 0 2 false ≫= λ _, remove_step 0 (inr 2%nat) true) detached_store
    = (Ok (Some 2%nat), detached_store)
  ∧ remove_step 0 (inl (_id new_nd)) false detached_store = (Ok None, detached_store)
  ∧ remove_step 0 (inl (_id new_nd)) true detached_store
    = (Raise (ValueError UnknownNode), detached_store).
Proof.
  apply (add_step_remove_step detached_store 0 2
           (a_workflow 0 "wf" [] [] [("a", 1%nat)])
           (a_step 2 "b" [("x", bound "a" (PortRef 1 true "return"))]
              (unbound_ports ["return"]) None));
    [reflexivity|reflexivity|reflexivity|discriminate|reflexivity|reflexivity| | | ].
  - cbn. intros [?|H]%elem_of_cons; [discriminate|by apply elem_of_nil in H].
  - cbn. intros s [->|H]%elem_of_cons; [by eexists|by apply elem_of_nil in H].
  - intros q port Hq Hport. apply port_at_Ok in Hport as (ndq & Hndq & Hget).
    apply dict_get_Some_elem in Hget.
    destruct Hq as [Hq|Hq]; [rewrite Hq in Hndq|].
    + injection Hndq as <-. destruct (port_is_output q); cbn in Hget;
        by apply elem_of_nil in Hget.
    + cbn in Hq. apply list_elem_of_singleton in Hq. rewrite Hq in Hndq.
      injection Hndq as <-. destruct (port_is_output q); cbn in Hget.
      * apply list_elem_of_singleton in Hget. by injection Hget as _ ->.
      * by apply elem_of_nil in Hget.
Defined.

(** ** The steps to compute *)

Lemma filter_id {A} (P : A → Prop) `{∀ x, Decision (P x)} (l : list A) :
  Forall P l → filter P l = l.
Proof.
  induction 1 as [|x l Hx Hl IH]; [done|]. rewrite filter_cons, decide_True by done.
  by rewrite IH.
Qed.

Lemma list_remove_filter (x : nat) (l : list nat) :
  NoDup l →
  (if bool_decide (x ∈ l) then list_remove x l else l) = filter (λ y, y ≠ x) l.
Proof.
  induction 1 as [|y l Hy Hl IH]; [by case_bool_decide|].
  rewrite filter_cons. cbn [list_remove]. destruct (decide (y = x)) as [->|Hne].
  - rewrite bool_decide_eq_true_2 by left. rewrite decide_False by (intros H; by apply H).
    symmetry. apply filter_id. apply Forall_forall. by intros z Hz ->.
  - rewrite decide_True by done. destruct (decide (x ∈ l)) as [Hin|Hin].
    + rewrite bool_decide_eq_true_2 in IH by done.
      rewrite bool_decide_eq_true_2 by by right. by rewrite IH.
    + rewrite bool_decide_eq_false_2 in IH by done.
      rewrite bool_decide_eq_false_2; [by rewrite <- IH|].
      intros [?|?]%elem_of_cons; congruence.
Qed.

Lemma not_elem_of_front (x : nat) (o1 o2 : list nat) :
  x ∉ (o2 ++ filter (λ y, y ∉ o2) o1) ↔ (x ∉ o2) ∧ (x ∉ o1).
Proof.
  rewrite elem_of_app, list_elem_of_filter. split.
  - intros H. split; [tauto|]. intros H1. destruct (decide (x ∈ o2)); tauto.
  - tauto.
Qed.

Lemma front_twice (o1 o2 p : list nat) :
  o2 ++ filter (λ y, y ∉ o2) (o1 ++ filter (λ y, y ∉ o1) p)
    = (o2 ++ filter (λ y, y ∉ o2) o1)
        ++ filter (λ y, y ∉ (o2 ++ filter (λ y, y ∉ o2) o1)) p.
Proof.
  rewrite filter_app, list_filter_filter, <- app_assoc. do 2 f_equal.
  apply list_filter_iff. intros x. by rewrite not_elem_of_front.
Qed.

Lemma NoDup_front (o1 o2 : list nat) :
  NoDup o1 → NoDup o2 → NoDup (o2 ++ filter (λ y, y ∉ o2) o1).
Proof.
  intros H1 H2. apply NoDup_app. split_and!; [done| |by apply NoDup_filter].
  intros x Hx [Hn _]%list_elem_of_filter. done.
Qed.

Lemma before_app_l (l l' : list nat) a b : before l a b → before (l ++ l') a b.
Proof.
  intros (i & j & Hij & Hi & Hj). exists i, j. split_and!; [done|..]; by apply lookup_app_l_Some.
Qed.

Lemma before_app_r (l l' : list nat) a b : before l' a b → before (l ++ l') a b.
Proof.
  intros (i & j & Hij & Hi & Hj). exists (length l + i)%nat, (length l + j)%nat.
  split_and!; [lia|..]; by rewrite lookup_app_r, Nat.add_comm, Nat.add_sub by lia.
Qed.

Lemma before_app (l l' : list nat) a b : a ∈ l → b ∈ l' → before (l ++ l') a b.
Proof.
  intros [i Hi]%list_elem_of_lookup [j Hj]%list_elem_of_lookup.
  exists i, (length l + j)%nat. apply lookup_lt_Some in Hi as Hlt. split_and!; [lia|..].
  - by apply lookup_app_l_Some.
  - by rewrite lookup_app_r, Nat.add_comm, Nat.add_sub by lia.
Qed.

Lemma before_filter (P : nat → Prop) `{∀ x, Decision (P x)} (l : list nat) a b :
  before l a b → P a → P b → before (filter P l) a b.
Proof.
  intros (i & j & Hij & Hi & Hj) Ha Hb.
  assert (l = take j l ++ b :: drop (S j) l) as Hl.
  { by rewrite <- (take_drop_middle l j b Hj) at 1. }
  rewrite Hl, filter_app, filter_cons_True by done.
  apply before_app; [|left].
  apply list_elem_of_filter. split; [done|]. apply list_elem_of_lookup. exists i.
  by rewrite lookup_take_lt.
Qed.

Section collect.
Context (h : heap) (excludes : list nat).

Local Abbreviation collect := (λ fuel, collect_predecessors fuel h excludes).

Lemma loop_returns (c : nat → list nat → outcome (list nat)) ports : ∀ p r port src,
  predecessors_loop c ports p = Ok r →
  port ∈ ports → _source port = Some src →
  ∃ p' r', c (port_node src) p' = Ok r'.
Proof.
  induction ports as [|x ports IH]; intros p r port src Hrun Hin Hsrc.
  { by apply elem_of_nil in Hin. }
  cbn [predecessors_loop] in Hrun. apply elem_of_cons in Hin as [->|Hin].
  - rewrite Hsrc in Hrun. munfold. destruct (c (port_node src) p) eqn:E; [eauto|done].
  - destruct (_source x); [|by eapply IH]. munfold.
    destruct (c (port_node p0) p); [by eapply IH|done].
Qed.

Lemma returns_step fuel n m p r :
  collect (S fuel) n p = Ok r → reads_from h excludes n m →
  ∃ p' r', collect fuel m p' = Ok r'.
Proof.
  intros Hrun (Hex & nd & port & src & Hnd & Hport & Hsrc & <-).
  cbn [collect_predecessors] in Hrun. rewrite bool_decide_eq_false_2 in Hrun by done.
  unfold node_at in Hrun. munfold. rewrite Hnd in Hrun. by eapply loop_returns.
Qed.

Lemma returns_reaches k : ∀ fuel n m p r,
  collect fuel n p = Ok r → reaches h excludes k n m →
  (k < fuel)%nat ∧ ∃ p' r', collect (fuel - k)%nat m p' = Ok r'.
Proof.
  induction k as [|k IH]; intros fuel n m p r Hrun Hreach; inversion Hreach; subst.
  - destruct fuel; [done|]. split; [lia|]. rewrite Nat.sub_0_r. eauto.
  - destruct fuel as [|fuel]; [done|].
    destruct (returns_step _ _ _ _ _ Hrun H0) as (p' & r' & Hrun').
    destruct (IH _ _ _ _ _ Hrun' H1) as [Hlt Hret]. split; [lia|done].
Qed.

(** A visit that returns has not come back to where it started. *)
Lemma returns_no_cycle fuel : ∀ n p r k,
  collect fuel n p = Ok r → reaches h excludes (S k) n n → False.
Proof.
  induction (lt_wf fuel) as [fuel _ IH]. intros n p r k Hrun Hreach.
  destruct (returns_reaches _ _ _ _ _ _ Hrun Hreach) as [Hlt (p' & r' & Hrun')].
  eapply (IH (fuel - S k)%nat); [lia|exact Hrun'|exact Hreach].
Qed.

Lemma moves_to_front_nil (visit : list nat → outcome (list nat)) :
  (∀ p, visit p = Ok p) → moves_to_front visit [].
Proof.
  intros Hvisit p _. rewrite Hvisit. cbn [app]. f_equal. symmetry. apply filter_id.
  apply Forall_forall. intros x _. apply not_elem_of_nil.
Qed.

Lemma sources_first_front (o1 o2 : list nat) :
  sources_first h excludes o1 → sources_first h excludes o2 →
  sources_first h excludes (o2 ++ filter (λ y, y ∉ o2) o1).
Proof.
  intros H1 H2 x b Hx Hread Hb. apply elem_of_app in Hx as [Hx|Hx].
  - apply before_app_l. by apply H2.
  - apply list_elem_of_filter in Hx as [Hx2 Hx1]. pose proof (H1 x b Hx1 Hread Hb) as Hbefore.
    destruct (decide (b ∈ o2)) as [Hb2|Hb2].
    + apply before_app; [done|]. by apply list_elem_of_filter.
    + apply before_app_r. by apply before_filter.
Qed.

(** The loop over the input ports, given what each visit it makes does. *)
Lemma loop_law (c : nat → list nat → outcome (list nat)) :
  (∀ m p r, NoDup p → c m p = Ok r →
     ∃ o, moves_to_front (c m) o ∧ NoDup o
       ∧ (∀ x, x ∈ o → (x ∉ excludes) ∧ ∃ k, reaches h excludes k m x)
       ∧ sources_first h excludes o
       ∧ (m ∉ excludes → m ∈ o)) →
  ∀ ports q r, NoDup q → predecessors_loop c ports q = Ok r →
    ∃ o, moves_to_front (predecessors_loop c ports) o ∧ NoDup o
      ∧ (∀ x, x ∈ o → (x ∉ excludes)
           ∧ ∃ port src k, port ∈ ports ∧ _source port = Some src
               ∧ reaches h excludes k (port_node src) x)
      ∧ sources_first h excludes o
      ∧ (∀ port src, port ∈ ports → _source port = Some src →
           port_node src ∉ excludes → port_node src ∈ o).
Proof.
  intros Hc. induction ports as [|port ports IH]; intros q r Hq Hrun.
  { exists []. split_and!.
    - by apply moves_to_front_nil.
    - constructor.
    - by intros x Hx%elem_of_nil.
    - by intros x b Hx%elem_of_nil.
    - by intros port src Hp%elem_of_nil. }
  cbn [predecessors_loop] in Hrun. destruct (_source port) as [src|] eqn:Hsrc.
  - munfold. destruct (c (port_node src) q) as [r1|] eqn:Hr1; [|done].
    destruct (Hc _ _ _ Hq Hr1) as (o1 & Hm1 & Hd1 & Hin1 & Hs1 & Hself1).
    pose proof (Hm1 q Hq) as Hr1'. rewrite Hr1 in Hr1'. injection Hr1' as ->.
    destruct (IH _ _ (NoDup_front q o1 Hq Hd1) Hrun) as (o2 & Hm2 & Hd2 & Hin2 & Hs2 & Hsrc2).
    exists (o2 ++ filter (λ y, y ∉ o2) o1). split_and!.
    + intros p Hp. cbn [predecessors_loop]. rewrite Hsrc. munfold. rewrite (Hm1 p Hp).
      rewrite (Hm2 _ (NoDup_front p o1 Hp Hd1)). by rewrite front_twice.
    + by apply NoDup_front.
    + intros x [Hx|[_ Hx]%list_elem_of_filter]%elem_of_app.
      * destruct (Hin2 x Hx) as (Hex & port' & src' & k & Hp' & Hs' & Hr').
        split; [done|]. exists port', src', k. split_and!; [by right|done..].
      * destruct (Hin1 x Hx) as (Hex & k & Hr'). split; [done|].
        exists port, src, k. split_and!; [by left|done..].
    + by apply sources_first_front.
    + intros port' src' [->|Hp']%elem_of_cons Hs' Hex.
      * rewrite Hsrc in Hs'. injection Hs' as <-. apply elem_of_app.
        destruct (decide (port_node src ∈ o2)); [by left|right].
        apply list_elem_of_filter. split; [done|]. by apply Hself1.
      * apply elem_of_app. left. by eapply Hsrc2.
  - destruct (IH _ _ Hq Hrun) as (o & Hm & Hd & Hin & Hs & Hsrc').
    exists o. split_and!; try done.
    + intros p Hp. cbn [predecessors_loop]. rewrite Hsrc. by apply Hm.
    + intros x Hx. destruct (Hin x Hx) as (Hex & port' & src' & k & Hp' & Hs' & Hr').
      split; [done|]. exists port', src', k. split_and!; [by right|done..].
    + intros port' src' [->|Hp']%elem_of_cons Hs' Hex; [congruence|]. by eapply Hsrc'.
Qed.

(** A visit that returns: the visited nodes come to the front of any list
    without duplicates, each once, the node last, every node behind the
    nodes it reads from. *)
Lemma visit_law fuel : ∀ n p r,
  NoDup p → collect fuel n p = Ok r →
  ∃ o, moves_to_front (collect fuel n) o ∧ NoDup o
    ∧ (∀ x, x ∈ o → (x ∉ excludes) ∧ ∃ k, reaches h excludes k n x)
    ∧ sources_first h excludes o
    ∧ (n ∉ excludes → last o = Some n).
Proof.
  induction fuel as [|fuel IH]; intros n p r Hp Hrun; [done|].
  pose proof Hrun as Hrun0.
  cbn [collect_predecessors] in Hrun. case_bool_decide as Hex.
  { exists []. split_and!; try done.
    - apply moves_to_front_nil. intros p'. cbn [collect_predecessors].
      by rewrite bool_decide_eq_true_2.
    - constructor.
    - by intros x Hx%elem_of_nil.
    - by intros x b Hx%elem_of_nil. }
  unfold node_at in Hrun. munfold. destruct (nodes h !! n) as [nd|] eqn:Hnd; [|done].
  rewrite list_remove_filter in Hrun by done.
  assert (∀ p', NoDup p' → NoDup (n :: filter (λ y, y ≠ n) p')) as Hd1.
  { intros p' Hp'. apply NoDup_cons. split; [|by apply NoDup_filter].
    by intros [? _]%list_elem_of_filter. }
  destruct (loop_law (collect fuel)) with (ports := dict_values (_inputs nd))
    (q := n :: filter (λ y, y ≠ n) p) (r := r)
    as (o' & Hm & Hd & Hin & Hs & Hsrc); [|by apply Hd1|done|].
  { intros m q r' Hq Hr'. destruct (IH m q r' Hq Hr') as (o & Hm & Hd & Hin & Hs & Hlast).
    exists o. split_and!; try done. intros Hm'. apply Hlast in Hm'.
    apply last_Some in Hm' as [o' ->]. apply elem_of_app. right. left. }
  assert (n ∉ o') as Hn.
  { intros Hn. destruct (Hin n Hn) as (_ & port & src & k & Hport & Hsrc' & Hreach).
    eapply (returns_no_cycle (S fuel) n p r k); [exact Hrun0|].
    eapply reaches_step; [|exact Hreach]. split; [done|]. by exists nd, port, src. }
  exists (o' ++ [n]). split_and!.
  - intros p' Hp'. cbn [collect_predecessors]. rewrite bool_decide_eq_false_2 by done.
    unfold node_at. munfold. rewrite Hnd. rewrite list_remove_filter by done.
    rewrite (Hm _ (Hd1 p' Hp')). rewrite filter_cons_True by done.
    rewrite list_filter_filter. rewrite <- app_assoc. cbn [app]. do 3 f_equal.
    apply list_filter_iff. intros x. rewrite elem_of_app, list_elem_of_singleton. tauto.
  - apply NoDup_app. split_and!; [done| |apply NoDup_singleton].
    intros x Hx ->%list_elem_of_singleton. done.
  - intros x [Hx| ->%list_elem_of_singleton]%elem_of_app.
    + destruct (Hin x Hx) as (Hex' & port & src & k & Hport & Hsrc' & Hreach).
      split; [done|]. exists (S k). eapply reaches_step; [|exact Hreach].
      split; [done|]. by exists nd, port, src.
    + split; [done|]. exists O. constructor.
  - intros x b [Hx| ->%list_elem_of_singleton]%elem_of_app Hread Hb.
    + apply before_app_l. by apply Hs.
    + apply before_app; [|left].
      destruct Hread as (_ & nd' & port & src & Hnd' & Hport & Hsrc' & <-).
      assert (nd' = nd) as -> by congruence. by eapply Hsrc.
  - intros _. by rewrite last_snoc.
Qed.

End collect.

(** X16.  Whenever [find_steps_to_compute] returns for the id of a step,
    it returns a list without duplicates that ends with that step and does
    not hold the workflow; every listed node is the step or is reached from
    it by following the bindings of inputs, and stands behind every node
    (other than the workflow) that one of its inputs is bound to: the list
    is an execution order for the step. *)
Theorem find_steps_to_compute_order (fuel : nat) (h : heap) (self step : nat) (nd : Node)
    (step_id : string) (r : list nat)
    (Hnd : nodes h !! self = Some nd)
    (Hstep : _steps_dict nd !! step_id = Some step)
    (Hne : step ≠ self)
    (Hrun : find_steps_to_compute fuel h self step_id = Ok r) :
  NoDup r
  ∧ last r = Some step
  ∧ (self ∉ r)
  ∧ (∀ x, x ∈ r → ∃ k, reaches h [self] k step x)
  ∧ ∀ x xnd port src,
      x ∈ r → nodes h !! x = Some xnd → port ∈ dict_values (_inputs xnd) →
      _source port = Some src → port_node src ≠ self →
      before r (port_node src) x.
Proof.
  unfold find_steps_to_compute, node_at in Hrun. munfold. rewrite Hnd, Hstep in Hrun.
  destruct (visit_law h [self] fuel step [] r (NoDup_nil_2) Hrun)
    as (o & Hm & Hd & Hin & Hs & Hlast).
  pose proof (Hm [] (NoDup_nil_2)) as Hr. rewrite Hrun in Hr. injection Hr as ->.
  cbn [filter list_filter]. rewrite app_nil_r. split_and!.
  - done.
  - apply Hlast. by intros ?%list_elem_of_singleton.
  - intros Hself. destruct (Hin self Hself) as [Hex _]. apply Hex. left.
  - intros x Hx. by destruct (Hin x Hx).
  - intros x xnd port src Hx Hxnd Hport Hsrc Hsrc'. apply Hs; [done| |].
    + split; [by destruct (Hin x Hx)|]. by exists xnd, port, src.
    + by intros ?%list_elem_of_singleton.
Qed.

Lemma find_steps_to_compute_order_witness :
  let r := [1; 3; 2; 4]%nat in
  find_steps_to_compute 5 diamond_store 0 "D" = Ok r
  ∧ NoDup r
  ∧ last r = Some 4%nat
  ∧ (0%nat ∉ r)
  ∧ (∀ x, x ∈ r → ∃ k, reaches diamond_store [0%nat] k 4 x)
  ∧ ∀ x xnd port src,
      x ∈ r → nodes diamond_store !! x = Some xnd → port ∈ dict_values (_inputs xnd) →
      _source port = Some src → port_node src ≠ 0%nat →
      before r (port_node src) x.
Proof.
  split; [reflexivity|].
  apply (find_steps_to_compute_order 5 diamond_store 0 4
           (a_workflow 0 "wf" (unbound_ports ["x"]) [("y", bound "D" (PortRef 4 true "return"))]
              [("A", 1%nat); ("B", 2%nat); ("C", 3%nat); ("D", 4%nat)]) "D");
    [reflexivity|reflexivity|discriminate|reflexivity].
Defined.

(** X17.  [find_steps_to_compute] has no guard against cycles: when the
    step reaches, along the bindings of inputs and without passing through
    the workflow, a node that reaches itself, the call does not return a
    list, whatever the recursion limit is. *)
Theorem find_steps_to_compute_cycle (fuel : nat) (h : heap) (self step x : nat) (nd : Node)
    (step_id : string) (j k : nat)
    (Hnd : nodes h !! self = Some nd)
    (Hstep : _steps_dict nd !! step_id = Some step)
    (Hreach : reaches h [self] j step x)
    (Hcycle : reaches h [self] (S k) x x) :
  ∃ e, find_steps_to_compute fuel h self step_id = Raise e.
Proof.
  destruct (find_steps_to_compute fuel h self step_id) as [r|e] eqn:Hrun; [|by exists e].
  exfalso. unfold find_steps_to_compute, node_at in Hrun. munfold.
  rewrite Hnd, Hstep in Hrun.
  destruct (returns_reaches h [self] j _ _ _ _ _ Hrun Hreach) as [_ (p' & r' & Hrun')].
  by eapply returns_no_cycle.
Qed.

Lemma find_steps_to_compute_cycle_witness :
  ∃ e, find_steps_to_compute 1000 cycle_store 0 "a" = Raise e.
Proof.
  assert (reads_from cycle_store [0%nat] 1 2) as H12.
  { split; [by intros ?%list_elem_of_singleton|].
    eexists _, _, _. split; [reflexivity|]. split; [left|]. split; reflexivity. }
  assert (reads_from cycle_store [0%nat] 2 1) as H21.
  { split; [by intros ?%list_elem_of_singleton|].
    eexists _, _, _. split; [reflexivity|]. split; [left|]. split; reflexivity. }
  apply (find_steps_to_compute_cycle 1000 cycle_store 0 1 1
           (a_workflow 0 "wf" [] [] [("a", 1%nat); ("b", 2%nat)]) "a" 0 1);
    [reflexivity|reflexivity|constructor|].
  eapply reaches_step; [exact H12|]. eapply reaches_step; [exact H21|]. constructor.
Defined.

(** ** References without node id *)

Lemma find_port_name node nd name q : find_port node nd name = Some q → port_name q = name.
Proof.
  unfold find_port. destruct (dict_in name (_outputs nd)); [by intros [= <-]|].
  destruct (dict_in name (_inputs nd)); [by intros [= <-]|done].
Qed.

Lemma find_port_port_at h node nd name q :
  nodes h !! node = Some nd → find_port node nd name = Some q →
  port_node q = node ∧ ∃ x, port_at h q = Ok x.
Proof.
  intros Hnd. unfold find_port.
  destruct (dict_in name (_outputs nd)) eqn:Eo.
  - intros [= <-]. split; [done|]. apply dict_in_true in Eo as [x Hx]. exists x.
    apply port_at_Ok. by exists nd.
  - destruct (dict_in name (_inputs nd)) eqn:Ei; [|done].
    intros [= <-]. split; [done|]. apply dict_in_true in Ei as [x Hx]. exists x.
    apply port_at_Ok. by exists nd.
Qed.

(** X18.  A reference of the form [".<name>"] is resolved in the scope of
    the port: the node of the port is searched first, outputs before
    inputs, then its parent.  So a port found on the node itself wins over
    one of the parent; when the port found is the resolving port itself
    (an input ["x"] read from [".x"] on a node without output ["x"]), the
    source setter raises the self-binding [ValueError] although the parent
    has a port of that name; when the node has no such port, the port of
    the parent is bound; and a node without such a port and without parent
    raises the [ValueError] of the scope search.  A failed call changes
    nothing; a successful one changes the resolving port only. *)
Theorem update_source_in_scope (h : heap) (p : port_ref) (port : NodePort) (nd : Node)
    (name : string)
    (Hport : port_at h p = Ok port)
    (Hnd : nodes h !! port_node p = Some nd)
    (Href : _source_ref port = Some (PlainPair None (Some name)))
    (Hname : name ≠ "") :
  match find_port (port_node p) nd name with
  | Some q =>
      if decide (q = p) then update_source p h = (Raise (ValueError SelfBinding), h)
      else ∃ h', update_source p h = (Ok (), h')
             ∧ port_at h' p = Ok (mkPort (Some (SourceRef (_id nd) name)) (Some q) VUndefined)
             ∧ ∀ q', q' ≠ p → port_at h' q' = port_at h q'
  | None =>
      match parent_node nd with
      | None => update_source p h = (Raise (ValueError UnknownPortInScope), h)
      | Some parent =>
          ∀ pnd q, nodes h !! parent = Some pnd → find_port parent pnd name = Some q →
            ∃ h', update_source p h = (Ok (), h')
              ∧ port_at h' p
                = Ok (mkPort (Some (SourceRef (_id pnd) name)) (Some q) VUndefined)
              ∧ ∀ q', q' ≠ p → port_at h' q' = port_at h q'
      end
  end.
Proof.
  assert (0 < length (nodes h))%nat as Hlen.
  { apply lookup_lt_Some in Hnd. lia. }
  assert (given (Some name) = Some name) as Hgiven.
  { unfold given, truthy_str. by rewrite bool_decide_eq_false_2. }
  rewrite (update_source_target h p port Hport), Href. unfold target.
  cbn [unpack_ref fst snd]. rewrite Hgiven. cbn [given].
  destruct (length (nodes h)) as [|len] eqn:El; [lia|].
  cbn [find_port_in_scope]. unfold node_at. munfold. rewrite Hnd.
  destruct (find_port (port_node p) nd name) as [q|] eqn:Hfind.
  - destruct (decide (q = p)) as [->|Hne]; [apply set_source_self|].
    destruct (find_port_port_at h _ _ _ _ Hnd Hfind) as [Hq [x Hx]].
    destruct (set_source_spec h p q port x Hport Hne Hx) as (h' & qnd & Hrun & Hqnd & _ & Hp & Hothers).
    exists h'. split; [done|]. split; [|done]. rewrite Hp.
    rewrite (find_port_name _ _ _ _ Hfind). rewrite Hq in Hqnd. by simplify_eq.
  - destruct (parent_node nd) as [parent|] eqn:Hparent; [|done].
    intros pnd q Hpnd Hfind'. rewrite Hpnd, Hfind'.
    destruct (find_port_port_at h _ _ _ _ Hpnd Hfind') as [Hq [x Hx]].
    assert (q ≠ p) as Hne.
    { intros ->. rewrite Hq in Hnd. simplify_eq. }
    destruct (set_source_spec h p q port x Hport Hne Hx) as (h' & qnd & Hrun & Hqnd & _ & Hp & Hothers).
    exists h'. split; [done|]. split; [|done]. rewrite Hp.
    rewrite (find_port_name _ _ _ _ Hfind'). rewrite Hq in Hqnd. by simplify_eq.
Qed.

Lemma update_source_in_scope_witness :
  update_source (PortRef 1 false "x") scope_store
    = (Raise (ValueError SelfBinding), scope_store)
  ∧ ∃ h', update_source (PortRef 1 false "y") scope_store = (Ok (), h')
      ∧ port_at h' (PortRef 1 false "y")
        = Ok (mkPort (Some (SourceRef "s" "x")) (Some (PortRef 1 false "x")) VUndefined)
      ∧ ∀ q', q' ≠ PortRef 1 false "y" → port_at h' q' = port_at scope_store q'.
Proof.
  split.
  - apply (update_source_in_scope scope_store (PortRef 1 false "x")
             (mkPort (Some (PlainPair None (Some "x"))) None VUndefined)
             (a_step 1 "s" [("x", mkPort (Some (PlainPair None (Some "x"))) None VUndefined);
                            ("y", mkPort (Some (PlainPair None (Some "x"))) None VUndefined)]
                (unbound_ports ["return"]) (Some 0%nat)) "x");
      [reflexivity|reflexivity|reflexivity|discriminate].
  - apply (update_source_in_scope scope_store (PortRef 1 false "y")
             (mkPort (Some (PlainPair None (Some "x"))) None VUndefined)
             (a_step 1 "s" [("x", mkPort (Some (PlainPair None (Some "x"))) None VUndefined);
                            ("y", mkPort (Some (PlainPair None (Some "x"))) None VUndefined)]
                (unbound_ports ["return"]) (Some 0%nat)) "x");
      [reflexivity|reflexivity|reflexivity|discriminate].
Defined.

(** ** A return value that cannot be stored *)

(** X19.  [_invoke_impl] writes the return value to the cache before it
    stores it in the output ports.  When an operation with named outputs
    returns a value without [items] (say a number), the invocation raises
    [AttributeError] after the operation was called and its value cached:
    the store is unchanged, the cache holds the value under the step's id,
    and a further invocation with that cache raises again without calling
    the operation. *)
Theorem unstorable_value_stays_cached
    (safe_eval : string → context → outcome pyval)
    (_op : nat → list (string * pyval) → outcome pyval)
    (fuel self : nat) (ctx : context) (rs : run_state)
    (nd : Node) (mi : OpMetaInfo) (args : list (string * pyval)) (r : pyval)
    (Hnd : nodes (store rs) !! self = Some nd)
    (Hmi : metas (store rs) !! _op_meta_info nd = Some mi)
    (Hargs : op_arguments safe_eval fuel (store rs) self nd mi ctx = Ok args)
    (Hcan : can_cache mi = true)
    (Hctx : has_value_cache ctx = true)
    (Hnamed : has_named_outputs mi = true)
    (Hmiss : dict_get (_id nd) (items (value_cache rs).1) = None
             ∨ dict_get (_id nd) (items (value_cache rs).1) = Some VUndefined)
    (Hop : _op self args = Ok r)
    (Hr : has_no_items r = true) :
  ∃ c', let rs' := RunState (store rs) c' (calls rs ++ [(self, args)]) in
    _invoke_impl safe_eval _op fuel self ctx rs = (Raise (AttributeError "items"), rs')
    ∧ dict_get (_id nd) (items c'.1) = Some r
    ∧ _invoke_impl safe_eval _op fuel self ctx rs' = (Raise (AttributeError "items"), rs').
Proof.
  destruct rs as [h [cache tr] cl]. simpl in *.
  destruct (setitem_total (_id nd) r (cache, tr)) as ([c' tr'] & Hset & Hget).
  simpl in Hget.
  assert (∀ g, store_outputs self mi r g = (Raise (AttributeError "items"), g)) as Hstore.
  { intros g. unfold store_outputs. rewrite Hnamed. by destruct r. }
  assert (is_undefined r = false) as Hdef by by destruct r.
  exists (c', tr'). cbv zeta.
  unfold _invoke_impl, _get_value_cache.
  unfold mbind, M_bind, on_store, query, get_node, node_at, meta_at. simpl.
  rewrite Hnd. simpl. rewrite Hmi. simpl. rewrite Hargs. simpl. rewrite Hcan, Hctx.
  split; [|split; [done|]].
  - destruct Hmiss as [-> | ->]; simpl; unfold call_op, on_cache; simpl;
      rewrite Hop, Hset; simpl; by rewrite Hstore.
  - rewrite Hget, Hdef. simpl. by rewrite Hstore.
Qed.

Lemma unstorable_value_stays_cached_witness :
  let rs := RunState named_outputs_store (new_cache, []) [] in
  ∃ c', let rs' := RunState named_outputs_store c' [(1%nat, [("x", VInt 3)])] in
    _invoke_impl no_eval double_op 10 1 caching_context rs
      = (Raise (AttributeError "items"), rs')
    ∧ dict_get "pair" (items c'.1) = Some (VInt 6)
    ∧ _invoke_impl no_eval double_op 10 1 caching_context rs'
      = (Raise (AttributeError "items"), rs').
Proof.
  apply (unstorable_value_stays_cached no_eval double_op 10 1 caching_context
           (RunState named_outputs_store (new_cache, []) [])
           (a_step 1 "pair" [("x", mkPort None None (VInt 3))] (unbound_ports ["a"; "b"])
              (Some 0%nat))
           (meta_of (a_step 1 "pair" [("x", mkPort None None (VInt 3))]
                       (unbound_ports ["a"; "b"]) (Some 0%nat)))
           [("x", VInt 3)] (VInt 6));
    first [reflexivity | by left].
Defined.

(** ** Context values *)

Section context_values.
Variable safe_eval : string → context → outcome pyval.

Lemma _set_context_values_other ctx meta_inputs input_values name :
  dict_get name meta_inputs = None →
  dict_get name (_set_context_values safe_eval ctx meta_inputs input_values)
    = dict_get name input_values.
Proof.
  revert input_values. induction meta_inputs as [|[k props] rest IH]; intros vals Hget; [done|].
  cbn [dict_get] in Hget. cbn [_set_context_values].
  destruct (decide (k = name)) as [->|Hne]; [done|].
  rewrite (IH _ Hget).
  assert (∀ w, dict_get name (dict_set k w vals) = dict_get name vals) as Hset.
  { intros w. by apply dict_get_set_ne. }
  destruct (dict_get "context" props) as [v|]; [|done].
  destruct v; try (destruct (truthy _)); rewrite ?Hset; try done.
  destruct (safe_eval s ctx); by rewrite Hset.
Qed.

End context_values.

(** X20.  Context values take precedence over port values.  For an input
    that the meta-information declares, the keyword argument after
    [_set_context_values] is: the value of the expression when the
    ["context"] property is a text, [None] when evaluating it raises; the
    context itself when the property is any other true value; and the value
    collected from the port, if any, otherwise.  Arguments of names the
    meta-information does not declare are left as collected. *)
Theorem context_values_take_precedence
    (safe_eval : string → context → outcome pyval) (ctx : context)
    (meta_inputs : list (string * list (string * pyval)))
    (input_values : list (string * pyval)) (name : string)
    (Hkeys : NoDup (dict_keys meta_inputs)) :
  dict_get name (_set_context_values safe_eval ctx meta_inputs input_values)
  = match dict_get name meta_inputs with
    | Some input_props =>
        match dict_get "context" input_props with
        | Some (VStr expression) =>
            match safe_eval expression ctx with
            | Ok v => Some v
            | Raise _ => Some VNone
            end
        | Some context_property_value =>
            if truthy context_property_value then Some (context_value ctx)
            else dict_get name input_values
        | None => dict_get name input_values
        end
    | None => dict_get name input_values
    end.
Proof.
  revert input_values. induction meta_inputs as [|[k props] rest IH]; intros vals; [done|].
  apply NoDup_cons in Hkeys as [Hk Hkeys]. cbn [dict_get _set_context_values].
  destruct (decide (k = name)) as [->|Hne].
  - rewrite _set_context_values_other by by apply dict_get_None_keys.
    destruct (dict_get "context" props) as [v|]; [|done].
    destruct v; try (destruct (truthy _)); rewrite ?dict_get_set_eq; try done.
    destruct (safe_eval s ctx); by rewrite dict_get_set_eq.
  - rewrite (IH Hkeys).
    assert (∀ w, dict_get name (dict_set k w vals) = dict_get name vals) as Hset.
    { intros w. by apply dict_get_set_ne. }
    destruct (dict_get name rest) as [p|]; destruct (dict_get "context" props) as [v|];
      try done; destruct v; try (destruct (truthy _)); rewrite ?Hset; try done;
      destruct (safe_eval s ctx); by rewrite Hset.
Qed.

Lemma context_values_take_precedence_witness :
  dict_get "x" (_set_context_values no_eval caching_context
                  [("x", [("context", VStr "value_cache")]); ("y", [])]
                  [("x", VInt 3); ("y", VInt 4)])
  = Some VNone.
Proof.
  apply (context_values_take_precedence no_eval caching_context
           [("x", [("context", VStr "value_cache")]); ("y", [])]
           [("x", VInt 3); ("y", VInt 4)] "x").
  unfold dict_keys. cbn [fmap list_fmap fst]. by apply (bool_decide_unpack _).
Defined.

(** ** Input values in, output value out *)

Lemma for_each_app {S A} (l1 l2 : list A) (body : A → M S unit) s :
  for_each (l1 ++ l2) body s
  = match for_each l1 body s with
    | (Ok _, s1) => for_each l2 body s1
    | (Raise e, s1) => (Raise e, s1)
    end.
Proof.
  revert s. induction l1 as [|x l1 IH]; intros s; [done|].
  cbn [app for_each]. munfold. destruct (body x s) as [[[]|e] s1]; [apply IH|done].
Qed.

Lemma set_inputs_loop self input_values (names : list string) : ∀ h,
  (∀ name, name ∈ names → ∃ x, port_at h (PortRef self false name) = Ok x) →
  (∀ name, name ∈ names → is_Some (dict_get name input_values)) →
  ∃ h', for_each ((λ name, PortRef self false name) <$> names) (λ node_input,
          match dict_get (port_name node_input) input_values with
          | Some v => set_value node_input v
          | None => raise (KeyError (port_name node_input))
          end) h = (Ok (), h')
    ∧ same_shape h h'
    ∧ (∀ name v, name ∈ names → dict_get name input_values = Some v →
         port_at h' (PortRef self false name) = Ok (mkPort None None v))
    ∧ ∀ q, (q ∉ (λ name, PortRef self false name) <$> names) → port_at h' q = port_at h q.
Proof.
  induction names as [|name rest IH]; intros h Hports Hvals.
  - exists h. split; [done|]. split; [done|]. split; [|done]. by intros ? ? ?%elem_of_nil.
  - destruct (Hports name) as [x Hx]; [left|].
    destruct (Hvals name) as [v Hv]; [left|].
    destruct (set_value_spec h _ v x Hx) as (h1 & Hrun1 & Hshape1 & Hp1 & Hothers1).
    destruct (IH h1) as (h' & Hrun & Hshape & Hset & Hothers).
    { intros n Hn. destruct (decide (n = name)) as [->|Hne]; [eauto|].
      rewrite Hothers1 by congruence. apply Hports. by right. }
    { intros n Hn. apply Hvals. by right. }
    exists h'. split; [|split; [|split]].
    + cbn [fmap list_fmap for_each]. munfold. cbn [port_name]. rewrite Hv, Hrun1. exact Hrun.
    + by eapply same_shape_trans.
    + intros n w Hn Hw. destruct (decide (n ∈ rest)) as [Hin|Hnin]; [by apply Hset|].
      apply elem_of_cons in Hn as [->|Hn]; [|done].
      rewrite Hothers.
      * rewrite Hp1. congruence.
      * intros (n' & [= ->] & Hn')%list_elem_of_fmap. done.
    + intros q Hq. apply not_elem_of_cons in Hq as [Hq1 Hq2].
      rewrite Hothers by done. by apply Hothers1.
Qed.

(** X21.  [set_input_values] assigns the inputs one by one, in the order of
    the inputs, and is not atomic.  When [input_values] has an entry for
    every input, each input afterwards holds its entry as a literal value
    and has lost its source; no other port changes.  When the first input
    without an entry comes after the inputs [assigned], the call raises
    [KeyError] for it, and the inputs in [assigned] have been overwritten
    all the same. *)
Theorem set_input_values_assigns (h : heap) (self : nat) (nd : Node)
    (input_values : list (string * pyval)) (assigned : list string)
    (Hnd : nodes h !! self = Some nd)
    (Hassigned : ∀ name, name ∈ assigned → is_Some (dict_get name input_values)) :
  (dict_keys (_inputs nd) = assigned →
     ∃ h', set_input_values self input_values h = (Ok (), h')
       ∧ same_shape h h'
       ∧ (∀ name v, name ∈ assigned → dict_get name input_values = Some v →
            port_at h' (PortRef self false name) = Ok (mkPort None None v))
       ∧ ∀ q, (q ∉ input_ports self nd) → port_at h' q = port_at h q)
  ∧ (∀ missing rest,
       dict_keys (_inputs nd) = assigned ++ missing :: rest →
       dict_get missing input_values = None →
       ∃ h', set_input_values self input_values h = (Raise (KeyError missing), h')
         ∧ same_shape h h'
         ∧ (∀ name v, name ∈ assigned → dict_get name input_values = Some v →
              port_at h' (PortRef self false name) = Ok (mkPort None None v))
         ∧ ∀ q, (q ∉ (λ name, PortRef self false name) <$> assigned) →
             port_at h' q = port_at h q).
Proof.
  assert (∀ name, name ∈ dict_keys (_inputs nd) →
            ∃ x, port_at h (PortRef self false name) = Ok x) as Hports.
  { intros name [x Hx]%dict_get_is_Some_keys. exists x. apply port_at_Ok. by exists nd. }
  unfold set_input_values, input_ports, mbind, M_bind. rewrite (get_node_run _ _ _ Hnd).
  split.
  - intros Hkeys. rewrite Hkeys in *. by apply set_inputs_loop.
  - intros missing rest Hkeys Hmiss. rewrite Hkeys in *.
    destruct (set_inputs_loop self input_values assigned h) as (h' & Hrun & Hrest).
    { intros n Hn. apply Hports. apply elem_of_app. by left. }
    { done. }
    exists h'. split; [|done].
    rewrite fmap_app, for_each_app, Hrun. cbn [fmap list_fmap for_each].
    unfold mbind, M_bind, raise. cbn [port_name]. by rewrite Hmiss.
Qed.

Lemma set_input_values_assigns_witness :
  (* an entry for x only: x is overwritten and unbound before y fails *)
  ∃ h', set_input_values 1 [("x", VInt 3)] two_inputs_store = (Raise (KeyError "y"), h')
    ∧ same_shape two_inputs_store h'
    ∧ (∀ name v, name ∈ ["x"] → dict_get name [("x", VInt 3)] = Some v →
         port_at h' (PortRef 1 false name) = Ok (mkPort None None v))
    ∧ ∀ q, (q ∉ (λ name, PortRef 1 false name) <$> ["x"]) →
        port_at h' q = port_at two_inputs_store q.
Proof.
  refine (proj2 (set_input_values_assigns two_inputs_store 1
           (a_step 1 "double" [("x", bound "wf" (PortRef 0 false "x")); ("y", new_port)]
              (unbound_ports ["return"]) (Some 0%nat))
           [("x", VInt 3)] ["x"] eq_refl _) "y" [] eq_refl eq_refl).
  intros name ->%list_elem_of_singleton. by eexists.
Defined.

Section call.
Variable safe_eval : string → context → outcome pyval.
Variable _op : nat → list (string * pyval) → outcome pyval.

Lemma collect_literals fuel h self input_values (names : list string) : ∀ acc,
  (∀ name, name ∈ names → ∃ v, dict_get name input_values = Some v
                                ∧ port_at h (PortRef self false name) = Ok (mkPort None None v)) →
  collect_input_values (S fuel) h self names acc
    = Ok (given_arguments names input_values acc).
Proof.
  induction names as [|name rest IH]; intros acc Hports; [done|].
  destruct (Hports name) as (v & Hv & Hport); [left|].
  cbn [collect_input_values given_arguments has_value value]. munfold.
  rewrite Hport, Hv. cbn [_source _value].
  destruct (is_undefined v); cbn [negb]; apply IH; intros n Hn; apply Hports; by right.
Qed.

End call.

(** X22.  The steps 3 to 5 of [call] on an operation step with the single
    output ["return"], without cache: after [set_input_values] with an
    entry for every input, [_invoke_impl] calls the operation once, with
    exactly the given values (those that are [UNDEFINED] left out, context
    values put over them), and [get_output_value] then returns what the
    operation returned, [None] in place of [UNDEFINED]. *)
Theorem set_invoke_get
    (safe_eval : string → context → outcome pyval)
    (_op : nat → list (string * pyval) → outcome pyval)
    (fuel self : nat) (ctx : context) (rs : run_state)
    (nd : Node) (mi : OpMetaInfo) (input_values : list (string * pyval)) (r : pyval)
    (Hnd : nodes (store rs) !! self = Some nd)
    (Hmi : metas (store rs) !! _op_meta_info nd = Some mi)
    (Hvalues : ∀ name, name ∈ dict_keys (_inputs nd) → is_Some (dict_get name input_values))
    (Hnocache : _get_value_cache mi ctx = false)
    (Hunnamed : has_named_outputs mi = false)
    (Hreturn : dict_in RETURN_OUTPUT_NAME (_outputs nd) = true)
    (Hop : _op self (_set_context_values safe_eval ctx (inputs mi)
                       (given_arguments (dict_keys (_inputs nd)) input_values [])) = Ok r) :
  ∃ rs',
    (on_store (set_input_values self input_values) ≫= λ _,
     _invoke_impl safe_eval _op (S fuel) self ctx) rs = (Ok (), rs')
    ∧ calls rs' = calls rs ++ [(self, _set_context_values safe_eval ctx (inputs mi)
                                        (given_arguments (dict_keys (_inputs nd)) input_values []))]
    ∧ value_cache rs' = value_cache rs
    ∧ get_output_value (S fuel) (store rs') self = Ok (if is_undefined r then VNone else r).
Proof.
  destruct rs as [h [cache tr] cl]. cbn [store value_cache calls] in *.
  assert (∃ h1, set_input_values self input_values h = (Ok (), h1)
            ∧ same_shape h h1
            ∧ (∀ name v, name ∈ dict_keys (_inputs nd) → dict_get name input_values = Some v →
                 port_at h1 (PortRef self false name) = Ok (mkPort None None v))
            ∧ ∀ q, (q ∉ input_ports self nd) → port_at h1 q = port_at h q)
    as (h1 & Hrun1 & Hshape1 & Hassigned & Hothers1).
  { unfold set_input_values, input_ports, mbind, M_bind. rewrite (get_node_run _ _ _ Hnd).
    apply set_inputs_loop; [|done].
    intros name [x Hx]%dict_get_is_Some_keys. exists x. apply port_at_Ok. by exists nd. }
  destruct (same_shape_node _ _ _ _ Hshape1 Hnd) as (nd1 & Hnd1 & Herase).
  assert (metas h1 = metas h) as Hmetas.
  { unfold same_shape, erase in Hshape1. by injection Hshape1. }
  injection Herase as _ Hid Hmeta _ Hins Houts _ _ _.
  apply erase_ports_keys in Hins, Houts.
  assert (op_arguments safe_eval (S fuel) h1 self nd1 mi ctx
          = Ok (_set_context_values safe_eval ctx (inputs mi)
                  (given_arguments (dict_keys (_inputs nd)) input_values []))) as Hargs.
  { unfold op_arguments. rewrite Hins.
    rewrite (collect_literals fuel h1 self input_values); [done|].
    intros name Hname. destruct (Hvalues name Hname) as [v Hv]. exists v. split; [done|].
    by apply Hassigned. }
  assert (∃ x, port_at h1 (PortRef self true RETURN_OUTPUT_NAME) = Ok x) as [x Hx].
  { apply dict_in_true in Hreturn as [x Hx]. exists x. rewrite Hothers1.
    - apply port_at_Ok. by exists nd.
    - by intros (? & [=] & _)%list_elem_of_fmap. }
  destruct (set_value_spec h1 _ r x Hx) as (h2 & Hrun2 & Hshape2 & Hp2 & Hothers2).
  destruct (same_shape_node _ _ _ _ Hshape2 Hnd1) as (nd2 & Hnd2 & Herase2).
  assert (metas h2 = metas h1) as Hmetas2.
  { unfold same_shape, erase in Hshape2. by injection Hshape2. }
  injection Herase2 as _ _ Hmeta2 _ _ Houts2 _ _ _.
  apply erase_ports_keys in Houts2.
  assert (dict_in RETURN_OUTPUT_NAME (_outputs nd1) = true) as Hreturn1.
  { rewrite dict_in_keys, Houts, <- dict_in_keys. done. }
  assert (dict_in RETURN_OUTPUT_NAME (_outputs nd2) = true) as Hreturn2.
  { rewrite dict_in_keys, Houts2, <- dict_in_keys. done. }
  exists (RunState h2 (cache, tr) (cl ++ [(self, _set_context_values safe_eval ctx (inputs mi)
                                   (given_arguments (dict_keys (_inputs nd)) input_values []))])).
  split; [|split; [done|split; [done|]]].
  - unfold mbind at 1, M_bind at 1. unfold on_store at 1. simpl.
    rewrite Hrun1. unfold _invoke_impl.
    unfold mbind, M_bind, on_store, query, get_node, node_at, meta_at. simpl.
    rewrite Hnd1. simpl. rewrite Hmeta, Hmetas, Hmi. simpl.
    rewrite Hargs. simpl. rewrite Hnocache. simpl. unfold call_op. simpl. rewrite Hop. simpl.
    unfold store_outputs. rewrite Hunnamed. unfold set_output.
    unfold mbind, M_bind. rewrite (get_node_run _ _ _ Hnd1), Hreturn1, Hrun2.
    done.
  - simpl. unfold get_output_value, node_at, meta_at. munfold.
    rewrite Hnd2. simpl. rewrite Hmeta2, Hmeta, Hmetas2, Hmetas, Hmi. simpl.
    rewrite Hunnamed, Hreturn2. munfold. rewrite Hp2. done.
Qed.

Lemma set_invoke_get_witness :
  ∃ rs',
    (on_store (set_input_values 1 [("x", VInt 4)]) ≫= λ _,
     _invoke_impl no_eval double_op 1 1 (Context false VNone)) fresh_run = (Ok (), rs')
    ∧ calls rs' = [(1%nat, [("x", VInt 4)])]
    ∧ value_cache rs' = (new_cache, [])
    ∧ get_output_value 1 (store rs') 1 = Ok (VInt 8).
Proof.
  apply (set_invoke_get no_eval double_op 0 1 (Context false VNone) fresh_run
           (a_step 1 "double" [("x", mkPort None None (VInt 3))] (unbound_ports ["return"])
              (Some 0%nat))
           (meta_of (a_step 1 "double" [("x", mkPort None None (VInt 3))]
                       (unbound_ports ["return"]) (Some 0%nat)))
           [("x", VInt 4)] (VInt 8)); try reflexivity.
  intros name ->%list_elem_of_singleton. by eexists.
Defined.

(** ** Renaming a node *)

Lemma find_port_like changed cnd cnd' name :
  like cnd cnd' → find_port changed cnd' name = find_port changed cnd name.
Proof.
  intros (_ & Hi & Ho). unfold find_port. by rewrite !dict_in_keys, Hi, Ho.
Qed.

Lemma renamed_like changed cnd cnd' old_id port :
  like cnd cnd' → renamed changed cnd' old_id port = renamed changed cnd old_id port.
Proof.
  intros Hlike. unfold renamed. destruct (_source_ref port) as [[? ?|i name]|]; try done.
  rewrite (find_port_like _ _ _ _ Hlike). destruct Hlike as (-> & _). done.
Qed.

Lemma renamable_like changed cnd cnd' old_id p port :
  like cnd cnd' → renamable changed cnd old_id p port → renamable changed cnd' old_id p port.
Proof.
  intros Hlike. unfold renamable. destruct (_source_ref port) as [[? ?|i name]|]; try done.
  by rewrite (find_port_like _ _ _ _ Hlike).
Qed.

Lemma like_erase nd nd' : erase_node nd' = erase_node nd → like nd nd'.
Proof.
  unfold erase_node. intros [= _ Hid _ _ Hi Ho _ _ _].
  apply erase_ports_keys in Hi, Ho. done.
Qed.

Lemma like_trans nd1 nd2 nd3 : like nd1 nd2 → like nd2 nd3 → like nd1 nd3.
Proof. unfold like. intros (-> & -> & ->) (-> & -> & ->). done. Qed.

Lemma renamed_renamed changed cnd old_id port :
  _id cnd ≠ old_id →
  renamed changed cnd old_id (renamed changed cnd old_id port) = renamed changed cnd old_id port.
Proof.
  intros Hne. unfold renamed at 2 3.
  destruct (_source_ref port) as [[? ?|i name]|] eqn:E.
  - unfold renamed. by rewrite E.
  - destruct (decide (i = old_id)) as [->|Hi].
    + destruct (find_port changed cnd name); [|done].
      unfold renamed. cbn [_source_ref]. by rewrite decide_False.
    + unfold renamed. rewrite E. by rewrite decide_False.
  - unfold renamed. by rewrite E.
Qed.

Lemma renamable_renamed changed cnd old_id p port :
  _id cnd ≠ old_id → renamable changed cnd old_id p port →
  renamable changed cnd old_id p (renamed changed cnd old_id port).
Proof.
  intros Hne. unfold renamable at 1, renamed.
  destruct (_source_ref port) as [[? ?|i name]|] eqn:E; [done| |].
  - intros Hp. destruct (decide (i = old_id)) as [->|Hi].
    + destruct (find_port changed cnd name); [|done].
      unfold renamable. cbn [_source_ref]. intros ?. done.
    + unfold renamable. by rewrite E.
  - intros _. unfold renamable. by rewrite E.
Qed.

Lemma ports_renamed_nil changed cnd old_id h : ports_renamed changed cnd old_id [] h h.
Proof. intros q port Hq. by rewrite bool_decide_eq_false_2 by apply not_elem_of_nil. Qed.

Lemma ports_renamed_app changed cnd old_id l1 l2 h h1 h2 :
  _id cnd ≠ old_id →
  ports_renamed changed cnd old_id l1 h h1 → ports_renamed changed cnd old_id l2 h1 h2 →
  ports_renamed changed cnd old_id (l1 ++ l2) h h2.
Proof.
  intros Hne H1 H2 q port Hq. rewrite (H2 _ _ (H1 _ _ Hq)). f_equal.
  destruct (decide (q ∈ l1)) as [Hq1|Hq1]; destruct (decide (q ∈ l2)) as [Hq2|Hq2].
  - rewrite !bool_decide_eq_true_2; [by apply renamed_renamed|set_solver..].
  - rewrite (bool_decide_eq_false_2 (q ∈ l2)) by done.
    rewrite !bool_decide_eq_true_2; [done|set_solver..].
  - rewrite (bool_decide_eq_false_2 (q ∈ l1)) by done.
    rewrite !bool_decide_eq_true_2; [done|set_solver..].
  - rewrite !bool_decide_eq_false_2; [done|set_solver..].
Qed.

Lemma ports_renamed_renamable changed cnd old_id l h h1 p port1 :
  _id cnd ≠ old_id → same_shape h h1 →
  ports_renamed changed cnd old_id l h h1 →
  (∀ port, port_at h p = Ok port → renamable changed cnd old_id p port) →
  port_at h1 p = Ok port1 → renamable changed cnd old_id p port1.
Proof.
  intros Hne Hshape Hren Hp Hp1.
  destruct (same_shape_port_at _ _ _ _ Hshape Hp1) as [port Hport].
  rewrite (Hren _ _ Hport) in Hp1. injection Hp1 as <-.
  destruct (bool_decide (p ∈ l)); [apply renamable_renamed; auto|auto].
Qed.

(** One call of [update_source_node_id]. *)
Lemma update_source_node_id_run g p port changed cnd old_id :
  port_at g p = Ok port → nodes g !! changed = Some cnd →
  renamable changed cnd old_id p port →
  ∃ g', update_source_node_id p changed old_id g = (Ok (), g')
    ∧ same_shape g g'
    ∧ port_at g' p = Ok (renamed changed cnd old_id port)
    ∧ ∀ q, q ≠ p → port_at g' q = port_at g q.
Proof.
  intros Hport Hcnd Hok. unfold update_source_node_id, renamed, renamable in *.
  unfold mbind at 1, M_bind at 1. rewrite (get_port_run _ _ _ Hport).
  destruct (_source_ref port) as [[? ?|i name]|]; [done| |].
  - unfold mbind at 1, M_bind at 1. cbn [query ref_node_id].
    destruct (decide (i = old_id)) as [Hi|Hi].
    + unfold mbind at 1, M_bind at 1. cbn [query ref_port_name].
      unfold mbind at 1, M_bind at 1. rewrite (get_node_run _ _ _ Hcnd).
      destruct (find_port changed cnd name) as [q|] eqn:Hfind.
      * destruct (find_port_port_at g _ _ _ _ Hcnd Hfind) as [Hq [x Hx]].
        assert (q ≠ p) as Hne by (intros ->; by apply Hok).
        destruct (set_source_spec g p q port x Hport Hne Hx)
          as (g' & qnd & Hrun & Hqnd & Hshape & Hp & Hothers).
        exists g'. split; [done|]. split; [done|]. split; [|done].
        rewrite Hp, (find_port_name _ _ _ _ Hfind). rewrite Hq in Hqnd. by simplify_eq.
      * apply (set_source_none_spec g p port Hport).
    + exists g. split; [done|]. split; [done|]. done.
  - exists g. split; [done|]. split; [done|]. done.
Qed.

(** The loop over the ports of a node. *)
Lemma rename_loop changed cnd old_id (ports : list port_ref) : ∀ g,
  _id cnd ≠ old_id →
  (∃ cnd', nodes g !! changed = Some cnd' ∧ like cnd cnd') →
  (∀ p, p ∈ ports → ∃ port, port_at g p = Ok port ∧ renamable changed cnd old_id p port) →
  ∃ g', for_each ports (λ port, update_source_node_id port changed old_id) g = (Ok (), g')
    ∧ same_shape g g'
    ∧ ports_renamed changed cnd old_id ports g g'.
Proof.
  induction ports as [|p rest IH]; intros g Hne (cnd' & Hcnd & Hlike) Hports.
  - exists g. split; [done|]. split; [done|]. apply ports_renamed_nil.
  - destruct (Hports p) as (port & Hport & Hok); [left|].
    destruct (update_source_node_id_run g p port changed cnd' old_id Hport Hcnd)
      as (g1 & Hrun1 & Hshape1 & Hp1 & Hothers1); [by eapply renamable_like|].
    rewrite (renamed_like _ _ _ _ _ Hlike) in Hp1.
    assert (ports_renamed changed cnd old_id [p] g g1) as Hren1.
    { intros q x Hq. destruct (decide (q = p)) as [->|Hqp].
      - rewrite bool_decide_eq_true_2 by set_solver. congruence.
      - rewrite bool_decide_eq_false_2 by set_solver. rewrite <- Hq. by apply Hothers1. }
    destruct (IH g1 Hne) as (g' & Hrun & Hshape & Hren).
    { destruct (same_shape_node _ _ _ _ Hshape1 Hcnd) as (cnd1 & Hcnd1 & He).
      exists cnd1. split; [done|]. eapply like_trans; [done|]. by apply like_erase. }
    { intros p' Hp'.
      destruct (Hports p') as (port' & Hport' & Hok'); [by right|].
      pose proof (Hren1 _ _ Hport') as Hp1'. eexists. split; [exact Hp1'|].
      destruct (bool_decide (p' ∈ [p])); [by apply renamable_renamed|done]. }
    exists g'. split; [|split].
    + cbn [for_each]. unfold mbind, M_bind. by rewrite Hrun1.
    + by eapply same_shape_trans.
    + change (p :: rest) with ([p] ++ rest). by eapply ports_renamed_app.
Qed.

Lemma node_rename_run g n ndn changed cnd old_id :
  _id cnd ≠ old_id →
  nodes g !! n = Some ndn →
  (∃ cnd', nodes g !! changed = Some cnd' ∧ like cnd cnd') →
  (∀ p port, p ∈ all_ports n ndn → port_at g p = Ok port → renamable changed cnd old_id p port) →
  ∃ g', node_update_sources_node_id n changed old_id g = (Ok (), g')
    ∧ same_shape g g'
    ∧ ports_renamed changed cnd old_id (all_ports n ndn) g g'.
Proof.
  intros Hne Hn Hcnd Hok. unfold node_update_sources_node_id.
  unfold mbind, M_bind. rewrite (get_node_run _ _ _ Hn).
  apply rename_loop; [done|done|].
  intros p Hp. destruct (all_ports_port_at g n ndn p Hn Hp) as [port Hport].
  exists port. split; [done|]. by eapply Hok.
Qed.

Lemma steps_rename_run changed cnd old_id (steps : list nat) : ∀ g,
  _id cnd ≠ old_id →
  (∀ s, s ∈ steps → is_Some (nodes g !! s)) →
  (∃ cnd', nodes g !! changed = Some cnd' ∧ like cnd cnd') →
  (∀ p port, p ∈ concat (ports_at g <$> steps) → port_at g p = Ok port →
     renamable changed cnd old_id p port) →
  ∃ g', for_each steps (λ step, node_update_sources_node_id step changed old_id) g = (Ok (), g')
    ∧ same_shape g g'
    ∧ ports_renamed changed cnd old_id (concat (ports_at g <$> steps)) g g'.
Proof.
  induction steps as [|s rest IH]; intros g Hne Hsteps (cnd' & Hcnd & Hlike) Hok.
  - exists g. split; [done|]. split; [done|]. apply ports_renamed_nil.
  - destruct (Hsteps s) as [nds Hs]; [left|].
    rewrite fmap_cons in *. cbn [concat] in *.
    assert (ports_at g s = all_ports s nds) as Hports by (unfold ports_at; by rewrite Hs).
    rewrite Hports in *.
    destruct (node_rename_run g s nds changed cnd old_id Hne Hs)
      as (g1 & Hrun1 & Hshape1 & Hren1); [by eauto| |].
    { intros p port Hp. apply Hok. apply elem_of_app. by left. }
    assert (ports_at g1 <$> rest = ports_at g <$> rest) as Hrest.
    { apply list_fmap_ext. intros _ x _. by apply same_shape_ports_at. }
    destruct (IH g1 Hne) as (g' & Hrun & Hshape & Hren).
    { intros s' Hs'. destruct (Hsteps s') as [x Hx]; [by right|].
      destruct (same_shape_node _ _ _ _ Hshape1 Hx) as (x' & Hx' & _). eauto. }
    { destruct (same_shape_node _ _ _ _ Hshape1 Hcnd) as (cnd1 & Hcnd1 & He).
      exists cnd1. split; [done|]. eapply like_trans; [done|]. by apply like_erase. }
    { rewrite Hrest. intros p port1 Hp Hp1.
      eapply ports_renamed_renamable; [done|exact Hshape1|exact Hren1| |exact Hp1].
      intros port. apply Hok. apply elem_of_app. by right. }
    exists g'. split; [|split].
    + cbn [for_each]. unfold mbind, M_bind. by rewrite Hrun1.
    + by eapply same_shape_trans.
    + rewrite Hrest in Hren. by eapply ports_renamed_app.
Qed.

Lemma ports_at_insert h n nd nd' s :
  nodes h !! n = Some nd →
  _inputs nd' = _inputs nd → _outputs nd' = _outputs nd →
  ports_at (Heap (<[n := nd']> (nodes h)) (metas h)) s = ports_at h s.
Proof.
  intros Hnd Hi Ho. unfold ports_at. cbn [nodes].
  destruct (decide (s = n)) as [->|Hne].
  - rewrite list_lookup_insert_eq by by eapply lookup_lt_Some. rewrite Hnd.
    unfold all_ports, input_ports, output_ports. by rewrite Hi, Ho.
  - by rewrite list_lookup_insert_ne.
Qed.

Lemma root_node_loop_insert h n nd nd' : ∀ fuel m,
  nodes h !! n = Some nd → parent_node nd' = parent_node nd →
  root_node_loop fuel (Heap (<[n := nd']> (nodes h)) (metas h)) m = root_node_loop fuel h m.
Proof.
  induction fuel as [|fuel IH]; intros m Hnd Hparent; [done|].
  cbn [root_node_loop]. unfold node_at. munfold.
  change (nodes (Heap (<[n := nd']> (nodes h)) (metas h)) !! m)
    with (<[n := nd']> (nodes h) !! m).
  destruct (decide (m = n)) as [->|Hne].
  - rewrite list_lookup_insert_eq by by eapply lookup_lt_Some. rewrite Hnd, Hparent.
    destruct (parent_node nd); [by apply IH|done].
  - rewrite list_lookup_insert_ne by done.
    destruct (nodes h !! m) as [x|]; [|done].
    destruct (parent_node x); [by apply IH|done].
Qed.

Lemma same_shape_insert g g1 n x x1 :
  same_shape g g1 → erase_node x = erase_node x1 →
  same_shape (Heap (<[n := x]> (nodes g)) (metas g)) (Heap (<[n := x1]> (nodes g1)) (metas g1)).
Proof.
  unfold same_shape, erase. cbn [nodes metas]. intros [= Hn Hm] He.
  by rewrite !list_fmap_insert, Hn, Hm, He.
Qed.

Lemma erase_node_with_steps x y d :
  erase_node x = erase_node y →
  erase_node (with_steps x (_steps x) d) = erase_node (with_steps y (_steps y) d).
Proof.
  intros H. unfold erase_node in H. injection H as E1 E2 E3 E4 E5 E6 E7 E8 E9.
  unfold erase_node, with_steps.
  cbn [cls _id _op_meta_info _persistent _inputs _outputs _parent_node _steps _steps_dict].
  by rewrite E1, E2, E3, E4, E5, E6, E7, E8.
Qed.

(** X23.  [set_id] with a new, non-empty id on a node whose root is [root],
    when every port of the root and of its steps has no reference or a
    resolved one (and none would be bound to itself): the call returns;
    the node bears the new id and, if the root is a workflow that knew a
    step under the old id, the step lookup finds the node under the new id
    and nothing under the old one; every port of the root and of its steps
    whose reference names the old id is bound to the port of that name of
    the renamed node, with a reference to the new id, or is left without
    source when the renamed node has no such port; no other port changes.
    References are matched by the id alone, whatever node they were
    resolved to. *)
Theorem set_id_renames_references (h : heap) (self root : nat) (nd rnd : Node)
    (node_id : string)
    (Hnd : nodes h !! self = Some nd)
    (Hgiven : node_id ≠ "")
    (Hnew : node_id ≠ _id nd)
    (Hroot : root_node h self = Ok root)
    (Hrnd : nodes h !! root = Some rnd)
    (Hsteps : ∀ s, s ∈ _steps rnd → is_Some (nodes h !! s))
    (Hrefs : ∀ p port, p ∈ tree_ports h root → port_at h p = Ok port →
               renamable self (with_id nd node_id) (_id nd) p port) :
  ∃ h', set_id self node_id h = (Ok (), h')
    ∧ same_shape (with_new_id h self root node_id) h'
    ∧ ports_renamed self (with_id nd node_id) (_id nd) (tree_ports h root) h h'
    ∧ (cls rnd = Workflow → is_Some (_steps_dict rnd !! _id nd) →
         find_node h' root node_id = Ok (Some self) ∧ find_node h' root (_id nd) = Ok None).
Proof.
  set (cnd := with_id nd node_id). set (old_id := _id nd).
  set (h0 := Heap (<[self := cnd]> (nodes h)) (metas h)).
  assert (_id cnd ≠ old_id) as Hne by done.
  assert (self < length (nodes h))%nat as Hlt by by eapply lookup_lt_Some.
  assert (nodes h0 !! self = Some cnd) as Hcnd0.
  { unfold h0. cbn [nodes]. by apply list_lookup_insert_eq. }
  assert (∀ q, port_at h0 q = port_at h q) as Hports0.
  { intros q. by apply (port_at_insert h self nd cnd). }
  assert (∀ s, ports_at h0 s = ports_at h s) as Hat0.
  { intros s. by apply (ports_at_insert h self nd cnd). }
  assert (root_node h0 self = Ok root) as Hroot0.
  { unfold root_node in *. unfold h0 at 1. cbn [nodes]. rewrite length_insert.
    by rewrite (root_node_loop_insert h self nd cnd). }
  (* the root after the id was set *)
  assert (∃ rnd0, nodes h0 !! root = Some rnd0 ∧ cls rnd0 = cls rnd
                  ∧ _steps rnd0 = _steps rnd ∧ _steps_dict rnd0 = _steps_dict rnd
                  ∧ all_ports root rnd0 = all_ports root rnd) as
    (rnd0 & Hrnd0 & Hcls0 & Hst0 & Hsd0 & Hall0).
  { destruct (decide (root = self)) as [->|Hrs].
    - exists cnd. split; [done|]. by simplify_eq.
    - exists rnd. split; [|done]. unfold h0. cbn [nodes]. by rewrite list_lookup_insert_ne. }
  assert (with_new_id h self root node_id
          = Heap (<[root := rekeyed rnd0 old_id node_id self]> (nodes h0)) (metas h)) as Hstore.
  { unfold with_new_id. rewrite Hnd. fold cnd. cbv zeta.
    change (<[self := cnd]> (nodes h)) with (nodes h0). by rewrite Hrnd0. }
  assert (tree_ports h root
          = all_ports root rnd0 ++ match cls rnd0 with
                                   | Workflow => concat (ports_at h0 <$> _steps rnd0)
                                   | _ => []
                                   end) as Htree.
  { unfold tree_ports. rewrite Hrnd, Hall0, Hcls0, Hst0. f_equal.
    destruct (cls rnd); try done. f_equal. apply list_fmap_ext. intros _ s _. by rewrite Hat0. }
  assert (∀ p port, p ∈ tree_ports h root → port_at h0 p = Ok port →
            renamable self cnd old_id p port) as Hrefs0.
  { intros p port Hp. rewrite Hports0. by apply Hrefs. }
  (* the ports of the root *)
  destruct (node_rename_run h0 root rnd0 self cnd old_id Hne Hrnd0)
    as (h1 & Hrun1 & Hshape1 & Hren1).
  { exists cnd. split; [done|]. done. }
  { intros p port Hp. apply Hrefs0. rewrite Htree. apply elem_of_app. by left. }
  destruct (same_shape_node _ _ _ _ Hshape1 Hrnd0) as (rnd1 & Hrnd1 & He1).
  destruct (same_shape_node _ _ _ _ Hshape1 Hcnd0) as (cnd1 & Hcnd1 & Hec1).
  pose proof He1 as Hfields. unfold erase_node in Hfields.
  injection Hfields as Hcls1 _ _ _ _ _ _ Hst1 Hsd1.
  assert (_id cnd1 = node_id) as Hid1.
  { unfold erase_node in Hec1. by injection Hec1. }
  unfold set_id. rewrite (proj2 (negb_false_iff _)).
  2:{ unfold truthy_str. by rewrite bool_decide_eq_false_2. }
  unfold mbind at 1, M_bind at 1. rewrite (get_node_run _ _ _ Hnd).
  rewrite decide_False by done.
  unfold mbind at 1, M_bind at 1. unfold put_node at 1, modify at 1. fold cnd. fold h0.
  unfold mbind at 1, M_bind at 1. unfold query at 1. rewrite Hroot0.
  unfold update_sources_node_id.
  unfold mbind at 1, M_bind at 1. rewrite (get_node_run _ _ _ Hrnd0).
  change (_id nd) with old_id.
  destruct (cls rnd0) eqn:Hc0.
  2-6: (exists h1; split; [exact Hrun1|]; split; [|split];
    [ rewrite Hstore; unfold rekeyed; rewrite Hc0;
      eapply same_shape_trans; [|exact Hshape1];
      unfold same_shape, erase; cbn [nodes metas]; f_equal;
      by rewrite list_insert_id
    | rewrite Htree, app_nil_r; intros q port Hq; apply Hren1; by rewrite Hports0
    | rewrite <- Hcls0; done ]).
  (* a workflow: the step lookup, then the ports of the steps *)
  change (_id nd) with old_id.
  unfold mbind at 1, M_bind at 1. rewrite Hrun1.
  unfold mbind at 1, M_bind at 1. rewrite (get_node_run _ _ _ Hrnd1).
  set (rnd2 := rekeyed rnd1 old_id node_id self).
  set (h2 := Heap (<[root := rnd2]> (nodes h1)) (metas h1)).
  assert (_inputs rnd2 = _inputs rnd1 ∧ _outputs rnd2 = _outputs rnd1) as [Hi2 Ho2].
  { unfold rnd2, rekeyed. destruct (cls rnd1); try done.
    by destruct (_steps_dict rnd1 !! old_id). }
  assert ((match _steps_dict rnd1 !! old_id with
           | Some _ =>
               changed ← get_node self;
               put_node root
                 (with_steps rnd1 (_steps rnd1)
                    (<[_id changed := self]> (delete old_id (_steps_dict rnd1))))
           | None => mret ()
           end) h1 = (Ok (), h2)) as Hrekey.
  { unfold h2, rnd2, rekeyed. rewrite Hcls1.
    destruct (_steps_dict rnd1 !! old_id).
    - unfold mbind, M_bind. rewrite (get_node_run _ _ _ Hcnd1), Hid1. done.
    - unfold mret, M_ret. f_equal. destruct h1 as [ns ms]. cbn [nodes metas] in *.
      f_equal. symmetry. by apply list_insert_id. }
  unfold mbind at 1, M_bind at 1. rewrite Hrekey.
  assert (∀ q, port_at h2 q = port_at h1 q) as Hports2.
  { intros q. by apply (port_at_insert h1 root rnd1 rnd2). }
  assert (∀ s, ports_at h2 s = ports_at h1 s) as Hat2.
  { intros s. by apply (ports_at_insert h1 root rnd1 rnd2). }
  assert (ports_at h2 <$> _steps rnd1 = ports_at h0 <$> _steps rnd0) as Hsteps2.
  { rewrite Hst1. apply list_fmap_ext. intros _ s _.
    rewrite Hat2. by apply same_shape_ports_at. }
  assert (∀ n x, nodes h1 !! n = Some x → ∃ y, nodes h2 !! n = Some y ∧ like x y) as Hnodes2.
  { intros n x Hx. unfold h2. cbn [nodes]. destruct (decide (n = root)) as [->|Hnr].
    - exists rnd2. rewrite list_lookup_insert_eq by by eapply lookup_lt_Some.
      split; [done|]. simplify_eq. unfold like. rewrite Hi2, Ho2. split; [|done].
      unfold rnd2, rekeyed. destruct (cls rnd1); try done.
      by destruct (_steps_dict rnd1 !! old_id).
    - exists x. rewrite list_lookup_insert_ne by done. done. }
  destruct (steps_rename_run self cnd old_id (_steps rnd1) h2 Hne)
    as (h3 & Hrun3 & Hshape3 & Hren3).
  { intros s Hs. rewrite Hst1, Hst0 in Hs.
    destruct (Hsteps s Hs) as [x Hx].
    assert (∃ x0, nodes h0 !! s = Some x0) as [x0 Hx0].
    { unfold h0. cbn [nodes]. destruct (decide (s = self)) as [->|Hss].
      - rewrite list_lookup_insert_eq by done. eauto.
      - rewrite list_lookup_insert_ne by done. eauto. }
    destruct (same_shape_node _ _ _ _ Hshape1 Hx0) as (x1 & Hx1 & _).
    destruct (Hnodes2 _ _ Hx1) as (x2 & Hx2 & _). eauto. }
  { destruct (Hnodes2 _ _ Hcnd1) as (cnd2 & Hcnd2 & Hlike2).
    exists cnd2. split; [done|]. eapply like_trans; [|exact Hlike2]. by apply like_erase. }
  { rewrite Hsteps2. intros p port2 Hp. rewrite Hports2. intros Hp1.
    eapply ports_renamed_renamable; [done|exact Hshape1|exact Hren1| |exact Hp1].
    intros port. apply Hrefs0. rewrite Htree. apply elem_of_app. by right. }
  exists h3. split; [exact Hrun3|]. split; [|split].
  - eapply same_shape_trans; [|exact Hshape3]. rewrite Hstore. unfold h2.
    change (metas h) with (metas h0).
    apply (same_shape_insert h0 h1); [exact Hshape1|].
    unfold rnd2, rekeyed. rewrite Hcls1, Hsd1, Hc0.
    destruct (_steps_dict rnd0 !! old_id); [|symmetry; exact He1].
    apply erase_node_with_steps. symmetry. exact He1.
  - rewrite Htree, <- Hsteps2.
    eapply ports_renamed_app; [done| |].
    + intros q port Hq. apply Hren1. by rewrite Hports0.
    + intros q port1 Hq1. apply Hren3. by rewrite Hports2.
  - intros _ [x Hx].
    assert (∃ rnd3, nodes h3 !! root = Some rnd3 ∧ erase_node rnd3 = erase_node rnd2)
      as (rnd3 & Hrnd3 & He3).
    { apply (same_shape_node h2 h3); [done|]. unfold h2. cbn [nodes].
      apply list_lookup_insert_eq. by eapply lookup_lt_Some. }
    unfold erase_node in He3. injection He3 as Hcls3 _ _ _ _ _ _ _ Hsd3.
    assert (_steps_dict rnd2 = <[node_id := self]> (delete old_id (_steps_dict rnd))) as Hsd2.
    { unfold rnd2, rekeyed. rewrite Hcls1, Hsd1, Hsd0. fold old_id in Hx.
      rewrite Hx. done. }
    assert (cls rnd2 = Workflow) as Hcls2.
    { unfold rnd2, rekeyed. rewrite Hcls1.
      by destruct (_steps_dict rnd1 !! old_id). }
    unfold find_node, node_at. munfold. rewrite Hrnd3. cbn.
    rewrite Hcls3, Hcls2, Hsd3, Hsd2.
    rewrite lookup_insert_eq, lookup_insert_ne, lookup_delete_eq by done. done.
Qed.

Lemma set_id_renames_references_witness :
  ∃ h', set_id 1 "src" rename_store = (Ok (), h')
    ∧ same_shape (with_new_id rename_store 1 0 "src") h'
    ∧ ports_renamed 1 (with_id (a_step 1 "a" [] (unbound_ports ["return"]) (Some 0%nat)) "src")
        "a" (tree_ports rename_store 0) rename_store h'
    ∧ (Workflow = Workflow → is_Some (list_to_map (M := gmap string nat)
                                         [("a", 1%nat); ("b", 2%nat)] !! "a") →
         find_node h' 0 "src" = Ok (Some 1%nat) ∧ find_node h' 0 "a" = Ok None).
Proof.
  apply (set_id_renames_references rename_store 1 0
           (a_step 1 "a" [] (unbound_ports ["return"]) (Some 0%nat))
           (a_workflow 0 "wf" [] [] [("a", 1%nat); ("b", 2%nat)]) "src");
    [reflexivity|discriminate|discriminate|reflexivity|reflexivity| |].
  - intros s Hs. cbn in Hs. apply elem_of_cons in Hs as [->|Hs]; [by eexists|].
    apply list_elem_of_singleton in Hs as ->. by eexists.
  - intros p port Hp. cbn in Hp.
    repeat (apply elem_of_cons in Hp as [->|Hp]; [intros [= <-]; cbv; try done; intros _ [=]|]).
    by apply elem_of_nil in Hp.
Defined.

(** ** Workflow JSON that is rejected *)

Section rejected_json.
Context (type_from_json : pyval → pyval → option pyval).
Context (hex_id : nat → string).
Context (new_expression_op : OpMetaInfo → string → OpMetaInfo).
Context (new_subprocess_op : OpMetaInfo → string → subprocess_args → OpMetaInfo).
Context (load : string → list (string * nat) → M heap nat).
Context (header_can_cache : list (string * pyval) → bool).

Local Abbreviation step_of_json' :=
  (step_of_json type_from_json hex_id new_expression_op new_subprocess_op load
     header_can_cache).
Local Abbreviation steps_of_json' :=
  (steps_of_json type_from_json hex_id new_expression_op new_subprocess_op load
     header_can_cache).

(** A class whose key the JSON lacks, or holds [None] under, does not
    recognise the step. *)
Lemma step_from_json_dict_null c d registry h :
  present (dict_get (match c with
                     | COpStep => "op"
                     | CWorkflowStep => "workflow"
                     | CExpressionStep => "expression"
                     | CNoOpStep => "no_op"
                     | CSubProcessStep => "command"
                     end) d) = None →
  step_from_json_dict type_from_json hex_id new_expression_op new_subprocess_op load
    header_can_cache c (VDict d) registry h = (Ok None, h).
Proof.
  intros Hget. unfold step_from_json_dict, new_step_from_json_dict.
  destruct c; cbn [json_get];
    unfold new_op_step, new_workflow_step, new_expression_step, new_no_op_step,
      new_sub_process_step; munfold; cbn [json_get]; by rewrite Hget.
Qed.

Lemma step_of_json_unknown d registry h :
  (∀ key, key ∈ step_keys → present (dict_get key d) = None) →
  step_of_json' step_classes (VDict d) registry h = (Ok None, h).
Proof.
  intros Hkeys. unfold step_classes. cbn [step_of_json]. unfold mbind, M_bind.
  rewrite !step_from_json_dict_null; [done|apply Hkeys; unfold step_keys; set_solver..].
Qed.

Lemma steps_of_json_unknown (before : list pyval) d after registry : ∀ h steps h',
  (∀ key, key ∈ step_keys → present (dict_get key d) = None) →
  steps_of_json' before registry h = (Ok steps, h') →
  steps_of_json' (before ++ VDict d :: after) registry h
    = (Raise (ValueError UnknownStepKind), h').
Proof.
  induction before as [|x before IH]; intros h steps h' Hkeys Hrun.
  - cbn [steps_of_json] in Hrun. munfold. injection Hrun as _ <-.
    cbn [app steps_of_json]. unfold mbind, M_bind.
    by rewrite step_of_json_unknown.
  - cbn [app steps_of_json] in *. unfold mbind, M_bind in *.
    destruct (step_of_json' step_classes x registry h) as [[[step|]|e] h1]; try done.
    destruct (steps_of_json' before registry h1) as [[tail|e] h2] eqn:Htail; [|done].
    munfold. injection Hrun as _ <-. by rewrite (IH _ _ _ Hkeys Htail).
Qed.

End rejected_json.

(** X24.  [Workflow.from_json_dict] rejects a JSON object without
    ["qualified_name"] (absent or [None]) with a [ValueError] before anything
    is created.  It rejects with the "unknown type" [ValueError] a step
    object that has none of the keys ["op"], ["workflow"], ["expression"],
    ["no_op"] and ["command"] (or [None] under them), whatever else the
    object holds: the steps before it have been read and stay in the store,
    the steps after it are never looked at, and no workflow is created. *)
Theorem from_json_dict_rejects
    (type_from_json : pyval → pyval → option pyval) (hex_id : nat → string)
    (new_expression_op : OpMetaInfo → string → OpMetaInfo)
    (new_subprocess_op : OpMetaInfo → string → subprocess_args → OpMetaInfo)
    (load : string → list (string * nat) → M heap nat)
    (header_can_cache : list (string * pyval) → bool)
    (d : list (string * pyval)) (registry : list (string * nat)) (h : heap) :
  let read := from_json_dict type_from_json hex_id new_expression_op new_subprocess_op load
                header_can_cache in
  (present (dict_get "qualified_name" d) = None →
     read (VDict d) registry h = (Raise (ValueError MissingField), h))
  ∧ ∀ qualified_name hdr ins outs before bad after steps h',
      dict_get "qualified_name" d = Some (VStr qualified_name) →
      header_of_json (default (VDict []) (dict_get "header" d)) = Ok hdr →
      json_items (default (VDict []) (dict_get "inputs" d)) ≫= json_dict_to_object_dict
        = Ok ins →
      json_items (default (VDict []) (dict_get "outputs" d)) ≫= json_dict_to_object_dict
        = Ok outs →
      dict_get "steps" d = Some (VList (before ++ VDict bad :: after)) →
      (∀ key, key ∈ step_keys → present (dict_get key bad) = None) →
      steps_of_json type_from_json hex_id new_expression_op new_subprocess_op load
        header_can_cache before registry
        (Heap (nodes h) (metas h ++ [new_meta header_can_cache qualified_name hdr ins outs]))
        = (Ok steps, h') →
      read (VDict d) registry h = (Raise (ValueError UnknownStepKind), h').
Proof.
  cbv zeta. split.
  - intros Hqn. unfold from_json_dict. munfold. cbn [json_get]. by rewrite Hqn.
  - intros qn hdr ins outs before bad after steps h' Hqn Hhdr Hins Houts Hsteps Hkeys Hrun.
    unfold from_json_dict. unfold mbind at 1, M_bind at 1, query at 1. cbn [json_get].
    rewrite Hqn. cbn [present].
    unfold mbind at 1, M_bind at 1, query at 1.
    unfold mbind at 1, M_bind at 1, query at 1.
    unfold mbind at 1, M_bind at 1, query at 1.
    unfold mbind at 1, M_bind at 1, query at 1. cbn [json_get].
    unfold mbind at 1, M_bind at 1, query at 1. rewrite Hins.
    unfold mbind at 1, M_bind at 1, query at 1. rewrite Houts.
    unfold mbind at 1, M_bind at 1, query at 1. rewrite Hhdr.
    unfold mbind at 1, M_bind at 1, alloc_meta at 1.
    unfold mbind at 1, M_bind at 1. rewrite Hsteps. cbn [default].
    cbn [id].
    by rewrite (steps_of_json_unknown _ _ _ _ _ _ before bad after registry _ steps h').
Qed.

Lemma from_json_dict_rejects_witness :
  load_workflow (VDict [("qualified_name", VStr "wf");
                        ("steps", VList [VDict [("id", VStr "s"); ("inputs", VDict [])]])])
    [] (Heap [] [])
  = (Raise (ValueError UnknownStepKind), Heap [] [new_meta always_can_cache "wf" [] [] []]).
Proof.
  refine (proj2 (from_json_dict_rejects no_conversion no_hex_id same_meta same_meta_args
                   no_load always_can_cache
                   [("qualified_name", VStr "wf");
                    ("steps", VList [VDict [("id", VStr "s"); ("inputs", VDict [])]])]
                   [] (Heap [] []))
            "wf" [] [] [] [] [("id", VStr "s"); ("inputs", VDict [])] [] []
            (Heap [] [new_meta always_can_cache "wf" [] [] []])
            eq_refl eq_refl eq_refl eq_refl eq_refl _ eq_refl).
  intros key Hkey. unfold step_keys in Hkey.
  repeat (apply elem_of_cons in Hkey as [->|Hkey]; [reflexivity|]).
  by apply elem_of_nil in Hkey.
Defined.
